(** * AVIOS: a tick-driven multi-queue scheduler simulator

    Shallow embedding of [src/scheduler/task.py], [src/scheduler/linux_baseline.py],
    [src/scheduler/ai_scheduler.py] and the driver loop of
    [src/scheduler/ai_simulator.py].

    Conventions of the embedding.
    - Python [float]s are modelled as exact rationals ([Q]); Python [int]s as [Z].
      [int(x)] on a float truncates towards zero ([py_int]).  The numbers of
      the model are finite: a row whose [se.vruntime] or [se.load.weight] is
      NaN or infinite is outside it, and [_cfs_pop_min] is modelled again on
      such values in the part "Floats that are not finite numbers", where it
      does not return.  Rounding is not modelled: about the vruntime
      arithmetic and the fairness index the file states orders and bounds that
      rounding keeps, not exact sums.
    - Python objects of class [Task] are shared, mutable and referenced from the
      queues, the cores and the two pid dictionaries.  The model keeps them in
      an object store ([objects], indexed by allocation order) and lets every
      container hold references ([ref]) into it.
    - [heapq] is modelled by its contract: the heap is a list kept sorted by the
      tuple order on [(vruntime snapshot, insertion counter)].  The counter is
      unique, so the comparison never reaches the later tuple components and
      the minimum is unique.
    - the input row (a pandas row turned into a dict) is a record with one
      optional field per column the scheduler reads; [None] is an absent key. *)

From Stdlib Require Import ZArith QArith Qabs Qround String Ascii List Lia Lqa DecimalString Sorted.
From stdpp Require Import list strings.

Open Scope Z_scope.

(** ** Python helpers *)

(** [int(x)] for a float [x]: truncation towards zero. *)
Definition py_int (x : Q) : Z := Z.quot (Qnum x) (Zpos (Qden x)).

(** [str(z)] for an integer. *)
Definition py_str_Z (z : Z) : string := NilZero.string_of_int (Z.to_int z).

Definition upper_ascii (c : ascii) : ascii :=
  let n := nat_of_ascii c in
  if (Nat.leb 97 n && Nat.leb n 122)%bool then ascii_of_nat (n - 32) else c.

(** [s.upper()] on ASCII text.  A character outside ASCII is left alone, where
    Python may map it to an ASCII letter (U+017F to S): a theorem that needs
    the upper-cased policy of a row to differ from a name assumes the policy
    to be ASCII text ([ascii_text]). *)
Fixpoint upper (s : string) : string :=
  match s with
  | EmptyString => EmptyString
  | String c s' => String (upper_ascii c) (upper s')
  end.

(** Every character of [s] is an ASCII character ([s.isascii()]). *)
Fixpoint ascii_text (s : string) : bool :=
  match s with
  | EmptyString => true
  | String c s' => (nat_of_ascii c <? 128)%nat && ascii_text s'
  end.

Definition Qltb (x y : Q) : bool :=
  match Qcompare x y with Lt => true | _ => false end.

Definition Qleb (x y : Q) : bool :=
  match Qcompare x y with Gt => false | _ => true end.

(** [max(a, b)] on floats. *)
Definition py_max (a b : Q) : Q := if Qltb a b then b else a.

(** [x or d] on a float: a zero is falsy. *)
Definition or_float (x d : Q) : Q := if Qeq_bool x 0 then d else x.

(** [x or d] on an int. *)
Definition or_int (x d : Z) : Z := if x =? 0 then d else x.

(** [x or d] on an optional string: [None] and the empty string are falsy. *)
Definition or_str (x : option string) (d : string) : string :=
  match x with
  | Some s => if String.eqb s "" then d else s
  | None => d
  end.

(** ** Data model *)

(** A reference to a task object: its index in the object store. *)
Abbreviation ref := nat (only parsing).

Inductive SchedClass := FIFO | RR | CFS | IDLE.
Inductive SubQueue := fifo_1 | rr_1 | cfs_1 | idle.
Inductive Event := ADMIT | ENQUEUE | DISPATCH | RUN | PREEMPT | COMPLETE.

Definition SchedClass_eqb (a b : SchedClass) : bool :=
  match a, b with
  | FIFO, FIFO | RR, RR | CFS, CFS | IDLE, IDLE => true
  | _, _ => false
  end.

Definition Event_eqb (a b : Event) : bool :=
  match a, b with
  | ADMIT, ADMIT | ENQUEUE, ENQUEUE | DISPATCH, DISPATCH
  | RUN, RUN | PREEMPT, PREEMPT | COMPLETE, COMPLETE => true
  | _, _ => false
  end.

(** One row of the simulator input table, as [Task.__init__] and [admit] read it.
    [f_other] carries the remaining columns, which only the classifier sees. *)
Record Features := {
  f_PID : option Z;
  f_Name : option string;
  f_se_sum_exec_runtime : option Q;
  f_Total_Time_Ticks : option Q;
  f_Arrival_Sec : option Q;
  f_se_vruntime : option Q;
  f_se_load_weight : option Q;
  f_Scheduling_Policy : option string;
  f_other : list (string * Q)
}.

(** [features.get(key, d)] *)
Definition get {A} (o : option A) (d : A) : A :=
  match o with Some x => x | None => d end.

(** The attributes of a [Task] object (task.py, [__init__]). *)
Record Task := {
  features : Features;
  pid : option Z;
  name : string;
  total_time : Z;
  remaining : Z;
  arrival_time : Z;
  resource_type : option string;
  interactivity : option string;
  priority_class : option string;
  execution_class : option string;
  subqueue_score : option Q;
  assigned_scheduler : option SchedClass;
  subqueue : option SubQueue;
  quantum : option Z;
  total_run : Z;
  first_start : option Z;
  completion_time : option Z;
  vruntime : Q;
  weight : Q;
  last_core : option nat;
  uid : string
}.

(** [Task.__init__]; [u] is the value drawn from [uuid.uuid4()]. *)
Definition Task_init (row : Features) (u : string) : Task :=
  let pid_ := f_PID row in
  let name_ := get (f_Name row)
                   ("T" ++ match pid_ with Some z => py_str_Z z | None => "None" end)%string in
  let sum_exec := get (f_se_sum_exec_runtime row) 0%Q in
  let total_ticks := get (f_Total_Time_Ticks row) 0%Q in
  let total_time_ := py_int (if Qltb 0 total_ticks then total_ticks else sum_exec) in
  {| features := row;
     pid := pid_;
     name := name_;
     total_time := total_time_;
     remaining := total_time_;
     arrival_time := py_int (get (f_Arrival_Sec row) 0%Q);
     resource_type := None;
     interactivity := None;
     priority_class := None;
     execution_class := None;
     subqueue_score := None;
     assigned_scheduler := None;
     subqueue := None;
     quantum := None;
     total_run := 0;
     first_start := None;
     completion_time := None;
     vruntime := get (f_se_vruntime row) 0%Q;
     weight := get (f_se_load_weight row) 1024%Q;
     last_core := None;
     uid := u |}.

(** Attribute assignment [task.x = v]: one setter per attribute the schedulers mutate. *)

Definition set_remaining (v : Z) (t : Task) : Task :=
  {| features := features t; pid := pid t; name := name t; total_time := total_time t;
     remaining := v; arrival_time := arrival_time t; resource_type := resource_type t;
     interactivity := interactivity t; priority_class := priority_class t;
     execution_class := execution_class t; subqueue_score := subqueue_score t;
     assigned_scheduler := assigned_scheduler t; subqueue := subqueue t; quantum := quantum t;
     total_run := total_run t; first_start := first_start t;
     completion_time := completion_time t; vruntime := vruntime t; weight := weight t;
     last_core := last_core t; uid := uid t |}.

Definition set_resource_type (v : option string) (t : Task) : Task :=
  {| features := features t; pid := pid t; name := name t; total_time := total_time t;
     remaining := remaining t; arrival_time := arrival_time t; resource_type := v;
     interactivity := interactivity t; priority_class := priority_class t;
     execution_class := execution_class t; subqueue_score := subqueue_score t;
     assigned_scheduler := assigned_scheduler t; subqueue := subqueue t; quantum := quantum t;
     total_run := total_run t; first_start := first_start t;
     completion_time := completion_time t; vruntime := vruntime t; weight := weight t;
     last_core := last_core t; uid := uid t |}.

Definition set_interactivity (v : option string) (t : Task) : Task :=
  {| features := features t; pid := pid t; name := name t; total_time := total_time t;
     remaining := remaining t; arrival_time := arrival_time t; resource_type := resource_type t;
     interactivity := v; priority_class := priority_class t;
     execution_class := execution_class t; subqueue_score := subqueue_score t;
     assigned_scheduler := assigned_scheduler t; subqueue := subqueue t; quantum := quantum t;
     total_run := total_run t; first_start := first_start t;
     completion_time := completion_time t; vruntime := vruntime t; weight := weight t;
     last_core := last_core t; uid := uid t |}.

Definition set_priority_class (v : option string) (t : Task) : Task :=
  {| features := features t; pid := pid t; name := name t; total_time := total_time t;
     remaining := remaining t; arrival_time := arrival_time t; resource_type := resource_type t;
     interactivity := interactivity t; priority_class := v;
     execution_class := execution_class t; subqueue_score := subqueue_score t;
     assigned_scheduler := assigned_scheduler t; subqueue := subqueue t; quantum := quantum t;
     total_run := total_run t; first_start := first_start t;
     completion_time := completion_time t; vruntime := vruntime t; weight := weight t;
     last_core := last_core t; uid := uid t |}.

Definition set_execution_class (v : option string) (t : Task) : Task :=
  {| features := features t; pid := pid t; name := name t; total_time := total_time t;
     remaining := remaining t; arrival_time := arrival_time t; resource_type := resource_type t;
     interactivity := interactivity t; priority_class := priority_class t; execution_class := v;
     subqueue_score := subqueue_score t; assigned_scheduler := assigned_scheduler t;
     subqueue := subqueue t; quantum := quantum t; total_run := total_run t;
     first_start := first_start t; completion_time := completion_time t; vruntime := vruntime t;
     weight := weight t; last_core := last_core t; uid := uid t |}.

Definition set_subqueue_score (v : option Q) (t : Task) : Task :=
  {| features := features t; pid := pid t; name := name t; total_time := total_time t;
     remaining := remaining t; arrival_time := arrival_time t; resource_type := resource_type t;
     interactivity := interactivity t; priority_class := priority_class t;
     execution_class := execution_class t; subqueue_score := v;
     assigned_scheduler := assigned_scheduler t; subqueue := subqueue t; quantum := quantum t;
     total_run := total_run t; first_start := first_start t;
     completion_time := completion_time t; vruntime := vruntime t; weight := weight t;
     last_core := last_core t; uid := uid t |}.

Definition set_assigned_scheduler (v : option SchedClass) (t : Task) : Task :=
  {| features := features t; pid := pid t; name := name t; total_time := total_time t;
     remaining := remaining t; arrival_time := arrival_time t; resource_type := resource_type t;
     interactivity := interactivity t; priority_class := priority_class t;
     execution_class := execution_class t; subqueue_score := subqueue_score t;
     assigned_scheduler := v; subqueue := subqueue t; quantum := quantum t;
     total_run := total_run t; first_start := first_start t;
     completion_time := completion_time t; vruntime := vruntime t; weight := weight t;
     last_core := last_core t; uid := uid t |}.

Definition set_subqueue (v : option SubQueue) (t : Task) : Task :=
  {| features := features t; pid := pid t; name := name t; total_time := total_time t;
     remaining := remaining t; arrival_time := arrival_time t; resource_type := resource_type t;
     interactivity := interactivity t; priority_class := priority_class t;
     execution_class := execution_class t; subqueue_score := subqueue_score t;
     assigned_scheduler := assigned_scheduler t; subqueue := v; quantum := quantum t;
     total_run := total_run t; first_start := first_start t;
     completion_time := completion_time t; vruntime := vruntime t; weight := weight t;
     last_core := last_core t; uid := uid t |}.

Definition set_quantum (v : option Z) (t : Task) : Task :=
  {| features := features t; pid := pid t; name := name t; total_time := total_time t;
     remaining := remaining t; arrival_time := arrival_time t; resource_type := resource_type t;
     interactivity := interactivity t; priority_class := priority_class t;
     execution_class := execution_class t; subqueue_score := subqueue_score t;
     assigned_scheduler := assigned_scheduler t; subqueue := subqueue t; quantum := v;
     total_run := total_run t; first_start := first_start t;
     completion_time := completion_time t; vruntime := vruntime t; weight := weight t;
     last_core := last_core t; uid := uid t |}.

Definition set_total_run (v : Z) (t : Task) : Task :=
  {| features := features t; pid := pid t; name := name t; total_time := total_time t;
     remaining := remaining t; arrival_time := arrival_time t; resource_type := resource_type t;
     interactivity := interactivity t; priority_class := priority_class t;
     execution_class := execution_class t; subqueue_score := subqueue_score t;
     assigned_scheduler := assigned_scheduler t; subqueue := subqueue t; quantum := quantum t;
     total_run := v; first_start := first_start t; completion_time := completion_time t;
     vruntime := vruntime t; weight := weight t; last_core := last_core t; uid := uid t |}.

Definition set_first_start (v : option Z) (t : Task) : Task :=
  {| features := features t; pid := pid t; name := name t; total_time := total_time t;
     remaining := remaining t; arrival_time := arrival_time t; resource_type := resource_type t;
     interactivity := interactivity t; priority_class := priority_class t;
     execution_class := execution_class t; subqueue_score := subqueue_score t;
     assigned_scheduler := assigned_scheduler t; subqueue := subqueue t; quantum := quantum t;
     total_run := total_run t; first_start := v; completion_time := completion_time t;
     vruntime := vruntime t; weight := weight t; last_core := last_core t; uid := uid t |}.

Definition set_completion_time (v : option Z) (t : Task) : Task :=
  {| features := features t; pid := pid t; name := name t; total_time := total_time t;
     remaining := remaining t; arrival_time := arrival_time t; resource_type := resource_type t;
     interactivity := interactivity t; priority_class := priority_class t;
     execution_class := execution_class t; subqueue_score := subqueue_score t;
     assigned_scheduler := assigned_scheduler t; subqueue := subqueue t; quantum := quantum t;
     total_run := total_run t; first_start := first_start t; completion_time := v;
     vruntime := vruntime t; weight := weight t; last_core := last_core t; uid := uid t |}.

Definition set_vruntime (v : Q) (t : Task) : Task :=
  {| features := features t; pid := pid t; name := name t; total_time := total_time t;
     remaining := remaining t; arrival_time := arrival_time t; resource_type := resource_type t;
     interactivity := interactivity t; priority_class := priority_class t;
     execution_class := execution_class t; subqueue_score := subqueue_score t;
     assigned_scheduler := assigned_scheduler t; subqueue := subqueue t; quantum := quantum t;
     total_run := total_run t; first_start := first_start t;
     completion_time := completion_time t; vruntime := v; weight := weight t;
     last_core := last_core t; uid := uid t |}.

Definition set_weight (v : Q) (t : Task) : Task :=
  {| features := features t; pid := pid t; name := name t; total_time := total_time t;
     remaining := remaining t; arrival_time := arrival_time t; resource_type := resource_type t;
     interactivity := interactivity t; priority_class := priority_class t;
     execution_class := execution_class t; subqueue_score := subqueue_score t;
     assigned_scheduler := assigned_scheduler t; subqueue := subqueue t; quantum := quantum t;
     total_run := total_run t; first_start := first_start t;
     completion_time := completion_time t; vruntime := vruntime t; weight := v;
     last_core := last_core t; uid := uid t |}.

(** ** Scheduler state *)

(** A CFS heap entry, the tuple [(vruntime, counter, pid, task)]. *)
Record HeapEntry := {
  e_vr : Q;
  e_seq : nat;
  e_pid : option Z;
  e_task : ref
}.

(** [self.queues]: every scheduler class has exactly one subqueue, so
    [self.queues[sched][subq]] is the container of class [sched]. *)
Record Queues := {
  FIFO_fifo_1 : list ref;
  RR_rr_1 : list ref;
  CFS_cfs_1 : list HeapEntry;
  IDLE_idle : list ref
}.

(** [self.cores[cid]], the dict [{"task": ..., "time_left": ...}]. *)
Record Core := {
  core_task : option ref;
  time_left : Z
}.

(** One event-log row, as built by [_log]. *)
Record LogRow := {
  row_time : Z;
  row_event : Event;
  row_core : option nat;
  row_pid : option Z;
  row_name : string;
  row_assigned_scheduler : option SchedClass;
  row_subqueue : option SubQueue;
  row_remaining : Z;
  row_quantum : option Z;
  row_vruntime : Q;
  row_subqueue_score : option Q;
  row_reason : option string
}.

(** The attributes of a scheduler object ([__init__] of both classes), plus
    the object store of the tasks it references. *)
Record Sched := {
  num_cores : nat;
  rr_quantum : Z;
  cfs_base_slice : Q;
  insertion_counter : nat;
  seed : Z;
  core_priority_order : list (nat * list SchedClass);
  queues : Queues;
  cores : list Core;
  time : Z;
  logs : list LogRow;
  task_map : list (option Z * ref);
  completed_tasks : list (option Z * ref);
  context_switches : Z;
  objects : list Task
}.

Definition NICE0_WEIGHT : Q := 1024%Q.
Definition min_granularity : Z := 1.

Definition default_order : list SchedClass := [FIFO; RR; CFS; IDLE].

Definition empty_queues : Queues :=
  {| FIFO_fifo_1 := []; RR_rr_1 := []; CFS_cfs_1 := []; IDLE_idle := [] |}.

(** [__init__(num_cores, core_priority_order, rr_quantum, cfs_base_slice, seed)];
    an absent or empty [core_priority_order] is replaced by the default order
    on every core. *)
Definition Sched_init (n : nat) (order : option (list (nat * list SchedClass)))
    (rrq : Z) (slice : Q) (seed_ : Z) : Sched :=
  {| num_cores := n;
     rr_quantum := rrq;
     cfs_base_slice := slice;
     insertion_counter := 0;
     seed := seed_;
     core_priority_order :=
       match order with
       | Some (x :: o) => x :: o
       | _ => map (fun cid => (cid, default_order)) (seq 0 n)
       end;
     queues := empty_queues;
     cores := map (fun _ => {| core_task := None; time_left := 0 |}) (seq 0 n);
     time := 0;
     logs := [];
     task_map := [];
     completed_tasks := [];
     context_switches := 0;
     objects := [] |}.

(** A Python dict with insertion order: [d[k] = v] and [k in d] / [d[k]]. *)
Definition key_eqb (a b : option Z) : bool :=
  match a, b with
  | Some x, Some y => x =? y
  | None, None => true
  | _, _ => false
  end.

Fixpoint dict_set (k : option Z) (v : ref) (d : list (option Z * ref)) : list (option Z * ref) :=
  match d with
  | [] => [(k, v)]
  | (k', v') :: d' => if key_eqb k k' then (k, v) :: d' else (k', v') :: dict_set k v d'
  end.

Fixpoint dict_get (k : option Z) (d : list (option Z * ref)) : option ref :=
  match d with
  | [] => None
  | (k', v') :: d' => if key_eqb k k' then Some v' else dict_get k d'
  end.

(** Attribute assignment [self.x = v] on the scheduler. *)

Definition set_insertion_counter (v : nat) (s : Sched) : Sched :=
  {| num_cores := num_cores s; rr_quantum := rr_quantum s; cfs_base_slice := cfs_base_slice s;
     insertion_counter := v; seed := seed s; core_priority_order := core_priority_order s;
     queues := queues s; cores := cores s; time := time s; logs := logs s;
     task_map := task_map s; completed_tasks := completed_tasks s;
     context_switches := context_switches s; objects := objects s |}.

Definition set_queues (v : Queues) (s : Sched) : Sched :=
  {| num_cores := num_cores s; rr_quantum := rr_quantum s; cfs_base_slice := cfs_base_slice s;
     insertion_counter := insertion_counter s; seed := seed s;
     core_priority_order := core_priority_order s; queues := v; cores := cores s;
     time := time s; logs := logs s; task_map := task_map s;
     completed_tasks := completed_tasks s; context_switches := context_switches s;
     objects := objects s |}.

Definition set_cores (v : list Core) (s : Sched) : Sched :=
  {| num_cores := num_cores s; rr_quantum := rr_quantum s; cfs_base_slice := cfs_base_slice s;
     insertion_counter := insertion_counter s; seed := seed s;
     core_priority_order := core_priority_order s; queues := queues s; cores := v;
     time := time s; logs := logs s; task_map := task_map s;
     completed_tasks := completed_tasks s; context_switches := context_switches s;
     objects := objects s |}.

Definition set_time (v : Z) (s : Sched) : Sched :=
  {| num_cores := num_cores s; rr_quantum := rr_quantum s; cfs_base_slice := cfs_base_slice s;
     insertion_counter := insertion_counter s; seed := seed s;
     core_priority_order := core_priority_order s; queues := queues s; cores := cores s;
     time := v; logs := logs s; task_map := task_map s; completed_tasks := completed_tasks s;
     context_switches := context_switches s; objects := objects s |}.

Definition set_logs (v : list LogRow) (s : Sched) : Sched :=
  {| num_cores := num_cores s; rr_quantum := rr_quantum s; cfs_base_slice := cfs_base_slice s;
     insertion_counter := insertion_counter s; seed := seed s;
     core_priority_order := core_priority_order s; queues := queues s; cores := cores s;
     time := time s; logs := v; task_map := task_map s; completed_tasks := completed_tasks s;
     context_switches := context_switches s; objects := objects s |}.

Definition set_task_map (v : list (option Z * ref)) (s : Sched) : Sched :=
  {| num_cores := num_cores s; rr_quantum := rr_quantum s; cfs_base_slice := cfs_base_slice s;
     insertion_counter := insertion_counter s; seed := seed s;
     core_priority_order := core_priority_order s; queues := queues s; cores := cores s;
     time := time s; logs := logs s; task_map := v; completed_tasks := completed_tasks s;
     context_switches := context_switches s; objects := objects s |}.

Definition set_completed_tasks (v : list (option Z * ref)) (s : Sched) : Sched :=
  {| num_cores := num_cores s; rr_quantum := rr_quantum s; cfs_base_slice := cfs_base_slice s;
     insertion_counter := insertion_counter s; seed := seed s;
     core_priority_order := core_priority_order s; queues := queues s; cores := cores s;
     time := time s; logs := logs s; task_map := task_map s; completed_tasks := v;
     context_switches := context_switches s; objects := objects s |}.

Definition set_context_switches (v : Z) (s : Sched) : Sched :=
  {| num_cores := num_cores s; rr_quantum := rr_quantum s; cfs_base_slice := cfs_base_slice s;
     insertion_counter := insertion_counter s; seed := seed s;
     core_priority_order := core_priority_order s; queues := queues s; cores := cores s;
     time := time s; logs := logs s; task_map := task_map s;
     completed_tasks := completed_tasks s; context_switches := v; objects := objects s |}.

Definition set_objects (v : list Task) (s : Sched) : Sched :=
  {| num_cores := num_cores s; rr_quantum := rr_quantum s; cfs_base_slice := cfs_base_slice s;
     insertion_counter := insertion_counter s; seed := seed s;
     core_priority_order := core_priority_order s; queues := queues s; cores := cores s;
     time := time s; logs := logs s; task_map := task_map s;
     completed_tasks := completed_tasks s; context_switches := context_switches s;
     objects := v |}.

Definition set_FIFO_fifo_1 (v : list ref) (q : Queues) : Queues :=
  {| FIFO_fifo_1 := v; RR_rr_1 := RR_rr_1 q; CFS_cfs_1 := CFS_cfs_1 q; IDLE_idle := IDLE_idle q |}.

Definition set_RR_rr_1 (v : list ref) (q : Queues) : Queues :=
  {| FIFO_fifo_1 := FIFO_fifo_1 q; RR_rr_1 := v; CFS_cfs_1 := CFS_cfs_1 q; IDLE_idle := IDLE_idle q |}.

Definition set_CFS_cfs_1 (v : list HeapEntry) (q : Queues) : Queues :=
  {| FIFO_fifo_1 := FIFO_fifo_1 q; RR_rr_1 := RR_rr_1 q; CFS_cfs_1 := v; IDLE_idle := IDLE_idle q |}.

Definition set_IDLE_idle (v : list ref) (q : Queues) : Queues :=
  {| FIFO_fifo_1 := FIFO_fifo_1 q; RR_rr_1 := RR_rr_1 q; CFS_cfs_1 := CFS_cfs_1 q; IDLE_idle := v |}.

(** ** Utilities and queue operations (shared by both scheduler classes) *)

(** [_log(event_type, task, core, extra)]: every call site passes a task, so
    the row always carries the task columns; [extra] is the ["reason"] entry. *)
Definition _log (event_type : Event) (t : Task) (core : option nat)
    (extra : option string) (s : Sched) : Sched :=
  let row := {| row_time := time s;
                row_event := event_type;
                row_core := core;
                row_pid := pid t;
                row_name := name t;
                row_assigned_scheduler := assigned_scheduler t;
                row_subqueue := subqueue t;
                row_remaining := remaining t;
                row_quantum := quantum t;
                row_vruntime := vruntime t;
                row_subqueue_score := subqueue_score t;
                row_reason := extra |} in
  set_logs (logs s ++ [row]) s.

(** [all_queues_empty] also checks that no core is busy. *)
Definition all_queues_empty (s : Sched) : bool :=
  let q := queues s in
  match FIFO_fifo_1 q, RR_rr_1 q, CFS_cfs_1 q, IDLE_idle q with
  | [], [], [], [] => forallb (fun c => match core_task c with None => true | Some _ => false end)
                              (cores s)
  | _, _, _, _ => false
  end.

(** Tuple order of heap entries: floats first, then the insertion counter.
    A total order, as Python's is on finite floats; it is not with a NaN. *)
Definition entry_ltb (a b : HeapEntry) : bool :=
  match Qcompare (e_vr a) (e_vr b) with
  | Lt => true
  | Eq => Nat.ltb (e_seq a) (e_seq b)
  | Gt => false
  end.

(** [heapq.heappush]: insertion into the sorted list. *)
Fixpoint heappush (heap : list HeapEntry) (x : HeapEntry) : list HeapEntry :=
  match heap with
  | [] => [x]
  | y :: heap' => if entry_ltb x y then x :: y :: heap' else y :: heappush heap' x
  end.

(** [heapq.heappop]: the least entry and the rest. *)
Definition heappop (heap : list HeapEntry) : option (HeapEntry * list HeapEntry) :=
  match heap with
  | [] => None
  | x :: heap' => Some (x, heap')
  end.

(** [_cfs_insert(subq, task)] for the task object [t] stored at [r]. *)
Definition _cfs_insert (r : ref) (t : Task) (s : Sched) : Sched :=
  let entry := {| e_vr := vruntime t; e_seq := insertion_counter s;
                  e_pid := pid t; e_task := r |} in
  set_insertion_counter (S (insertion_counter s))
    (set_queues (set_CFS_cfs_1 (heappush (CFS_cfs_1 (queues s)) entry) (queues s)) s).

(** The validity test of [_cfs_pop_min]:
    [abs(float(task.vruntime) - float(vr)) < 1e-6], on finite numbers.  With a
    NaN or an infinity on either side Python's test is false ([float_close]). *)
Definition snapshot_valid (t : Task) (vr : Q) : bool :=
  Qltb (Qabs (vruntime t - vr)) 1e-6%Q.

Inductive pop_outcome :=
  | Returned (res : option ref) (heap : list HeapEntry) (counter : nat)
  | BadRef      (* an entry whose task is not in the object store *)
  | OutOfFuel.  (* the loop has not returned within the given number of iterations *)

(** The [while heap:] loop of [_cfs_pop_min], on the heap and the insertion
    counter it mutates; [fuel] bounds the number of iterations. *)
Fixpoint _cfs_pop_min_loop (fuel : nat) (objs : list Task) (heap : list HeapEntry)
    (counter : nat) : pop_outcome :=
  match fuel with
  | O => OutOfFuel
  | S fuel' =>
      match heappop heap with
      | None => Returned None heap counter
      | Some (e, heap') =>
          match objs !! e_task e with
          | None => BadRef
          | Some t =>
              if snapshot_valid t (e_vr e) then Returned (Some (e_task e)) heap' counter
              else
                let entry := {| e_vr := vruntime t; e_seq := counter;
                                e_pid := pid t; e_task := e_task e |} in
                _cfs_pop_min_loop fuel' objs (heappush heap' entry) (S counter)
          end
      end
  end.

(** [_cfs_pop_min(subq)].  On finite numbers the loop runs at most once per
    entry plus once (proved below), which is the fuel given here; the source
    has no bound, and on a vruntime that is not finite its loop does not end
    ([cfs_pop_min_float_spins]). *)
Definition _cfs_pop_min (s : Sched) : option ref * Sched :=
  let heap := CFS_cfs_1 (queues s) in
  match _cfs_pop_min_loop (S (length heap)) (objects s) heap (insertion_counter s) with
  | Returned res heap' counter' =>
      (res, set_insertion_counter counter' (set_queues (set_CFS_cfs_1 heap' (queues s)) s))
  | _ => (None, s)
  end.

(** [self.queues[sched][subq].append(task)] for a deque class. *)
Definition queue_append (sched : SchedClass) (r : ref) (q : Queues) : Queues :=
  match sched with
  | FIFO => set_FIFO_fifo_1 (FIFO_fifo_1 q ++ [r]) q
  | RR => set_RR_rr_1 (RR_rr_1 q ++ [r]) q
  | IDLE => set_IDLE_idle (IDLE_idle q ++ [r]) q
  | CFS => q
  end.

(** [_enqueue_task(task)] *)
Definition _enqueue_task (r : ref) (t : Task) (s : Sched) : Sched :=
  let sched := get (assigned_scheduler t) CFS in
  let s1 := match sched with
            | CFS => _cfs_insert r t s
            | _ => set_queues (queue_append sched r (queues s)) s
            end in
  _log ENQUEUE t None None s1.

(** [q.popleft() if q else None] *)
Definition popleft (q : list ref) : option ref * list ref :=
  match q with
  | [] => (None, [])
  | r :: q' => (Some r, q')
  end.

(** [_dequeue_task(sched, subq)] *)
Definition _dequeue_task (sched : SchedClass) (s : Sched) : option ref * Sched :=
  match sched with
  | CFS => _cfs_pop_min s
  | FIFO => let (r, q') := popleft (FIFO_fifo_1 (queues s)) in
            (r, set_queues (set_FIFO_fifo_1 q' (queues s)) s)
  | RR => let (r, q') := popleft (RR_rr_1 (queues s)) in
          (r, set_queues (set_RR_rr_1 q' (queues s)) s)
  | IDLE => let (r, q') := popleft (IDLE_idle (queues s)) in
            (r, set_queues (set_IDLE_idle q' (queues s)) s)
  end.

(** ** Admission *)

Inductive Variant := Baseline | AI.

(** The classifier capability of the AI scheduler (the four models and label
    encoders), seen from [_classify_task]: for a row and a category, either the
    feature extraction or the predictor raises, or the decoder raises, or a
    label comes out. *)
Inductive Category := Resource | Interactivity | Priority | Execution.
Inductive clf_outcome := PredictRaises | DecodeRaises | Decoded (label : string).
Definition Classifier := Features -> Category -> clf_outcome.

Definition decoded (o : clf_outcome) (d : string) : string :=
  match o with Decoded l => l | _ => d end.

(** The outer [except] branch of [_classify_task]: [x = x or default]. *)
Definition classify_defaults (t : Task) : Task :=
  set_execution_class (Some (or_str (execution_class t) "Medium"))
    (set_priority_class (Some (or_str (priority_class t) "Medium"))
       (set_interactivity (Some (or_str (interactivity t) "Other"))
          (set_resource_type (Some (or_str (resource_type t) "Mixed")) t))).

(** [_classify_task(task)] *)
Definition _classify_task (clf : Classifier) (t : Task) : Task :=
  match clf (features t) Resource with
  | PredictRaises => classify_defaults t
  | o1 =>
    let t1 := set_resource_type (Some (decoded o1 "Mixed")) t in
    match clf (features t) Interactivity with
    | PredictRaises => classify_defaults t1
    | o2 =>
      let t2 := set_interactivity (Some (decoded o2 "Other")) t1 in
      match clf (features t) Priority with
      | PredictRaises => classify_defaults t2
      | o3 =>
        let t3 := set_priority_class (Some (decoded o3 "Medium")) t2 in
        match clf (features t) Execution with
        | PredictRaises => classify_defaults t3
        | o4 => set_execution_class (Some (decoded o4 "Medium")) t3
        end
      end
    end
  end.

Definition label_is (l : option string) (s : string) : bool :=
  match l with Some x => String.eqb x s | None => false end.

(** [_map_numeric_labels(resource, inter, exec_c, priority)] *)
Definition _map_numeric_labels (resource inter exec_c priority : option string)
    : Q * Q * Q * Q :=
  let Rmap := if label_is resource "CPU-bound" then 3%Q
              else if label_is resource "Mixed" then 2%Q
              else if label_is resource "IO-bound" then 1%Q else 2%Q in
  let Imap := if label_is inter "Real-time" then 4%Q
              else if label_is inter "Interactive" then 3%Q
              else if label_is inter "Other" then 2%Q
              else if label_is inter "Background" then 1.5%Q
              else if label_is inter "Batch" then 1%Q else 2%Q in
  let Emap := if label_is exec_c "Short" then 3%Q
              else if label_is exec_c "Medium" then 2%Q
              else if label_is exec_c "Long" then 1%Q else 2%Q in
  let Pmap := if label_is priority "High" then 3%Q
              else if label_is priority "Medium" then 2%Q
              else if label_is priority "Low" then 1%Q else 2%Q in
  (Rmap, Imap, Emap, Pmap).

(** [_compute_subqueue_score(task)] *)
Definition _compute_subqueue_score (t : Task) : Task :=
  let '(Rnum, Inum, Enum, Pnum) :=
    _map_numeric_labels (resource_type t) (interactivity t) (execution_class t)
                        (priority_class t) in
  set_subqueue_score (Some (0.2 * Rnum + 0.35 * Inum + 0.2 * Enum + 0.3 * Pnum)%Q) t.

(** [float(getattr(task, "subqueue_score", d))].  The attribute always exists
    and [_compute_subqueue_score] has assigned it on every path that reads it;
    [d] stands for the unreachable other case. *)
Definition score_or (d : Q) (t : Task) : Q := get (subqueue_score t) d.

Definition assign (sched : SchedClass) (subq : SubQueue) (t : Task) : Task :=
  set_subqueue (Some subq) (set_assigned_scheduler (Some sched) t).

(** [str(task.features.get("Scheduling_Policy", "")).upper()] *)
Definition sched_pol (t : Task) : string :=
  upper (get (f_Scheduling_Policy (features t)) "").

(** [_assign_scheduler_and_subqueue(task)] (ai_scheduler.py) *)
Definition _assign_scheduler_and_subqueue (t : Task) : Task :=
  if String.eqb (sched_pol t) "SCHED_FIFO" then assign FIFO fifo_1 t
  else if String.eqb (sched_pol t) "SCHED_IDLE" then assign IDLE idle t
  else
    let score := score_or 0%Q t in
    if label_is (interactivity t) "Real-time" then assign FIFO fifo_1 t
    else if ((label_is (interactivity t) "Interactive"
              && label_is (execution_class t) "Short"
              && label_is (priority_class t) "High")
             || Qltb 2.6 score)%bool then assign RR rr_1 t
    else assign CFS cfs_1 t.

(** The RR quantum of the AI scheduler as [admit] computes it
    (ai_scheduler.py, lines 219-231). *)
Definition admit_rr_quantum (t : Task) : Z :=
  let base_score := 2.5%Q in
  let max_score := 3.15%Q in
  let base_quantum := 100 in
  let max_quantum := 200 in
  let score := score_or 2%Q t in
  if Qleb score base_score then base_quantum
  else if Qleb max_score score then max_quantum
  else
    let frac := ((score - base_score) / (max_score - base_score))%Q in
    py_int (inject_Z base_quantum + frac * inject_Z (max_quantum - base_quantum))%Q.

(** The estimate of [remaining] in both [admit]s, taken when the attribute
    is zero: [int(features.get("Total_Time_Ticks", task.total_time or 1))]. *)
Definition admit_remaining (t : Task) : Task :=
  if remaining t =? 0 then
    set_remaining (match f_Total_Time_Ticks (features t) with
                   | Some ticks => py_int ticks
                   | None => or_int (total_time t) 1
                   end) t
  else t.

(** "Ensure vruntime and weight" in both [admit]s. *)
Definition admit_vruntime_weight (t : Task) : Task :=
  let t1 := set_vruntime (get (f_se_vruntime (features t)) (or_float (vruntime t) 0%Q)) t in
  set_weight (get (f_se_load_weight (features t)) (or_float (weight t1) 1024%Q)) t1.

(** The task-level part of [LinuxBaselineScheduler.admit]. *)
Definition baseline_admit_task (rrq : Z) (t : Task) : Task :=
  let t1 := if String.eqb (sched_pol t) "SCHED_FIFO" then assign FIFO fifo_1 t
            else if String.eqb (sched_pol t) "SCHED_RR" then assign RR rr_1 t
            else if String.eqb (sched_pol t) "SCHED_IDLE" then assign IDLE idle t
            else assign CFS cfs_1 t in
  let t2 := admit_remaining t1 in
  let t3 := admit_vruntime_weight t2 in
  match assigned_scheduler t3 with
  | Some RR => set_quantum (Some (Z.max min_granularity rrq)) t3
  | _ => set_quantum None t3
  end.

(** The task-level part of [AIScheduler.admit]. *)
Definition ai_admit_task (clf : Classifier) (t : Task) : Task :=
  let t1 := _compute_subqueue_score (_classify_task clf t) in
  let t2 := admit_remaining t1 in
  let t3 := if String.eqb (sched_pol t2) "SCHED_FIFO" then assign FIFO fifo_1 t2
            else if String.eqb (sched_pol t2) "SCHED_RR" then assign RR rr_1 t2
            else if String.eqb (sched_pol t2) "SCHED_IDLE" then assign IDLE idle t2
            else _assign_scheduler_and_subqueue t2 in
  let t4 := admit_vruntime_weight t3 in
  match assigned_scheduler t4 with
  | Some RR => set_quantum (Some (admit_rr_quantum t4)) t4
  | _ => t4
  end.

(** The task-level part of [admit] in either variant. *)
Definition admit_task (v : Variant) (clf : Classifier) (rrq : Z) (t : Task) : Task :=
  match v with
  | Baseline => baseline_admit_task rrq t
  | AI => ai_admit_task clf t
  end.

(** [admit(task, current_time)] on the task object stored at [r]: register it
    under its pid, fill in the assignment, log [ADMIT], enqueue.  (Named
    [sched_admit] because [admit] is a reserved tactic name.) *)
Definition sched_admit (v : Variant) (clf : Classifier) (r : ref) (current_time : Z)
    (s : Sched) : Sched :=
  match objects s !! r with
  | None => s
  | Some t =>
      let s1 := set_task_map (dict_set (pid t) r (task_map s)) s in
      let t' := admit_task v clf (rr_quantum s) t in
      let s2 := set_objects (<[r := t']> (objects s1)) s1 in
      _enqueue_task r t' (_log ADMIT t' None None s2)
  end.

(** The driver's [t = Task.from_row(row); scheduler.admit(t, current_time)]:
    a fresh task object is allocated and admitted. *)
Definition admit_row (v : Variant) (clf : Classifier) (u : string) (row : Features)
    (current_time : Z) (s : Sched) : Sched :=
  let r := length (objects s) in
  sched_admit v clf r current_time (set_objects (objects s ++ [Task_init row u]) s).

(** ** Pick and dispatch *)

Definition subqueue_of (sched : SchedClass) : SubQueue :=
  match sched with FIFO => fifo_1 | RR => rr_1 | CFS => cfs_1 | IDLE => idle end.

(** [len(self.queues[sched][subq]) == 0] *)
Definition queue_is_empty (sched : SchedClass) (q : Queues) : bool :=
  match sched with
  | FIFO => match FIFO_fifo_1 q with [] => true | _ => false end
  | RR => match RR_rr_1 q with [] => true | _ => false end
  | CFS => match CFS_cfs_1 q with [] => true | _ => false end
  | IDLE => match IDLE_idle q with [] => true | _ => false end
  end.

(** [self.core_priority_order.get(core_id, default)] *)
Fixpoint order_get (core_id : nat) (d : list (nat * list SchedClass)) : list SchedClass :=
  match d with
  | [] => default_order
  | (k, o) :: d' => if Nat.eqb k core_id then o else order_get core_id d'
  end.

(** The two nested loops of [_pick_task_for_core]: the first class of the
    order whose (single) subqueue is not empty. *)
Fixpoint pick_in_order (order : list SchedClass) (q : Queues) : option (SchedClass * SubQueue) :=
  match order with
  | [] => None
  | sched :: order' =>
      if queue_is_empty sched q then pick_in_order order' q
      else Some (sched, subqueue_of sched)
  end.

(** [_pick_task_for_core(core_id)]; nothing is removed from the queues. *)
Definition _pick_task_for_core (core_id : nat) (s : Sched) : option (SchedClass * SubQueue) :=
  pick_in_order (order_get core_id (core_priority_order s)) (queues s).

(** The sum over the entries left in the CFS heap of
    [t.weight if t.weight > 0 else NICE0_WEIGHT]. *)
Definition weights_in_heap (objs : list Task) (heap : list HeapEntry) : Q :=
  fold_left (fun acc e =>
               match objs !! e_task e with
               | Some t => (acc + (if Qltb 0 (weight t) then weight t else NICE0_WEIGHT))%Q
               | None => acc
               end) heap 0%Q.

(** [base_slice] of [_dispatch_to_core], computed after the task was popped. *)
Definition cfs_base_slice_at_dispatch (t : Task) (s : Sched) : Z :=
  let sum := weights_in_heap (objects s) (CFS_cfs_1 (queues s)) in
  let runnable_set_weight :=
    if Qleb sum 0 then or_float (weight t) NICE0_WEIGHT else sum in
  let sched_latency_ticks := 48%Q in
  let proportion := (or_float (weight t) NICE0_WEIGHT / runnable_set_weight)%Q in
  py_int (sched_latency_ticks * proportion)%Q.

(** [exec_factor_map.get(exec_class, 1.5)] *)
Definition exec_factor (exec_class : option string) : Q :=
  if label_is exec_class "Short" then 1%Q
  else if label_is exec_class "Medium" then 1.5%Q
  else if label_is exec_class "Long" then 2%Q else 1.5%Q.

(** The RR quantum of the AI scheduler as [_dispatch_to_core] computes it
    (ai_scheduler.py, lines 405-417). *)
Definition dispatch_rr_quantum (t : Task) : Z :=
  let base_score := 2.5%Q in
  let max_score := 3.15%Q in
  let base_quantum := 100 in
  let max_quantum := 200 in
  let score := score_or 2%Q t in
  if Qleb score base_score then base_quantum
  else if Qleb max_score score then max_quantum
  else
    let frac := ((score - base_score) / (max_score - base_score))%Q in
    py_int (inject_Z base_quantum + frac * inject_Z (max_quantum - base_quantum))%Q.

(** The quantum chosen by [_dispatch_to_core] for the popped task [t]; [s] is
    the state after the pop.  The products are exact here; a float product
    just below an integer makes [int] one less in the source. *)
Definition dispatch_quantum (v : Variant) (sched : SchedClass) (t : Task) (s : Sched) : Z :=
  match sched with
  | CFS =>
      let base_slice := cfs_base_slice_at_dispatch t s in
      match v with
      | Baseline => Z.max min_granularity base_slice
      | AI =>
          let score := score_or 2%Q t in
          let exec_scale := exec_factor (execution_class t) in
          let score_scale := (1 + 0.2 * (score - 2))%Q in
          let quanta := (inject_Z base_slice * exec_scale * score_scale)%Q in
          Z.max min_granularity (py_int quanta)
      end
  | FIFO => Z.max 1 (remaining t)
  | RR =>
      match v with
      | Baseline => Z.max min_granularity (rr_quantum s)
      | AI => dispatch_rr_quantum t
      end
  | IDLE => Z.max 1 (remaining t)
  end.

(** The second half of [_dispatch_to_core], after the task object [r] was
    dequeued: size the quantum, occupy the core, stamp [first_start], count the
    context switch, log [DISPATCH]. *)
Definition place_on_core (v : Variant) (core_id : nat) (sched : SchedClass) (r : ref)
    (s1 : Sched) : Sched :=
  match objects s1 !! r with
  | None => s1
  | Some t =>
      let t1 := set_quantum (Some (dispatch_quantum v sched t s1)) t in
      let core := {| core_task := Some r; time_left := get (quantum t1) 0 |} in
      let t2 := match first_start t1 with
                | None => set_first_start (Some (time s1)) t1
                | Some _ => t1
                end in
      let s2 := set_objects (<[r := t2]> (objects s1))
                  (set_cores (<[core_id := core]> (cores s1)) s1) in
      _log DISPATCH t2 (Some core_id) None
           (set_context_switches (context_switches s2 + 1) s2)
  end.

(** [_dispatch_to_core(core_id, sched, subq)] *)
Definition _dispatch_to_core (v : Variant) (core_id : nat) (sched : SchedClass)
    (s : Sched) : Sched :=
  match _dequeue_task sched s with
  | (None, s1) => s1
  | (Some r, s1) => place_on_core v core_id sched r s1
  end.

(** ** Per-tick execution *)

(** [_update_vruntime(task, delta=1)].  The source rounds the sum: a large
    vruntime absorbs the increment, so that its vruntime never decreases but
    need not grow. *)
Definition _update_vruntime (v : Variant) (t : Task) : Task :=
  let t1 := if Qleb (weight t) 0 then set_weight 1%Q t else t in
  let base_inc := (1 * (NICE0_WEIGHT / weight t1))%Q in
  match v with
  | Baseline => set_vruntime (vruntime t1 + base_inc)%Q t1
  | AI =>
      let score := score_or 2%Q t1 in
      let score_scale := (2 / py_max 0.5 score)%Q in
      set_vruntime (vruntime t1 + base_inc * score_scale)%Q t1
  end.

Definition idle_core : Core := {| core_task := None; time_left := 0 |}.

(** [_run_one_tick_on_core(core_id)] *)
Definition _run_one_tick_on_core (v : Variant) (core_id : nat) (s : Sched) : Sched :=
  match cores s !! core_id with
  | None => s
  | Some core =>
      match core_task core with
      | None => s
      | Some r =>
          match objects s !! r with
          | None => s
          | Some t =>
              (* run one tick *)
              let t1 := set_total_run (total_run t + 1)
                          (set_remaining (Z.max 0 (remaining t - 1)) t) in
              let left := Z.max 0 (time_left core - 1) in
              let t2 := match assigned_scheduler t1 with
                        | Some CFS => _update_vruntime v t1
                        | _ => t1
                        end in
              let s1 := set_cores (<[core_id := {| core_task := Some r; time_left := left |}]>
                                     (cores s))
                          (set_objects (<[r := t2]> (objects s)) s) in
              let s2 := _log RUN t2 (Some core_id) None s1 in
              let clear s' := set_cores (<[core_id := idle_core]> (cores s')) s' in
              if remaining t2 <=? 0 then
                (* completion *)
                let t3 := set_completion_time (Some (time s2)) t2 in
                let s3 := set_completed_tasks (dict_set (pid t3) r (completed_tasks s2))
                            (set_objects (<[r := t3]> (objects s2)) s2) in
                clear (_log COMPLETE t3 (Some core_id) None s3)
              else if left <=? 0 then
                (* quantum expired *)
                match assigned_scheduler t2 with
                | Some RR =>
                    let s3 := _log PREEMPT t2 (Some core_id) (Some "quantum_expired") s2 in
                    clear (set_queues (set_RR_rr_1 (RR_rr_1 (queues s3) ++ [r]) (queues s3)) s3)
                | Some CFS =>
                    let s3 := _log PREEMPT t2 (Some core_id) (Some "cfs_quantum_expired") s2 in
                    clear (_cfs_insert r t2 s3)
                | Some FIFO =>
                    let s3 := _log PREEMPT t2 (Some core_id) (Some "fifo_preempt") s2 in
                    clear (set_queues (set_FIFO_fifo_1 (r :: FIFO_fifo_1 (queues s3))
                                                       (queues s3)) s3)
                | _ => clear s2
                end
              else s2
          end
      end
  end.

(** The body of the [for cid in range(self.num_cores)] loop of [tick]. *)
Definition tick_core (v : Variant) (s : Sched) (cid : nat) : Sched :=
  let s1 := match core_task <$> (cores s !! cid) with
            | Some None =>
                match _pick_task_for_core cid s with
                | Some (sched, _) => _dispatch_to_core v cid sched s
                | None => s
                end
            | _ => s
            end in
  _run_one_tick_on_core v cid s1.

(** [tick(current_time)] *)
Definition tick (v : Variant) (current_time : Z) (s : Sched) : Sched :=
  fold_left (tick_core v) (seq 0 (num_cores s)) (set_time current_time s).

(** ** Metrics export *)

(** One row of [export_task_metrics]. *)
Record MetricRow := {
  m_pid : option Z;
  m_name : string;
  m_arrival : Z;
  m_first_start : option Z;
  m_completion : option Z;
  m_execution_time : Z;
  m_waiting : option Z;
  m_turnaround : option Z;
  m_response : option Z;
  m_stretch : option Q;
  m_scheduler : option SchedClass;
  m_subqueue : option SubQueue
}.

(** The row built in the loop body of [export_task_metrics] for the completed
    task object [t] found under [pid_]. *)
Definition metric_row (pid_ : option Z) (t : Task) : MetricRow :=
  let arrival := arrival_time t in
  let first := first_start t in
  let comp := completion_time t in
  let exec_time := total_run t in
  let waiting := match first with Some f => Some (f - arrival) | None => None end in
  let turnaround := match comp with Some c => Some (c - arrival) | None => None end in
  let stretch := match turnaround with
                 | Some ta => if 0 <? exec_time
                              then Some (inject_Z ta / inject_Z exec_time)%Q else None
                 | None => None
                 end in
  {| m_pid := pid_; m_name := name t;
     m_arrival := arrival; m_first_start := first; m_completion := comp;
     m_execution_time := exec_time; m_waiting := waiting;
     m_turnaround := turnaround; m_response := waiting; m_stretch := stretch;
     m_scheduler := assigned_scheduler t; m_subqueue := subqueue t |}.

(** [export_task_metrics()]: one row per pid of [task_map] that is also a key
    of [completed_tasks], built from the object [completed_tasks[pid]]. *)
Definition export_task_metrics (s : Sched) : list MetricRow :=
  flat_map (fun '(pid_, _) =>
              match dict_get pid_ (completed_tasks s) with
              | Some r => match objects s !! r with
                          | Some t => [metric_row pid_ t]
                          | None => []
                          end
              | None => []
              end) (task_map s).

(** ** Runs *)

(** The two operations a client performs on a scheduler: admitting the task
    built from a row, and ticking. *)
Inductive op :=
  | OpAdmit (row : Features) (current_time : Z)
  | OpTick (current_time : Z).

(** [uids] gives the uuid drawn for the n-th task object created. *)
Definition run_op (v : Variant) (clf : Classifier) (uids : nat -> string)
    (s : Sched) (o : op) : Sched :=
  match o with
  | OpAdmit row current_time =>
      admit_row v clf (uids (length (objects s))) row current_time s
  | OpTick current_time => tick v current_time s
  end.

Definition run_script (v : Variant) (clf : Classifier) (uids : nat -> string)
    (s : Sched) (script : list op) : Sched :=
  fold_left (run_op v clf uids) script s.

(** The driver (ai_simulator.py).  [rows] is the input table after
    [sort_values(by='Arrival_Sec')]. *)
Definition arrival_of (row : Features) : Z := py_int (get (f_Arrival_Sec row) 0%Q).

(** [arrivals[current_time]] *)
Definition arrivals_at (rows : list Features) (current_time : Z) : list Features :=
  List.filter (fun row => arrival_of row =? current_time) rows.

(** [int(df['Arrival_Sec'].max())]; undefined on an empty table. *)
Definition last_arrival_of (rows : list Features) : option Z :=
  match rows with
  | [] => None
  | row :: rows' => Some (fold_left Z.max (map arrival_of rows') (arrival_of row))
  end.

(** One iteration of the [while True] loop up to the termination test:
    admit the arrivals of this tick, then tick. *)
Definition driver_step (v : Variant) (clf : Classifier) (uids : nat -> string)
    (rows : list Features) (current_time : Z) (s : Sched) : Sched :=
  run_script v clf uids s
    (map (fun row => OpAdmit row current_time) (arrivals_at rows current_time)
     ++ [OpTick current_time]).

(** The [while True] loop; it leaves by one of its two [break]s after at most
    [max_ticks + 1] iterations, which is the fuel [simulate] gives it. *)
Fixpoint driver_loop (fuel : nat) (v : Variant) (clf : Classifier) (uids : nat -> string)
    (rows : list Features) (last_arrival max_ticks current_time : Z) (s : Sched) : Sched :=
  match fuel with
  | O => s
  | S fuel' =>
      let s1 := driver_step v clf uids rows current_time s in
      if ((last_arrival <? current_time) && all_queues_empty s1)%bool then s1
      else if max_ticks <? current_time + 1 then s1
      else driver_loop fuel' v clf uids rows last_arrival max_ticks (current_time + 1) s1
  end.

(** The whole driver on a freshly constructed scheduler; [None] when the table
    is empty (the driver raises on [int(nan)]). *)
Definition simulate (v : Variant) (clf : Classifier) (uids : nat -> string)
    (init : Sched) (rows : list Features) (max_ticks : Z) : option Sched :=
  match last_arrival_of rows with
  | None => None
  | Some last_arrival =>
      Some (driver_loop (S (Z.to_nat max_ticks)) v clf uids rows last_arrival max_ticks 0 init)
  end.

(** ** Specification-side definitions *)

(** The RR quantum of the AI variant in the specification's words: [base_q]
    below [base_score], [max_q] above [max_score], linear in between. *)
Definition rr_quantum_piecewise (score : Q) : Z :=
  if Qltb score 2.5 then 100
  else if Qltb 3.15 score then 200
  else py_int (100 + ((score - 2.5) / (3.15 - 2.5)) * 100)%Q.

(** The policy string both [admit]s branch on, for a row. *)
Definition row_policy (row : Features) : string :=
  upper (get (f_Scheduling_Policy row) "").

(** Assignment rules 4 to 6 of the policy mapper in the specification's words,
    on the labels and the score of a classified task. *)
Definition ai_rule_assignment (t : Task) : option SchedClass * option SubQueue :=
  if label_is (interactivity t) "Real-time" then (Some FIFO, Some fifo_1)
  else if ((label_is (interactivity t) "Interactive"
            && label_is (execution_class t) "Short"
            && label_is (priority_class t) "High")
           || Qltb 2.6 (score_or 0%Q t))%bool then (Some RR, Some rr_1)
  else (Some CFS, Some cfs_1).

(** A column that is absent from the row, or present with value zero. *)
Definition absent_or_zero (o : option Q) : Prop :=
  match o with
  | None => True
  | Some x => (x == 0)%Q
  end.

(** The run of the [while heap:] loop of [_cfs_pop_min] in the specification's
    words: pop; when the snapshot is within 1e-6 of the task's live vruntime
    return that task; otherwise push a fresh entry with the live vruntime and
    go on popping; on an empty heap return [None]. *)
Inductive pop_min_run (objs : list Task)
  : list HeapEntry -> nat -> option ref -> list HeapEntry -> nat -> Prop :=
  | run_empty counter :
      pop_min_run objs [] counter None [] counter
  | run_match heap counter e heap' t :
      heappop heap = Some (e, heap') ->
      objs !! e_task e = Some t ->
      (Qabs (vruntime t - e_vr e) < 1e-6)%Q ->
      pop_min_run objs heap counter (Some (e_task e)) heap' counter
  | run_stale heap counter e heap' t res heap'' counter'' :
      heappop heap = Some (e, heap') ->
      objs !! e_task e = Some t ->
      (1e-6 <= Qabs (vruntime t - e_vr e))%Q ->
      pop_min_run objs
        (heappush heap' {| e_vr := vruntime t; e_seq := counter;
                           e_pid := pid t; e_task := e_task e |})
        (S counter) res heap'' counter'' ->
      pop_min_run objs heap counter res heap'' counter''.

(** An entry is stale when its task's live vruntime has moved away from the
    snapshot. *)
Definition is_stale (objs : list Task) (e : HeapEntry) : bool :=
  match objs !! e_task e with
  | Some t => negb (snapshot_valid t (e_vr e))
  | None => false
  end.

Definition stale_count (objs : list Task) (heap : list HeapEntry) : nat :=
  length (List.filter (is_stale objs) heap).

(** Every entry of the heap references a task of the store. *)
Definition entries_bound (objs : list Task) (heap : list HeapEntry) : Prop :=
  Forall (fun e => is_Some (objs !! e_task e)) heap.

(** ** Invariants of the scheduler state *)

(** Number of occurrences of the reference [r] in a list of references. *)
Definition cnt (r : ref) (l : list ref) : nat := count_occ Nat.eq_dec l r.

(** The tasks running on the cores, and the tasks referenced from the heap. *)
Definition running (cs : list Core) : list ref := omap core_task cs.
Definition heap_refs (heap : list HeapEntry) : list ref := map e_task heap.

(** The reference a core contributes to [running]. *)
Definition core_cnt (r : ref) (c : Core) : nat := cnt r (running [c]).

(** How many places (queue slots, heap entries, cores) hold the task [r]. *)
Definition occ (r : ref) (s : Sched) : nat :=
  (cnt r (FIFO_fifo_1 (queues s)) + cnt r (RR_rr_1 (queues s))
   + cnt r (heap_refs (CFS_cfs_1 (queues s))) + cnt r (IDLE_idle (queues s))
   + cnt r (running (cores s)))%nat.

(** A heap entry whose snapshot is the live vruntime of its task. *)
Definition entry_fresh (objs : list Task) (e : HeapEntry) : Prop :=
  exists t, objs !! e_task e = Some t /\ vruntime t = e_vr e.

Record Inv (s : Sched) : Prop := {
  (* a task is in at most one place *)
  inv_nodup : forall r, (occ r s <= 1)%nat;
  (* only task objects of the store are referenced *)
  inv_bound : forall r, (0 < occ r s)%nat -> (r < length (objects s))%nat;
  (* heap snapshots are up to date *)
  inv_heap : Forall (entry_fresh (objects s)) (CFS_cfs_1 (queues s));
  (* work accounting of the tasks that were created with work to do *)
  inv_work : forall r t, objects s !! r = Some t -> 1 <= total_time t ->
               remaining t + total_run t = total_time t /\
               ((0 < occ r s)%nat -> 1 <= remaining t);
  (* a queued or running task has not completed *)
  inv_live : forall r t, objects s !! r = Some t -> (0 < occ r s)%nat ->
               completion_time t = None;
  (* a task in the completed set has completed *)
  inv_done : forall p r, dict_get p (completed_tasks s) = Some r ->
               exists t c, objects s !! r = Some t /\ completion_time t = Some c /\
                           remaining t <= 0
}.

(** States reachable from [s0] by the client operations ([run_op]), seen at
    the granularity of the steps inside [tick]: a tick is [set_time] followed,
    for each core, by a dispatch if the core is idle and then
    [_run_one_tick_on_core]. *)
Inductive reachable (v : Variant) (clf : Classifier) (uids : nat -> string) (s0 : Sched)
  : Sched -> Prop :=
  | reach_init : reachable v clf uids s0 s0
  | reach_admit s row current_time :
      reachable v clf uids s0 s ->
      reachable v clf uids s0 (admit_row v clf (uids (length (objects s))) row current_time s)
  | reach_time s current_time :
      reachable v clf uids s0 s ->
      reachable v clf uids s0 (set_time current_time s)
  | reach_dispatch s cid sched c0 :
      reachable v clf uids s0 s ->
      cores s !! cid = Some c0 -> core_task c0 = None ->
      reachable v clf uids s0 (_dispatch_to_core v cid sched s)
  | reach_run s cid :
      reachable v clf uids s0 s ->
      reachable v clf uids s0 (_run_one_tick_on_core v cid s).

(** The attributes of a task that dispatching and running never touch. *)
Definition static_view (t : Task) :=
  (features t, pid t, total_time t, arrival_time t, assigned_scheduler t, subqueue t).

(** What one step inside a tick may do to the task objects: each keeps its
    static attributes, runs at most one unit, and its [completion_time] is
    either kept or, for a task that had not completed, set to the current
    time; a completed task is left alone. *)
Definition step_effect (s s' : Sched) : Prop :=
  time s' = time s /\ num_cores s' = num_cores s /\
  length (objects s') = length (objects s) /\
  forall x tx, objects s !! x = Some tx ->
    exists tx', objects s' !! x = Some tx' /\
      static_view tx' = static_view tx /\
      ((total_run tx' = total_run tx /\ completion_time tx' = completion_time tx) \/
       (completion_time tx = None /\ total_run tx' = total_run tx + 1 /\
        (completion_time tx' = None \/ completion_time tx' = Some (time s)))).

(** A step that runs nothing. *)
Definition quiet_effect (s s' : Sched) : Prop :=
  time s' = time s /\ num_cores s' = num_cores s /\
  length (objects s') = length (objects s) /\
  forall x tx, objects s !! x = Some tx ->
    exists tx', objects s' !! x = Some tx' /\
      static_view tx' = static_view tx /\
      total_run tx' = total_run tx /\ completion_time tx' = completion_time tx.

(** The attributes of a task that admission never touches. *)
Definition admit_view (t : Task) :=
  (features t, pid t, total_time t, arrival_time t, total_run t, first_start t,
   completion_time t).

(** ** Turnaround of completed tasks *)

(** The run-time bound of a task on a machine of [N] cores, while tick [n]
    is being processed and [k] cores have had their turn: a task runs at most
    once per core and tick from its arrival on, and a completed task has
    stopped running. *)
Definition run_bound (N n k : Z) (t : Task) : Prop :=
  arrival_time t <= n /\ 0 <= total_run t /\
  match completion_time t with
  | Some c => arrival_time t <= c /\ total_run t <= N * (c - arrival_time t + 1)
  | None => total_run t <= N * (n - arrival_time t) + k
  end.

Definition Bounded (n k : Z) (s : Sched) : Prop :=
  forall x tx, objects s !! x = Some tx -> run_bound (Z.of_nat (num_cores s)) n k tx.

(** [j] iterations of the driver loop without its exit tests, from tick
    [current_time] on. *)
Fixpoint driver_iter (j : nat) (v : Variant) (clf : Classifier) (uids : nat -> string)
    (rows : list Features) (current_time : Z) (s : Sched) : Sched :=
  match j with
  | O => s
  | S j' =>
      driver_iter j' v clf uids rows (current_time + 1)
        (driver_step v clf uids rows current_time s)
  end.

(** ** Example inputs *)

Definition empty_row : Features :=
  {| f_PID := Some 1; f_Name := None; f_se_sum_exec_runtime := None;
     f_Total_Time_Ticks := None; f_Arrival_Sec := None; f_se_vruntime := None;
     f_se_load_weight := None; f_Scheduling_Policy := None; f_other := [] |}.

(** A row [{PID, Arrival_Sec, Total_Time_Ticks, Scheduling_Policy}]. *)
Definition mk_row (p arrival total : Z) (policy : string) : Features :=
  {| f_PID := Some p; f_Name := None; f_se_sum_exec_runtime := None;
     f_Total_Time_Ticks := Some (inject_Z total); f_Arrival_Sec := Some (inject_Z arrival);
     f_se_vruntime := None; f_se_load_weight := None;
     f_Scheduling_Policy := Some policy; f_other := [] |}.

Definition realtime_row : Features := mk_row 1 0 10 "SCHED_OTHER".

(** A classifier that labels everything Mixed / Real-time / Medium / Medium. *)
Definition realtime_clf : Classifier :=
  fun _ c => Decoded (match c with
                      | Resource => "Mixed"
                      | Interactivity => "Real-time"
                      | Priority => "Medium"
                      | Execution => "Medium"
                      end).

(** A classifier that labels everything Mixed / Interactive / High / Short. *)
Definition promoted_clf : Classifier :=
  fun _ c => Decoded (match c with
                      | Resource => "Mixed"
                      | Interactivity => "Interactive"
                      | Priority => "High"
                      | Execution => "Short"
                      end).

(** A classifier whose predictor always raises. *)
Definition failing_clf : Classifier := fun _ _ => PredictRaises.

Definition no_uid : nat -> string := fun _ => "".

(** A state whose CFS heap holds one stale entry: the task's vruntime is 5,
    the snapshot is 0. *)
Definition stale_state : Sched :=
  let s := Sched_init 1 None 100 4%Q 42 in
  set_insertion_counter 1
    (set_queues (set_CFS_cfs_1 [{| e_vr := 0%Q; e_seq := 0; e_pid := Some 1; e_task := 0%nat |}]
                   (queues s))
       (set_objects [set_vruntime 5%Q (Task_init (mk_row 1 0 10 "SCHED_OTHER") "")] s)).

(** The default scheduler of the end-to-end scenarios
    ([rr_quantum=100], [cfs_base_slice=4], [seed=42]) on [n] cores. *)
Definition scenario_sched (n : nat) : Sched := Sched_init n None 100 4%Q 42.

(** Scenario 1: a single FIFO task. *)
Definition fifo_rows : list Features := [mk_row 1 0 10 "SCHED_FIFO"].

(** Scenario 2: two RR tasks of 250 ticks. *)
Definition rr_rows : list Features := [mk_row 1 0 250 "SCHED_RR"; mk_row 2 0 250 "SCHED_RR"].

(** Scenario 3: two CFS tasks of weight 1024 and 100 ticks. *)
Definition cfs_row (p : Z) : Features :=
  {| f_PID := Some p; f_Name := None; f_se_sum_exec_runtime := None;
     f_Total_Time_Ticks := Some 100%Q; f_Arrival_Sec := Some 0%Q;
     f_se_vruntime := None; f_se_load_weight := Some 1024%Q;
     f_Scheduling_Policy := Some "SCHED_OTHER"; f_other := [] |}.

Definition cfs_rows : list Features := [cfs_row 1; cfs_row 2].

(** A full run of the driver loop on a baseline scheduler of [n] cores, with
    the driver's [max_ticks = 70000].  (The loop is the one of ai_simulator.py;
    the baseline never calls the classifier.) *)
Definition baseline_run (n : nat) (rows : list Features) : option Sched :=
  simulate Baseline failing_clf no_uid (scenario_sched n) rows 70000.

(** The ticks [0 .. n-1]. *)
Definition ticks (n : nat) : list op := map (fun t => OpTick (Z.of_nat t)) (seq 0 n).

(** The scenarios as explicit sequences of operations: the rows are admitted
    at t=0 and the scheduler is ticked until the work is done. *)
Definition fifo_script : list op := map (fun row => OpAdmit row 0) fifo_rows ++ ticks 10.
Definition rr_script : list op := map (fun row => OpAdmit row 0) rr_rows ++ ticks 500.
Definition cfs_script : list op := map (fun row => OpAdmit row 0) cfs_rows ++ ticks 200.

Definition baseline_script (n : nat) (script : list op) : Sched :=
  run_script Baseline failing_clf no_uid (scenario_sched n) script.

(** The scheduling events of a log (everything but [RUN]) as
    [(time, event, pid)]. *)
Definition transitions (s : Sched) : list (Z * Event * option Z) :=
  map (fun r => (row_time r, row_event r, row_pid r))
      (List.filter (fun r => negb (Event_eqb (row_event r) RUN)) (logs s)).

(** The quantum recorded by every [DISPATCH] row, in order. *)
Definition dispatch_quanta (s : Sched) : list (option Z) :=
  map row_quantum (List.filter (fun r => Event_eqb (row_event r) DISPATCH) (logs s)).

(** Scripts used as witnesses. *)
Definition work_script : list op := [OpAdmit (mk_row 1 0 3 "SCHED_OTHER") 0; OpTick 0].

(** ** Observable state *)

(** What a run draws from outside its inputs: the uuid of every task object,
    and the [seed] and [cfs_base_slice] constructor arguments, which are stored
    and never read.  [erase_uid] and [obs] blank them out. *)
Definition erase_uid (t : Task) : Task :=
  {| features := features t; pid := pid t; name := name t; total_time := total_time t;
     remaining := remaining t; arrival_time := arrival_time t;
     resource_type := resource_type t; interactivity := interactivity t;
     priority_class := priority_class t; execution_class := execution_class t;
     subqueue_score := subqueue_score t; assigned_scheduler := assigned_scheduler t;
     subqueue := subqueue t; quantum := quantum t; total_run := total_run t;
     first_start := first_start t; completion_time := completion_time t;
     vruntime := vruntime t; weight := weight t; last_core := last_core t; uid := "" |}.

Definition obs (s : Sched) : Sched :=
  {| num_cores := num_cores s; rr_quantum := rr_quantum s; cfs_base_slice := 0%Q;
     insertion_counter := insertion_counter s; seed := 0;
     core_priority_order := core_priority_order s; queues := queues s; cores := cores s;
     time := time s; logs := logs s; task_map := task_map s;
     completed_tasks := completed_tasks s; context_switches := context_switches s;
     objects := erase_uid <$> objects s |}.

(** The rows a script admits. *)
Definition admitted_rows (script : list op) : list Features :=
  flat_map (fun o => match o with OpAdmit row _ => [row] | OpTick _ => [] end) script.

(** Two classifiers with different internals that label the row of pid 1 alike. *)
Definition promoted_clf_pid1 : Classifier :=
  fun row c => match f_PID row with
               | Some 1 => promoted_clf row c
               | _ => PredictRaises
               end.

Definition other_uid : nat -> string := fun _ => "0f3a9c1e".

Definition promoted_script : list op := [OpAdmit realtime_row 0; OpTick 0; OpTick 1].

(** ** Notions used by the properties of the whole scheduler *)

(** ** Floats that are not finite numbers *)

(** A Python float as a row can carry it: a finite number, NaN, or an
    infinity. *)
Inductive pyfloat :=
  | Fin (q : Q)
  | NaN
  | Inf (negative : bool).

Definition is_finite (x : pyfloat) : bool :=
  match x with Fin _ => true | _ => false end.

(** [abs(a - b) < 1e-6].  With a NaN operand the difference is NaN; the
    difference of two infinities is NaN or an infinity, that of an infinity
    and a finite number an infinity; every comparison of those with 1e-6 is
    false. *)
Definition float_close (a b : pyfloat) : bool :=
  match a, b with
  | Fin x, Fin y => Qltb (Qabs (x - y)) 1e-6%Q
  | _, _ => false
  end.

(** [x or 0.0] on a float: only a zero is falsy, NaN is truthy. *)
Definition or_zero (x : pyfloat) : pyfloat :=
  match x with
  | Fin q => if Qeq_bool q 0 then Fin 0 else x
  | _ => x
  end.

(** [float(task.features.get("se.vruntime", getattr(task, "vruntime", 0.0) or 0.0))]
    of both [admit]s, for the [se.vruntime] field of the row and the vruntime
    the task has. *)
Definition admit_vruntime_float (field : option pyfloat) (current : pyfloat) : pyfloat :=
  match field with
  | Some x => x
  | None => or_zero current
  end.

(** What [_cfs_insert] and [_cfs_pop_min] read of a task object. *)
Record FloatTask := {
  ft_pid : option Z;
  ft_vruntime : pyfloat
}.

(** The tuple [(vruntime, counter, pid, task)]. *)
Record FloatEntry := {
  fe_vr : pyfloat;
  fe_seq : nat;
  fe_pid : option Z;
  fe_task : ref
}.

(** [heapq._siftdown(heap, startpos, pos)] with [newitem = heap[pos]];
    [lt] is Python's [<] on the entry tuples.  [pos] halves in every
    iteration, so [fuel = pos] is enough. *)
Fixpoint _siftdown (lt : FloatEntry -> FloatEntry -> bool) (fuel : nat)
    (heap : list FloatEntry) (startpos pos : nat) (newitem : FloatEntry) : list FloatEntry :=
  match fuel with
  | O => <[pos := newitem]> heap
  | S fuel' =>
      if (startpos <? pos)%nat then
        let parentpos := ((pos - 1) / 2)%nat in
        match heap !! parentpos with
        | Some parent =>
            if lt newitem parent
            then _siftdown lt fuel' (<[pos := parent]> heap) startpos parentpos newitem
            else <[pos := newitem]> heap
        | None => <[pos := newitem]> heap
        end
      else <[pos := newitem]> heap
  end.

(** The loop of [heapq._siftup(heap, pos)]: the smaller child moves up until
    a leaf is reached; returns the heap and the leaf position. *)
Fixpoint _siftup_loop (lt : FloatEntry -> FloatEntry -> bool) (fuel : nat)
    (heap : list FloatEntry) (endpos pos : nat) : list FloatEntry * nat :=
  match fuel with
  | O => (heap, pos)
  | S fuel' =>
      let childpos := (2 * pos + 1)%nat in
      if (childpos <? endpos)%nat then
        let rightpos := (childpos + 1)%nat in
        let childpos' :=
          match heap !! childpos, heap !! rightpos with
          | Some l, Some r => if lt l r then childpos else rightpos
          | _, _ => childpos
          end in
        match heap !! childpos' with
        | Some c => _siftup_loop lt fuel' (<[pos := c]> heap) endpos childpos'
        | None => (heap, pos)
        end
      else (heap, pos)
  end.

(** [heapq._siftup(heap, pos)] *)
Definition _siftup (lt : FloatEntry -> FloatEntry -> bool) (heap : list FloatEntry)
    (pos : nat) : list FloatEntry :=
  match heap !! pos with
  | None => heap
  | Some newitem =>
      let '(heap1, leaf) := _siftup_loop lt (length heap) heap (length heap) pos in
      _siftdown lt leaf heap1 pos leaf newitem
  end.

(** [heapq.heappush(heap, item)] *)
Definition heappush_float (lt : FloatEntry -> FloatEntry -> bool) (heap : list FloatEntry)
    (item : FloatEntry) : list FloatEntry :=
  _siftdown lt (length heap) (heap ++ [item]) 0 (length heap) item.

(** [heapq.heappop(heap)] on a non-empty heap; [None] on an empty one, which
    [while heap:] excludes. *)
Definition heappop_float (lt : FloatEntry -> FloatEntry -> bool) (heap : list FloatEntry)
    : option (FloatEntry * list FloatEntry) :=
  match heap with
  | [] => None
  | first :: _ =>
      let lastelt := List.last heap first in
      match removelast heap with
      | [] => Some (lastelt, [])
      | returnitem :: rest => Some (returnitem, _siftup lt (lastelt :: rest) 0)
      end
  end.

(** [_cfs_insert(subq, task)] on the heap and the insertion counter. *)
Definition _cfs_insert_float (lt : FloatEntry -> FloatEntry -> bool) (r : ref) (t : FloatTask)
    (heap : list FloatEntry) (counter : nat) : list FloatEntry * nat :=
  (heappush_float lt heap {| fe_vr := ft_vruntime t; fe_seq := counter;
                             fe_pid := ft_pid t; fe_task := r |},
   S counter).

Inductive float_step :=
  | FloatReturn (res : option ref) (heap : list FloatEntry) (counter : nat)
  | FloatAgain (heap : list FloatEntry) (counter : nat)
  | FloatBadRef.

(** One pass through the body of the [while heap:] loop of [_cfs_pop_min]:
    it returns, or it has pushed a fresh entry and goes round again. *)
Definition _cfs_pop_min_step_float (lt : FloatEntry -> FloatEntry -> bool)
    (tasks : list FloatTask) (heap : list FloatEntry) (counter : nat) : float_step :=
  match heappop_float lt heap with
  | None => FloatReturn None heap counter
  | Some (e, heap') =>
      match tasks !! fe_task e with
      | None => FloatBadRef
      | Some t =>
          if float_close (ft_vruntime t) (fe_vr e)
          then FloatReturn (Some (fe_task e)) heap' counter
          else
            let (heap'', counter') := _cfs_insert_float lt (fe_task e) t heap' counter in
            FloatAgain heap'' counter'
      end
  end.

Inductive float_outcome :=
  | FloatReturned (res : option ref) (heap : list FloatEntry) (counter : nat)
  | FloatNoTask
  | FloatOutOfFuel.  (* the loop has not returned within [fuel] iterations *)

(** [_cfs_pop_min(subq)] run for at most [fuel] iterations of its loop. *)
Fixpoint _cfs_pop_min_float (lt : FloatEntry -> FloatEntry -> bool) (fuel : nat)
    (tasks : list FloatTask) (heap : list FloatEntry) (counter : nat) : float_outcome :=
  match fuel with
  | O => FloatOutOfFuel
  | S fuel' =>
      match _cfs_pop_min_step_float lt tasks heap counter with
      | FloatReturn res heap' counter' => FloatReturned res heap' counter'
      | FloatAgain heap' counter' => _cfs_pop_min_float lt fuel' tasks heap' counter'
      | FloatBadRef => FloatNoTask
      end
  end.

(** The task object [admit] leaves for a CFS row of pid 1 whose [se.vruntime]
    is [x]. *)
Definition float_task (x : pyfloat) : FloatTask :=
  {| ft_pid := Some 1; ft_vruntime := admit_vruntime_float (Some x) (Fin 0) |}.

(** The scheduling attributes that both [admit]s compute. *)
Definition sched_view (t : Task) :=
  (assigned_scheduler t, subqueue t, remaining t, vruntime t, weight t).

(** The row that [_log] appends to the event log. *)
Definition log_row (s : Sched) (event_type : Event) (t : Task) (core : option nat)
    (extra : option string) : LogRow :=
  {| row_time := time s;
     row_event := event_type;
     row_core := core;
     row_pid := pid t;
     row_name := name t;
     row_assigned_scheduler := assigned_scheduler t;
     row_subqueue := subqueue t;
     row_remaining := remaining t;
     row_quantum := quantum t;
     row_vruntime := vruntime t;
     row_subqueue_score := subqueue_score t;
     row_reason := extra |}.

(** The container [self.queues[sched][subq]] of a class, as the references it holds. *)
Definition class_queue (c : SchedClass) (q : Queues) : list ref :=
  match c with
  | FIFO => FIFO_fifo_1 q
  | RR => RR_rr_1 q
  | CFS => heap_refs (CFS_cfs_1 q)
  | IDLE => IDLE_idle q
  end.

(** The task object after the "run one tick" block of [_run_one_tick_on_core]. *)
Definition run_task (v : Variant) (t : Task) : Task :=
  let t1 := set_total_run (total_run t + 1) (set_remaining (Z.max 0 (remaining t - 1)) t) in
  match assigned_scheduler t1 with
  | Some CFS => _update_vruntime v t1
  | _ => t1
  end.

(** The queues after the head of the container of class [c] was removed. *)
Definition pop_class (c : SchedClass) (q : Queues) : Queues :=
  match c with
  | FIFO => set_FIFO_fifo_1 (tail (FIFO_fifo_1 q)) q
  | RR => set_RR_rr_1 (tail (RR_rr_1 q)) q
  | CFS => set_CFS_cfs_1 (tail (CFS_cfs_1 q)) q
  | IDLE => set_IDLE_idle (tail (IDLE_idle q)) q
  end.

(** The queues after the task [r] was put into the container of class [c]
    by [_enqueue_task]; [vr], [p] and [counter] make the heap entry. *)
Definition push_class (c : SchedClass) (r : ref) (vr : Q) (p : option Z) (counter : nat)
    (q : Queues) : Queues :=
  match c with
  | CFS => set_CFS_cfs_1 (heappush (CFS_cfs_1 q)
                            {| e_vr := vr; e_seq := counter; e_pid := p; e_task := r |}) q
  | _ => queue_append c r q
  end.

(** The task object after [_dispatch_to_core] gave it the quantum [q] at time [now]. *)
Definition start_task (q now : Z) (t : Task) : Task :=
  let t1 := set_quantum (Some q) t in
  match first_start t1 with
  | None => set_first_start (Some now) t1
  | Some _ => t1
  end.

(** ** The RR quantum of the AI scheduler, at admit and at dispatch *)

(** The state in which the task admitted from [realtime_row] under
    [promoted_clf] waits in the RR queue. *)
Definition promoted_waiting : Sched :=
  admit_row AI promoted_clf "" realtime_row 0 (Sched_init 4 None 100 4%Q 42).

(** ** Definitions *)

(** Number of rows of a log with the given event. *)
Definition count_event (e : Event) (l : list LogRow) : nat :=
  length (List.filter (fun row => Event_eqb (row_event row) e) l).

(** Ticks executed by all task objects together. *)
Definition total_work (objs : list Task) : Z :=
  fold_right (fun t acc => total_run t + acc) 0 objs.

Definition is_completed (t : Task) : bool :=
  match completion_time t with Some _ => true | None => false end.

(** Number of task objects that have completed. *)
Definition completed_count (objs : list Task) : nat :=
  length (List.filter is_completed objs).

(** How many queue slots and heap entries hold the task [r]. *)
Definition qcnt (r : ref) (q : Queues) : nat :=
  (cnt r (FIFO_fifo_1 q) + cnt r (RR_rr_1 q) + cnt r (heap_refs (CFS_cfs_1 q))
   + cnt r (IDLE_idle q))%nat.

(** Every queued task sits in the container of its own class, every busy
    core has time left (enough to finish, for a FIFO or IDLE task), and every
    task that has not completed is queued or running. *)
Record Placed (s : Sched) : Prop := {
  pl_class : forall c r, In r (class_queue c (queues s)) ->
               exists t, objects s !! r = Some t /\ assigned_scheduler t = Some c;
  pl_core : forall cid c r, cores s !! cid = Some c -> core_task c = Some r ->
              exists t, objects s !! r = Some t /\ 1 <= time_left c /\
                        is_Some (first_start t) /\
                        (assigned_scheduler t = Some FIFO \/ assigned_scheduler t = Some IDLE ->
                         remaining t <= time_left c);
  pl_assigned : forall r t, objects s !! r = Some t ->
                  exists c, assigned_scheduler t = Some c /\ subqueue t = Some (subqueue_of c);
  pl_live : forall r t, objects s !! r = Some t -> completion_time t = None ->
              (0 < occ r s)%nat;
  pl_run : forall r t, objects s !! r = Some t -> 0 <= total_run t;
  pl_done : forall r t c, objects s !! r = Some t -> completion_time t = Some c ->
              remaining t = 0 /\ 1 <= total_run t /\ is_Some (first_start t)
}.

(** The two pid dictionaries against the object store. *)
Record Registered (s : Sched) : Prop := {
  reg_map : forall r t, objects s !! r = Some t -> is_Some (dict_get (pid t) (task_map s));
  reg_done : forall r t c, objects s !! r = Some t -> completion_time t = Some c ->
               is_Some (dict_get (pid t) (completed_tasks s));
  reg_done_pid : forall p r, dict_get p (completed_tasks s) = Some r ->
                   exists t, objects s !! r = Some t /\ pid t = p;
  reg_map_keys : NoDup (map fst (task_map s));
  reg_done_keys : NoDup (map fst (completed_tasks s))
}.

(** A [PREEMPT] row is that of an RR or of a CFS task whose quantum expired. *)
Definition preempt_ok (row : LogRow) : Prop :=
  row_event row = PREEMPT ->
  (row_assigned_scheduler row = Some RR /\ row_reason row = Some "quantum_expired"%string) \/
  (row_assigned_scheduler row = Some CFS /\ row_reason row = Some "cfs_quantum_expired"%string).

(** The counters against the event log. *)
Record Logged (s : Sched) : Prop := {
  lg_dispatch : context_switches s = Z.of_nat (count_event DISPATCH (logs s));
  lg_run : total_work (objects s) = Z.of_nat (count_event RUN (logs s));
  lg_admit : count_event ADMIT (logs s) = length (objects s);
  lg_enqueue : count_event ENQUEUE (logs s) = length (objects s);
  lg_complete : count_event COMPLETE (logs s) = completed_count (objects s);
  lg_preempt : Forall preempt_ok (logs s)
}.

(** The heap order: [a] is before [b] in the tuple order of the entries. *)
Definition entry_lt (a b : HeapEntry) : Prop := entry_ltb a b = true.

(** The CFS heap is in tuple order and its counters are below the next one. *)
Record HeapOrdered (s : Sched) : Prop := {
  ho_sorted : StronglySorted entry_lt (CFS_cfs_1 (queues s));
  ho_seq : Forall (fun e => (e_seq e < insertion_counter s)%nat) (CFS_cfs_1 (queues s))
}.

(** ** The rows a tick appends to the log *)

(** Number of [RUN] rows of core [cid]: the [core_runs] of
    [compute_aggregate_metrics]. *)
Definition core_runs (cid : nat) (l : list LogRow) : nat :=
  length (List.filter (fun row => Event_eqb (row_event row) RUN
                                  && bool_decide (row_core row = Some cid)) l).

(** A row logged while core [cid] has its turn in the tick of time [now]. *)
Definition tick_row (now : Z) (cid : nat) (row : LogRow) : Prop :=
  row_time row = now /\ row_core row = Some cid /\
  (row_event row = DISPATCH \/ row_event row = RUN \/ row_event row = PREEMPT \/
   row_event row = COMPLETE).

(** ** Driver runs *)

(** The start and completion stamps of a task at clock [b]: it started at or
    after its arrival, and completed at or after its start. *)
Definition Timed (b : Z) (t : Task) : Prop :=
  arrival_time t <= b /\
  (forall f, first_start t = Some f -> arrival_time t <= f <= b) /\
  (forall c, completion_time t = Some c ->
     exists f, first_start t = Some f /\ f <= c /\ c <= b).

Definition AllTimed (b : Z) (s : Sched) : Prop :=
  forall r t, objects s !! r = Some t -> Timed b t.

(** The ticks [n, n+1, ..., n+j-1]. *)
Definition tick_range (n : Z) (j : nat) : list Z := map (fun k => n + Z.of_nat k) (seq 0 j).

(** Time stamp and pid of the [ADMIT] rows of a log, in order. *)
Definition admit_stamps (l : list LogRow) : list (Z * option Z) :=
  map (fun row => (row_time row, row_pid row))
      (List.filter (fun row => Event_eqb (row_event row) ADMIT) l).

(** The state of a driver run after [k] iterations on the table [rows]. *)
Record Driven (rows : list Features) (k : nat) (s : Sched) : Prop := {
  dr_time : time s = Z.max 0 (Z.of_nat k - 1);
  dr_timed : AllTimed (Z.of_nat k - 1) s;
  dr_rows : map features (objects s) = flat_map (arrivals_at rows) (tick_range 0 k);
  dr_attrs : forall r t, objects s !! r = Some t ->
               arrival_time t = arrival_of (features t) /\ pid t = f_PID (features t);
  dr_admit : admit_stamps (logs s) =
               map (fun t => (Z.max 0 (arrival_time t - 1), pid t)) (objects s);
  dr_runs : forall cid, (core_runs cid (logs s) <= k)%nat
}.

(** The table is in arrival order, as the driver's [sort_values] leaves it. *)
Definition arrival_sorted (rows : list Features) : Prop :=
  StronglySorted (fun a b => arrival_of a <= arrival_of b) rows.

(** ** Progress *)

(** The ticks a task still needs: at least one while it has not completed. *)
Definition task_pending (t : Task) : Z :=
  if is_completed t then 0 else Z.max 1 (remaining t).

Definition pending (objs : list Task) : Z :=
  fold_right (fun t acc => task_pending t + acc) 0 objs.

(** The ticks the task built from a row needs when it is admitted. *)
Definition row_work (row : Features) : Z :=
  Z.max 1 (remaining (admit_remaining (Task_init row ""))).

(** The shape of the machine, which no operation changes. *)
Definition Shape (s0 s : Sched) : Prop :=
  num_cores s = num_cores s0 /\ length (cores s) = length (cores s0) /\
  core_priority_order s = core_priority_order s0.

Definition run_count (s : Sched) : Z := Z.of_nat (count_event RUN (logs s)).

(** *** The driver *)

Definition sum_work (l : list Features) : Z :=
  fold_right (fun row acc => row_work row + acc) 0 l.

(** The work of the rows the driver admits: those with a non-negative arrival tick. *)
Definition total_row_work (rows : list Features) : Z :=
  sum_work (List.filter (fun row => 0 <=? arrival_of row) rows).

Definition serves_all (s : Sched) : Prop :=
  length (cores s) = num_cores s /\ (0 < num_cores s)%nat /\
  order_get 0 (core_priority_order s) = default_order.

(** Scripts and states used as witnesses. *)
Definition fifo_done : Sched := baseline_script 4 fifo_script.

Definition rr_preempted : Sched :=
  run_script Baseline failing_clf no_uid (Sched_init 1 None 2 4%Q 42)
    [OpAdmit (mk_row 1 0 5 "SCHED_RR") 0; OpTick 0; OpTick 1].

Definition cfs_waiting : Sched :=
  run_script Baseline failing_clf no_uid (scenario_sched 1)
    [OpAdmit (cfs_row 1) 0; OpAdmit (cfs_row 2) 0].

(** ** Aggregate metrics *)

(** A pandas column of integers with missing values, with the missing values
    skipped as [mean], [median] and [quantile] do. *)
Definition dropna (col : list (option Z)) : list Z := omap id col.

Definition sum_Z (l : list Z) : Z := fold_right Z.add 0 l.

(** [Series.mean()]; [None] is NaN. *)
Definition series_mean (col : list (option Z)) : option Q :=
  match dropna col with
  | [] => None
  | vs => Some (inject_Z (sum_Z vs) / inject_Z (Z.of_nat (length vs)))%Q
  end.

Fixpoint insert_sorted (x : Z) (l : list Z) : list Z :=
  match l with
  | [] => [x]
  | y :: l' => if x <=? y then x :: l else y :: insert_sorted x l'
  end.

Definition sort_Z (l : list Z) : list Z := fold_right insert_sorted [] l.

(** [Series.median()]: the middle value, or the mean of the two middle ones. *)
Definition series_median (col : list (option Z)) : option Q :=
  match sort_Z (dropna col) with
  | [] => None
  | vs =>
      let n := length vs in
      if Nat.odd n then Some (inject_Z (nth (n / 2) vs 0))
      else Some ((inject_Z (nth (n / 2 - 1) vs 0%Z) + inject_Z (nth (n / 2) vs 0%Z)) / 2)%Q
  end.

(** [Series.quantile(q)] with the default linear interpolation. *)
Definition series_quantile (q : Q) (col : list (option Z)) : option Q :=
  match sort_Z (dropna col) with
  | [] => None
  | vs =>
      let pos := (inject_Z (Z.of_nat (length vs) - 1) * q)%Q in
      let lo := Qfloor pos in
      let frac := (pos - inject_Z lo)%Q in
      let a := nth (Z.to_nat lo) vs 0%Z in
      let b := nth (Z.to_nat (lo + 1)) vs a in
      Some (inject_Z a + inject_Z (b - a) * frac)%Q
  end.

(** The dict returned by [compute_aggregate_metrics]. *)
Record AggMetrics := {
  avg_turnaround : option Q;
  median_turnaround : option Q;
  avg_response : option Q;
  p95_response : option Q;
  fairness_index : Q;
  core_utilization : list (nat * Q);
  agg_context_switches : Z;
  tasks_total : nat;
  tasks_completed : nat
}.

(** [compute_aggregate_metrics()]; [None] is the empty dict returned when no
    task has been exported.  The source computes in floats: the [1e-9] of the
    fairness index can be absorbed by the sum of squares, so that the index of
    the source reaches 1.0 where the exact value stays below it. *)
Definition compute_aggregate_metrics (s : Sched) : option AggMetrics :=
  let df := export_task_metrics s in
  match df with
  | [] => None
  | _ :: _ =>
      let execs := map m_execution_time df in
      let total_time := Z.max 1 (time s) in
      Some {| avg_turnaround := series_mean (map m_turnaround df);
              median_turnaround := series_median (map m_turnaround df);
              avg_response := series_mean (map m_response df);
              p95_response := series_quantile 0.95 (map m_response df);
              fairness_index :=
                (inject_Z (sum_Z execs ^ 2)
                 / (inject_Z (Z.of_nat (length execs))
                    * (inject_Z (sum_Z (map (fun e => (e ^ 2)%Z) execs)) + (1 # 1000000000))))%Q;
              core_utilization :=
                map (fun cid => (cid, (inject_Z (Z.of_nat (core_runs cid (logs s)))
                                       / inject_Z total_time)%Q))
                    (seq 0 (num_cores s));
              agg_context_switches := context_switches s;
              tasks_total := length (task_map s);
              tasks_completed := length (completed_tasks s) |}
  end.

(** ** First in, first out *)

(** The pids of the rows of event [e] logged for tasks of class [c], in log order. *)
Definition class_rows (e : Event) (c : SchedClass) (l : list LogRow) : list (option Z) :=
  map row_pid
      (List.filter (fun row => Event_eqb (row_event row) e
                               && match row_assigned_scheduler row with
                                  | Some c' => SchedClass_eqb c' c
                                  | None => false
                                  end) l).

Definition pid_at (objs : list Task) (r : ref) : option Z :=
  match objs !! r with Some t => pid t | None => None end.

(** The pids of the tasks waiting in the queue of class [c], head first. *)
Definition waiting_pids (c : SchedClass) (s : Sched) : list (option Z) :=
  map (pid_at (objects s)) (class_queue c (queues s)).

(** The tasks of class [c] dispatched so far, then those still waiting, are
    the tasks of class [c] admitted so far, in admission order. *)
Definition InOrder (c : SchedClass) (s : Sched) : Prop :=
  class_rows DISPATCH c (logs s) ++ waiting_pids c s = class_rows ADMIT c (logs s).

Definition fifo_pair : Sched :=
  run_script Baseline failing_clf no_uid (scenario_sched 1)
    [OpAdmit (mk_row 1 0 2 "SCHED_FIFO") 0; OpAdmit (mk_row 2 0 2 "SCHED_FIFO") 0; OpTick 0].

(** * Properties *)

(** ** Arithmetic helpers *)

Lemma Qltb_lt (x y : Q) : Qltb x y = true <-> (x < y)%Q.
Proof.
  unfold Qltb. rewrite Qlt_alt. destruct (x ?= y)%Q; split; congruence.
Qed.

Lemma Qleb_le (x y : Q) : Qleb x y = true <-> (x <= y)%Q.
Proof.
  unfold Qleb. rewrite Qle_alt. destruct (x ?= y)%Q; split; congruence.
Qed.

Lemma Qltb_irrefl_eq (x y : Q) : (x == y)%Q -> Qltb x y = false.
Proof.
  intros H. unfold Qltb. apply Qeq_alt in H. now rewrite H.
Qed.

Lemma py_int_zero (x : Q) : (x == 0)%Q -> py_int x = 0.
Proof.
  unfold Qeq, py_int. simpl. intros H.
  replace (Qnum x) with 0 by lia. apply Z.quot_0_l. discriminate.
Qed.

Lemma py_int_Qeq (x y : Q) : (x == y)%Q -> py_int x = py_int y.
Proof.
  unfold Qeq, py_int. intros H.
  rewrite <- (Z.quot_mul_cancel_r (Qnum x) (Zpos (Qden x)) (Zpos (Qden y))) by discriminate.
  rewrite <- (Z.quot_mul_cancel_r (Qnum y) (Zpos (Qden y)) (Zpos (Qden x))) by discriminate.
  rewrite H. f_equal. apply Z.mul_comm.
Qed.

Lemma Qltb_reflect (x y : Q) : reflect (x < y)%Q (Qltb x y).
Proof. apply iff_reflect. symmetry. apply Qltb_lt. Qed.

Lemma Qleb_reflect (x y : Q) : reflect (x <= y)%Q (Qleb x y).
Proof. apply iff_reflect. symmetry. apply Qleb_le. Qed.

(** ** Task construction (task.py) *)

(** C5, as the specification states it, fails on the row without work columns:
    the constructed task has [total_time = 0], not 1. *)
Lemma task_init_total_time_not_one :
  absent_or_zero (f_Total_Time_Ticks empty_row) /\
  absent_or_zero (f_se_sum_exec_runtime empty_row) /\
  total_time (Task_init empty_row "") = 0 /\
  total_time (Task_init empty_row "") <> 1.
Proof.
  repeat split; vm_compute; congruence.
Qed.

(** C5 (amended): [Task.__init__] derives [total_time] as the integer part of
    [Total_Time_Ticks] when that column is present and positive, and otherwise
    as the integer part of [se.sum_exec_runtime] (0 when absent); there is no
    further fallback, so a row in which both columns are absent or zero yields
    [total_time = 0] and [remaining = 0]. *)
Theorem task_init_total_time (row : Features) (u : string) :
  total_time (Task_init row u) =
    match f_Total_Time_Ticks row with
    | Some ticks => if Qltb 0 ticks then py_int ticks
                    else py_int (get (f_se_sum_exec_runtime row) 0%Q)
    | None => py_int (get (f_se_sum_exec_runtime row) 0%Q)
    end /\
  remaining (Task_init row u) = total_time (Task_init row u) /\
  (absent_or_zero (f_Total_Time_Ticks row) ->
   absent_or_zero (f_se_sum_exec_runtime row) ->
   total_time (Task_init row u) = 0).
Proof.
  split; [|split].
  - cbn [Task_init total_time get].
    destruct (f_Total_Time_Ticks row) as [ticks|]; cbn [get].
    + now destruct (Qltb 0 ticks).
    + reflexivity.
  - reflexivity.
  - intros Ht Hs. cbn [Task_init total_time].
    assert (Hsum : py_int (get (f_se_sum_exec_runtime row) 0%Q) = 0).
    { destruct (f_se_sum_exec_runtime row) as [x|]; cbn [get absent_or_zero] in *.
      - now apply py_int_zero.
      - reflexivity. }
    destruct (f_Total_Time_Ticks row) as [ticks|]; cbn [get absent_or_zero] in *.
    + rewrite Qltb_irrefl_eq by (now symmetry). exact Hsum.
    + exact Hsum.
Qed.

Lemma task_init_total_time_witness :
  absent_or_zero (f_Total_Time_Ticks empty_row) /\
  absent_or_zero (f_se_sum_exec_runtime empty_row) /\
  total_time (Task_init empty_row "") = 0.
Proof.
  split; [exact I | split; [exact I |]].
  apply (task_init_total_time empty_row ""); exact I.
Defined.

(** ** The RR quantum of the AI scheduler *)

Lemma admit_rr_quantum_piecewise (t : Task) (score : Q) :
  subqueue_score t = Some score -> admit_rr_quantum t = rr_quantum_piecewise score.
Proof.
  intros Hs. unfold admit_rr_quantum, rr_quantum_piecewise, score_or. rewrite Hs. cbn [get].
  destruct (Qleb_reflect score 2.5) as [H1|H1].
  - destruct (Qltb_reflect score 2.5) as [H2|H2]; [reflexivity|].
    destruct (Qltb_reflect 3.15 score) as [H3|H3]; [lra|].
    assert (E : (score == 2.5)%Q) by lra.
    symmetry. transitivity (py_int 100%Q); [|reflexivity].
    apply py_int_Qeq. rewrite E. reflexivity.
  - destruct (Qltb_reflect score 2.5) as [H2|H2]; [lra|].
    destruct (Qleb_reflect 3.15 score) as [H3|H3].
    + destruct (Qltb_reflect 3.15 score) as [H4|H4]; [reflexivity|].
      assert (E : (score == 3.15)%Q) by lra.
      symmetry. transitivity (py_int 200%Q); [|reflexivity].
      apply py_int_Qeq. rewrite E. reflexivity.
    + destruct (Qltb_reflect 3.15 score) as [H4|H4]; [lra|]. reflexivity.
Qed.

(** The two copies of the formula in the source are the same text. *)
Lemma dispatch_rr_quantum_eq_admit (t : Task) : dispatch_rr_quantum t = admit_rr_quantum t.
Proof. reflexivity. Qed.

Lemma score_admit_remaining (t : Task) :
  subqueue_score (admit_remaining t) = subqueue_score t.
Proof. unfold admit_remaining. now destruct (remaining t =? 0). Qed.

Lemma score_assign_scheduler (t : Task) :
  subqueue_score (_assign_scheduler_and_subqueue t) = subqueue_score t.
Proof.
  unfold _assign_scheduler_and_subqueue.
  repeat match goal with |- context [if ?b then _ else _] => destruct b end; reflexivity.
Qed.

Lemma score_compute (t : Task) :
  exists score, subqueue_score (_compute_subqueue_score t) = Some score.
Proof.
  unfold _compute_subqueue_score.
  destruct (_map_numeric_labels _ _ _ _) as [[[R I'] E] P]. eexists. reflexivity.
Qed.

Lemma score_ai_admit_task (clf : Classifier) (t : Task) :
  exists score, subqueue_score (ai_admit_task clf t) = Some score.
Proof.
  destruct (score_compute (_classify_task clf t)) as [score Hs].
  exists score. unfold ai_admit_task.
  set (t2 := admit_remaining _).
  assert (H2 : subqueue_score t2 = Some score)
    by (unfold t2; now rewrite score_admit_remaining).
  set (t3 := if String.eqb (sched_pol t2) "SCHED_FIFO" then _ else _).
  assert (H3 : subqueue_score t3 = Some score).
  { unfold t3.
    repeat match goal with |- context [if ?b then _ else _] => destruct b end;
      try exact H2. now rewrite score_assign_scheduler. }
  destruct (assigned_scheduler (admit_vruntime_weight t3)) as [[]|]; exact H3.
Qed.

(** The two copies of the RR quantum formula, in [admit] and in
    [_dispatch_to_core], are one and the same piecewise-linear function of
    [subqueue_score]: 100 below 2.5, 200 above 3.15, and the integer part of
    [100 + ((score - 2.5) / (3.15 - 2.5)) * 100] in between. *)
Lemma ai_rr_quantum_formulas (clf : Classifier) (t0 : Task) (s : Sched) :
  let t := ai_admit_task clf t0 in
  exists score,
    subqueue_score t = Some score /\
    admit_rr_quantum t = rr_quantum_piecewise score /\
    dispatch_rr_quantum t = rr_quantum_piecewise score /\
    dispatch_quantum AI RR t s = rr_quantum_piecewise score /\
    (assigned_scheduler t = Some RR -> quantum t = Some (rr_quantum_piecewise score)).
Proof.
  intros t. destruct (score_ai_admit_task clf t0) as [score Hs]. fold t in Hs.
  exists score.
  assert (Hq : assigned_scheduler t = Some RR -> quantum t = Some (rr_quantum_piecewise score)).
  { revert Hs. unfold t, ai_admit_task.
    set (t4 := admit_vruntime_weight _).
    destruct (assigned_scheduler t4) as [[]|] eqn:E; intros Hs Hrr;
      try (rewrite E in Hrr; discriminate).
    cbn [quantum set_quantum]. f_equal.
    apply admit_rr_quantum_piecewise. exact Hs. }
  clearbody t.
  pose proof (admit_rr_quantum_piecewise t score Hs) as Ha.
  split; [exact Hs|]. split; [exact Ha|].
  split; [now rewrite dispatch_rr_quantum_eq_admit|].
  split; [|exact Hq].
  cbn [dispatch_quantum]. now rewrite dispatch_rr_quantum_eq_admit.
Qed.

(** ** Assignment in the AI scheduler *)

Lemma features_classify (clf : Classifier) (t : Task) :
  features (_classify_task clf t) = features t.
Proof.
  unfold _classify_task.
  repeat match goal with |- context [match clf ?f ?c with _ => _ end] => destruct (clf f c) end;
    reflexivity.
Qed.

Lemma features_compute_score (t : Task) : features (_compute_subqueue_score t) = features t.
Proof.
  unfold _compute_subqueue_score.
  now destruct (_map_numeric_labels _ _ _ _) as [[[R I'] E] P].
Qed.

Lemma features_admit_remaining (t : Task) : features (admit_remaining t) = features t.
Proof. unfold admit_remaining. now destruct (remaining t =? 0). Qed.

Lemma ai_admit_task_rules (clf : Classifier) (t0 : Task) :
  sched_pol t0 <> "SCHED_FIFO"%string ->
  sched_pol t0 <> "SCHED_RR"%string ->
  sched_pol t0 <> "SCHED_IDLE"%string ->
  let t := ai_admit_task clf t0 in
  (assigned_scheduler t, subqueue t) = ai_rule_assignment t.
Proof.
  intros H1 H2 H3 t. unfold t, ai_admit_task.
  set (t2 := admit_remaining (_compute_subqueue_score (_classify_task clf t0))).
  assert (Hp : sched_pol t2 = sched_pol t0).
  { unfold sched_pol, t2.
    now rewrite features_admit_remaining, features_compute_score, features_classify. }
  apply String.eqb_neq in H1, H2, H3.
  unfold _assign_scheduler_and_subqueue. rewrite Hp, H1, H2, H3.
  unfold ai_rule_assignment, score_or.
  destruct (label_is (interactivity t2) "Real-time") eqn:E1.
  { cbn. now rewrite E1. }
  destruct ((label_is (interactivity t2) "Interactive" && label_is (execution_class t2) "Short"
             && label_is (priority_class t2) "High"
             || Qltb 2.6 (get (subqueue_score t2) 0%Q))%bool) eqn:E2.
  { cbn. now rewrite E1, E2. }
  cbn. now rewrite E1, E2.
Qed.

(** What the queue helpers leave untouched. *)
Lemma objects_log (e : Event) (t : Task) (c : option nat) (x : option string) (s : Sched) :
  objects (_log e t c x s) = objects s.
Proof. reflexivity. Qed.

Lemma objects_enqueue (r : ref) (t : Task) (s : Sched) :
  objects (_enqueue_task r t s) = objects s.
Proof.
  unfold _enqueue_task. rewrite objects_log.
  now destruct (get (assigned_scheduler t) CFS).
Qed.

(** The object that [admit] leaves in the store for a freshly built task. *)
Lemma admit_row_object (v : Variant) (clf : Classifier) (u : string) (row : Features)
    (current_time : Z) (s : Sched) :
  objects (admit_row v clf u row current_time s) !! length (objects s) =
    Some (admit_task v clf (rr_quantum s) (Task_init row u)).
Proof.
  unfold admit_row, sched_admit. cbn [objects set_objects].
  rewrite list_lookup_middle by reflexivity.
  rewrite objects_enqueue, objects_log. cbn [objects set_objects set_task_map].
  rewrite list_lookup_insert_eq by (rewrite length_app; cbn [length]; lia).
  reflexivity.
Qed.

Lemma admit_task_AI (clf : Classifier) (rrq : Z) (t : Task) :
  admit_task AI clf rrq t = ai_admit_task clf t.
Proof. reflexivity. Qed.

Lemma admit_task_Baseline (clf : Classifier) (rrq : Z) (t : Task) :
  admit_task Baseline clf rrq t = baseline_admit_task rrq t.
Proof. reflexivity. Qed.

(** Rules 4 to 6 do not apply to every policy other than the three names as
    written: [admit] compares the upper-cased policy, so a row whose policy is
    written sched_fifo, which is none of the three names, is assigned FIFO by
    the explicit rule although rules 4 to 6 give CFS for its labels and
    score. *)
Lemma lowercase_policy_is_explicit :
  let row := mk_row 1 0 10 "sched_fifo" in
  f_Scheduling_Policy row = Some "sched_fifo"%string /\
  "sched_fifo"%string <> "SCHED_FIFO"%string /\
  "sched_fifo"%string <> "SCHED_RR"%string /\
  "sched_fifo"%string <> "SCHED_IDLE"%string /\
  exists t,
    objects (admit_row AI failing_clf "" row 0 (Sched_init 4 None 100 4%Q 42)) !! 0%nat
      = Some t /\
    assigned_scheduler t = Some FIFO /\
    ai_rule_assignment t = (Some CFS, Some cfs_1).
Proof.
  intros row. split; [reflexivity|]. repeat (split; [discriminate|]).
  eexists. split; [vm_compute; reflexivity|]. split; reflexivity.
Qed.

(** C8: in the AI scheduler, a task whose [Scheduling_Policy] is ASCII text
    and, upper-cased as [admit] reads it, is none of SCHED_FIFO, SCHED_RR,
    SCHED_IDLE is assigned by the remaining rules, first match first:
    Real-time gives FIFO/fifo_1; Interactive and Short and High, or a score
    above 2.6, gives RR/rr_1; anything else CFS/cfs_1.  In particular a
    Real-time task is assigned FIFO whatever such policy it carries
    (SCHED_OTHER for one). *)
Theorem ai_assignment_rules (clf : Classifier) (u : string) (row : Features)
    (current_time : Z) (s : Sched) :
  ascii_text (get (f_Scheduling_Policy row) "") = true ->
  row_policy row <> "SCHED_FIFO"%string ->
  row_policy row <> "SCHED_RR"%string ->
  row_policy row <> "SCHED_IDLE"%string ->
  exists t,
    objects (admit_row AI clf u row current_time s) !! length (objects s) = Some t /\
    (assigned_scheduler t, subqueue t) = ai_rule_assignment t /\
    (interactivity t = Some "Real-time"%string ->
     assigned_scheduler t = Some FIFO /\ subqueue t = Some fifo_1).
Proof.
  intros _ H1 H2 H3.
  assert (Hp : sched_pol (Task_init row u) = row_policy row) by reflexivity.
  rewrite <- Hp in H1, H2, H3.
  pose proof (ai_admit_task_rules clf (Task_init row u) H1 H2 H3) as Hr. cbv zeta in Hr.
  pose proof (admit_row_object AI clf u row current_time s) as Ho.
  rewrite admit_task_AI in Ho.
  revert Hr Ho. generalize (ai_admit_task clf (Task_init row u)). intros t Hr Ho.
  exists t. split; [exact Ho|]. split; [exact Hr|].
  intros Hrt. unfold ai_rule_assignment in Hr. rewrite Hrt in Hr.
  change (label_is (Some "Real-time"%string) "Real-time") with true in Hr.
  now inversion Hr.
Qed.

Lemma ai_assignment_rules_witness :
  ascii_text (get (f_Scheduling_Policy realtime_row) "") = true /\
  row_policy realtime_row = "SCHED_OTHER"%string /\
  exists t,
    objects (admit_row AI realtime_clf "" realtime_row 0 (Sched_init 4 None 100 4%Q 42)) !! 0%nat
      = Some t /\
    assigned_scheduler t = Some FIFO.
Proof.
  split; [reflexivity|]. split; [reflexivity|].
  destruct (ai_assignment_rules realtime_clf "" realtime_row 0 (Sched_init 4 None 100 4%Q 42))
    as (t & Ht & _ & Hrt); try (vm_compute; congruence).
  exists t. split; [exact Ht|].
  apply Hrt. vm_compute in Ht. injection Ht as <-. reflexivity.
Defined.

Lemma ai_rr_quantum_formulas_example :
  assigned_scheduler (ai_admit_task promoted_clf (Task_init realtime_row "")) = Some RR /\
  quantum (ai_admit_task promoted_clf (Task_init realtime_row "")) = Some 169.
Proof.
  split; [reflexivity|].
  destruct (ai_rr_quantum_formulas promoted_clf (Task_init realtime_row "")
              (Sched_init 4 None 100 4%Q 42)) as (score & Hs & _ & _ & _ & Hq).
  rewrite Hq by reflexivity.
  vm_compute in Hs. injection Hs as <-. reflexivity.
Qed.

(** ** The CFS heap and lazy invalidation *)

Lemma snapshot_valid_fresh (t : Task) : snapshot_valid t (vruntime t) = true.
Proof.
  unfold snapshot_valid. apply Qltb_lt.
  assert (E : (vruntime t - vruntime t == 0)%Q) by ring.
  rewrite E. reflexivity.
Qed.

Lemma snapshot_valid_iff (t : Task) (vr : Q) :
  snapshot_valid t vr = true <-> (Qabs (vruntime t - vr) < 1e-6)%Q.
Proof. apply Qltb_lt. Qed.

Lemma snapshot_stale_iff (t : Task) (vr : Q) :
  snapshot_valid t vr = false <-> (1e-6 <= Qabs (vruntime t - vr))%Q.
Proof.
  unfold snapshot_valid. destruct (Qltb_reflect (Qabs (vruntime t - vr)) 1e-6) as [H|H].
  - split; [discriminate | intros H'; lra].
  - split; [intros _; lra | reflexivity].
Qed.

Lemma heappush_Forall (P : HeapEntry -> Prop) (heap : list HeapEntry) (x : HeapEntry) :
  P x -> Forall P heap -> Forall P (heappush heap x).
Proof.
  intros Hx. induction 1 as [|y heap Hy Hh IH]; cbn [heappush].
  - now constructor.
  - destruct (entry_ltb x y); now repeat constructor.
Qed.

Lemma heappush_stale_count (objs : list Task) (heap : list HeapEntry) (x : HeapEntry) :
  stale_count objs (heappush heap x) =
    ((if is_stale objs x then 1 else 0) + stale_count objs heap)%nat.
Proof.
  unfold stale_count. induction heap as [|y heap IH]; cbn [heappush List.filter].
  - now destruct (is_stale objs x).
  - destruct (entry_ltb x y); cbn [List.filter].
    + now destruct (is_stale objs x), (is_stale objs y).
    + destruct (is_stale objs y); cbn [length]; rewrite IH;
        destruct (is_stale objs x); lia.
Qed.

Lemma heappush_length (heap : list HeapEntry) (x : HeapEntry) :
  length (heappush heap x) = S (length heap).
Proof.
  induction heap as [|y heap IH]; cbn [heappush]; [reflexivity|].
  destruct (entry_ltb x y); cbn [length]; now rewrite ?IH.
Qed.

Lemma stale_count_le_length (objs : list Task) (heap : list HeapEntry) :
  (stale_count objs heap <= length heap)%nat.
Proof. unfold stale_count. apply List.filter_length_le. Qed.

(** The loop returns as soon as it has more fuel than there are stale entries,
    and what it returns is a run of the loop as the specification words it. *)
Lemma cfs_pop_min_loop_run (objs : list Task) (fuel : nat) :
  forall (heap : list HeapEntry) (counter : nat),
    entries_bound objs heap ->
    (stale_count objs heap < fuel)%nat ->
    exists res heap' counter',
      _cfs_pop_min_loop fuel objs heap counter = Returned res heap' counter' /\
      pop_min_run objs heap counter res heap' counter' /\
      (heap <> [] -> is_Some res).
Proof.
  induction fuel as [|fuel IH]; intros heap counter Hb Hf; [lia|].
  destruct heap as [|e heap']; cbn [_cfs_pop_min_loop heappop].
  - exists None, [], counter. repeat split; [constructor | congruence].
  - inversion Hb as [|? ? [t Ht] Hb']; subst. rewrite Ht.
    destruct (snapshot_valid t (e_vr e)) eqn:Ev.
    + exists (Some (e_task e)), heap', counter. repeat split.
      * eapply run_match; [reflexivity | exact Ht | now apply snapshot_valid_iff].
      * intros _. now eexists.
    + set (fresh := {| e_vr := vruntime t; e_seq := counter;
                       e_pid := pid t; e_task := e_task e |}).
      assert (Hfresh : is_stale objs fresh = false).
      { unfold is_stale, fresh. cbn [e_task e_vr]. rewrite Ht.
        now rewrite snapshot_valid_fresh. }
      destruct (IH (heappush heap' fresh) (S counter)) as (res & h'' & c'' & Hl & Hr & Hs).
      * apply heappush_Forall; [|exact Hb']. unfold fresh. cbn [e_task]. now exists t.
      * rewrite heappush_stale_count, Hfresh.
        unfold stale_count in Hf |- *. cbn [List.filter] in Hf.
        unfold is_stale in Hf at 1. rewrite Ht, Ev in Hf. cbn [negb length] in Hf. lia.
      * exists res, h'', c''. split; [exact Hl|]. split.
        -- eapply run_stale; [reflexivity | exact Ht | now apply snapshot_stale_iff | exact Hr].
        -- intros _. apply Hs. intros E.
           pose proof (heappush_length heap' fresh) as Hlen. rewrite E in Hlen. discriminate.
Qed.

(** More fuel does not change a result. *)
Lemma cfs_pop_min_loop_mono (objs : list Task) (fuel fuel' : nat) :
  (fuel <= fuel')%nat ->
  forall heap counter res heap' counter',
    _cfs_pop_min_loop fuel objs heap counter = Returned res heap' counter' ->
    _cfs_pop_min_loop fuel' objs heap counter = Returned res heap' counter'.
Proof.
  revert fuel'. induction fuel as [|fuel IH]; intros fuel' Hle heap counter res heap' counter';
    [discriminate|].
  destruct fuel' as [|fuel']; [lia|]. cbn [_cfs_pop_min_loop].
  destruct (heappop heap) as [[e h]|]; [|trivial].
  destruct (objs !! e_task e) as [t|]; [|trivial].
  destruct (snapshot_valid t (e_vr e)); [trivial|].
  apply IH. lia.
Qed.

(** On finite vruntimes, and a heap whose entries all reference tasks,
    [_cfs_pop_min] terminates:
    its loop returns within one iteration per stale entry plus one, the result
    is a run that pops, reinserts a fresh entry for every popped snapshot that
    is at least 1e-6 away from the live vruntime, and stops at the first popped
    snapshot within 1e-6; on a non-empty heap it returns a task, never [None]. *)
Theorem cfs_pop_min_terminates (s : Sched) :
  entries_bound (objects s) (CFS_cfs_1 (queues s)) ->
  exists res heap' counter',
    (forall fuel, (stale_count (objects s) (CFS_cfs_1 (queues s)) < fuel)%nat ->
       _cfs_pop_min_loop fuel (objects s) (CFS_cfs_1 (queues s)) (insertion_counter s)
         = Returned res heap' counter') /\
    _cfs_pop_min s =
      (res, set_insertion_counter counter'
              (set_queues (set_CFS_cfs_1 heap' (queues s)) s)) /\
    pop_min_run (objects s) (CFS_cfs_1 (queues s)) (insertion_counter s) res heap' counter' /\
    (CFS_cfs_1 (queues s) <> [] -> exists r t, res = Some r /\ objects s !! r = Some t).
Proof.
  intros Hb.
  set (heap := CFS_cfs_1 (queues s)) in *.
  assert (Hlen : (stale_count (objects s) heap < S (length heap))%nat)
    by (pose proof (stale_count_le_length (objects s) heap); lia).
  destruct (cfs_pop_min_loop_run (objects s) (S (length heap)) heap (insertion_counter s)
              Hb Hlen) as (res & heap' & counter' & Hl & Hr & Hs).
  exists res, heap', counter'. split; [|split; [|split]].
  - intros fuel Hf.
    destruct (cfs_pop_min_loop_run (objects s) fuel heap (insertion_counter s) Hb Hf)
      as (res2 & heap2 & counter2 & Hl2 & _ & _).
    rewrite Hl2.
    apply (cfs_pop_min_loop_mono _ _ (Nat.max fuel (S (length heap)))) in Hl2; [|lia].
    apply (cfs_pop_min_loop_mono _ _ (Nat.max fuel (S (length heap)))) in Hl; [|lia].
    congruence.
  - unfold _cfs_pop_min. fold heap. now rewrite Hl.
  - exact Hr.
  - intros Hne. destruct (Hs Hne) as [r Hres]. subst res.
    clear Hl Hs Hlen. remember (Some r) as res eqn:Eres.
    induction Hr as [c | h c e h' t He Ht Hv | h c e h' t r' h'' c'' He Ht Hv Hr IH].
    + discriminate.
    + injection Eres as <-. now exists (e_task e), t.
    + apply IH; [|exact Eres|].
      * apply heappush_Forall; [cbn [e_task]; now exists t|].
        destruct h; [discriminate|]. injection He as <- <-. now inversion Hb.
      * intros E. pose proof (heappush_length h' {| e_vr := vruntime t; e_seq := c;
                                                   e_pid := pid t; e_task := e_task e |}) as L.
        rewrite E in L. discriminate.
Qed.

Lemma cfs_pop_min_terminates_witness :
  entries_bound (objects stale_state) (CFS_cfs_1 (queues stale_state)) /\
  fst (_cfs_pop_min stale_state) = Some 0%nat.
Proof.
  assert (Hb : entries_bound (objects stale_state) (CFS_cfs_1 (queues stale_state))).
  { repeat constructor. eexists. reflexivity. }
  split; [exact Hb|].
  destruct (cfs_pop_min_terminates stale_state Hb) as (res & h & c & _ & Hp & _ & Hs).
  rewrite Hp. cbn [fst].
  destruct Hs as (r & t & -> & Ht); [discriminate|].
  apply lookup_lt_Some in Ht. cbn in Ht. f_equal. lia.
Defined.

(** ** End-to-end scenarios of the baseline scheduler *)

(** C1 (the code at the failing input): with two CFS tasks of weight 1024
    arriving at t=0 on one core, the first dispatch sets the quantum to 48,
    not to [floor(48*1024/2048) = 24]: the dispatched task has been popped
    before the weights are summed, so the sum is 1024.  A task alone in the
    queue gets the same 48 through the fallback to its own weight. *)
Theorem baseline_cfs_first_quantum :
  let s := baseline_script 1 [OpAdmit (cfs_row 1) 0; OpAdmit (cfs_row 2) 0; OpTick 0] in
  dispatch_quanta s = [Some 48] /\
  hd None (dispatch_quanta s) <> Some 24 /\
  hd None (dispatch_quanta (baseline_script 1 cfs_script)) = Some 48 /\
  baseline_run 1 cfs_rows = Some (baseline_script 1 cfs_script) /\
  dispatch_quanta (baseline_script 1 [OpAdmit (cfs_row 1) 0; OpTick 0]) = [Some 48].
Proof.
  vm_compute. repeat split; congruence.
Qed.

(** C2, as the specification states it, fails on its own scenario: the single
    FIFO task of 10 ticks completes at t=9 and its exported turnaround is 9,
    which is neither 10 nor at least [total_time]. *)
Lemma fifo_turnaround_not_ten :
  let s := baseline_script 4 fifo_script in
  baseline_run 4 fifo_rows = Some s /\
  map m_turnaround (export_task_metrics s) = [Some 9] /\
  map m_turnaround (export_task_metrics s) <> [Some 10] /\
  map total_time (objects s) = [10].
Proof.
  vm_compute. repeat split; congruence.
Qed.

(** C3, as the specification states it, fails on its own scenario: the run
    performs six dispatches, so [context_switches] is 6, and the first
    preemption is logged at t=99. *)
Lemma rr_context_switches_not_five :
  let s := baseline_script 1 rr_script in
  baseline_run 1 rr_rows = Some s /\
  context_switches s = 6 /\ context_switches s <> 5 /\
  In (99, PREEMPT, Some 1) (transitions s) /\
  ~ In (100, PREEMPT, Some 1) (transitions s).
Proof.
  vm_compute. repeat split; try congruence.
  - tauto.
  - intros H. repeat (destruct H as [H|H]; [discriminate|]). exact H.
Qed.

(** C3 (amended): with one core, [rr_quantum=100] and two RR tasks of 250
    ticks arriving at t=0, pid 1 is dispatched at t=0 and preempted at t=99,
    pid 2 is dispatched at t=100 and preempted at t=199, and so on in quanta
    of 100 ticks; pid 1 is dispatched for its last 50 ticks at t=400 and
    completes at t=449, pid 2 at t=450 and completes at t=499, so both complete
    before t=500; the six dispatches give [context_switches = 6].  The driver
    loop stops in this state. *)
Theorem rr_two_tasks_schedule :
  let s := baseline_script 1 rr_script in
  transitions s =
    [(0, ADMIT, Some 1); (0, ENQUEUE, Some 1); (0, ADMIT, Some 2); (0, ENQUEUE, Some 2);
     (0, DISPATCH, Some 1); (99, PREEMPT, Some 1);
     (100, DISPATCH, Some 2); (199, PREEMPT, Some 2);
     (200, DISPATCH, Some 1); (299, PREEMPT, Some 1);
     (300, DISPATCH, Some 2); (399, PREEMPT, Some 2);
     (400, DISPATCH, Some 1); (449, COMPLETE, Some 1);
     (450, DISPATCH, Some 2); (499, COMPLETE, Some 2)] /\
  dispatch_quanta s = repeat (Some 100) 6 /\
  map completion_time (objects s) = [Some 449; Some 499] /\
  context_switches s = 6 /\
  baseline_run 1 rr_rows = Some s.
Proof.
  vm_compute. repeat split.
Qed.

(** ** Occupancy counting *)

Lemma cnt_app (r : ref) (l k : list ref) : cnt r (l ++ k) = (cnt r l + cnt r k)%nat.
Proof. apply count_occ_app. Qed.

Lemma cnt_cons (r x : ref) (l : list ref) :
  cnt r (x :: l) = ((if Nat.eq_dec x r then 1 else 0) + cnt r l)%nat.
Proof. unfold cnt. cbn [count_occ]. now destruct (Nat.eq_dec x r). Qed.

Lemma cnt_nil (r : ref) : cnt r [] = 0%nat.
Proof. reflexivity. Qed.

Lemma cnt_heappush (r : ref) (heap : list HeapEntry) (x : HeapEntry) :
  cnt r (heap_refs (heappush heap x)) =
    ((if Nat.eq_dec (e_task x) r then 1 else 0) + cnt r (heap_refs heap))%nat.
Proof.
  induction heap as [|y heap IH]; cbn [heappush heap_refs map].
  - now rewrite cnt_cons.
  - destruct (entry_ltb x y); cbn [heap_refs map]; rewrite !cnt_cons.
    + reflexivity.
    + unfold heap_refs in IH. rewrite IH. lia.
Qed.

Lemma core_cnt_task (r : ref) (c : Core) :
  core_cnt r c = match core_task c with
                 | Some x => if Nat.eq_dec x r then 1%nat else 0%nat
                 | None => 0%nat
                 end.
Proof.
  unfold core_cnt, running. cbn [omap list_omap].
  destruct (core_task c) as [x|]; [|reflexivity].
  rewrite cnt_cons, cnt_nil. now destruct (Nat.eq_dec x r).
Qed.

Lemma running_cons (c : Core) (cs : list Core) (r : ref) :
  cnt r (running (c :: cs)) = (core_cnt r c + cnt r (running cs))%nat.
Proof.
  rewrite core_cnt_task. unfold running. cbn [omap list_omap].
  destruct (core_task c); [now rewrite cnt_cons | reflexivity].
Qed.

(** Replacing the core [cid] exchanges its contribution. *)
Lemma running_insert (cs : list Core) (cid : nat) (c c' : Core) (r : ref) :
  cs !! cid = Some c ->
  (cnt r (running (<[cid := c']> cs)) + core_cnt r c =
   cnt r (running cs) + core_cnt r c')%nat.
Proof.
  revert cid. induction cs as [|c0 cs IH]; intros [|cid] H; try discriminate.
  - injection H as ->. cbn [insert list_insert]. rewrite !running_cons. lia.
  - change (<[S cid := c']> (c0 :: cs)) with (c0 :: <[cid := c']> cs).
    rewrite !running_cons. specialize (IH cid H). lia.
Qed.

Lemma cnt_pos_elem (r : ref) (l : list ref) : (0 < cnt r l)%nat <-> In r l.
Proof. unfold cnt. symmetry. apply count_occ_In. Qed.

Lemma key_eqb_eq (a b : option Z) : key_eqb a b = true <-> a = b.
Proof.
  destruct a as [x|], b as [y|]; cbn; try (split; congruence).
  rewrite Z.eqb_eq. split; congruence.
Qed.

Lemma dict_get_set (k k' : option Z) (v : ref) (d : list (option Z * ref)) :
  dict_get k (dict_set k' v d) = if key_eqb k k' then Some v else dict_get k d.
Proof.
  induction d as [|[k0 v0] d IH]; cbn [dict_set dict_get].
  - now destruct (key_eqb k k').
  - destruct (key_eqb k' k0) eqn:E0; cbn [dict_get].
    + apply key_eqb_eq in E0. subst k0. now destruct (key_eqb k k').
    + destruct (key_eqb k k0) eqn:E1.
      * destruct (key_eqb k k') eqn:E2; [|reflexivity].
        apply key_eqb_eq in E1, E2. subst. rewrite (proj2 (key_eqb_eq k0 k0) eq_refl) in E0.
        discriminate.
      * exact IH.
Qed.

(** ** Preservation of the invariant *)

(** Places may be vacated, and heap entries dropped or added fresh. *)
Lemma Inv_frame (s s' : Sched) :
  Inv s ->
  objects s' = objects s ->
  completed_tasks s' = completed_tasks s ->
  (forall x, (occ x s' <= occ x s)%nat) ->
  Forall (fun e => In e (CFS_cfs_1 (queues s)) \/ entry_fresh (objects s) e)
         (CFS_cfs_1 (queues s')) ->
  Inv s'.
Proof.
  intros [Hn Hb Hh Hw Hl Hd] Ho Hc Hocc Hheap. constructor; rewrite ?Ho, ?Hc.
  - intros r. specialize (Hocc r). specialize (Hn r). lia.
  - intros r Hr. apply Hb. specialize (Hocc r). lia.
  - eapply Forall_impl; [exact Hheap|]. intros e [Hin|Hf]; [|exact Hf].
    rewrite List.Forall_forall in Hh. now apply Hh.
  - intros r t Ht Htt. destruct (Hw r t Ht Htt) as [Hsum Hrem]. split; [exact Hsum|].
    intros Hr. apply Hrem. specialize (Hocc r). lia.
  - intros r t Ht Hr. apply (Hl r t Ht). specialize (Hocc r). lia.
  - exact Hd.
Qed.

(** The task [r], which is queued or running, is updated to [t'] while places
    are vacated or exchanged; this covers a dispatch and a run of one tick. *)
Lemma Inv_step (s s' : Sched) (r : ref) (t t' : Task) :
  Inv s ->
  objects s !! r = Some t ->
  (0 < occ r s)%nat ->
  objects s' = <[r := t']> (objects s) ->
  (forall x, (occ x s' <= occ x s)%nat) ->
  Forall (fun e => (In e (CFS_cfs_1 (queues s)) /\ (e_task e = r -> vruntime t' = vruntime t))
                   \/ (e_task e = r /\ e_vr e = vruntime t'))
         (CFS_cfs_1 (queues s')) ->
  total_time t' = total_time t ->
  (1 <= total_time t ->
   remaining t + total_run t = total_time t -> 1 <= remaining t ->
   remaining t' + total_run t' = total_time t /\ ((0 < occ r s')%nat -> 1 <= remaining t')) ->
  ((0 < occ r s')%nat -> completion_time t' = None) ->
  (completed_tasks s' = completed_tasks s \/
   exists p c, completed_tasks s' = dict_set p r (completed_tasks s) /\
               completion_time t' = Some c /\ remaining t' <= 0) ->
  Inv s'.
Proof.
  intros [Hn Hb Hh Hw Hl Hd] Ht Hr Ho Hocc Hheap Htt Hwork Hlive Hdone.
  assert (Hlen : (r < length (objects s))%nat) by (eapply lookup_lt_Some; exact Ht).
  assert (Hget : forall x, objects s' !! x = if Nat.eq_dec x r then Some t' else objects s !! x).
  { intros x. rewrite Ho. destruct (Nat.eq_dec x r) as [->|Hne].
    - now apply list_lookup_insert_eq.
    - apply list_lookup_insert_ne. congruence. }
  constructor.
  - intros x. specialize (Hocc x). specialize (Hn x). lia.
  - intros x Hx. rewrite Ho, length_insert. apply Hb. specialize (Hocc x). lia.
  - eapply Forall_impl; [exact Hheap|]. intros e [[Hin Hv]|[He Hv]].
    + rewrite List.Forall_forall in Hh. destruct (Hh e Hin) as (te & Hte & Hvr).
      unfold entry_fresh. rewrite Hget. destruct (Nat.eq_dec (e_task e) r) as [E|E].
      * exists t'. split; [reflexivity|]. rewrite E in Hte.
        replace te with t in * by congruence. rewrite (Hv E). exact Hvr.
      * now exists te.
    + unfold entry_fresh. rewrite Hget, He. destruct (Nat.eq_dec r r); [|congruence].
      now exists t'.
  - intros x tx Hx Htx. rewrite Hget in Hx. destruct (Nat.eq_dec x r) as [->|Hne].
    + injection Hx as <-. rewrite Htt in Htx |- *.
      destruct (Hw r t Ht Htx) as [Hsum Hrem]. apply Hwork; auto.
    + destruct (Hw x tx Hx Htx) as [Hsum Hrem]. split; [exact Hsum|].
      intros Hpos. apply Hrem. specialize (Hocc x). lia.
  - intros x tx Hx Hpos. rewrite Hget in Hx. destruct (Nat.eq_dec x r) as [->|Hne].
    + injection Hx as <-. now apply Hlive.
    + apply (Hl x tx Hx). specialize (Hocc x). lia.
  - assert (Hold : forall p x, dict_get p (completed_tasks s) = Some x ->
               exists tx c, objects s' !! x = Some tx /\ completion_time tx = Some c /\
                            remaining tx <= 0).
    { intros p x Hp. destruct (Hd p x Hp) as (tx & c & Hx & Hc & Hrem).
      rewrite Hget. destruct (Nat.eq_dec x r) as [->|Hne].
      - replace tx with t in * by congruence. rewrite (Hl r t Ht Hr) in Hc. discriminate.
      - now exists tx, c. }
    destruct Hdone as [Hc | (p & c & Hc & Hct & Hrem)]; rewrite Hc; [exact Hold|].
    intros p' x. rewrite dict_get_set. destruct (key_eqb p' p); [|apply Hold].
    intros [= <-]. exists t', c. rewrite Hget. destruct (Nat.eq_dec r r); [|congruence].
    now repeat split.
Qed.

(** A fresh task object [t] is allocated and placed once. *)
Lemma Inv_alloc (s s' : Sched) (t : Task) :
  Inv s ->
  objects s' = objects s ++ [t] ->
  completed_tasks s' = completed_tasks s ->
  (forall x, occ x s' = ((if Nat.eq_dec (length (objects s)) x then 1 else 0) + occ x s)%nat) ->
  Forall (fun e => In e (CFS_cfs_1 (queues s))
                   \/ (e_task e = length (objects s) /\ e_vr e = vruntime t))
         (CFS_cfs_1 (queues s')) ->
  (1 <= total_time t -> remaining t + total_run t = total_time t /\ 1 <= remaining t) ->
  completion_time t = None ->
  Inv s'.
Proof.
  intros [Hn Hb Hh Hw Hl Hd] Ho Hc Hocc Hheap Hwork Hnone.
  assert (Hget : forall x, objects s' !! x =
            if Nat.eq_dec (length (objects s)) x then Some t else objects s !! x).
  { intros x. rewrite Ho. destruct (Nat.eq_dec (length (objects s)) x) as [<-|Hne].
    - now apply list_lookup_middle.
    - destruct (Nat.lt_ge_cases x (length (objects s))).
      + now apply lookup_app_l.
      + rewrite !lookup_ge_None_2; [reflexivity | lia | rewrite length_app; cbn; lia]. }
  assert (Hfresh : occ (length (objects s)) s = 0%nat).
  { destruct (occ (length (objects s)) s) eqn:E; [reflexivity|].
    assert (Hlt := Hb (length (objects s))). rewrite E in Hlt. lia. }
  constructor.
  - intros x. rewrite Hocc. destruct (Nat.eq_dec (length (objects s)) x) as [<-|Hne].
    + rewrite Hfresh. lia.
    + apply Hn.
  - intros x. rewrite Hocc, Ho, length_app. cbn [length].
    destruct (Nat.eq_dec (length (objects s)) x) as [<-|Hne]; [lia|].
    intros Hx. specialize (Hb x). lia.
  - eapply Forall_impl; [exact Hheap|]. intros e [Hin|[He Hv]].
    + rewrite List.Forall_forall in Hh. destruct (Hh e Hin) as (te & Hte & Hvr).
      exists te. split; [|exact Hvr]. rewrite Hget.
      destruct (Nat.eq_dec (length (objects s)) (e_task e)) as [E|E]; [|exact Hte].
      apply lookup_lt_Some in Hte. lia.
    + exists t. split; [|now symmetry]. rewrite Hget, He.
      destruct (Nat.eq_dec (length (objects s)) (length (objects s))); congruence.
  - intros x tx Hx Htx. rewrite Hget in Hx. rewrite Hocc.
    destruct (Nat.eq_dec (length (objects s)) x) as [<-|Hne].
    + injection Hx as <-. destruct (Hwork Htx). now split.
    + apply (Hw x tx Hx Htx).
  - intros x tx Hx. rewrite Hget in Hx. rewrite Hocc.
    destruct (Nat.eq_dec (length (objects s)) x) as [<-|Hne].
    + injection Hx as <-. now intros _.
    + apply (Hl x tx Hx).
  - intros p x. rewrite Hc. intros Hp. destruct (Hd p x Hp) as (tx & c & Hx & Hcc).
    exists tx, c. split; [|exact Hcc]. rewrite Hget.
    destruct (Nat.eq_dec (length (objects s)) x) as [E|E]; [|exact Hx].
    apply lookup_lt_Some in Hx. lia.
Qed.

(** ** Effect of the per-tick operations *)

Tactic Notation "sched_simpl" :=
  cbn [objects queues cores completed_tasks time logs task_map context_switches
       insertion_counter num_cores rr_quantum cfs_base_slice seed core_priority_order
       set_objects set_queues set_cores set_time set_logs set_task_map
       set_completed_tasks set_context_switches set_insertion_counter
       _log _cfs_insert
       FIFO_fifo_1 RR_rr_1 CFS_cfs_1 IDLE_idle
       set_FIFO_fifo_1 set_RR_rr_1 set_CFS_cfs_1 set_IDLE_idle].

Tactic Notation "sched_simpl" "in" hyp(H) :=
  cbn [objects queues cores completed_tasks time logs task_map context_switches
       insertion_counter num_cores rr_quantum cfs_base_slice seed core_priority_order
       set_objects set_queues set_cores set_time set_logs set_task_map
       set_completed_tasks set_context_switches set_insertion_counter
       _log _cfs_insert
       FIFO_fifo_1 RR_rr_1 CFS_cfs_1 IDLE_idle
       set_FIFO_fifo_1 set_RR_rr_1 set_CFS_cfs_1 set_IDLE_idle] in H.

Tactic Notation "task_simpl" :=
  cbn [features pid name total_time remaining arrival_time resource_type interactivity
       priority_class execution_class subqueue_score assigned_scheduler subqueue quantum
       total_run first_start completion_time vruntime weight last_core uid
       set_remaining set_resource_type set_interactivity set_priority_class
       set_execution_class set_subqueue_score set_assigned_scheduler set_subqueue
       set_quantum set_total_run set_first_start set_completion_time set_vruntime
       set_weight].

Tactic Notation "task_simpl" "in" hyp(H) :=
  cbn [features pid name total_time remaining arrival_time resource_type interactivity
       priority_class execution_class subqueue_score assigned_scheduler subqueue quantum
       total_run first_start completion_time vruntime weight last_core uid
       set_remaining set_resource_type set_interactivity set_priority_class
       set_execution_class set_subqueue_score set_assigned_scheduler set_subqueue
       set_quantum set_total_run set_first_start set_completion_time set_vruntime
       set_weight] in H.

Lemma update_vruntime_frame (v : Variant) (t : Task) :
  static_view (_update_vruntime v t) = static_view t /\
  remaining (_update_vruntime v t) = remaining t /\
  total_run (_update_vruntime v t) = total_run t /\
  completion_time (_update_vruntime v t) = completion_time t /\
  first_start (_update_vruntime v t) = first_start t.
Proof.
  unfold _update_vruntime, static_view.
  destruct (Qleb (weight t) 0), v; task_simpl; repeat split.
Qed.

(** The state after [_run_one_tick_on_core] on a busy core, by projections:
    the running task [r] becomes [t2], one unit of work further, and then
    completes, or is requeued on quantum expiry, or is dropped (class IDLE), or
    stays on the core. *)
Lemma run_one_tick_proj (v : Variant) (cid : nat) (s : Sched) (core : Core)
    (r : ref) (t : Task) :
  cores s !! cid = Some core ->
  core_task core = Some r ->
  objects s !! r = Some t ->
  let s' := _run_one_tick_on_core v cid s in
  exists t2,
    (static_view t2 = static_view t /\ remaining t2 = Z.max 0 (remaining t - 1) /\
     total_run t2 = total_run t + 1 /\ completion_time t2 = completion_time t /\
     first_start t2 = first_start t) /\
    (time s' = time s /\ num_cores s' = num_cores s /\ task_map s' = task_map s) /\
    ((remaining t2 <= 0 /\
      objects s' = <[r := set_completion_time (Some (time s)) t2]> (objects s) /\
      queues s' = queues s /\ cores s' = <[cid := idle_core]> (cores s) /\
      completed_tasks s' = dict_set (pid t2) r (completed_tasks s))
     \/
     (0 < remaining t2 /\ objects s' = <[r := t2]> (objects s) /\
      completed_tasks s' = completed_tasks s /\
      ((cores s' = <[cid := idle_core]> (cores s) /\
        (queues s' = set_RR_rr_1 (RR_rr_1 (queues s) ++ [r]) (queues s) \/
         queues s' = set_CFS_cfs_1
                       (heappush (CFS_cfs_1 (queues s))
                          {| e_vr := vruntime t2; e_seq := insertion_counter s;
                             e_pid := pid t2; e_task := r |}) (queues s) \/
         queues s' = set_FIFO_fifo_1 (r :: FIFO_fifo_1 (queues s)) (queues s) \/
         queues s' = queues s))
       \/
       (queues s' = queues s /\
        exists left, cores s' = <[cid := {| core_task := Some r; time_left := left |}]>
                                 (cores s))))).
Proof.
  intros Hc Hr Ht s'. unfold s', _run_one_tick_on_core. rewrite Hc, Hr, Ht.
  set (t1 := set_total_run _ _).
  set (t2 := match assigned_scheduler t1 with Some CFS => _update_vruntime v t1 | _ => t1 end).
  assert (H2 : static_view t2 = static_view t /\ remaining t2 = Z.max 0 (remaining t - 1) /\
               total_run t2 = total_run t + 1 /\ completion_time t2 = completion_time t /\
               first_start t2 = first_start t).
  { unfold t2. destruct (assigned_scheduler t1) as [[]|];
      try (unfold t1, static_view; task_simpl; now repeat split).
    destruct (update_vruntime_frame v t1) as (-> & -> & -> & -> & ->).
    unfold t1, static_view; task_simpl; now repeat split. }
  clearbody t2. clear t1. exists t2. split; [exact H2|].
  destruct (remaining t2 <=? 0) eqn:Edone.
  - apply Z.leb_le in Edone. sched_simpl. rewrite !list_insert_insert_eq.
    split; [now repeat split|]. left. now repeat split.
  - apply Z.leb_gt in Edone.
    destruct (Z.max 0 (time_left core - 1) <=? 0).
    + destruct (assigned_scheduler t2) as [[]|]; sched_simpl;
        rewrite !list_insert_insert_eq;
        (split; [now repeat split|]); right; (split; [exact Edone|]);
        (split; [reflexivity|]); (split; [reflexivity|]); left; (split; [reflexivity|]);
        auto.
    + sched_simpl. split; [now repeat split|]. right. repeat split; try assumption.
      right. split; [reflexivity|]. now eexists.
Qed.

(** With up-to-date snapshots the loop of [_cfs_pop_min] leaves at its first
    iteration: the root entry is returned and nothing is reinserted. *)
Lemma cfs_pop_min_loop_fresh (objs : list Task) (heap : list HeapEntry) (counter fuel : nat) :
  Forall (entry_fresh objs) heap ->
  _cfs_pop_min_loop (S fuel) objs heap counter =
    match heap with
    | [] => Returned None [] counter
    | e :: heap' => Returned (Some (e_task e)) heap' counter
    end.
Proof.
  intros Hf. destruct heap as [|e heap']; [reflexivity|].
  cbn [_cfs_pop_min_loop heappop]. inversion Hf as [|? ? (t & Ht & Hv) _]; subst.
  rewrite Ht, <- Hv. now rewrite snapshot_valid_fresh.
Qed.

Lemma place_on_core_proj (v : Variant) (cid : nat) (sched : SchedClass) (r : ref)
    (t : Task) (s1 : Sched) :
  objects s1 !! r = Some t ->
  let s' := place_on_core v cid sched r s1 in
  exists t2 left,
    objects s' = <[r := t2]> (objects s1) /\
    cores s' = <[cid := {| core_task := Some r; time_left := left |}]> (cores s1) /\
    queues s' = queues s1 /\
    (time s' = time s1 /\ num_cores s' = num_cores s1 /\ task_map s' = task_map s1 /\
     completed_tasks s' = completed_tasks s1) /\
    (static_view t2 = static_view t /\ remaining t2 = remaining t /\
     total_run t2 = total_run t /\ completion_time t2 = completion_time t /\
     vruntime t2 = vruntime t /\
     (first_start t2 = first_start t \/ first_start t2 = Some (time s1))).
Proof.
  intros Ht s'. unfold s', place_on_core. rewrite Ht.
  generalize (dispatch_quantum v sched t s1). intros q. task_simpl. cbn [get].
  eexists _, q. sched_simpl. split; [reflexivity|]. split; [reflexivity|].
  split; [reflexivity|]. split; [now repeat split|].
  destruct (first_start t) eqn:E; unfold static_view; task_simpl; repeat split; auto.
Qed.

(** The state after [_dispatch_to_core], by projections: either nothing was
    dequeued, or the head [r] of the class's queue now runs on core [cid] with
    a fresh quantum. *)
Lemma dispatch_proj (v : Variant) (cid : nat) (sched : SchedClass) (s : Sched) :
  Inv s ->
  let s' := _dispatch_to_core v cid sched s in
  (time s' = time s /\ num_cores s' = num_cores s /\ task_map s' = task_map s /\
   completed_tasks s' = completed_tasks s) /\
  ((objects s' = objects s /\ cores s' = cores s /\ (forall x, occ x s' = occ x s) /\
    CFS_cfs_1 (queues s') = CFS_cfs_1 (queues s))
   \/
   exists r t t2 left,
     objects s !! r = Some t /\
     objects s' = <[r := t2]> (objects s) /\
     cores s' = <[cid := {| core_task := Some r; time_left := left |}]> (cores s) /\
     (static_view t2 = static_view t /\ remaining t2 = remaining t /\
      total_run t2 = total_run t /\ completion_time t2 = completion_time t /\
      vruntime t2 = vruntime t /\
      (first_start t2 = first_start t \/ first_start t2 = Some (time s))) /\
     ((exists q, FIFO_fifo_1 (queues s) = r :: q /\ queues s' = set_FIFO_fifo_1 q (queues s)) \/
      (exists q, RR_rr_1 (queues s) = r :: q /\ queues s' = set_RR_rr_1 q (queues s)) \/
      (exists q, IDLE_idle (queues s) = r :: q /\ queues s' = set_IDLE_idle q (queues s)) \/
      (exists e h, CFS_cfs_1 (queues s) = e :: h /\ e_task e = r /\
                   queues s' = set_CFS_cfs_1 h (queues s)))).
Proof.
  intros HI s'.
  assert (Hlook : forall r, (0 < occ r s)%nat -> exists t, objects s !! r = Some t).
  { intros r Hr. apply lookup_lt_is_Some_2. now apply (inv_bound s HI). }
  assert (Hplace : forall r s1 (P : Queues -> Prop),
            objects s1 = objects s -> cores s1 = cores s -> time s1 = time s ->
            num_cores s1 = num_cores s -> task_map s1 = task_map s ->
            completed_tasks s1 = completed_tasks s ->
            (0 < occ r s)%nat -> P (queues s1) ->
            let s2 := place_on_core v cid sched r s1 in
            (time s2 = time s /\ num_cores s2 = num_cores s /\ task_map s2 = task_map s /\
             completed_tasks s2 = completed_tasks s) /\
            exists t t2 left,
              objects s !! r = Some t /\
              objects s2 = <[r := t2]> (objects s) /\
              cores s2 = <[cid := {| core_task := Some r; time_left := left |}]> (cores s) /\
              (static_view t2 = static_view t /\ remaining t2 = remaining t /\
               total_run t2 = total_run t /\ completion_time t2 = completion_time t /\
               vruntime t2 = vruntime t /\
               (first_start t2 = first_start t \/ first_start t2 = Some (time s))) /\
              P (queues s2)).
  { intros r s1 P Ho Hc Hti Hn Htm Hcp Hr HP s2.
    destruct (Hlook r Hr) as [t Ht].
    assert (Ht1 : objects s1 !! r = Some t) by now rewrite Ho.
    destruct (place_on_core_proj v cid sched r t s1 Ht1)
      as (t2 & left & Eo & Ec & Eq & (E1 & E2 & E3 & E4) & Hv).
    fold s2 in Eo, Ec, Eq, E1, E2, E3, E4.
    split; [repeat split; congruence|].
    exists t, t2, left. rewrite Eo, Ec, Eq, Ho, Hc. rewrite Hti in Hv. now repeat split. }
  unfold s', _dispatch_to_core.
  destruct sched; cbn [_dequeue_task].
  - (* FIFO *)
    destruct (FIFO_fifo_1 (queues s)) as [|r q] eqn:E; cbn [popleft].
    + split; [now repeat split|]. left. unfold occ. sched_simpl. rewrite E. now repeat split.
    + edestruct (Hplace r (set_queues (set_FIFO_fifo_1 q (queues s)) s)
                   (fun qs => qs = set_FIFO_fifo_1 q (queues s)))
        as (Hm & t & t2 & left & H1 & H2 & H3 & H4 & H5); try reflexivity.
      { unfold occ. rewrite E, cnt_cons. destruct (Nat.eq_dec r r); [lia|congruence]. }
      split; [exact Hm|]. right. exists r, t, t2, left. repeat split; try tauto.
      left. now exists q.
  - (* RR *)
    destruct (RR_rr_1 (queues s)) as [|r q] eqn:E; cbn [popleft].
    + split; [now repeat split|]. left. unfold occ. sched_simpl. rewrite E. now repeat split.
    + edestruct (Hplace r (set_queues (set_RR_rr_1 q (queues s)) s)
                   (fun qs => qs = set_RR_rr_1 q (queues s)))
        as (Hm & t & t2 & left & H1 & H2 & H3 & H4 & H5); try reflexivity.
      { unfold occ. rewrite E, cnt_cons. destruct (Nat.eq_dec r r); [lia|congruence]. }
      split; [exact Hm|]. right. exists r, t, t2, left. repeat split; try tauto.
      right. left. now exists q.
  - (* CFS *)
    unfold _cfs_pop_min.
    rewrite (cfs_pop_min_loop_fresh _ _ _ _ (inv_heap s HI)).
    destruct (CFS_cfs_1 (queues s)) as [|e h] eqn:E.
    + split; [now repeat split|]. left. unfold occ. sched_simpl. rewrite E. now repeat split.
    + edestruct (Hplace (e_task e)
                   (set_insertion_counter (insertion_counter s)
                      (set_queues (set_CFS_cfs_1 h (queues s)) s))
                   (fun qs => qs = set_CFS_cfs_1 h (queues s)))
        as (Hm & t & t2 & left & H1 & H2 & H3 & H4 & H5); try reflexivity.
      { unfold occ. rewrite E. cbn [heap_refs map]. rewrite cnt_cons.
        destruct (Nat.eq_dec (e_task e) (e_task e)); [lia|congruence]. }
      split; [exact Hm|]. right. exists (e_task e), t, t2, left. repeat split; try tauto.
      right. right. right. now exists e, h.
  - (* IDLE *)
    destruct (IDLE_idle (queues s)) as [|r q] eqn:E; cbn [popleft].
    + split; [now repeat split|]. left. unfold occ. sched_simpl. rewrite E. now repeat split.
    + edestruct (Hplace r (set_queues (set_IDLE_idle q (queues s)) s)
                   (fun qs => qs = set_IDLE_idle q (queues s)))
        as (Hm & t & t2 & left & H1 & H2 & H3 & H4 & H5); try reflexivity.
      { unfold occ. rewrite E, cnt_cons. destruct (Nat.eq_dec r r); [lia|congruence]. }
      split; [exact Hm|]. right. exists r, t, t2, left. repeat split; try tauto.
      right. right. left. now exists q.
Qed.

(** ** The invariant through one step of a tick *)

Lemma static_view_total_time (t t' : Task) :
  static_view t' = static_view t ->
  total_time t' = total_time t /\ arrival_time t' = arrival_time t /\ pid t' = pid t.
Proof. unfold static_view. intros [= ? ? ? ? ? ?]. auto. Qed.

Lemma heap_refs_In (e : HeapEntry) (heap : list HeapEntry) :
  In e heap -> (0 < cnt (e_task e) (heap_refs heap))%nat.
Proof. intros H. apply cnt_pos_elem. unfold heap_refs. now apply in_map. Qed.

Lemma running_ge (cs : list Core) (cid : nat) (c : Core) (r : ref) :
  cs !! cid = Some c -> (core_cnt r c <= cnt r (running cs))%nat.
Proof.
  intros H. pose proof (running_insert cs cid c idle_core r H) as Hi.
  change (core_cnt r idle_core) with 0%nat in Hi. lia.
Qed.

(** The task on a busy core is nowhere else. *)
Lemma busy_core_alone (s : Sched) (cid : nat) (core : Core) (r : ref) :
  Inv s -> cores s !! cid = Some core -> core_task core = Some r ->
  cnt r (running (cores s)) = 1%nat /\
  cnt r (FIFO_fifo_1 (queues s)) = 0%nat /\ cnt r (RR_rr_1 (queues s)) = 0%nat /\
  cnt r (heap_refs (CFS_cfs_1 (queues s))) = 0%nat /\ cnt r (IDLE_idle (queues s)) = 0%nat.
Proof.
  intros HI Hc Hr. pose proof (inv_nodup s HI r) as Hn. unfold occ in Hn.
  pose proof (running_ge (cores s) cid core r Hc) as Hg.
  rewrite core_cnt_task, Hr in Hg. destruct (Nat.eq_dec r r); [|congruence]. lia.
Qed.

(** Occupancy after the core [cid] was replaced and the queues changed. *)
Lemma occ_replace (s s' : Sched) (cid : nat) (core c' : Core) (x : ref) :
  cores s !! cid = Some core ->
  cores s' = <[cid := c']> (cores s) ->
  (occ x s' + core_cnt x core
   + (cnt x (FIFO_fifo_1 (queues s)) + cnt x (RR_rr_1 (queues s))
      + cnt x (heap_refs (CFS_cfs_1 (queues s))) + cnt x (IDLE_idle (queues s)))
   = occ x s + core_cnt x c'
     + (cnt x (FIFO_fifo_1 (queues s')) + cnt x (RR_rr_1 (queues s'))
        + cnt x (heap_refs (CFS_cfs_1 (queues s'))) + cnt x (IDLE_idle (queues s'))))%nat.
Proof.
  intros Hc Hs. unfold occ. rewrite Hs.
  pose proof (running_insert (cores s) cid core c' x Hc). lia.
Qed.

Lemma Forall_In_self {A} (l : list A) (P : A -> Prop) :
  (forall e, In e l -> P e) -> Forall P l.
Proof. intros H. now apply List.Forall_forall. Qed.

Lemma run_one_tick_idle (v : Variant) (cid : nat) (s : Sched) :
  (forall core r t, cores s !! cid = Some core -> core_task core = Some r ->
                    objects s !! r = Some t -> False) ->
  _run_one_tick_on_core v cid s = s.
Proof.
  intros H. unfold _run_one_tick_on_core.
  destruct (cores s !! cid) as [core|] eqn:Ec; [|reflexivity].
  destruct (core_task core) as [r|] eqn:Er; [|reflexivity].
  destruct (objects s !! r) as [t|] eqn:Et; [|reflexivity].
  destruct (H core r t); auto.
Qed.

Lemma step_effect_refl (s : Sched) : step_effect s s.
Proof.
  repeat split. intros x tx Hx. exists tx. repeat split; auto.
Qed.

Lemma quiet_effect_refl (s : Sched) : quiet_effect s s.
Proof.
  repeat split. intros x tx Hx. exists tx. repeat split; auto.
Qed.

(** An update of a single object as a [step_effect]. *)
Lemma step_effect_update (s s' : Sched) (r : ref) (t t' : Task) :
  objects s !! r = Some t ->
  objects s' = <[r := t']> (objects s) ->
  time s' = time s -> num_cores s' = num_cores s ->
  static_view t' = static_view t ->
  ((total_run t' = total_run t /\ completion_time t' = completion_time t) \/
   (completion_time t = None /\ total_run t' = total_run t + 1 /\
    (completion_time t' = None \/ completion_time t' = Some (time s)))) ->
  step_effect s s'.
Proof.
  intros Ht Ho Hti Hn Hsv Hrun. split; [exact Hti|]. split; [exact Hn|].
  split; [now rewrite Ho, length_insert|].
  intros x tx Hx. rewrite Ho. destruct (Nat.eq_dec x r) as [->|Hne].
  - exists t'. rewrite list_lookup_insert_eq by (eapply lookup_lt_Some; exact Ht).
    replace tx with t by congruence. auto.
  - exists tx. rewrite list_lookup_insert_ne by congruence. auto.
Qed.

Lemma run_one_tick_Inv (v : Variant) (cid : nat) (s : Sched) :
  Inv s ->
  Inv (_run_one_tick_on_core v cid s) /\ step_effect s (_run_one_tick_on_core v cid s).
Proof.
  intros HI.
  destruct (cores s !! cid) as [core|] eqn:Ec;
    [|rewrite run_one_tick_idle; [split; [exact HI | apply step_effect_refl] | congruence]].
  destruct (core_task core) as [r|] eqn:Er;
    [|rewrite run_one_tick_idle; [split; [exact HI | apply step_effect_refl] | congruence]].
  destruct (objects s !! r) as [t|] eqn:Et;
    [|rewrite run_one_tick_idle; [split; [exact HI | apply step_effect_refl] | congruence]].
  destruct (run_one_tick_proj v cid s core r t Ec Er Et)
    as (t2 & (Hsv & Hrem & Hrun & Hct & Hfs) & (Hti & Hnc & Htm) & Hcases).
  set (s' := _run_one_tick_on_core v cid s) in *.
  destruct (busy_core_alone s cid core r HI Ec Er) as (Hrun1 & Hq1 & Hq2 & Hq3 & Hq4).
  assert (Hoccr : (0 < occ r s)%nat) by (unfold occ; lia).
  assert (Hnone : completion_time t = None) by (apply (inv_live s HI r t Et Hoccr)).
  assert (Hcore : forall x, core_cnt x core = if Nat.eq_dec r x then 1%nat else 0%nat).
  { intros x. rewrite core_cnt_task, Er. reflexivity. }
  assert (Hheap : forall e, In e (CFS_cfs_1 (queues s)) -> e_task e <> r).
  { intros e He Heq. pose proof (heap_refs_In e _ He) as Hp. rewrite Heq in Hp. lia. }
  destruct (static_view_total_time t t2 Hsv) as (Htt & _ & _).
  destruct Hcases as [(Hdone & Ho & Hq & Hcs & Hcp) | (Hpos & Ho & Hcp & Hrest)].
  - (* completion *)
    assert (Hocc : forall x, (occ x s' + (if Nat.eq_dec r x then 1 else 0) = occ x s)%nat).
    { intros x. pose proof (occ_replace s s' cid core idle_core x Ec Hcs) as H.
      rewrite Hq, Hcore in H. change (core_cnt x idle_core) with 0%nat in H. lia. }
    assert (Hocc0 : occ r s' = 0%nat).
    { specialize (Hocc r). pose proof (inv_nodup s HI r).
      destruct (Nat.eq_dec r r); [lia|congruence]. }
    split.
    + apply (Inv_step s s' r t (set_completion_time (Some (time s)) t2) HI Et Hoccr Ho).
      * intros x. specialize (Hocc x). lia.
      * rewrite Hq. apply Forall_In_self. intros e He. left. split; [exact He|].
        intros Heq. now destruct (Hheap e He).
      * exact Htt.
      * intros _ Hsum Hone. task_simpl. split; [lia|]. rewrite Hocc0. lia.
      * rewrite Hocc0. lia.
      * right. exists (pid t2), (time s). task_simpl. auto.
    + apply (step_effect_update s s' r t (set_completion_time (Some (time s)) t2) Et Ho Hti Hnc).
      * exact Hsv.
      * right. task_simpl. auto.
  - (* the task goes on *)
    assert (Hocc : forall x, (occ x s' <= occ x s)%nat).
    { intros x. destruct Hrest as [(Hcs & Hq) | (Hq & left & Hcs)].
      - pose proof (occ_replace s s' cid core idle_core x Ec Hcs) as H.
        rewrite Hcore in H. change (core_cnt x idle_core) with 0%nat in H.
        destruct Hq as [Hq|[Hq|[Hq|Hq]]]; rewrite Hq in H; sched_simpl in H;
          rewrite ?cnt_app, ?cnt_cons, ?cnt_nil, ?cnt_heappush in H; cbn [e_task] in H;
          destruct (Nat.eq_dec r x); lia.
      - pose proof (occ_replace s s' cid core _ x Ec Hcs) as H.
        rewrite Hq, Hcore, core_cnt_task in H. cbn [core_task] in H. lia. }
    split.
    + apply (Inv_step s s' r t t2 HI Et Hoccr Ho Hocc).
      * destruct Hrest as [(Hcs & [Hq|[Hq|[Hq|Hq]]]) | (Hq & _)]; rewrite Hq; sched_simpl;
          try (apply Forall_In_self; intros e He; left; split; [exact He|];
               intros Heq; now destruct (Hheap e He)).
        apply heappush_Forall; [right; now split|].
        apply Forall_In_self; intros e He; left; split; [exact He|].
        intros Heq; now destruct (Hheap e He).
      * exact Htt.
      * intros _ Hsum Hone. split; lia.
      * intros _. congruence.
      * now left.
    + apply (step_effect_update s s' r t t2 Et Ho Hti Hnc Hsv).
      right. rewrite Hct. auto.
Qed.

Lemma quiet_effect_update (s s' : Sched) (r : ref) (t t' : Task) :
  objects s !! r = Some t ->
  objects s' = <[r := t']> (objects s) ->
  time s' = time s -> num_cores s' = num_cores s ->
  static_view t' = static_view t ->
  total_run t' = total_run t -> completion_time t' = completion_time t ->
  quiet_effect s s'.
Proof.
  intros Ht Ho Hti Hn Hsv Hrun Hct. split; [exact Hti|]. split; [exact Hn|].
  split; [now rewrite Ho, length_insert|].
  intros x tx Hx. rewrite Ho. destruct (Nat.eq_dec x r) as [->|Hne].
  - exists t'. rewrite list_lookup_insert_eq by (eapply lookup_lt_Some; exact Ht).
    replace tx with t by congruence. auto.
  - exists tx. rewrite list_lookup_insert_ne by congruence. auto.
Qed.

Lemma quiet_then_step (s s1 s2 : Sched) :
  quiet_effect s s1 -> step_effect s1 s2 -> step_effect s s2.
Proof.
  intros (Hti & Hn & Hl & Hq) (Hti' & Hn' & Hl' & Hs).
  split; [congruence|]. split; [congruence|]. split; [congruence|].
  intros x tx Hx. destruct (Hq x tx Hx) as (t1 & H1 & Hsv1 & Hr1 & Hc1).
  destruct (Hs x t1 H1) as (t2 & H2 & Hsv2 & Hcase).
  exists t2. split; [exact H2|]. split; [congruence|].
  rewrite <- Hr1, <- Hc1, <- Hti. exact Hcase.
Qed.

(** A dispatch onto an idle core keeps the invariant and runs nothing. *)
Lemma dispatch_Inv (v : Variant) (cid : nat) (sched : SchedClass) (s : Sched) (c0 : Core) :
  Inv s ->
  cores s !! cid = Some c0 -> core_task c0 = None ->
  Inv (_dispatch_to_core v cid sched s) /\ quiet_effect s (_dispatch_to_core v cid sched s).
Proof.
  intros HI Hc Hidle.
  destruct (dispatch_proj v cid sched s HI) as ((Hti & Hnc & Htm & Hcp) & Hcases).
  set (s' := _dispatch_to_core v cid sched s) in *.
  destruct Hcases as [(Ho & Hcs & Hocc & Hheap) |
                      (r & t & t2 & left & Ht & Ho & Hcs & Hfields & Hq)].
  - split.
    + apply (Inv_frame s s' HI Ho Hcp).
      * intros x. rewrite Hocc. lia.
      * rewrite Hheap. apply Forall_In_self. auto.
    + split; [exact Hti|]. split; [exact Hnc|]. split; [now rewrite Ho|].
      intros x tx Hx. exists tx. rewrite Ho. auto.
  - destruct Hfields as (Hsv & Hrem & Hrun & Hct & Hvr & Hfs).
    destruct (static_view_total_time t t2 Hsv) as (Htt & _ & _).
    assert (Hc0 : forall x, core_cnt x c0 = 0%nat)
      by (intros x; now rewrite core_cnt_task, Hidle).
    assert (Hocc : forall x, occ x s' = occ x s).
    { intros x. pose proof (occ_replace s s' cid c0 _ x Hc Hcs) as H.
      rewrite Hc0, core_cnt_task in H. cbn [core_task] in H.
      destruct Hq as [(q & E & Hq)|[(q & E & Hq)|[(q & E & Hq)|(e & h & E & He & Hq)]]];
        rewrite Hq, E in H; sched_simpl in H; unfold heap_refs in H; cbn [map] in H;
        rewrite ?cnt_cons, ?He in H; destruct (Nat.eq_dec r x); lia. }
    assert (Hoccr : (0 < occ r s)%nat).
    { unfold occ.
      destruct Hq as [(q & E & _)|[(q & E & _)|[(q & E & _)|(e & h & E & He & _)]]];
        rewrite E; unfold heap_refs; cbn [map]; rewrite cnt_cons, ?He;
        destruct (Nat.eq_dec r r); try congruence; lia. }
    split.
    + apply (Inv_step s s' r t t2 HI Ht Hoccr Ho).
      * intros x. rewrite Hocc. lia.
      * apply Forall_In_self. intros e He. left. split; [|auto].
        destruct Hq as [(q & E & Hq)|[(q & E & Hq)|[(q & E & Hq)|(e0 & h & E & He0 & Hq)]]];
          rewrite Hq in He; sched_simpl in He; try exact He.
        rewrite E. now right.
      * exact Htt.
      * intros _ Hsum Hone. split; lia.
      * intros _. rewrite Hct. apply (inv_live s HI r t Ht Hoccr).
      * now left.
    + now apply (quiet_effect_update s s' r t t2).
Qed.

(** The loop body of [tick] keeps the invariant; every task runs at most one
    unit in it. *)
Lemma tick_core_Inv (v : Variant) (s : Sched) (cid : nat) :
  Inv s -> Inv (tick_core v s cid) /\ step_effect s (tick_core v s cid).
Proof.
  intros HI. unfold tick_core.
  set (s1 := match core_task <$> cores s !! cid with
             | Some None => _
             | _ => s
             end).
  assert (H1 : Inv s1 /\ quiet_effect s s1).
  { unfold s1. destruct (cores s !! cid) as [c0|] eqn:Ec; cbn [fmap option_fmap option_map];
      [|split; [exact HI | apply quiet_effect_refl]].
    destruct (core_task c0) eqn:Et; [split; [exact HI | apply quiet_effect_refl]|].
    destruct (_pick_task_for_core cid s) as [[sched subq]|];
      [|split; [exact HI | apply quiet_effect_refl]].
    now apply (dispatch_Inv v cid sched s c0). }
  destruct H1 as [HI1 Hq1]. clearbody s1.
  destruct (run_one_tick_Inv v cid s1 HI1) as [HI2 He2].
  split; [exact HI2|]. now apply (quiet_then_step s s1).
Qed.

(** ** The invariant through admission *)

Lemma classify_view (clf : Classifier) (t : Task) :
  admit_view (_classify_task clf t) = admit_view t /\
  remaining (_classify_task clf t) = remaining t.
Proof.
  unfold _classify_task.
  repeat match goal with |- context [match clf ?f ?c with _ => _ end] => destruct (clf f c) end;
    split; reflexivity.
Qed.

Lemma compute_score_view (t : Task) :
  admit_view (_compute_subqueue_score t) = admit_view t /\
  remaining (_compute_subqueue_score t) = remaining t.
Proof.
  unfold _compute_subqueue_score.
  destruct (_map_numeric_labels _ _ _ _) as [[[R I'] E] P]. split; reflexivity.
Qed.

Lemma admit_remaining_view (t : Task) : admit_view (admit_remaining t) = admit_view t.
Proof. unfold admit_remaining. now destruct (remaining t =? 0). Qed.

Lemma assign_scheduler_view (t : Task) :
  admit_view (_assign_scheduler_and_subqueue t) = admit_view t /\
  remaining (_assign_scheduler_and_subqueue t) = remaining t.
Proof.
  unfold _assign_scheduler_and_subqueue.
  repeat match goal with |- context [if ?b then _ else _] => destruct b end;
    split; reflexivity.
Qed.

Lemma baseline_admit_task_view (rrq : Z) (t : Task) :
  admit_view (baseline_admit_task rrq t) = admit_view (admit_remaining t) /\
  remaining (baseline_admit_task rrq t) = remaining (admit_remaining t).
Proof.
  unfold baseline_admit_task.
  set (t1 := if String.eqb (sched_pol t) "SCHED_FIFO" then _ else _).
  assert (H1 : admit_view (admit_remaining t1) = admit_view (admit_remaining t) /\
               remaining (admit_remaining t1) = remaining (admit_remaining t)).
  { unfold t1.
    repeat match goal with |- context [if String.eqb ?a ?b then _ else _] =>
             destruct (String.eqb a b) end;
      unfold admit_remaining, assign; task_simpl; destruct (remaining t =? 0);
      split; reflexivity. }
  clearbody t1. destruct H1 as [<- <-].
  generalize (admit_remaining t1). intros t2.
  destruct (assigned_scheduler (admit_vruntime_weight t2)) as [[]|]; split; reflexivity.
Qed.

Lemma ai_admit_task_view (clf : Classifier) (t : Task) :
  admit_view (ai_admit_task clf t) = admit_view t /\
  remaining (ai_admit_task clf t)
    = remaining (admit_remaining (_compute_subqueue_score (_classify_task clf t))).
Proof.
  unfold ai_admit_task.
  destruct (classify_view clf t) as [Hv1 Hr1].
  destruct (compute_score_view (_classify_task clf t)) as [Hv2 Hr2].
  rewrite <- Hv1, <- Hv2, <- (admit_remaining_view (_compute_subqueue_score _)).
  generalize (admit_remaining (_compute_subqueue_score (_classify_task clf t))). intros t2.
  set (t3 := if String.eqb (sched_pol t2) "SCHED_FIFO" then _ else _).
  assert (H3 : admit_view t3 = admit_view t2 /\ remaining t3 = remaining t2).
  { unfold t3.
    repeat match goal with |- context [if String.eqb ?a ?b then _ else _] =>
             destruct (String.eqb a b) end;
      try (split; reflexivity). apply assign_scheduler_view. }
  clearbody t3. destruct H3 as [<- <-].
  destruct (assigned_scheduler (admit_vruntime_weight t3)) as [[]|]; split; reflexivity.
Qed.

Lemma admit_view_total_time (t t' : Task) :
  admit_view t' = admit_view t ->
  total_time t' = total_time t /\ total_run t' = total_run t /\
  completion_time t' = completion_time t /\ arrival_time t' = arrival_time t /\
  pid t' = pid t /\ features t' = features t.
Proof. unfold admit_view. intros [= ? ? ? ? ? ? ?]. auto 10. Qed.

(** The task object that admission creates from a row. *)
Lemma admit_task_fresh (v : Variant) (clf : Classifier) (rrq : Z) (row : Features)
    (u : string) :
  let t := admit_task v clf rrq (Task_init row u) in
  admit_view t = admit_view (Task_init row u) /\
  (1 <= total_time t -> remaining t = total_time t).
Proof.
  intros t.
  assert (H0 : forall t0, remaining t0 = total_time t0 -> 1 <= total_time t0 ->
                          remaining (admit_remaining t0) = total_time t0).
  { intros t0 E Hp. unfold admit_remaining. rewrite E.
    destruct (total_time t0 =? 0) eqn:Ez; [apply Z.eqb_eq in Ez; lia | exact E]. }
  assert (E0 : remaining (Task_init row u) = total_time (Task_init row u)) by reflexivity.
  revert t E0. generalize (Task_init row u). intros T0 t E0. unfold t. destruct v.
  - rewrite admit_task_Baseline.
    destruct (baseline_admit_task_view rrq T0) as [Hv Hr].
    rewrite admit_remaining_view in Hv. split; [exact Hv|].
    destruct (admit_view_total_time _ _ Hv) as (Ht & _).
    rewrite Hr, Ht. intros Hp. now apply H0.
  - rewrite admit_task_AI.
    destruct (ai_admit_task_view clf T0) as [Hv Hr].
    destruct (classify_view clf T0) as [Hv1 Hr1].
    destruct (compute_score_view (_classify_task clf T0)) as [Hv2 Hr2].
    split; [exact Hv|].
    destruct (admit_view_total_time _ _ Hv) as (Ht & _).
    destruct (admit_view_total_time _ _ Hv1) as (Ht1 & _).
    destruct (admit_view_total_time _ _ Hv2) as (Ht2 & _).
    rewrite Hr, Ht. intros Hp. rewrite <- Ht1, <- Ht2.
    apply H0; [congruence | now rewrite Ht2, Ht1].
Qed.

(** The state after the admission of a row, by projections. *)
Lemma admit_row_proj (v : Variant) (clf : Classifier) (u : string) (row : Features)
    (current_time : Z) (s : Sched) :
  let s' := admit_row v clf u row current_time s in
  let r := length (objects s) in
  let t' := admit_task v clf (rr_quantum s) (Task_init row u) in
  objects s' = objects s ++ [t'] /\
  cores s' = cores s /\ completed_tasks s' = completed_tasks s /\
  time s' = time s /\ num_cores s' = num_cores s /\
  task_map s' = dict_set (f_PID row) r (task_map s) /\
  (queues s' = set_FIFO_fifo_1 (FIFO_fifo_1 (queues s) ++ [r]) (queues s) \/
   queues s' = set_RR_rr_1 (RR_rr_1 (queues s) ++ [r]) (queues s) \/
   queues s' = set_IDLE_idle (IDLE_idle (queues s) ++ [r]) (queues s) \/
   queues s' = set_CFS_cfs_1
                 (heappush (CFS_cfs_1 (queues s))
                    {| e_vr := vruntime t'; e_seq := insertion_counter s;
                       e_pid := pid t'; e_task := r |}) (queues s)).
Proof.
  intros s' r t'. unfold s', admit_row, sched_admit. sched_simpl.
  rewrite list_lookup_middle by reflexivity. fold r. fold t'.
  assert (Hins : <[r := t']> (objects s ++ [Task_init row u]) = objects s ++ [t']).
  { unfold r. rewrite insert_app_r_alt by lia. now rewrite Nat.sub_diag. }
  rewrite Hins.
  change (pid (Task_init row u)) with (f_PID row).
  clearbody t'. unfold _enqueue_task.
  destruct (get (assigned_scheduler t') CFS); sched_simpl; cbn [queue_append];
    repeat split; auto.
Qed.

Lemma admit_row_Inv (v : Variant) (clf : Classifier) (u : string) (row : Features)
    (current_time : Z) (s : Sched) :
  Inv s -> Inv (admit_row v clf u row current_time s).
Proof.
  intros HI.
  destruct (admit_row_proj v clf u row current_time s)
    as (Ho & Hcs & Hcp & Hti & Hnc & Htm & Hq).
  destruct (admit_task_fresh v clf (rr_quantum s) row u) as [Hv Hrem].
  destruct (admit_view_total_time _ _ Hv) as (Htt & Hrun & Hct & _).
  revert Ho Hq Hrem Htt Hrun Hct.
  generalize (admit_task v clf (rr_quantum s) (Task_init row u)).
  set (s' := admit_row v clf u row current_time s) in *. intros t' Ho Hq Hrem Htt Hrun Hct.
  apply (Inv_alloc s s' t' HI Ho Hcp).
  - intros x. unfold occ. rewrite Hcs.
    destruct Hq as [Hq|[Hq|[Hq|Hq]]]; rewrite Hq; sched_simpl;
      rewrite ?cnt_app, ?cnt_cons, ?cnt_nil, ?cnt_heappush; cbn [e_task];
      destruct (Nat.eq_dec (length (objects s)) x); lia.
  - destruct Hq as [Hq|[Hq|[Hq|Hq]]]; rewrite Hq; sched_simpl;
      try (apply Forall_In_self; solve [auto]).
    apply heappush_Forall; [right; now split|]. apply Forall_In_self; auto.
  - intros Hp. rewrite (Hrem Hp), Hrun.
    change (total_run (Task_init row u)) with 0. split; lia.
  - exact Hct.
Qed.

Lemma running_idle (n : nat) (r : ref) :
  cnt r (running (map (fun _ => {| core_task := None; time_left := 0 |}) (seq 0 n))) = 0%nat.
Proof.
  assert (H : forall k, running (map (fun _ => {| core_task := None; time_left := 0 |})
                                     (seq k n)) = []).
  { induction n as [|n IH]; intros k; [reflexivity|]. apply IH. }
  now rewrite H.
Qed.

Lemma init_Inv (n : nat) (order : option (list (nat * list SchedClass))) (rrq : Z)
    (slice : Q) (seed_ : Z) :
  Inv (Sched_init n order rrq slice seed_).
Proof.
  constructor; unfold occ; cbn [Sched_init queues cores objects completed_tasks
                                empty_queues FIFO_fifo_1 RR_rr_1 CFS_cfs_1 IDLE_idle
                                heap_refs map].
  - intros r. rewrite running_idle. cbn. lia.
  - intros r. rewrite running_idle. cbn. lia.
  - constructor.
  - intros r t H. rewrite lookup_nil in H. discriminate.
  - intros r t H. rewrite lookup_nil in H. discriminate.
  - intros p r H. discriminate.
Qed.

Lemma set_time_Inv (current_time : Z) (s : Sched) : Inv s -> Inv (set_time current_time s).
Proof.
  intros HI. apply (Inv_frame s _ HI); [reflexivity | reflexivity | |].
  - intros x. unfold occ. sched_simpl. lia.
  - sched_simpl. apply Forall_In_self. auto.
Qed.

(** The invariant holds in every reachable state. *)
Lemma reachable_Inv (v : Variant) (clf : Classifier) (uids : nat -> string) (s0 s : Sched) :
  Inv s0 -> reachable v clf uids s0 s -> Inv s.
Proof.
  intros H0. induction 1 as [|s row ct _ IH|s ct _ IH|s cid sched c0 _ IH Hc Hi|s cid _ IH].
  - exact H0.
  - now apply admit_row_Inv.
  - now apply set_time_Inv.
  - now apply (dispatch_Inv v cid sched s c0).
  - now apply run_one_tick_Inv.
Qed.

Lemma reachable_tick_core (v : Variant) (clf : Classifier) (uids : nat -> string)
    (s0 s : Sched) (cid : nat) :
  reachable v clf uids s0 s -> reachable v clf uids s0 (tick_core v s cid).
Proof.
  intros H. unfold tick_core. apply reach_run.
  destruct (cores s !! cid) as [c0|] eqn:Ec; cbn [fmap option_fmap option_map]; [|exact H].
  destruct (core_task c0) eqn:Et; [exact H|].
  destruct (_pick_task_for_core cid s) as [[sched subq]|]; [|exact H].
  now apply (reach_dispatch v clf uids s0 s cid sched c0).
Qed.

(** A tick is a sequence of loop bodies, so whatever a script reaches is
    reachable. *)
Lemma reachable_tick (v : Variant) (clf : Classifier) (uids : nat -> string)
    (s0 s : Sched) (current_time : Z) :
  reachable v clf uids s0 s -> reachable v clf uids s0 (tick v current_time s).
Proof.
  intros H. unfold tick.
  assert (H1 : reachable v clf uids s0 (set_time current_time s)) by now constructor.
  revert H1. generalize (set_time current_time s). generalize (seq 0 (num_cores s)).
  intros l. induction l as [|cid l IH]; intros s1 H1; cbn [fold_left]; [exact H1|].
  apply IH. now apply reachable_tick_core.
Qed.

Lemma reachable_script (v : Variant) (clf : Classifier) (uids : nat -> string)
    (s0 s : Sched) (script : list op) :
  reachable v clf uids s0 s -> reachable v clf uids s0 (run_script v clf uids s script).
Proof.
  revert s. induction script as [|o script IH]; intros s H; [exact H|].
  cbn [run_script fold_left]. apply IH. destruct o as [row ct|ct]; cbn [run_op].
  - now constructor.
  - now apply reachable_tick.
Qed.

(** ** Work accounting (invariant I1) *)

(** C4, as the specification states it, fails for a row without work columns,
    in both variants: the task is built with [total_time = 0] and admitted
    with [remaining = 1]. *)
Lemma work_accounting_fails_without_work :
  (exists t, objects (run_script Baseline failing_clf no_uid (scenario_sched 4)
                        [OpAdmit empty_row 0]) !! 0%nat = Some t /\
             remaining t + total_run t <> total_time t) /\
  (exists t, objects (run_script AI failing_clf no_uid (scenario_sched 4)
                        [OpAdmit empty_row 0]) !! 0%nat = Some t /\
             remaining t + total_run t <> total_time t).
Proof.
  split; (eexists; split; [vm_compute; reflexivity|]); vm_compute; congruence.
Qed.

(** C4 (amended): in both scheduler variants, for every task admitted with
    [total_time >= 1], [remaining + total_run = total_time] holds at every
    instant between operations: after every admission and after every tick
    of any run. *)
Theorem work_accounting (v : Variant) (clf : Classifier) (uids : nat -> string)
    (n : nat) (order : option (list (nat * list SchedClass))) (rrq : Z) (slice : Q)
    (seed_ : Z) (script : list op) (r : ref) (t : Task) :
  objects (run_script v clf uids (Sched_init n order rrq slice seed_) script) !! r = Some t ->
  1 <= total_time t ->
  remaining t + total_run t = total_time t.
Proof.
  intros Ht Hp.
  assert (HI : Inv (run_script v clf uids (Sched_init n order rrq slice seed_) script)).
  { eapply reachable_Inv; [apply init_Inv|].
    apply reachable_script. constructor. }
  now destruct (inv_work _ HI r t Ht Hp).
Qed.

Lemma work_accounting_witness :
  exists t, objects (run_script Baseline failing_clf no_uid (scenario_sched 4) work_script)
              !! 0%nat = Some t /\
            1 <= total_time t /\ total_run t = 1 /\ remaining t + total_run t = total_time t.
Proof.
  eexists. split; [vm_compute; reflexivity|].
  split; [vm_compute; congruence|]. split; [reflexivity|].
  apply (work_accounting Baseline failing_clf no_uid 4 None 100 4%Q 42 work_script 0%nat).
  - vm_compute. reflexivity.
  - vm_compute. congruence.
Defined.

(** ** Heap entries never go stale (implicit invariant) *)

Lemma heap_refs_NoDup (s : Sched) : Inv s -> NoDup (heap_refs (CFS_cfs_1 (queues s))).
Proof.
  intros HI. apply NoDup_ListNoDup. apply (List.NoDup_count_occ Nat.eq_dec). intros x.
  pose proof (inv_nodup s HI x) as H. unfold occ, cnt in H. lia.
Qed.

(** On rows of finite numbers: in every state reachable by admissions and
    ticks (including the states between the dispatches and runs inside a
    tick), in both variants,
    (1) no task has two entries in the CFS heap, (2) every entry's snapshot is
    the live vruntime of its task, hence within 1e-6 of it, (3) no task running
    on a core has a heap entry, (4) a run of one tick changes the vruntime of
    the task on that core only, and a dispatch changes none, and so (5) the
    loop of [_cfs_pop_min] returns at its first iteration: the stale branch is
    not executed and [insertion_counter] is left alone. *)
Theorem heap_entries_never_stale (v : Variant) (clf : Classifier) (uids : nat -> string)
    (n : nat) (order : option (list (nat * list SchedClass))) (rrq : Z) (slice : Q)
    (seed_ : Z) (s : Sched) :
  reachable v clf uids (Sched_init n order rrq slice seed_) s ->
  let heap := CFS_cfs_1 (queues s) in
  NoDup (heap_refs heap) /\
  Forall (fun e => exists t, objects s !! e_task e = Some t /\ vruntime t = e_vr e /\
                             snapshot_valid t (e_vr e) = true) heap /\
  (forall cid c r, cores s !! cid = Some c -> core_task c = Some r ->
                   ~ In r (heap_refs heap)) /\
  (forall cid x tx tx',
     objects s !! x = Some tx ->
     objects (_run_one_tick_on_core v cid s) !! x = Some tx' ->
     vruntime tx' <> vruntime tx ->
     (exists c, cores s !! cid = Some c /\ core_task c = Some x) /\
     ~ In x (heap_refs heap)) /\
  (forall cid sched x tx tx',
     objects s !! x = Some tx ->
     objects (_dispatch_to_core v cid sched s) !! x = Some tx' ->
     vruntime tx' = vruntime tx) /\
  (forall fuel,
     _cfs_pop_min_loop (S fuel) (objects s) heap (insertion_counter s) =
       match heap with
       | [] => Returned None [] (insertion_counter s)
       | e :: heap' => Returned (Some (e_task e)) heap' (insertion_counter s)
       end) /\
  insertion_counter (snd (_cfs_pop_min s)) = insertion_counter s.
Proof.
  intros Hreach heap.
  assert (HI : Inv s) by (eapply reachable_Inv; [apply init_Inv | exact Hreach]).
  assert (Hbusy : forall cid c r, cores s !! cid = Some c -> core_task c = Some r ->
                                  ~ In r (heap_refs heap)).
  { intros cid c r Hc Hr Hin. apply cnt_pos_elem in Hin.
    destruct (busy_core_alone s cid c r HI Hc Hr) as (_ & _ & _ & H0 & _).
    unfold heap in Hin. lia. }
  split; [now apply heap_refs_NoDup|].
  split.
  { eapply Forall_impl; [exact (inv_heap s HI)|].
    intros e (t & Ht & Hv). exists t. split; [exact Ht|]. split; [exact Hv|].
    rewrite <- Hv. apply snapshot_valid_fresh. }
  split; [exact Hbusy|].
  split.
  { intros cid x tx tx' Hx Hx' Hne.
    destruct (cores s !! cid) as [core|] eqn:Ec;
      [|rewrite run_one_tick_idle in Hx' by congruence; congruence].
    destruct (core_task core) as [r|] eqn:Er;
      [|rewrite run_one_tick_idle in Hx' by congruence; congruence].
    destruct (objects s !! r) as [t|] eqn:Et;
      [|rewrite run_one_tick_idle in Hx' by congruence; congruence].
    destruct (run_one_tick_proj v cid s core r t Ec Er Et) as (t2 & _ & _ & Hcases).
    assert (Ho : exists t', objects (_run_one_tick_on_core v cid s) = <[r := t']> (objects s)).
    { destruct Hcases as [(_ & Ho & _) | (_ & Ho & _)]; eauto. }
    destruct Ho as [t' Ho]. rewrite Ho in Hx'.
    destruct (Nat.eq_dec x r) as [->|Hxr].
    - split; [now exists core | now apply (Hbusy cid core)].
    - rewrite list_lookup_insert_ne in Hx' by congruence. congruence. }
  split.
  { intros cid sched x tx tx' Hx Hx'.
    destruct (dispatch_proj v cid sched s HI) as (_ & [(Ho & _) | Hd]).
    - rewrite Ho in Hx'. congruence.
    - destruct Hd as (r & t & t2 & left & Ht & Ho & _ & (_ & _ & _ & _ & Hvr & _) & _).
      rewrite Ho in Hx'. destruct (Nat.eq_dec x r) as [->|Hxr].
      + rewrite list_lookup_insert_eq in Hx' by (eapply lookup_lt_Some; exact Ht). congruence.
      + rewrite list_lookup_insert_ne in Hx' by congruence. congruence. }
  split.
  { intros fuel. apply cfs_pop_min_loop_fresh. exact (inv_heap s HI). }
  unfold _cfs_pop_min.
  rewrite (cfs_pop_min_loop_fresh _ _ _ _ (inv_heap s HI)).
  destruct (CFS_cfs_1 (queues s)); reflexivity.
Qed.

Lemma heap_entries_never_stale_witness :
  let s := run_script Baseline failing_clf no_uid (scenario_sched 1)
             [OpAdmit (cfs_row 1) 0; OpAdmit (cfs_row 2) 0] in
  heap_refs (CFS_cfs_1 (queues s)) = [0%nat; 1%nat] /\
  NoDup (heap_refs (CFS_cfs_1 (queues s))) /\
  fst (_cfs_pop_min s) = Some 0%nat.
Proof.
  intros s. split; [reflexivity|].
  assert (Hr : reachable Baseline failing_clf no_uid (Sched_init 1 None 100 4%Q 42) s).
  { apply reachable_script. constructor. }
  destruct (heap_entries_never_stale _ _ _ _ _ _ _ _ _ Hr) as (Hnd & _).
  split; [exact Hnd | reflexivity].
Defined.

(** ** Turnaround *)

Lemma step_effect_back (s s' : Sched) (x : ref) (tx' : Task) :
  step_effect s s' -> objects s' !! x = Some tx' ->
  exists tx, objects s !! x = Some tx /\
    static_view tx' = static_view tx /\
    ((total_run tx' = total_run tx /\ completion_time tx' = completion_time tx) \/
     (completion_time tx = None /\ total_run tx' = total_run tx + 1 /\
      (completion_time tx' = None \/ completion_time tx' = Some (time s)))).
Proof.
  intros (_ & _ & Hlen & He) Hx'.
  assert (Hlt : (x < length (objects s))%nat)
    by (rewrite <- Hlen; eapply lookup_lt_Some; exact Hx').
  destruct (lookup_lt_is_Some_2 _ _ Hlt) as [tx Hx].
  destruct (He x tx Hx) as (tx2 & Hx2 & Hrest).
  exists tx. split; [exact Hx|]. replace tx' with tx2 by congruence. exact Hrest.
Qed.

(** One loop body of [tick] uses up one of the [N] turns of the tick. *)
Lemma tick_core_bounded (v : Variant) (s : Sched) (cid : nat) (n k : Z) :
  Inv s -> time s = n -> 0 <= k -> k + 1 <= Z.of_nat (num_cores s) ->
  Bounded n k s ->
  let s' := tick_core v s cid in
  Inv s' /\ time s' = n /\ num_cores s' = num_cores s /\ Bounded n (k + 1) s'.
Proof.
  intros HI Hti Hk HkN HB s'.
  destruct (tick_core_Inv v s cid HI) as [HI' He]. fold s' in HI', He.
  pose proof He as (Hti' & Hnc & _).
  split; [exact HI'|]. split; [congruence|]. split; [exact Hnc|].
  intros x tx' Hx'. rewrite Hnc.
  destruct (step_effect_back s s' x tx' He Hx') as (tx & Hx & Hsv & Hcase).
  destruct (static_view_total_time tx tx' Hsv) as (_ & Harr & _).
  destruct (HB x tx Hx) as (Ha & Hr0 & Hc). unfold run_bound. rewrite Harr.
  destruct Hcase as [(Hrun & Hct) | (Hnone & Hrun & Hct)].
  - rewrite Hrun, Hct. repeat split; try assumption.
    destruct (completion_time tx); [exact Hc | lia].
  - rewrite Hnone in Hc. rewrite Hrun. split; [exact Ha|]. split; [lia|].
    destruct Hct as [-> | ->]; [lia|]. rewrite Hti. split; [exact Ha | nia].
Qed.

(** A whole tick: every core has its turn. *)
Lemma tick_bounded (v : Variant) (s : Sched) (n : Z) :
  Inv s -> Bounded n 0 s ->
  let s' := tick v n s in
  Inv s' /\ num_cores s' = num_cores s /\ Bounded (n + 1) 0 s'.
Proof.
  intros HI HB s'. unfold s', tick.
  set (N := num_cores s).
  assert (Hgen : forall (l : list nat) (k : nat) (s1 : Sched),
            Inv s1 -> time s1 = n -> num_cores s1 = N ->
            (k + length l <= N)%nat -> Bounded n (Z.of_nat k) s1 ->
            let s2 := fold_left (tick_core v) l s1 in
            Inv s2 /\ num_cores s2 = N /\ Bounded n (Z.of_nat (k + length l)) s2).
  { induction l as [|cid l IH]; intros k s1 HI1 Hti Hnc Hlen HB1; cbn [fold_left length].
    - rewrite Nat.add_0_r. auto.
    - destruct (tick_core_bounded v s1 cid n (Z.of_nat k) HI1 Hti) as (HI2 & Hti2 & Hnc2 & HB2);
        [lia | cbn [length] in Hlen; lia | exact HB1 |].
      destruct (IH (S k) (tick_core v s1 cid) HI2 Hti2) as (HI3 & Hnc3 & HB3);
        [congruence | cbn [length] in Hlen; lia | |].
      + replace (Z.of_nat (S k)) with (Z.of_nat k + 1) by lia. exact HB2.
      + split; [exact HI3|]. split; [exact Hnc3|].
        replace (k + S (length l))%nat with (S k + length l)%nat by lia. exact HB3. }
  destruct (Hgen (seq 0 N) 0%nat (set_time n s)) as (HI2 & Hnc2 & HB2).
  - now apply set_time_Inv.
  - reflexivity.
  - reflexivity.
  - rewrite length_seq. lia.
  - exact HB.
  - split; [exact HI2|]. split; [exact Hnc2|].
    rewrite length_seq in HB2. cbn [Nat.add] in HB2.
    intros x tx Hx. specialize (HB2 x tx Hx). rewrite Hnc2 in *.
    destruct HB2 as (Ha & Hr0 & Hc). unfold run_bound. split; [lia|]. split; [exact Hr0|].
    destruct (completion_time tx); [exact Hc | nia].
Qed.

Lemma admit_row_bounded (v : Variant) (clf : Classifier) (u : string) (row : Features)
    (n : Z) (s : Sched) :
  arrival_of row = n -> Bounded n 0 s ->
  let s' := admit_row v clf u row n s in
  num_cores s' = num_cores s /\ Bounded n 0 s'.
Proof.
  intros Harr HB s'.
  destruct (admit_row_proj v clf u row n s) as (Ho & _ & _ & _ & Hnc & _).
  destruct (admit_task_fresh v clf (rr_quantum s) row u) as [Hv _].
  destruct (admit_view_total_time _ _ Hv) as (_ & Hrun & Hct & Ha & _).
  revert Ho Hrun Hct Ha. generalize (admit_task v clf (rr_quantum s) (Task_init row u)).
  fold s' in Hnc |- *. intros t' Ho Hrun Hct Ha.
  split; [exact Hnc|]. intros x tx Hx. rewrite Hnc. rewrite Ho in Hx.
  destruct (Nat.lt_ge_cases x (length (objects s))) as [Hlt|Hge].
  - rewrite lookup_app_l in Hx by exact Hlt. exact (HB x tx Hx).
  - destruct (Nat.eq_dec x (length (objects s))) as [->|Hne].
    + rewrite list_lookup_middle in Hx by reflexivity. injection Hx as <-.
      unfold run_bound. rewrite Hrun, Hct, Ha.
      change (arrival_time (Task_init row u)) with (arrival_of row).
      change (total_run (Task_init row u)) with 0.
      change (completion_time (Task_init row u)) with (@None Z).
      rewrite Harr. repeat split; lia.
    + rewrite lookup_ge_None_2 in Hx by (rewrite length_app; cbn [length]; lia). discriminate.
Qed.

(** One iteration of the driver: the arrivals of tick [n], then the tick. *)
Lemma driver_step_bounded (v : Variant) (clf : Classifier) (uids : nat -> string)
    (rows : list Features) (n : Z) (s : Sched) :
  Inv s -> Bounded n 0 s ->
  let s' := driver_step v clf uids rows n s in
  Inv s' /\ num_cores s' = num_cores s /\ Bounded (n + 1) 0 s'.
Proof.
  intros HI HB s'. unfold s', driver_step, run_script. rewrite fold_left_app.
  cbn [fold_left run_op].
  assert (Hadm : forall l s1, Forall (fun row => arrival_of row = n) l ->
            Inv s1 -> Bounded n 0 s1 ->
            let s2 := fold_left (run_op v clf uids) (map (fun row => OpAdmit row n) l) s1 in
            Inv s2 /\ num_cores s2 = num_cores s1 /\ Bounded n 0 s2).
  { induction l as [|row l IH]; intros s1 Hl HI1 HB1; cbn [map fold_left run_op]; [auto|].
    pose proof (List.Forall_inv Hl) as Hrow. pose proof (List.Forall_inv_tail Hl) as Hl'.
    cbn beta in Hrow.
    destruct (admit_row_bounded v clf (uids (length (objects s1))) row _ s1 Hrow HB1)
      as [Hnc HB2].
    destruct (IH _ Hl' (admit_row_Inv v clf _ row _ s1 HI1) HB2) as (HI3 & Hnc3 & HB3).
    split; [exact HI3|]. split; [congruence | exact HB3]. }
  destruct (Hadm (arrivals_at rows n) s) as (HI2 & Hnc2 & HB2); [|exact HI|exact HB|].
  { unfold arrivals_at. apply List.Forall_forall. intros row Hin.
    apply List.filter_In in Hin. destruct Hin as [_ Heq]. now apply Z.eqb_eq in Heq. }
  destruct (tick_bounded v _ n HI2 HB2) as (HI3 & Hnc3 & HB3).
  split; [exact HI3|]. split; [congruence | exact HB3].
Qed.

Lemma driver_iter_bounded (v : Variant) (clf : Classifier) (uids : nat -> string)
    (rows : list Features) (j : nat) :
  forall (n : Z) (s : Sched),
    Inv s -> Bounded n 0 s ->
    let s' := driver_iter j v clf uids rows n s in
    Inv s' /\ num_cores s' = num_cores s /\ Bounded (n + Z.of_nat j) 0 s'.
Proof.
  induction j as [|j IH]; intros n s HI HB; cbn [driver_iter].
  - rewrite Z.add_0_r. auto.
  - destruct (driver_step_bounded v clf uids rows n s HI HB) as (HI1 & Hnc1 & HB1).
    destruct (IH (n + 1) _ HI1 HB1) as (HI2 & Hnc2 & HB2).
    split; [exact HI2|]. split; [congruence|].
    replace (n + Z.of_nat (S j)) with (n + 1 + Z.of_nat j) by lia. exact HB2.
Qed.

(** The driver loop leaves after some number of whole iterations. *)
Lemma driver_loop_iter (v : Variant) (clf : Classifier) (uids : nat -> string)
    (rows : list Features) (last_arrival max_ticks : Z) (fuel : nat) :
  forall (current_time : Z) (s : Sched),
    exists j, driver_loop fuel v clf uids rows last_arrival max_ticks current_time s
              = driver_iter j v clf uids rows current_time s.
Proof.
  induction fuel as [|fuel IH]; intros ct s; cbn [driver_loop].
  - now exists 0%nat.
  - destruct ((last_arrival <? ct) && all_queues_empty _)%bool; [now exists 1%nat|].
    destruct (max_ticks <? ct + 1); [now exists 1%nat|].
    destruct (IH (ct + 1) (driver_step v clf uids rows ct s)) as [j Hj].
    exists (S j). exact Hj.
Qed.

Lemma init_bounded (n : nat) (order : option (list (nat * list SchedClass))) (rrq : Z)
    (slice : Q) (seed_ : Z) :
  Bounded 0 0 (Sched_init n order rrq slice seed_).
Proof. intros x tx H. cbn [Sched_init objects] in H. rewrite lookup_nil in H. discriminate. Qed.

(** The rows of [export_task_metrics] come from objects of the completed set. *)
Lemma export_rows (s : Sched) (m : MetricRow) :
  In m (export_task_metrics s) ->
  exists p r t, dict_get p (completed_tasks s) = Some r /\ objects s !! r = Some t /\
                m = metric_row p t.
Proof.
  unfold export_task_metrics. rewrite in_flat_map. intros ([p r0] & _ & Hin).
  destruct (dict_get p (completed_tasks s)) as [r|] eqn:Ed; [|destruct Hin].
  destruct (objects s !! r) as [t|] eqn:Et; [|destruct Hin].
  destruct Hin as [<-|[]]. now exists p, r, t.
Qed.

(** C2 (amended): for every task that a driver run on [N] cores exports as
    completed, [turnaround = completion_time - arrival_time]; the task has run
    at least [total_time] ticks, at most one per core and tick from its arrival
    on, so [total_time <= N * (turnaround + 1)].  In particular a single FIFO
    task with arrival 0 and [total_time = 10] on an otherwise idle 4-core
    machine is dispatched at t=0 on core 0, completes at t=9, and its exported
    turnaround is 9. *)
Theorem turnaround_of_completed :
  (forall (v : Variant) (clf : Classifier) (uids : nat -> string) (n : nat)
          (order : option (list (nat * list SchedClass))) (rrq : Z) (slice : Q) (seed_ : Z)
          (rows : list Features) (max_ticks : Z) (s : Sched) (m : MetricRow),
      simulate v clf uids (Sched_init n order rrq slice seed_) rows max_ticks = Some s ->
      In m (export_task_metrics s) ->
      exists r t c,
        objects s !! r = Some t /\
        m_arrival m = arrival_time t /\ m_execution_time m = total_run t /\
        completion_time t = Some c /\ m_completion m = Some c /\
        m_turnaround m = Some (c - arrival_time t) /\
        total_time t <= total_run t /\
        total_run t <= Z.of_nat n * (c - arrival_time t + 1)) /\
  (let s := baseline_script 4 fifo_script in
   baseline_run 4 fifo_rows = Some s /\
   transitions s = [(0, ADMIT, Some 1); (0, ENQUEUE, Some 1);
                    (0, DISPATCH, Some 1); (9, COMPLETE, Some 1)] /\
   map row_core (List.filter (fun r => Event_eqb (row_event r) DISPATCH) (logs s))
     = [Some 0%nat] /\
   map m_turnaround (export_task_metrics s) = [Some 9] /\
   map m_waiting (export_task_metrics s) = [Some 0] /\
   context_switches s = 1).
Proof.
  split.
  - intros v clf uids n order rrq slice seed_ rows max_ticks s m Hsim Hm.
    unfold simulate in Hsim. destruct (last_arrival_of rows) as [la|]; [|discriminate].
    destruct (driver_loop_iter v clf uids rows la max_ticks (S (Z.to_nat max_ticks)) 0
                (Sched_init n order rrq slice seed_)) as [j Hj].
    rewrite Hj in Hsim. clear Hj. injection Hsim as <-.
    destruct (driver_iter_bounded v clf uids rows j 0 (Sched_init n order rrq slice seed_)
                (init_Inv n order rrq slice seed_) (init_bounded n order rrq slice seed_))
      as (HI & Hnc & HB).
    revert Hm HI Hnc HB. generalize (driver_iter j v clf uids rows 0
                                       (Sched_init n order rrq slice seed_)).
    intros s Hm HI Hnc HB. cbn [Sched_init num_cores] in Hnc.
    destruct (export_rows s m Hm) as (p & r & t & Hd & Ht & ->).
    destruct (inv_done s HI p r Hd) as (t0 & c & Ht0 & Hc & Hrem).
    replace t0 with t in * by congruence.
    destruct (HB r t Ht) as (Ha & Hr0 & Hb). rewrite Hc, Hnc in Hb.
    exists r, t, c. unfold metric_row. cbn [m_arrival m_execution_time m_completion m_turnaround].
    rewrite Hc. repeat split; try tauto.
    destruct (Z.le_gt_cases 1 (total_time t)) as [Hp|Hp].
    + destruct (inv_work s HI r t Ht Hp) as [Hsum _]. lia.
    + lia.
  - vm_compute. repeat split.
Qed.

Lemma turnaround_of_completed_witness :
  exists s m, baseline_run 4 fifo_rows = Some s /\
    export_task_metrics s = [m] /\ m_turnaround m = Some 9 /\
    exists r t c, objects s !! r = Some t /\ completion_time t = Some c /\
                  total_time t <= 4 * (c - arrival_time t + 1).
Proof.
  eexists. eexists. split; [reflexivity|]. split; [vm_compute; reflexivity|].
  split; [reflexivity|].
  destruct turnaround_of_completed as [Hgen _].
  edestruct (Hgen Baseline failing_clf no_uid 4%nat None 100 4%Q 42 fifo_rows 70000)
    as (r & t & c & Ht & _ & _ & Hc & _ & _ & Hle & Hb).
  - reflexivity.
  - vm_compute. left. reflexivity.
  - exists r, t, c. split; [exact Ht|]. split; [exact Hc|]. cbn in Hb. lia.
Defined.

(** On several cores the bound of C2 cannot be tightened to
    [turnaround >= total_time - 1]: a lone RR task of 101 ticks on 4 cores is
    preempted on core 0 in tick 99 and runs its last tick on core 1 in the
    same tick. *)
Lemma rr_migration_within_tick :
  exists s, baseline_run 4 [mk_row 1 0 101 "SCHED_RR"] = Some s /\
    map m_turnaround (export_task_metrics s) = [Some 99] /\
    map total_time (objects s) = [101].
Proof.
  eexists. split; [reflexivity|]. vm_compute. split; reflexivity.
Qed.

(** ** Determinism of the event log *)

(** Projections of an erased task. *)
Ltac erase_simpl :=
  repeat match goal with
  | |- context [features (erase_uid ?x)] => change (features (erase_uid x)) with (features x)
  | |- context [pid (erase_uid ?x)] => change (pid (erase_uid x)) with (pid x)
  | |- context [name (erase_uid ?x)] => change (name (erase_uid x)) with (name x)
  | |- context [total_time (erase_uid ?x)] => change (total_time (erase_uid x)) with (total_time x)
  | |- context [remaining (erase_uid ?x)] => change (remaining (erase_uid x)) with (remaining x)
  | |- context [arrival_time (erase_uid ?x)] => change (arrival_time (erase_uid x)) with (arrival_time x)
  | |- context [resource_type (erase_uid ?x)] => change (resource_type (erase_uid x)) with (resource_type x)
  | |- context [interactivity (erase_uid ?x)] => change (interactivity (erase_uid x)) with (interactivity x)
  | |- context [priority_class (erase_uid ?x)] => change (priority_class (erase_uid x)) with (priority_class x)
  | |- context [execution_class (erase_uid ?x)] => change (execution_class (erase_uid x)) with (execution_class x)
  | |- context [subqueue_score (erase_uid ?x)] => change (subqueue_score (erase_uid x)) with (subqueue_score x)
  | |- context [assigned_scheduler (erase_uid ?x)] => change (assigned_scheduler (erase_uid x)) with (assigned_scheduler x)
  | |- context [subqueue (erase_uid ?x)] => change (subqueue (erase_uid x)) with (subqueue x)
  | |- context [quantum (erase_uid ?x)] => change (quantum (erase_uid x)) with (quantum x)
  | |- context [total_run (erase_uid ?x)] => change (total_run (erase_uid x)) with (total_run x)
  | |- context [first_start (erase_uid ?x)] => change (first_start (erase_uid x)) with (first_start x)
  | |- context [completion_time (erase_uid ?x)] => change (completion_time (erase_uid x)) with (completion_time x)
  | |- context [vruntime (erase_uid ?x)] => change (vruntime (erase_uid x)) with (vruntime x)
  | |- context [weight (erase_uid ?x)] => change (weight (erase_uid x)) with (weight x)
  | |- context [last_core (erase_uid ?x)] => change (last_core (erase_uid x)) with (last_core x)
  end.

Lemma erase_classify (clf : Classifier) (t : Task) :
  _classify_task clf (erase_uid t) = erase_uid (_classify_task clf t).
Proof.
  unfold _classify_task. change (features (erase_uid t)) with (features t).
  repeat match goal with |- context [match clf ?f ?c with _ => _ end] => destruct (clf f c) end;
    reflexivity.
Qed.

Lemma erase_compute_score (t : Task) :
  _compute_subqueue_score (erase_uid t) = erase_uid (_compute_subqueue_score t).
Proof.
  unfold _compute_subqueue_score. erase_simpl.
  now destruct (_map_numeric_labels _ _ _ _) as [[[R I'] E] P].
Qed.

Lemma erase_admit_remaining (t : Task) :
  admit_remaining (erase_uid t) = erase_uid (admit_remaining t).
Proof.
  unfold admit_remaining. erase_simpl. destruct (remaining t =? 0); reflexivity.
Qed.

Lemma erase_assign_scheduler (t : Task) :
  _assign_scheduler_and_subqueue (erase_uid t) = erase_uid (_assign_scheduler_and_subqueue t).
Proof.
  unfold _assign_scheduler_and_subqueue, sched_pol, score_or. erase_simpl.
  repeat match goal with |- context [if ?b then _ else _] => destruct b end; reflexivity.
Qed.

Lemma erase_admit_vruntime_weight (t : Task) :
  admit_vruntime_weight (erase_uid t) = erase_uid (admit_vruntime_weight t).
Proof. reflexivity. Qed.

Lemma erase_baseline_admit_task (rrq : Z) (t : Task) :
  baseline_admit_task rrq (erase_uid t) = erase_uid (baseline_admit_task rrq t).
Proof.
  unfold baseline_admit_task. cbv zeta.
  change (sched_pol (erase_uid t)) with (sched_pol t).
  set (t1 := if String.eqb (sched_pol t) "SCHED_FIFO" then _ else _).
  set (t1' := if String.eqb (sched_pol t) "SCHED_FIFO" then _ else _).
  assert (E1 : t1 = erase_uid t1').
  { unfold t1, t1'.
    repeat match goal with |- context [if String.eqb ?a ?b then _ else _] =>
             destruct (String.eqb a b) end; reflexivity. }
  clearbody t1 t1'. subst t1.
  rewrite erase_admit_remaining, erase_admit_vruntime_weight.
  generalize (admit_vruntime_weight (admit_remaining t1')). intros t3.
  change (assigned_scheduler (erase_uid t3)) with (assigned_scheduler t3).
  destruct (assigned_scheduler t3) as [[]|]; reflexivity.
Qed.

Lemma erase_ai_admit_task (clf : Classifier) (t : Task) :
  ai_admit_task clf (erase_uid t) = erase_uid (ai_admit_task clf t).
Proof.
  unfold ai_admit_task. cbv zeta.
  rewrite erase_classify, erase_compute_score, erase_admit_remaining.
  generalize (admit_remaining (_compute_subqueue_score (_classify_task clf t))). intros t2.
  change (sched_pol (erase_uid t2)) with (sched_pol t2).
  set (t3 := if String.eqb (sched_pol t2) "SCHED_FIFO" then _ else _).
  set (t3' := if String.eqb (sched_pol t2) "SCHED_FIFO" then _ else _).
  assert (E3 : t3 = erase_uid t3').
  { unfold t3, t3'.
    repeat match goal with |- context [if String.eqb ?a ?b then _ else _] =>
             destruct (String.eqb a b) end; try reflexivity.
    apply erase_assign_scheduler. }
  clearbody t3 t3'. subst t3.
  rewrite erase_admit_vruntime_weight.
  generalize (admit_vruntime_weight t3'). intros t4.
  change (assigned_scheduler (erase_uid t4)) with (assigned_scheduler t4).
  destruct (assigned_scheduler t4) as [[]|]; reflexivity.
Qed.

Lemma erase_admit_task (v : Variant) (clf : Classifier) (rrq : Z) (t : Task) :
  admit_task v clf rrq (erase_uid t) = erase_uid (admit_task v clf rrq t).
Proof.
  destruct v; [rewrite !admit_task_Baseline | rewrite !admit_task_AI].
  - apply erase_baseline_admit_task.
  - apply erase_ai_admit_task.
Qed.

Lemma erase_update_vruntime (v : Variant) (t : Task) :
  _update_vruntime v (erase_uid t) = erase_uid (_update_vruntime v t).
Proof.
  unfold _update_vruntime, score_or. erase_simpl.
  destruct (Qleb (weight t) 0), v; reflexivity.
Qed.

Lemma obs_objects_lookup (s : Sched) (r : ref) :
  objects (obs s) !! r = erase_uid <$> (objects s !! r).
Proof. cbn [obs objects]. apply list_lookup_fmap. Qed.

Lemma obs_log (e : Event) (t : Task) (c : option nat) (x : option string) (s : Sched) :
  _log e (erase_uid t) c x (obs s) = obs (_log e t c x s).
Proof. reflexivity. Qed.

Lemma obs_enqueue (r : ref) (t : Task) (s : Sched) :
  _enqueue_task r (erase_uid t) (obs s) = obs (_enqueue_task r t s).
Proof.
  unfold _enqueue_task. erase_simpl.
  destruct (get (assigned_scheduler t) CFS); reflexivity.
Qed.

Lemma obs_set_objects_insert (r : ref) (t : Task) (s : Sched) :
  set_objects (<[r := erase_uid t]> (objects (obs s))) (obs s)
  = obs (set_objects (<[r := t]> (objects s)) s).
Proof. unfold obs. sched_simpl. now rewrite list_fmap_insert. Qed.

Lemma obs_pop_min_loop (fuel : nat) (objs : list Task) :
  forall heap counter,
    _cfs_pop_min_loop fuel (erase_uid <$> objs) heap counter
    = _cfs_pop_min_loop fuel objs heap counter.
Proof.
  induction fuel as [|fuel IH]; intros heap counter; [reflexivity|].
  cbn [_cfs_pop_min_loop]. destruct (heappop heap) as [[e heap']|]; [|reflexivity].
  rewrite list_lookup_fmap. destruct (objs !! e_task e) as [t|]; [|reflexivity].
  cbn [fmap option_fmap option_map].
  change (snapshot_valid (erase_uid t) (e_vr e)) with (snapshot_valid t (e_vr e)).
  destruct (snapshot_valid t (e_vr e)); [reflexivity|]. erase_simpl. apply IH.
Qed.

Lemma obs_dequeue (sched : SchedClass) (s : Sched) :
  _dequeue_task sched (obs s)
  = (fst (_dequeue_task sched s), obs (snd (_dequeue_task sched s))).
Proof.
  destruct sched; cbn [_dequeue_task].
  - change (queues (obs s)) with (queues s). now destruct (popleft _).
  - change (queues (obs s)) with (queues s). now destruct (popleft _).
  - unfold _cfs_pop_min.
    change (queues (obs s)) with (queues s).
    change (insertion_counter (obs s)) with (insertion_counter s).
    change (objects (obs s)) with (erase_uid <$> objects s).
    rewrite obs_pop_min_loop.
    now destruct (_cfs_pop_min_loop _ _ _ _).
  - change (queues (obs s)) with (queues s). now destruct (popleft _).
Qed.

Lemma obs_weights_in_heap (objs : list Task) (heap : list HeapEntry) :
  weights_in_heap (erase_uid <$> objs) heap = weights_in_heap objs heap.
Proof.
  unfold weights_in_heap.
  set (f := fun (objs : list Task) (acc : Q) (e : HeapEntry) =>
              match objs !! e_task e with
              | Some t => (acc + (if Qltb 0 (weight t) then weight t else NICE0_WEIGHT))%Q
              | None => acc
              end).
  change (fold_left (f (erase_uid <$> objs)) heap 0%Q = fold_left (f objs) heap 0%Q).
  generalize 0%Q. induction heap as [|e heap IH]; intros acc; cbn [fold_left]; [reflexivity|].
  rewrite IH. f_equal. unfold f. rewrite list_lookup_fmap.
  now destruct (objs !! e_task e).
Qed.

Lemma obs_dispatch_quantum (v : Variant) (sched : SchedClass) (t : Task) (s : Sched) :
  dispatch_quantum v sched (erase_uid t) (obs s) = dispatch_quantum v sched t s.
Proof.
  unfold dispatch_quantum, cfs_base_slice_at_dispatch, dispatch_rr_quantum, score_or.
  change (objects (obs s)) with (erase_uid <$> objects s).
  change (queues (obs s)) with (queues s). change (rr_quantum (obs s)) with (rr_quantum s).
  rewrite obs_weights_in_heap. erase_simpl. reflexivity.
Qed.

Lemma obs_place_on_core (v : Variant) (cid : nat) (sched : SchedClass) (r : ref) (s : Sched) :
  place_on_core v cid sched r (obs s) = obs (place_on_core v cid sched r s).
Proof.
  unfold place_on_core. rewrite obs_objects_lookup.
  destruct (objects s !! r) as [t|]; cbn [fmap option_fmap option_map]; [|reflexivity].
  rewrite obs_dispatch_quantum. generalize (dispatch_quantum v sched t s). intros q.
  cbv zeta. task_simpl. erase_simpl. cbn [get].
  change (time (obs s)) with (time s).
  destruct (first_start t); unfold obs; sched_simpl; rewrite list_fmap_insert; reflexivity.
Qed.

Lemma obs_dispatch (v : Variant) (cid : nat) (sched : SchedClass) (s : Sched) :
  _dispatch_to_core v cid sched (obs s) = obs (_dispatch_to_core v cid sched s).
Proof.
  unfold _dispatch_to_core. rewrite obs_dequeue.
  destruct (_dequeue_task sched s) as [[r|] s1]; cbn [fst snd]; [|reflexivity].
  apply obs_place_on_core.
Qed.

Lemma obs_run_one_tick (v : Variant) (cid : nat) (s : Sched) :
  _run_one_tick_on_core v cid (obs s) = obs (_run_one_tick_on_core v cid s).
Proof.
  unfold _run_one_tick_on_core. change (cores (obs s)) with (cores s).
  destruct (cores s !! cid) as [core|]; [|reflexivity].
  destruct (core_task core) as [r|]; [|reflexivity].
  rewrite obs_objects_lookup.
  destruct (objects s !! r) as [t|]; cbn [fmap option_fmap option_map]; [|reflexivity].
  cbv zeta. erase_simpl.
  set (T1 := set_total_run (total_run t + 1) (set_remaining (Z.max 0 (remaining t - 1)) t)).
  change (set_total_run (total_run t + 1)
            (set_remaining (Z.max 0 (remaining t - 1)) (erase_uid t)))
    with (erase_uid T1).
  erase_simpl.
  set (T2 := match assigned_scheduler T1 with
             | Some CFS => _update_vruntime v T1
             | _ => T1
             end).
  assert (E2 : match assigned_scheduler T1 with
               | Some CFS => _update_vruntime v (erase_uid T1)
               | _ => erase_uid T1
               end = erase_uid T2).
  { unfold T2. destruct (assigned_scheduler T1) as [[]|]; try reflexivity.
    apply erase_update_vruntime. }
  rewrite E2. clearbody T2. clear E2 T1. erase_simpl.
  change (time (obs s)) with (time s).
  destruct (remaining T2 <=? 0).
  - unfold obs. sched_simpl. rewrite !list_fmap_insert. reflexivity.
  - destruct (Z.max 0 (time_left core - 1) <=? 0).
    + destruct (assigned_scheduler T2) as [[]|]; unfold obs; sched_simpl;
        rewrite !list_fmap_insert; reflexivity.
    + unfold obs. sched_simpl. rewrite !list_fmap_insert. reflexivity.
Qed.

Lemma obs_tick_core (v : Variant) (s : Sched) (cid : nat) :
  tick_core v (obs s) cid = obs (tick_core v s cid).
Proof.
  unfold tick_core. change (cores (obs s)) with (cores s).
  change (_pick_task_for_core cid (obs s)) with (_pick_task_for_core cid s).
  destruct (core_task <$> cores s !! cid) as [[r|]|]; try apply obs_run_one_tick.
  destruct (_pick_task_for_core cid s) as [[sched subq]|]; [|apply obs_run_one_tick].
  rewrite obs_dispatch. apply obs_run_one_tick.
Qed.

Lemma obs_tick (v : Variant) (current_time : Z) (s : Sched) :
  tick v current_time (obs s) = obs (tick v current_time s).
Proof.
  unfold tick. change (num_cores (obs s)) with (num_cores s).
  change (set_time current_time (obs s)) with (obs (set_time current_time s)).
  generalize (set_time current_time s). generalize (seq 0 (num_cores s)).
  intros l. induction l as [|cid l IH]; intros s1; cbn [fold_left]; [reflexivity|].
  rewrite obs_tick_core. apply IH.
Qed.

Lemma obs_admit_row (v : Variant) (clf : Classifier) (u : string) (row : Features)
    (current_time : Z) (s : Sched) :
  admit_row v clf "" row current_time (obs s) = obs (admit_row v clf u row current_time s).
Proof.
  unfold admit_row, sched_admit.
  change (objects (obs s)) with (erase_uid <$> objects s).
  sched_simpl. rewrite length_fmap, !list_lookup_middle by (now rewrite ?length_fmap).
  change (rr_quantum (obs s)) with (rr_quantum s).
  change (Task_init row "") with (erase_uid (Task_init row u)).
  rewrite erase_admit_task. erase_simpl.
  generalize (admit_task v clf (rr_quantum s) (Task_init row u)). intros t'.
  generalize (Task_init row u). intros T0.
  rewrite <- obs_enqueue, <- obs_log. f_equal. f_equal.
  unfold obs. sched_simpl. rewrite list_fmap_insert, fmap_app. reflexivity.
Qed.

(** Two classifiers that label a row alike admit it alike. *)
Lemma admit_row_classifier (v : Variant) (clf1 clf2 : Classifier) (u : string)
    (row : Features) (current_time : Z) (s : Sched) :
  (forall c, clf1 row c = clf2 row c) ->
  admit_row v clf1 u row current_time s = admit_row v clf2 u row current_time s.
Proof.
  intros H. unfold admit_row, sched_admit. sched_simpl.
  rewrite list_lookup_middle by reflexivity.
  assert (E : admit_task v clf1 (rr_quantum s) (Task_init row u)
              = admit_task v clf2 (rr_quantum s) (Task_init row u)).
  { destruct v; [reflexivity|]. rewrite !admit_task_AI. unfold ai_admit_task.
    assert (Ec : _classify_task clf1 (Task_init row u) = _classify_task clf2 (Task_init row u)).
    { unfold _classify_task. change (features (Task_init row u)) with row.
      now rewrite !H. }
    now rewrite Ec. }
  now rewrite E.
Qed.

Lemma obs_run_op (v : Variant) (clf1 clf2 : Classifier) (uids1 uids2 : nat -> string)
    (s1 s2 : Sched) (o : op) :
  (forall row ct, o = OpAdmit row ct -> forall c, clf1 row c = clf2 row c) ->
  obs s1 = obs s2 ->
  obs (run_op v clf1 uids1 s1 o) = obs (run_op v clf2 uids2 s2 o).
Proof.
  intros Hclf Hs. destruct o as [row ct|ct]; cbn [run_op].
  - rewrite <- !obs_admit_row, Hs.
    apply admit_row_classifier. now apply (Hclf row ct).
  - now rewrite <- !obs_tick, Hs.
Qed.

Lemma obs_run_script (v : Variant) (clf1 clf2 : Classifier) (uids1 uids2 : nat -> string)
    (script : list op) :
  (forall row, In row (admitted_rows script) -> forall c, clf1 row c = clf2 row c) ->
  forall s1 s2, obs s1 = obs s2 ->
    obs (run_script v clf1 uids1 s1 script) = obs (run_script v clf2 uids2 s2 script).
Proof.
  unfold run_script. induction script as [|o script IH]; intros Hclf s1 s2 Hs;
    cbn [fold_left]; [exact Hs|].
  apply IH.
  - intros row Hin. apply Hclf. cbn [admitted_rows flat_map]. apply in_or_app. now right.
  - apply obs_run_op; [|exact Hs].
    intros row ct -> c. apply Hclf. cbn [admitted_rows flat_map]. now left.
Qed.

Lemma obs_driver_loop (v : Variant) (clf1 clf2 : Classifier) (uids1 uids2 : nat -> string)
    (rows : list Features) (last_arrival max_ticks : Z) (fuel : nat) :
  (forall row, In row rows -> forall c, clf1 row c = clf2 row c) ->
  forall current_time s1 s2, obs s1 = obs s2 ->
    obs (driver_loop fuel v clf1 uids1 rows last_arrival max_ticks current_time s1)
    = obs (driver_loop fuel v clf2 uids2 rows last_arrival max_ticks current_time s2).
Proof.
  intros Hclf. induction fuel as [|fuel IH]; intros ct s1 s2 Hs; cbn [driver_loop];
    [exact Hs|].
  assert (Hstep : obs (driver_step v clf1 uids1 rows ct s1)
                  = obs (driver_step v clf2 uids2 rows ct s2)).
  { unfold driver_step. apply obs_run_script; [|exact Hs].
    intros row Hin. apply Hclf. unfold admitted_rows in Hin.
    apply in_flat_map in Hin. destruct Hin as (o & Ho & Hrow).
    apply in_app_or in Ho. destruct Ho as [Ho|[<-|[]]]; [|destruct Hrow].
    apply in_map_iff in Ho. destruct Ho as (row' & <- & Hin').
    destruct Hrow as [<-|[]]. unfold arrivals_at in Hin'.
    now apply List.filter_In in Hin'. }
  assert (Hq : all_queues_empty (driver_step v clf1 uids1 rows ct s1)
               = all_queues_empty (driver_step v clf2 uids2 rows ct s2)).
  { change (all_queues_empty (obs (driver_step v clf1 uids1 rows ct s1))
            = all_queues_empty (obs (driver_step v clf2 uids2 rows ct s2))).
    now rewrite Hstep. }
  rewrite Hq.
  destruct ((last_arrival <? ct) && all_queues_empty _)%bool; [exact Hstep|].
  destruct (max_ticks <? ct + 1); [exact Hstep|].
  now apply IH.
Qed.

(** C9: the event log is a function of the input rows, the ticks at which
    they are admitted, the classifier's outputs on those rows and the
    scheduler configuration (core count, priority order, [rr_quantum]).  Two
    runs that differ in everything else a run draws on (the uuids of the task
    objects, the [seed] and [cfs_base_slice] arguments, the classifier away
    from the admitted rows) produce the same log, row for row; this holds for
    every sequence of admissions and ticks and for the driver loop. *)
Theorem event_log_deterministic (v : Variant) (clf1 clf2 : Classifier)
    (uids1 uids2 : nat -> string) (n : nat) (order : option (list (nat * list SchedClass)))
    (rrq : Z) (slice1 slice2 : Q) (seed1 seed2 : Z) :
  (forall (script : list op),
     (forall row, In row (admitted_rows script) -> forall c, clf1 row c = clf2 row c) ->
     logs (run_script v clf1 uids1 (Sched_init n order rrq slice1 seed1) script)
     = logs (run_script v clf2 uids2 (Sched_init n order rrq slice2 seed2) script)) /\
  (forall (rows : list Features) (max_ticks : Z),
     (forall row, In row rows -> forall c, clf1 row c = clf2 row c) ->
     option_map logs (simulate v clf1 uids1 (Sched_init n order rrq slice1 seed1)
                        rows max_ticks)
     = option_map logs (simulate v clf2 uids2 (Sched_init n order rrq slice2 seed2)
                          rows max_ticks)).
Proof.
  assert (H0 : obs (Sched_init n order rrq slice1 seed1)
               = obs (Sched_init n order rrq slice2 seed2)) by reflexivity.
  split.
  - intros script Hclf.
    pose proof (obs_run_script v clf1 clf2 uids1 uids2 script Hclf _ _ H0) as H.
    apply (f_equal logs) in H. exact H.
  - intros rows max_ticks Hclf. unfold simulate.
    destruct (last_arrival_of rows) as [la|]; [|reflexivity]. cbn [option_map]. f_equal.
    pose proof (obs_driver_loop v clf1 clf2 uids1 uids2 rows la max_ticks
                  (S (Z.to_nat max_ticks)) Hclf 0 _ _ H0) as H.
    apply (f_equal logs) in H. exact H.
Qed.

Lemma event_log_deterministic_witness :
  logs (run_script AI promoted_clf no_uid (Sched_init 4 None 100 4%Q 42) promoted_script)
  = logs (run_script AI promoted_clf_pid1 other_uid (Sched_init 4 None 100 1%Q 7)
            promoted_script).
Proof.
  apply (event_log_deterministic AI promoted_clf promoted_clf_pid1 no_uid other_uid
           4 None 100 4%Q 1%Q 42 7).
  intros row Hin c. cbn in Hin. destruct Hin as [<-|[]]. reflexivity.
Defined.

(** ** The CFS heap on a vruntime that is not finite *)

Lemma heappush_float_nil (lt : FloatEntry -> FloatEntry -> bool) (e : FloatEntry) :
  heappush_float lt [] e = [e].
Proof. reflexivity. Qed.

Lemma heappop_float_one (lt : FloatEntry -> FloatEntry -> bool) (e : FloatEntry) :
  heappop_float lt [e] = Some (e, []).
Proof. reflexivity. Qed.

Lemma float_close_not_finite (a b : pyfloat) :
  is_finite a = false \/ is_finite b = false -> float_close a b = false.
Proof. destruct a, b; cbn; intros [H|H]; congruence. Qed.

Lemma float_close_refl_finite (q : Q) : float_close (Fin q) (Fin q) = true.
Proof.
  cbn [float_close]. apply Qltb_lt.
  assert (E : (q - q == 0)%Q) by ring. rewrite E. reflexivity.
Qed.

(** A heap whose only entry references a task with a vruntime that is not a
    finite number: the loop goes round for ever. *)
Lemma cfs_pop_min_float_spins (lt : FloatEntry -> FloatEntry -> bool)
    (tasks : list FloatTask) (fuel : nat) :
  forall (e : FloatEntry) (t : FloatTask) (counter : nat),
    tasks !! fe_task e = Some t -> is_finite (ft_vruntime t) = false ->
    _cfs_pop_min_float lt fuel tasks [e] counter = FloatOutOfFuel.
Proof.
  induction fuel as [|fuel IH]; intros e t counter Ht Hnf; [reflexivity|].
  cbn [_cfs_pop_min_float]. unfold _cfs_pop_min_step_float.
  rewrite heappop_float_one, Ht, (float_close_not_finite _ _ (or_introl Hnf)).
  unfold _cfs_insert_float. rewrite heappush_float_nil.
  apply (IH _ t); [exact Ht | exact Hnf].
Qed.

(** C6: [_cfs_pop_min] does not terminate on every heap whose entries
    reference tasks.  A CFS row whose [se.vruntime] is NaN is admitted with
    that vruntime and [_cfs_insert] pushes the entry [(nan, 0, 1, task)].  The
    heap is not empty and its entry references a task, yet whatever the
    number of iterations allowed, the loop has not returned: the popped
    snapshot never passes [abs(task.vruntime - vr) < 1e-6] and a fresh entry
    is pushed every time.  The same holds of both infinities, whereas for a
    finite vruntime the first iteration returns the task
    (in general [cfs_pop_min_terminates]). *)
Theorem cfs_pop_min_hangs_on_nan (lt : FloatEntry -> FloatEntry -> bool) (fuel : nat) :
  _cfs_insert_float lt 0 (float_task NaN) [] 0 =
    ([{| fe_vr := NaN; fe_seq := 0; fe_pid := Some 1; fe_task := 0%nat |}], 1%nat) /\
  [float_task NaN] !! 0%nat = Some (float_task NaN) /\
  (forall x, is_finite x = false ->
     _cfs_pop_min_float lt fuel [float_task x]
       (fst (_cfs_insert_float lt 0 (float_task x) [] 0))
       (snd (_cfs_insert_float lt 0 (float_task x) [] 0)) = FloatOutOfFuel) /\
  _cfs_pop_min_float lt fuel [float_task NaN]
    [{| fe_vr := NaN; fe_seq := 0; fe_pid := Some 1; fe_task := 0%nat |}] 1 = FloatOutOfFuel /\
  (forall q, _cfs_pop_min_float lt (S fuel) [float_task (Fin q)]
               (fst (_cfs_insert_float lt 0 (float_task (Fin q)) [] 0))
               (snd (_cfs_insert_float lt 0 (float_task (Fin q)) [] 0))
             = FloatReturned (Some 0%nat) [] 1).
Proof.
  split; [reflexivity|]. split; [reflexivity|]. split; [|split].
  - intros x Hx. unfold _cfs_insert_float. rewrite heappush_float_nil. cbn [fst snd].
    apply (cfs_pop_min_float_spins lt _ fuel _ (float_task x)); [reflexivity | exact Hx].
  - apply (cfs_pop_min_float_spins lt _ fuel _ (float_task NaN)); reflexivity.
  - intros q. unfold _cfs_insert_float. rewrite heappush_float_nil. cbn [fst snd].
    cbn [_cfs_pop_min_float]. unfold _cfs_pop_min_step_float.
    rewrite heappop_float_one. cbn [fe_task fe_vr lookup list_lookup float_task ft_vruntime
                                    admit_vruntime_float].
    now rewrite float_close_refl_finite.
Qed.

(** C10: the stale branch of [_cfs_pop_min] is executed in a reachable
    state.  In the state reached by admitting one CFS row whose [se.vruntime]
    is NaN, the task has exactly one heap entry and the snapshot of that entry
    is the task's live vruntime, but the two are not within 1e-6 of each other
    as [_cfs_pop_min] tests it, so the first pop executes the stale branch: it
    pushes a fresh entry and draws a new insertion counter.  On rows of finite
    numbers the branch is never executed ([heap_entries_never_stale]). *)
Theorem nan_snapshot_is_stale (lt : FloatEntry -> FloatEntry -> bool) :
  let t := float_task NaN in
  let heap := fst (_cfs_insert_float lt 0 t [] 0) in
  let counter := snd (_cfs_insert_float lt 0 t [] 0) in
  ft_vruntime t = NaN /\
  map fe_task heap = [0%nat] /\
  Forall (fun e => exists t', [t] !! fe_task e = Some t' /\ fe_vr e = ft_vruntime t' /\
                              float_close (ft_vruntime t') (fe_vr e) = false) heap /\
  _cfs_pop_min_step_float lt [t] heap counter =
    FloatAgain [{| fe_vr := NaN; fe_seq := 1; fe_pid := Some 1; fe_task := 0%nat |}] 2.
Proof.
  intros t heap counter. split; [reflexivity|]. split; [reflexivity|]. split.
  - unfold heap, _cfs_insert_float. rewrite heappush_float_nil. cbn [fst].
    constructor; [|constructor]. exists t. repeat split.
  - reflexivity.
Qed.

(** * Properties of the rest of the code *)

(** py_int bounds *)
Lemma py_int_le_lower (x : Q) (z : Z) : (inject_Z z <= x)%Q -> 0 <= z -> z <= py_int x.
Proof.
  unfold py_int, Qle, inject_Z. cbn [Qnum Qden]. intros H Hz.
  rewrite Z.mul_1_r in H.
  apply Z.quot_le_lower_bound; lia.
Qed.

Lemma py_int_le_upper (x : Q) (z : Z) : (0 <= x)%Q -> (x <= inject_Z z)%Q -> py_int x <= z.
Proof.
  unfold py_int, Qle, inject_Z. cbn [Qnum Qden]. intros H0 H.
  rewrite Z.mul_1_r in H. rewrite Z.mul_0_l, Z.mul_1_r in H0.
  destruct (Z.eq_dec (Qnum x) 0) as [E|E]; [rewrite E, Z.quot_0_l by lia; nia|].
  apply Z.quot_le_upper_bound; lia.
Qed.

Lemma dispatch_rr_quantum_bounds (t : Task) : 100 <= dispatch_rr_quantum t <= 200.
Proof.
  unfold dispatch_rr_quantum. 
  destruct (Qleb_reflect (score_or 2 t) 2.5); [lia|].
  destruct (Qleb_reflect 3.15 (score_or 2 t)); [lia|].
  set (x := score_or 2 t) in *.
  split.
  - apply py_int_le_lower; [|lia].
    assert (0 <= (x - 2.5) / (3.15 - 2.5))%Q.
    { apply Qle_shift_div_l; lra. }
    change (inject_Z (200 - 100)) with 100%Q. change (inject_Z 100) with 100%Q. lra.
  - apply py_int_le_upper.
    + assert (0 <= (x - 2.5) / (3.15 - 2.5))%Q.
      { apply Qle_shift_div_l; lra. }
      change (inject_Z (200 - 100)) with 100%Q. change (inject_Z 100) with 100%Q. lra.
    + assert ((x - 2.5) / (3.15 - 2.5) <= 1)%Q.
      { apply Qle_shift_div_r; lra. }
      change (inject_Z (200 - 100)) with 100%Q. change (inject_Z 100) with 100%Q.
      change (inject_Z 200) with 200%Q. lra.
Qed.

(** ** Quantum sizing at dispatch *)

Lemma Qzero_le_frac (x : Q) : (2.5 < x)%Q -> (0 <= (x - 2.5) / (3.15 - 2.5))%Q.
Proof. intros H. apply Qle_shift_div_l; lra. Qed.

Lemma dispatch_rr_quantum_range (t : Task) : 100 <= dispatch_rr_quantum t <= 200.
Proof. apply dispatch_rr_quantum_bounds. Qed.

Lemma dispatch_quantum_ge_1 (v : Variant) (sched : SchedClass) (t : Task) (s : Sched) :
  1 <= dispatch_quantum v sched t s.
Proof.
  destruct sched, v; cbn [dispatch_quantum]; unfold min_granularity; try lia.
  pose proof (dispatch_rr_quantum_range t). lia.
Qed.

(** ** vruntime *)

Lemma Qdiv_pos (a b : Q) : (0 < a)%Q -> (0 < b)%Q -> (0 < a / b)%Q.
Proof. intros Ha Hb. apply Qlt_shift_div_l; lra. Qed.

Lemma py_max_ge_l (a b : Q) : (a <= py_max a b)%Q.
Proof. unfold py_max. destruct (Qltb_reflect a b); lra. Qed.

(** X2: On a task whose vruntime and weight are finite numbers, _update_vruntime
    leaves a positive weight (a weight <= 0 is replaced by 1.0, any other weight
    is kept) and never decreases vruntime. The AI variant leaves the same weight
    as the baseline; for a task with a score, its new vruntime is the baseline's
    at score 2, at most the baseline's for a score of 2 or more, and at least the
    baseline's for a score of 2 or less. *)
Theorem update_vruntime_never_decreases (t : Task) :
  let tb := _update_vruntime Baseline t in
  (0 < weight tb)%Q /\
  (weight tb == if Qleb (weight t) 0 then 1 else weight t)%Q /\
  (vruntime t <= vruntime tb)%Q /\
  forall sc, subqueue_score t = Some sc ->
    let ta := _update_vruntime AI t in
    weight ta = weight tb /\
    (vruntime t <= vruntime ta)%Q /\
    ((sc == 2)%Q -> (vruntime ta == vruntime tb)%Q) /\
    ((2 <= sc)%Q -> (vruntime ta <= vruntime tb)%Q) /\
    ((sc <= 2)%Q -> (vruntime tb <= vruntime ta)%Q).
Proof.
  intros tb.
  pose (t1 := if Qleb (weight t) 0 then set_weight 1%Q t else t).
  assert (Hv : vruntime t1 = vruntime t) by (unfold t1; now destruct (Qleb (weight t) 0)).
  assert (Hsc : subqueue_score t1 = subqueue_score t)
    by (unfold t1; now destruct (Qleb (weight t) 0)).
  assert (Hw1 : weight tb = weight t1) by reflexivity.
  assert (Hweq : (weight t1 == if Qleb (weight t) 0 then 1 else weight t)%Q).
  { unfold t1. destruct (Qleb (weight t) 0); reflexivity. }
  assert (Hpos : (0 < weight t1)%Q).
  { rewrite Hweq. destruct (Qleb_reflect (weight t) 0); lra. }
  assert (Hinc : (0 < 1024 / weight t1)%Q) by (apply Qdiv_pos; [reflexivity | exact Hpos]).
  assert (Hvb : (vruntime tb == vruntime t + 1024 / weight t1)%Q).
  { unfold tb, _update_vruntime. fold t1. task_simpl. rewrite Hv. unfold NICE0_WEIGHT.
    field. lra. }
  rewrite Hw1. split; [exact Hpos|]. split; [exact Hweq|].
  split; [lra|]. intros sc Hs ta.
  assert (Hva : (vruntime ta == vruntime t + 1024 / weight t1 * (2 / py_max 0.5 sc))%Q).
  { unfold ta, _update_vruntime. fold t1. task_simpl. unfold score_or. rewrite Hsc, Hs.
    cbn [get]. rewrite Hv. unfold NICE0_WEIGHT.
    pose proof (py_max_ge_l 0.5 sc). field. split; lra. }
  pose proof (py_max_ge_l 0.5 sc) as Hm.
  set (m := py_max 0.5 sc) in *. set (a := (1024 / weight t1)%Q) in *.
  assert (Hk : (0 < 2 / m)%Q) by (apply Qdiv_pos; lra).
  assert (Hak : (0 < a * (2 / m))%Q) by (apply Qmult_lt_0_compat; assumption).
  split; [reflexivity|]. split; [lra|].
  split; [|split].
  - intros E. assert (Em : (m == 2)%Q).
    { unfold m, py_max. destruct (Qltb_reflect 0.5 sc); lra. }
    assert (E2 : (2 / m == 1)%Q) by (rewrite Em; reflexivity).
    rewrite Hva, Hvb, E2. ring.
  - intros Hle. assert (Em : (2 <= m)%Q).
    { unfold m, py_max. destruct (Qltb_reflect 0.5 sc); lra. }
    assert (E2 : (2 / m <= 1)%Q) by (apply Qle_shift_div_r; lra).
    assert (a * (2 / m) <= a * 1)%Q by (apply Qmult_le_l; [exact Hinc | exact E2]). lra.
  - intros Hle. assert (Em : (m <= 2)%Q).
    { unfold m, py_max. destruct (Qltb_reflect 0.5 sc); lra. }
    assert (E2 : (1 <= 2 / m)%Q) by (apply Qle_shift_div_l; lra).
    assert (a * 1 <= a * (2 / m))%Q by (apply Qmult_le_l; [exact Hinc | exact E2]). lra.
Qed.

(** ** Labels and score *)

Lemma map_numeric_labels_range (r i e p : option string) :
  let '(R, I', E, P) := _map_numeric_labels r i e p in
  (1 <= R <= 3 /\ 1 <= I' <= 4 /\ 1 <= E <= 3 /\ 1 <= P <= 3)%Q.
Proof.
  unfold _map_numeric_labels.
  repeat split;
    repeat match goal with |- context [if ?b then _ else _] => destruct b end; lra.
Qed.

Lemma compute_score_range (t : Task) :
  exists score, subqueue_score (_compute_subqueue_score t) = Some score /\
                (1.05 <= score <= 3.5)%Q.
Proof.
  unfold _compute_subqueue_score.
  pose proof (map_numeric_labels_range (resource_type t) (interactivity t)
                (execution_class t) (priority_class t)) as H.
  destruct (_map_numeric_labels _ _ _ _) as [[[R I'] E] P].
  eexists. split; [reflexivity|]. lra.
Qed.

Lemma label_is_None (s : string) : label_is None s = false.
Proof. reflexivity. Qed.

Lemma classify_all_fail (clf : Classifier) (t : Task) :
  clf (features t) Resource = PredictRaises ->
  _classify_task clf t = classify_defaults t.
Proof. intros H. unfold _classify_task. now rewrite H. Qed.

(** X3: _classify_task always leaves all four labels set. If no predictor raises,
    each label is the decoded prediction (or its default when decoding fails); if
    the first (resource) predictor raises, all four labels are the defaults Mixed,
    Other, Medium, Medium; if the resource predictor succeeds and the
    interactivity predictor raises, the resource label is kept (an empty one
    becomes Mixed) and the other three labels are their defaults. *)
Theorem classify_task_labels (clf : Classifier) (row : Features) (u : string) :
  let t := _classify_task clf (Task_init row u) in
  (exists r i p e, resource_type t = Some r /\ interactivity t = Some i /\
                   priority_class t = Some p /\ execution_class t = Some e) /\
  ((forall c, clf row c <> PredictRaises) ->
   resource_type t = Some (decoded (clf row Resource) "Mixed") /\
   interactivity t = Some (decoded (clf row Interactivity) "Other") /\
   priority_class t = Some (decoded (clf row Priority) "Medium") /\
   execution_class t = Some (decoded (clf row Execution) "Medium")) /\
  (clf row Resource = PredictRaises ->
   resource_type t = Some "Mixed"%string /\ interactivity t = Some "Other"%string /\
   priority_class t = Some "Medium"%string /\ execution_class t = Some "Medium"%string) /\
  (clf row Resource <> PredictRaises -> clf row Interactivity = PredictRaises ->
   resource_type t = Some (or_str (Some (decoded (clf row Resource) "Mixed")) "Mixed") /\
   interactivity t = Some "Other"%string /\
   priority_class t = Some "Medium"%string /\ execution_class t = Some "Medium"%string).
Proof.
  intros t. unfold t, _classify_task.
  change (features (Task_init row u)) with row.
  split; [|split; [|split]].
  - destruct (clf row Resource), (clf row Interactivity), (clf row Priority),
      (clf row Execution); repeat eexists.
  - intros H.
    pose proof (H Resource). pose proof (H Interactivity). pose proof (H Priority).
    pose proof (H Execution).
    destruct (clf row Resource), (clf row Interactivity), (clf row Priority),
      (clf row Execution); try congruence; repeat split.
  - intros ->. repeat split.
  - intros H1 ->. destruct (clf row Resource); try congruence; repeat split.
Qed.

(** ** AI admission against baseline admission *)

Lemma classify_frame (clf : Classifier) (t : Task) :
  let t' := _classify_task clf t in
  features t' = features t /\ remaining t' = remaining t /\ total_time t' = total_time t /\
  vruntime t' = vruntime t /\ weight t' = weight t /\ quantum t' = quantum t /\
  assigned_scheduler t' = assigned_scheduler t /\ subqueue t' = subqueue t.
Proof.
  unfold _classify_task.
  repeat match goal with |- context [match clf ?f ?c with _ => _ end] => destruct (clf f c) end;
    repeat split.
Qed.

Lemma compute_score_frame (t : Task) :
  let t' := _compute_subqueue_score t in
  features t' = features t /\ remaining t' = remaining t /\ total_time t' = total_time t /\
  vruntime t' = vruntime t /\ weight t' = weight t /\ quantum t' = quantum t /\
  assigned_scheduler t' = assigned_scheduler t /\ subqueue t' = subqueue t /\
  interactivity t' = interactivity t /\ execution_class t' = execution_class t /\
  priority_class t' = priority_class t.
Proof.
  unfold _compute_subqueue_score.
  destruct (_map_numeric_labels _ _ _ _) as [[[R I'] E] P]. repeat split.
Qed.

Lemma admit_tail_view (t1 t2 : Task) :
  features t1 = features t2 -> remaining t1 = remaining t2 -> total_time t1 = total_time t2 ->
  vruntime t1 = vruntime t2 -> weight t1 = weight t2 ->
  forall c q,
  sched_view (admit_vruntime_weight (assign c q (admit_remaining t1))) =
  sched_view (admit_vruntime_weight (admit_remaining (assign c q t2))).
Proof.
  intros Hf Hr Ht Hv Hw c q.
  unfold sched_view, admit_vruntime_weight, admit_remaining, assign. task_simpl.
  rewrite Hr. destruct (remaining t2 =? 0); task_simpl; rewrite ?Hf, ?Ht, ?Hv, ?Hw, ?Hr; reflexivity.
Qed.

Lemma sched_pol_Task_init (row : Features) (u : string) :
  sched_pol (Task_init row u) = row_policy row.
Proof. reflexivity. Qed.

(** The part of [baseline_admit_task] before the quantum. *)
Lemma baseline_admit_task_sched_view (rrq : Z) (t : Task) :
  sched_view (baseline_admit_task rrq t) =
  sched_view (admit_vruntime_weight (admit_remaining
     (if String.eqb (sched_pol t) "SCHED_FIFO" then assign FIFO fifo_1 t
      else if String.eqb (sched_pol t) "SCHED_RR" then assign RR rr_1 t
      else if String.eqb (sched_pol t) "SCHED_IDLE" then assign IDLE idle t
      else assign CFS cfs_1 t))).
Proof.
  unfold baseline_admit_task.
  generalize (admit_vruntime_weight (admit_remaining
     (if String.eqb (sched_pol t) "SCHED_FIFO" then assign FIFO fifo_1 t
      else if String.eqb (sched_pol t) "SCHED_RR" then assign RR rr_1 t
      else if String.eqb (sched_pol t) "SCHED_IDLE" then assign IDLE idle t
      else assign CFS cfs_1 t))).
  intros t3. destruct (assigned_scheduler t3) as [[]|]; reflexivity.
Qed.

Lemma ai_admit_task_sched_view (clf : Classifier) (t : Task) :
  let t2 := admit_remaining (_compute_subqueue_score (_classify_task clf t)) in
  sched_view (ai_admit_task clf t) =
  sched_view (admit_vruntime_weight
     (if String.eqb (sched_pol t2) "SCHED_FIFO" then assign FIFO fifo_1 t2
      else if String.eqb (sched_pol t2) "SCHED_RR" then assign RR rr_1 t2
      else if String.eqb (sched_pol t2) "SCHED_IDLE" then assign IDLE idle t2
      else _assign_scheduler_and_subqueue t2)).
Proof.
  intros t2. unfold ai_admit_task. fold t2.
  generalize (admit_vruntime_weight
     (if String.eqb (sched_pol t2) "SCHED_FIFO" then assign FIFO fifo_1 t2
      else if String.eqb (sched_pol t2) "SCHED_RR" then assign RR rr_1 t2
      else if String.eqb (sched_pol t2) "SCHED_IDLE" then assign IDLE idle t2
      else _assign_scheduler_and_subqueue t2)).
  intros t4. destruct (assigned_scheduler t4) as [[]|]; reflexivity.
Qed.

Lemma ai_pre_assign_frame (clf : Classifier) (t : Task) :
  let t1 := _compute_subqueue_score (_classify_task clf t) in
  features t1 = features t /\ remaining t1 = remaining t /\ total_time t1 = total_time t /\
  vruntime t1 = vruntime t /\ weight t1 = weight t /\ quantum t1 = quantum t.
Proof.
  intros t1. unfold t1.
  destruct (compute_score_frame (_classify_task clf t)) as (-> & -> & -> & -> & -> & -> & _).
  destruct (classify_frame clf t) as (-> & -> & -> & -> & -> & -> & _).
  repeat split.
Qed.

Lemma sched_pol_admit_remaining (t : Task) : sched_pol (admit_remaining t) = sched_pol t.
Proof. unfold sched_pol. now rewrite features_admit_remaining. Qed.

Lemma assigned_after_admit_tail (c : SchedClass) (q : SubQueue) (t : Task) :
  assigned_scheduler (admit_vruntime_weight (admit_remaining (assign c q t))) = Some c.
Proof.
  unfold admit_vruntime_weight, admit_remaining, assign. task_simpl.
  now destruct (remaining t =? 0).
Qed.

(** X5: For a row whose upper-cased Scheduling_Policy is SCHED_FIFO, SCHED_RR or
    SCHED_IDLE, the AI admit and the baseline admit assign the same scheduler
    class and subqueue and leave the same remaining, vruntime and weight, whatever
    the classifier predicts. *)
Theorem ai_explicit_policy_as_baseline (clf : Classifier) (rrq : Z) (row : Features)
    (u : string) :
  row_policy row = "SCHED_FIFO"%string \/ row_policy row = "SCHED_RR"%string \/
  row_policy row = "SCHED_IDLE"%string ->
  let ta := ai_admit_task clf (Task_init row u) in
  let tb := baseline_admit_task rrq (Task_init row u) in
  assigned_scheduler ta = assigned_scheduler tb /\ subqueue ta = subqueue tb /\
  remaining ta = remaining tb /\ vruntime ta = vruntime tb /\ weight ta = weight tb /\
  (assigned_scheduler ta = Some FIFO \/ assigned_scheduler ta = Some RR \/
   assigned_scheduler ta = Some IDLE).
Proof.
  intros Hpol ta tb.
  assert (Hview : sched_view ta = sched_view tb /\
                  (assigned_scheduler tb = Some FIFO \/ assigned_scheduler tb = Some RR \/
                   assigned_scheduler tb = Some IDLE)).
  { assert (Hb : forall x, assigned_scheduler tb = x <-> fst (fst (fst (fst (sched_view tb)))) = x)
      by (intros x; reflexivity).
    setoid_rewrite Hb.
    unfold ta, tb. rewrite ai_admit_task_sched_view, baseline_admit_task_sched_view.
    destruct (ai_pre_assign_frame clf (Task_init row u)) as (Hf & Hr & Ht & Hv & Hw & _).
    rewrite sched_pol_admit_remaining.
    assert (Hp : sched_pol (_compute_subqueue_score (_classify_task clf (Task_init row u)))
                 = row_policy row).
    { unfold sched_pol. now rewrite Hf. }
    rewrite Hp, sched_pol_Task_init.
    destruct Hpol as [-> | [-> | ->]]; cbn [String.eqb Ascii.eqb Bool.eqb];
      (split; [now apply admit_tail_view|]); unfold sched_view; cbn [fst];
      rewrite assigned_after_admit_tail; auto. }
  destruct Hview as [Hview Hcls]. unfold sched_view in Hview.
  injection Hview as H1 H2 H3 H4 H5. rewrite H1. auto 10.
Qed.

Lemma failing_assign (t : Task) :
  interactivity t = Some "Other"%string ->
  (exists sc, subqueue_score t = Some sc /\ (sc <= 2.6)%Q) ->
  String.eqb (sched_pol t) "SCHED_FIFO" = false ->
  String.eqb (sched_pol t) "SCHED_IDLE" = false ->
  _assign_scheduler_and_subqueue t = assign CFS cfs_1 t.
Proof.
  intros Hi (sc & Hs & Hle) H1 H2. unfold _assign_scheduler_and_subqueue.
  rewrite H1, H2, Hi. unfold score_or. rewrite Hs. cbn [get].
  change (label_is (Some "Other"%string) "Real-time") with false.
  change (label_is (Some "Other"%string) "Interactive") with false.
  cbn [andb orb]. destruct (Qltb_reflect 2.6 sc); [lra | reflexivity].
Qed.

Lemma assign_scheduler_frame (t : Task) :
  subqueue_score (_assign_scheduler_and_subqueue t) = subqueue_score t /\
  quantum (_assign_scheduler_and_subqueue t) = quantum t.
Proof.
  unfold _assign_scheduler_and_subqueue.
  repeat match goal with |- context [if ?b then _ else _] => destruct b end; split; reflexivity.
Qed.

(** The score and the quantum that [AIScheduler.admit] leaves on the task. *)
Lemma ai_admit_task_quantum (clf : Classifier) (t : Task) :
  let ta := ai_admit_task clf t in
  subqueue_score ta = subqueue_score (_compute_subqueue_score (_classify_task clf t)) /\
  quantum ta = match assigned_scheduler ta with
               | Some RR => Some (admit_rr_quantum ta)
               | _ => quantum t
               end.
Proof.
  intros ta. unfold ta, ai_admit_task.
  destruct (ai_pre_assign_frame clf t) as (_ & _ & _ & _ & _ & Hq).
  rewrite <- Hq. rewrite <- (score_admit_remaining (_compute_subqueue_score _)).
  assert (Hq2 : forall x, quantum (admit_remaining x) = quantum x)
    by (intros x; unfold admit_remaining; now destruct (remaining x =? 0)).
  rewrite <- (Hq2 (_compute_subqueue_score _)).
  generalize (admit_remaining (_compute_subqueue_score (_classify_task clf t))). intros t2.
  set (t3 := if String.eqb (sched_pol t2) "SCHED_FIFO" then _ else _).
  assert (H3 : subqueue_score t3 = subqueue_score t2 /\ quantum t3 = quantum t2).
  { unfold t3.
    repeat match goal with |- context [if String.eqb ?a ?b then _ else _] =>
             destruct (String.eqb a b) end;
      try (split; reflexivity). apply assign_scheduler_frame. }
  clearbody t3. destruct H3 as [<- <-].
  destruct (assigned_scheduler (admit_vruntime_weight t3)) as [[]|] eqn:E;
    task_simpl; rewrite ?E; split; reflexivity.
Qed.

(** X6: When the classifier's first predictor raises, the AI admit falls back to
    the default labels, scores the task 2.1, and then assigns class, subqueue,
    remaining, vruntime, weight and quantum exactly as the baseline admit with
    rr_quantum 100 does. *)
Theorem ai_failing_classifier_as_baseline (clf : Classifier) (row : Features) (u : string) :
  clf row Resource = PredictRaises ->
  let ta := ai_admit_task clf (Task_init row u) in
  let tb := baseline_admit_task 100 (Task_init row u) in
  assigned_scheduler ta = assigned_scheduler tb /\ subqueue ta = subqueue tb /\
  remaining ta = remaining tb /\ vruntime ta = vruntime tb /\ weight ta = weight tb /\
  quantum ta = quantum tb /\
  exists score, subqueue_score ta = Some score /\ (score == 2.1)%Q.
Proof.
  intros Hfail ta tb.
  pose (t1 := _compute_subqueue_score (_classify_task clf (Task_init row u))).
  destruct (ai_pre_assign_frame clf (Task_init row u)) as (Hf & Hr & Ht & Hv & Hw & Hq).
  fold t1 in Hf, Hr, Ht, Hv, Hw, Hq.
  assert (Hcl : _classify_task clf (Task_init row u) = classify_defaults (Task_init row u))
    by (now apply classify_all_fail).
  assert (Hi : interactivity t1 = Some "Other"%string).
  { unfold t1. destruct (compute_score_frame (_classify_task clf (Task_init row u)))
      as (_ & _ & _ & _ & _ & _ & _ & _ & -> & _). now rewrite Hcl. }
  assert (Hs : exists sc, subqueue_score t1 = Some sc /\ (sc == 2.1)%Q).
  { unfold t1. rewrite Hcl. eexists. split; [reflexivity|]. reflexivity. }
  assert (Hp : sched_pol t1 = row_policy row) by (unfold sched_pol; now rewrite Hf).
  pose (t2 := admit_remaining t1).
  assert (Hi2 : interactivity t2 = Some "Other"%string)
    by (unfold t2, admit_remaining; destruct (remaining t1 =? 0); exact Hi).
  assert (Hs2 : subqueue_score t2 = subqueue_score t1) by apply score_admit_remaining.
  assert (Hp2 : sched_pol t2 = row_policy row)
    by (unfold t2; now rewrite sched_pol_admit_remaining).
  (* the assignment of the AI scheduler, rule by rule *)
  assert (Hassign :
    (if String.eqb (sched_pol t2) "SCHED_FIFO" then assign FIFO fifo_1 t2
     else if String.eqb (sched_pol t2) "SCHED_RR" then assign RR rr_1 t2
     else if String.eqb (sched_pol t2) "SCHED_IDLE" then assign IDLE idle t2
     else _assign_scheduler_and_subqueue t2)
    = (if String.eqb (row_policy row) "SCHED_FIFO" then assign FIFO fifo_1 t2
       else if String.eqb (row_policy row) "SCHED_RR" then assign RR rr_1 t2
       else if String.eqb (row_policy row) "SCHED_IDLE" then assign IDLE idle t2
       else assign CFS cfs_1 t2)).
  { rewrite Hp2.
    destruct (String.eqb (row_policy row) "SCHED_FIFO") eqn:E1; [reflexivity|].
    destruct (String.eqb (row_policy row) "SCHED_RR") eqn:E2; [reflexivity|].
    destruct (String.eqb (row_policy row) "SCHED_IDLE") eqn:E3; [reflexivity|].
    apply failing_assign; try (rewrite Hp2; assumption); [exact Hi2|].
    destruct Hs as (sc & Hsc & Heq). exists sc. rewrite Hs2. split; [exact Hsc | lra]. }
  assert (Hview : sched_view ta = sched_view tb).
  { unfold ta, tb. rewrite ai_admit_task_sched_view, baseline_admit_task_sched_view.
    fold t1. fold t2. rewrite Hassign, sched_pol_Task_init.
    destruct (String.eqb (row_policy row) "SCHED_FIFO"); [now apply admit_tail_view|].
    destruct (String.eqb (row_policy row) "SCHED_RR"); [now apply admit_tail_view|].
    destruct (String.eqb (row_policy row) "SCHED_IDLE"); now apply admit_tail_view. }
  unfold sched_view in Hview. injection Hview as H1 H2 H3 H4 H5.
  repeat (split; [assumption|]).
  destruct (ai_admit_task_quantum clf (Task_init row u)) as [Hsa Hqa].
  fold ta in Hsa, Hqa. fold t1 in Hsa.
  split; [|rewrite Hsa; exact Hs].
  assert (Hqb : quantum tb = match assigned_scheduler tb with
                             | Some RR => Some 100
                             | _ => None
                             end).
  { unfold tb, baseline_admit_task.
    set (t3 := admit_vruntime_weight _).
    destruct (assigned_scheduler t3) as [[]|] eqn:E; task_simpl; rewrite ?E; reflexivity. }
  rewrite Hqa, Hqb, H1.
  destruct (assigned_scheduler tb) as [[]|]; try reflexivity.
  f_equal. destruct Hs as (sc & Hsc & Heq).
  unfold admit_rr_quantum, score_or. rewrite Hsa, Hsc. cbn [get].
  destruct (Qleb_reflect sc 2.5); [reflexivity | lra].
Qed.

(** ** Picking *)

Lemma pick_in_order_spec (order : list SchedClass) (q : Queues) :
  match pick_in_order order q with
  | Some (sched, subq) =>
      subq = subqueue_of sched /\ queue_is_empty sched q = false /\
      exists pre post, order = pre ++ sched :: post /\
                       Forall (fun c => queue_is_empty c q = true) pre
  | None => Forall (fun c => queue_is_empty c q = true) order
  end.
Proof.
  induction order as [|c order IH]; cbn [pick_in_order]; [constructor|].
  destruct (queue_is_empty c q) eqn:E.
  - destruct (pick_in_order order q) as [[sched subq]|].
    + destruct IH as (H1 & H2 & pre & post & -> & Hpre).
      split; [exact H1|]. split; [exact H2|].
      exists (c :: pre), post. split; [reflexivity|]. now constructor.
    + now constructor.
  - split; [reflexivity|]. split; [exact E|]. exists [], order. split; [reflexivity|constructor].
Qed.

(** X1: _pick_task_for_core returns the first class of the core's priority order
    whose queue is non-empty, with that class's subqueue, and None exactly when
    every class of the order has an empty queue; a core id missing from
    core_priority_order gets the default order FIFO, RR, CFS, IDLE, under which
    None means all four queues are empty. *)
Theorem pick_task_first_nonempty (cid : nat) (s : Sched) :
  let order := order_get cid (core_priority_order s) in
  match _pick_task_for_core cid s with
  | Some (sched, subq) =>
      subq = subqueue_of sched /\ queue_is_empty sched (queues s) = false /\
      exists pre post, order = pre ++ sched :: post /\
                       Forall (fun c => queue_is_empty c (queues s) = true) pre
  | None => Forall (fun c => queue_is_empty c (queues s) = true) order
  end /\
  (order = default_order ->
   (_pick_task_for_core cid s = None <->
    FIFO_fifo_1 (queues s) = [] /\ RR_rr_1 (queues s) = [] /\
    CFS_cfs_1 (queues s) = [] /\ IDLE_idle (queues s) = [])) /\
  ((forall k o, In (k, o) (core_priority_order s) -> k <> cid) -> order = default_order).
Proof.
  intros order. split; [apply pick_in_order_spec|]. split.
  - intros Ho. unfold _pick_task_for_core. fold order. rewrite Ho.
    unfold default_order. cbn [pick_in_order queue_is_empty].
    destruct (FIFO_fifo_1 (queues s)), (RR_rr_1 (queues s)), (CFS_cfs_1 (queues s)),
      (IDLE_idle (queues s)); split; try discriminate; try tauto;
      intros (? & ? & ? & ?); discriminate.
  - unfold order. induction (core_priority_order s) as [|[k o] d IH]; intros H; [reflexivity|].
    cbn [order_get]. destruct (Nat.eqb k cid) eqn:E.
    + apply Nat.eqb_eq in E. destruct (H k o); [now left | exact E].
    + apply IH. intros k' o' Hin. apply (H k' o'). now right.
Qed.

Lemma logs_log (e : Event) (t : Task) (c : option nat) (x : option string) (s : Sched) :
  logs (_log e t c x s) = logs s ++ [log_row s e t c x].
Proof. reflexivity. Qed.

Lemma run_task_frame (v : Variant) (t : Task) :
  static_view (run_task v t) = static_view t /\
  remaining (run_task v t) = Z.max 0 (remaining t - 1) /\
  total_run (run_task v t) = total_run t + 1 /\
  completion_time (run_task v t) = completion_time t /\
  first_start (run_task v t) = first_start t /\
  quantum (run_task v t) = quantum t.
Proof.
  unfold run_task. task_simpl.
  destruct (assigned_scheduler t) as [[]|];
    try (unfold static_view; task_simpl; now repeat split).
  destruct (update_vruntime_frame v
              (set_total_run (total_run t + 1) (set_remaining (Z.max 0 (remaining t - 1)) t)))
    as (-> & -> & -> & -> & ->).
  unfold static_view; task_simpl. repeat split.
  unfold _update_vruntime. task_simpl. destruct (Qleb (weight t) 0), v; reflexivity.
Qed.

(** [_run_one_tick_on_core] on a busy core, branch by branch. *)
Lemma run_one_tick_full (v : Variant) (cid : nat) (s : Sched) (core : Core)
    (r : ref) (t : Task) :
  cores s !! cid = Some core ->
  core_task core = Some r ->
  objects s !! r = Some t ->
  let s' := _run_one_tick_on_core v cid s in
  let t2 := run_task v t in
  let left := Z.max 0 (time_left core - 1) in
  let run := log_row s RUN t2 (Some cid) None in
  (time s' = time s /\ num_cores s' = num_cores s /\ task_map s' = task_map s /\
   context_switches s' = context_switches s /\
   core_priority_order s' = core_priority_order s /\ rr_quantum s' = rr_quantum s) /\
  ((remaining t2 <= 0 /\
    objects s' = <[r := set_completion_time (Some (time s)) t2]> (objects s) /\
    queues s' = queues s /\ cores s' = <[cid := idle_core]> (cores s) /\
    insertion_counter s' = insertion_counter s /\
    completed_tasks s' = dict_set (pid t2) r (completed_tasks s) /\
    logs s' = logs s ++ [run; log_row s COMPLETE (set_completion_time (Some (time s)) t2)
                                 (Some cid) None])
   \/
   (0 < remaining t2 /\ left <= 0 /\
    objects s' = <[r := t2]> (objects s) /\
    completed_tasks s' = completed_tasks s /\
    cores s' = <[cid := idle_core]> (cores s) /\
    match assigned_scheduler t2 with
    | Some RR =>
        queues s' = set_RR_rr_1 (RR_rr_1 (queues s) ++ [r]) (queues s) /\
        insertion_counter s' = insertion_counter s /\
        logs s' = logs s ++ [run; log_row s PREEMPT t2 (Some cid) (Some "quantum_expired"%string)]
    | Some CFS =>
        queues s' = set_CFS_cfs_1
                      (heappush (CFS_cfs_1 (queues s))
                         {| e_vr := vruntime t2; e_seq := insertion_counter s;
                            e_pid := pid t2; e_task := r |}) (queues s) /\
        insertion_counter s' = S (insertion_counter s) /\
        logs s' = logs s ++ [run; log_row s PREEMPT t2 (Some cid)
                                    (Some "cfs_quantum_expired"%string)]
    | Some FIFO =>
        queues s' = set_FIFO_fifo_1 (r :: FIFO_fifo_1 (queues s)) (queues s) /\
        insertion_counter s' = insertion_counter s /\
        logs s' = logs s ++ [run; log_row s PREEMPT t2 (Some cid) (Some "fifo_preempt"%string)]
    | _ =>
        queues s' = queues s /\ insertion_counter s' = insertion_counter s /\
        logs s' = logs s ++ [run]
    end)
   \/
   (0 < remaining t2 /\ 0 < left /\
    objects s' = <[r := t2]> (objects s) /\
    completed_tasks s' = completed_tasks s /\
    cores s' = <[cid := {| core_task := Some r; time_left := left |}]> (cores s) /\
    queues s' = queues s /\ insertion_counter s' = insertion_counter s /\
    logs s' = logs s ++ [run])).
Proof.
  intros Hc Hr Ht s' t2 left run. unfold s', _run_one_tick_on_core. rewrite Hc, Hr, Ht.
  change (match assigned_scheduler
                  (set_total_run (total_run t + 1)
                     (set_remaining (Z.max 0 (remaining t - 1)) t)) with
          | Some CFS => _update_vruntime v
                          (set_total_run (total_run t + 1)
                             (set_remaining (Z.max 0 (remaining t - 1)) t))
          | _ => set_total_run (total_run t + 1)
                   (set_remaining (Z.max 0 (remaining t - 1)) t)
          end) with t2.
  fold left. clearbody t2 left.
  destruct (remaining t2 <=? 0) eqn:Edone.
  - apply Z.leb_le in Edone. sched_simpl. rewrite !list_insert_insert_eq.
    rewrite <- ?app_assoc. cbn [app].
    split; [now repeat split|]. left. now repeat split.
  - apply Z.leb_gt in Edone.
    destruct (left <=? 0) eqn:El.
    + apply Z.leb_le in El.
      destruct (assigned_scheduler t2) as [[]|] eqn:Ea; sched_simpl;
        rewrite !list_insert_insert_eq; rewrite <- ?app_assoc; cbn [app];
        (split; [now repeat split|]); right; left;
        rewrite ?Ea; repeat split; auto; unfold run, log_row; now rewrite Ea.
    + apply Z.leb_gt in El. sched_simpl. split; [now repeat split|]. right. right.
      now repeat split.
Qed.

Lemma start_task_frame (q now : Z) (t : Task) :
  static_view (start_task q now t) = static_view t /\
  remaining (start_task q now t) = remaining t /\
  total_run (start_task q now t) = total_run t /\
  completion_time (start_task q now t) = completion_time t /\
  vruntime (start_task q now t) = vruntime t /\
  quantum (start_task q now t) = Some q /\
  first_start (start_task q now t) = Some (get (first_start t) now).
Proof.
  unfold start_task, static_view. task_simpl.
  destruct (first_start t) eqn:E; task_simpl; rewrite ?E; repeat split.
Qed.

Lemma place_on_core_full (v : Variant) (cid : nat) (sched : SchedClass) (r : ref)
    (t : Task) (s1 : Sched) :
  objects s1 !! r = Some t ->
  let s' := place_on_core v cid sched r s1 in
  let q := dispatch_quantum v sched t s1 in
  let t2 := start_task q (time s1) t in
  objects s' = <[r := t2]> (objects s1) /\
  cores s' = <[cid := {| core_task := Some r; time_left := q |}]> (cores s1) /\
  queues s' = queues s1 /\
  logs s' = logs s1 ++ [log_row s1 DISPATCH t2 (Some cid) None] /\
  context_switches s' = context_switches s1 + 1 /\
  (time s' = time s1 /\ num_cores s' = num_cores s1 /\ task_map s' = task_map s1 /\
   completed_tasks s' = completed_tasks s1 /\ insertion_counter s' = insertion_counter s1 /\
   core_priority_order s' = core_priority_order s1 /\ rr_quantum s' = rr_quantum s1).
Proof.
  intros Ht s' q t2. unfold s', place_on_core. rewrite Ht. fold q.
  change (match first_start (set_quantum (Some q) t) with
          | Some _ => set_quantum (Some q) t
          | None => set_first_start (Some (time s1)) (set_quantum (Some q) t)
          end) with t2.
  clearbody t2. task_simpl. cbn [get]. sched_simpl. now repeat split.
Qed.

Lemma head_heap_refs (heap : list HeapEntry) :
  head (heap_refs heap) = e_task <$> head heap.
Proof. now destruct heap. Qed.

(** [_dequeue_task] in a state whose heap snapshots are up to date: the head
    of the class's container is returned and removed. *)
Lemma dequeue_full (sched : SchedClass) (s : Sched) :
  Inv s ->
  exists s1,
    _dequeue_task sched s = (head (class_queue sched (queues s)), s1) /\
    queues s1 = pop_class sched (queues s) /\
    objects s1 = objects s /\ cores s1 = cores s /\ logs s1 = logs s /\
    context_switches s1 = context_switches s /\
    (time s1 = time s /\ num_cores s1 = num_cores s /\ task_map s1 = task_map s /\
     completed_tasks s1 = completed_tasks s /\ insertion_counter s1 = insertion_counter s /\
     core_priority_order s1 = core_priority_order s /\ rr_quantum s1 = rr_quantum s).
Proof.
  intros HI. destruct sched; cbn [_dequeue_task class_queue pop_class].
  - destruct (FIFO_fifo_1 (queues s)); cbn [popleft head tail]; eexists;
      (split; [reflexivity|]); now repeat split.
  - destruct (RR_rr_1 (queues s)); cbn [popleft head tail]; eexists;
      (split; [reflexivity|]); now repeat split.
  - unfold _cfs_pop_min. rewrite (cfs_pop_min_loop_fresh _ _ _ _ (inv_heap s HI)).
    destruct (CFS_cfs_1 (queues s)); cbn [heap_refs map head tail]; eexists;
      (split; [reflexivity|]); now repeat split.
  - destruct (IDLE_idle (queues s)); cbn [popleft head tail]; eexists;
      (split; [reflexivity|]); now repeat split.
Qed.

(** [_dispatch_to_core], branch by branch. *)
Lemma dispatch_full (v : Variant) (cid : nat) (sched : SchedClass) (s : Sched) :
  Inv s ->
  let s' := _dispatch_to_core v cid sched s in
  (queues s' = pop_class sched (queues s) /\
   time s' = time s /\ num_cores s' = num_cores s /\ task_map s' = task_map s /\
   completed_tasks s' = completed_tasks s /\ insertion_counter s' = insertion_counter s /\
   core_priority_order s' = core_priority_order s /\ rr_quantum s' = rr_quantum s) /\
  match head (class_queue sched (queues s)) with
  | None =>
      objects s' = objects s /\ cores s' = cores s /\ logs s' = logs s /\
      context_switches s' = context_switches s
  | Some r =>
      exists t q,
        let t2 := start_task q (time s) t in
        objects s !! r = Some t /\
        1 <= q /\ (sched = FIFO \/ sched = IDLE -> q = Z.max 1 (remaining t)) /\
        (v = Baseline -> sched = RR -> q = Z.max 1 (rr_quantum s)) /\
        (v = AI -> sched = RR -> 100 <= q <= 200) /\
        objects s' = <[r := t2]> (objects s) /\
        cores s' = <[cid := {| core_task := Some r; time_left := q |}]> (cores s) /\
        logs s' = logs s ++ [log_row s DISPATCH t2 (Some cid) None] /\
        context_switches s' = context_switches s + 1
  end.
Proof.
  intros HI s'.
  destruct (dequeue_full sched s HI)
    as (s1 & Hd & Hq & Ho & Hc & Hl & Hcs & (Hti & Hn & Htm & Hcp & Hic & Hor & Hrr)).
  unfold s', _dispatch_to_core. rewrite Hd.
  destruct (head (class_queue sched (queues s))) as [r|] eqn:Eh.
  - assert (Hocc : (0 < occ r s)%nat).
    { assert (Hin : In r (class_queue sched (queues s))).
      { destruct (class_queue sched (queues s)); [discriminate|]. injection Eh as ->. now left. }
      apply cnt_pos_elem in Hin. unfold occ. destruct sched; cbn [class_queue] in Hin; lia. }
    assert (Hlt : (r < length (objects s))%nat) by now apply (inv_bound s HI).
    destruct (lookup_lt_is_Some_2 _ _ Hlt) as [t Ht].
    assert (Ht1 : objects s1 !! r = Some t) by now rewrite Ho.
    destruct (place_on_core_full v cid sched r t s1 Ht1)
      as (Eo & Ec & Eq & El & Ecs & (E1 & E2 & E3 & E4 & E5 & E6 & E7)).
    split; [repeat split; congruence|].
    exists t, (dispatch_quantum v sched t s1). cbv zeta.
    split; [exact Ht|]. split; [apply dispatch_quantum_ge_1|].
    split; [intros [-> | ->]; reflexivity|].
    split; [intros -> ->; cbn [dispatch_quantum]; now rewrite Hrr|].
    split; [intros -> ->; apply dispatch_rr_quantum_range|].
    rewrite Eo, Ec, El, Ecs, Ho, Hc, Hl, Hcs, Hti.
    unfold log_row. rewrite Hti. now repeat split.
  - split; [repeat split; congruence|]. now repeat split.
Qed.

(** Both [admit]s leave the task with a class and the subqueue of that class. *)
Lemma assign_class (c : SchedClass) (q : SubQueue) (t : Task) :
  assigned_scheduler (assign c q t) = Some c /\ subqueue (assign c q t) = Some q.
Proof. split; reflexivity. Qed.

Lemma assign_scheduler_class (t : Task) :
  exists c, assigned_scheduler (_assign_scheduler_and_subqueue t) = Some c /\
            subqueue (_assign_scheduler_and_subqueue t) = Some (subqueue_of c).
Proof.
  unfold _assign_scheduler_and_subqueue.
  repeat match goal with |- context [if ?b then _ else _] => destruct b end;
    eexists; split; reflexivity.
Qed.

Lemma admit_task_class (v : Variant) (clf : Classifier) (rrq : Z) (t : Task) :
  exists c, assigned_scheduler (admit_task v clf rrq t) = Some c /\
            subqueue (admit_task v clf rrq t) = Some (subqueue_of c).
Proof.
  destruct v.
  - rewrite admit_task_Baseline. unfold baseline_admit_task.
    set (t1 := if String.eqb (sched_pol t) "SCHED_FIFO" then _ else _).
    assert (H1 : exists c, assigned_scheduler t1 = Some c /\ subqueue t1 = Some (subqueue_of c)).
    { unfold t1.
      repeat match goal with |- context [if ?b then _ else _] => destruct b end;
        eexists; split; reflexivity. }
    clearbody t1. destruct H1 as (c & Hc & Hq). exists c.
    assert (H3 : assigned_scheduler (admit_vruntime_weight (admit_remaining t1)) = Some c /\
                 subqueue (admit_vruntime_weight (admit_remaining t1)) = Some (subqueue_of c)).
    { unfold admit_vruntime_weight, admit_remaining.
      destruct (remaining t1 =? 0); task_simpl; now split. }
    destruct H3 as [H3 H4]. rewrite H3. destruct c; task_simpl; now split.
  - rewrite admit_task_AI. unfold ai_admit_task.
    generalize (admit_remaining (_compute_subqueue_score (_classify_task clf t))). intros t2.
    set (t3 := if String.eqb (sched_pol t2) "SCHED_FIFO" then _ else _).
    assert (H3 : exists c, assigned_scheduler t3 = Some c /\ subqueue t3 = Some (subqueue_of c)).
    { unfold t3.
      repeat match goal with |- context [if String.eqb ?a ?b then _ else _] =>
               destruct (String.eqb a b) end;
        try (eexists; split; reflexivity). apply assign_scheduler_class. }
    clearbody t3. destruct H3 as (c & Hc & Hq). exists c.
    change (assigned_scheduler (admit_vruntime_weight t3)) with (assigned_scheduler t3).
    rewrite Hc. destruct c; task_simpl; now split.
Qed.

(** [admit] of a freshly built task, with the log and the class made explicit. *)
Lemma admit_row_full (v : Variant) (clf : Classifier) (u : string) (row : Features)
    (current_time : Z) (s : Sched) :
  let s' := admit_row v clf u row current_time s in
  let r := length (objects s) in
  let t' := admit_task v clf (rr_quantum s) (Task_init row u) in
  exists c,
    assigned_scheduler t' = Some c /\ subqueue t' = Some (subqueue_of c) /\
    objects s' = objects s ++ [t'] /\
    queues s' = push_class c r (vruntime t') (pid t') (insertion_counter s) (queues s) /\
    insertion_counter s' = (match c with CFS => S (insertion_counter s)
                                       | _ => insertion_counter s end) /\
    logs s' = logs s ++ [log_row s ADMIT t' None None; log_row s ENQUEUE t' None None] /\
    task_map s' = dict_set (f_PID row) r (task_map s) /\
    (cores s' = cores s /\ completed_tasks s' = completed_tasks s /\
     time s' = time s /\ num_cores s' = num_cores s /\
     context_switches s' = context_switches s /\
     core_priority_order s' = core_priority_order s /\ rr_quantum s' = rr_quantum s).
Proof.
  intros s' r t'.
  destruct (admit_task_class v clf (rr_quantum s) (Task_init row u)) as (c & Hc & Hq).
  fold t' in Hc, Hq. exists c. split; [exact Hc|]. split; [exact Hq|].
  unfold s', admit_row, sched_admit. sched_simpl.
  rewrite list_lookup_middle by reflexivity. fold r. fold t'.
  assert (Hins : <[r := t']> (objects s ++ [Task_init row u]) = objects s ++ [t']).
  { unfold r. rewrite insert_app_r_alt by lia. now rewrite Nat.sub_diag. }
  rewrite Hins.
  change (pid (Task_init row u)) with (f_PID row).
  clearbody t'. unfold _enqueue_task. rewrite Hc. cbn [get].
  destruct c; sched_simpl; cbn [queue_append push_class]; rewrite <- ?app_assoc; cbn [app];
    now repeat split.
Qed.

(** What [_dispatch_to_core] stores for the head of the RR queue. *)
Lemma dispatch_rr_stores_quantum (cid : nat) (s : Sched) (r : ref) (rest : list ref)
    (t : Task) (c0 : Core) :
  RR_rr_1 (queues s) = r :: rest ->
  objects s !! r = Some t ->
  cores s !! cid = Some c0 ->
  let s' := _dispatch_to_core AI cid RR s in
  let q := dispatch_rr_quantum t in
  objects s' !! r = Some (start_task q (time s) t) /\
  cores s' !! cid = Some {| core_task := Some r; time_left := q |} /\
  RR_rr_1 (queues s') = rest.
Proof.
  intros Hq Ht Hc s' q. unfold s', _dispatch_to_core. cbn [_dequeue_task]. rewrite Hq.
  cbn [popleft].
  set (s1 := set_queues (set_RR_rr_1 rest (queues s)) s).
  assert (Ht1 : objects s1 !! r = Some t) by exact Ht.
  destruct (place_on_core_full AI cid RR r t s1 Ht1) as (Ho & Hcs & Hqs & _).
  change (dispatch_quantum AI RR t s1) with q in Ho, Hcs.
  change (time s1) with (time s) in Ho.
  split; [|split].
  - rewrite Ho. apply list_lookup_insert_eq. eapply lookup_lt_Some. exact Ht.
  - rewrite Hcs. apply list_lookup_insert_eq. eapply lookup_lt_Some. exact Hc.
  - rewrite Hqs. reflexivity.
Qed.

(** C7: in the AI scheduler the RR quantum that [admit] stores on the task and
    the RR quantum that [_dispatch_to_core] stores on the task and on the core
    are one and the same piecewise-linear function of [subqueue_score]: 100
    below 2.5, 200 above 3.15, and the integer part of
    [100 + ((score - 2.5) / (3.15 - 2.5)) * 100] in between.  At admit: the
    task object left in the store by [admit] has a score, and if it is
    assigned to RR its quantum is that function of the score.  At dispatch:
    for the head of the RR queue, whatever quantum it carried, the task in
    the store gets that function of its score as quantum, the core gets it as
    [time_left], and the task leaves the queue. *)
Theorem ai_rr_quantum_admit_dispatch (clf : Classifier) (u : string) (row : Features)
    (current_time : Z) (s : Sched) (cid : nat) (r : ref) (rest : list ref) (t : Task)
    (score : Q) (c0 : Core) :
  RR_rr_1 (queues s) = r :: rest ->
  objects s !! r = Some t ->
  subqueue_score t = Some score ->
  cores s !! cid = Some c0 ->
  (exists ta sa,
     objects (admit_row AI clf u row current_time s) !! length (objects s) = Some ta /\
     subqueue_score ta = Some sa /\
     (assigned_scheduler ta = Some RR -> quantum ta = Some (rr_quantum_piecewise sa))) /\
  (let s' := _dispatch_to_core AI cid RR s in
   exists t',
     objects s' !! r = Some t' /\
     subqueue_score t' = Some score /\
     quantum t' = Some (rr_quantum_piecewise score) /\
     cores s' !! cid = Some {| core_task := Some r;
                               time_left := rr_quantum_piecewise score |} /\
     RR_rr_1 (queues s') = rest).
Proof.
  intros Hq Ht Hs Hc. split.
  - pose proof (admit_row_object AI clf u row current_time s) as Ho.
    rewrite admit_task_AI in Ho.
    destruct (ai_rr_quantum_formulas clf (Task_init row u) s) as (sa & Hsa & _ & _ & _ & Hqa).
    exists (ai_admit_task clf (Task_init row u)), sa. split; [exact Ho|]. split; assumption.
  - cbv zeta.
    destruct (dispatch_rr_stores_quantum cid s r rest t c0 Hq Ht Hc) as (Ho & Hcs & Hqs).
    cbv zeta in Ho, Hcs, Hqs.
    assert (Hd : dispatch_rr_quantum t = rr_quantum_piecewise score).
    { rewrite dispatch_rr_quantum_eq_admit. now apply admit_rr_quantum_piecewise. }
    rewrite Hd in Ho, Hcs.
    destruct (start_task_frame (rr_quantum_piecewise score) (time s) t)
      as (_ & _ & _ & _ & _ & Hqt & _).
    exists (start_task (rr_quantum_piecewise score) (time s) t).
    split; [exact Ho|]. split.
    + unfold start_task. destruct (first_start (set_quantum _ t)); exact Hs.
    + split; [exact Hqt|]. split; [exact Hcs | exact Hqs].
Qed.

Lemma ai_rr_quantum_admit_dispatch_witness :
  exists t score,
    RR_rr_1 (queues promoted_waiting) = [0%nat] /\
    objects promoted_waiting !! 0%nat = Some t /\
    subqueue_score t = Some score /\ (score == 2.95)%Q /\ quantum t = Some 169 /\
    let s' := _dispatch_to_core AI 0 RR promoted_waiting in
    exists t',
      objects s' !! 0%nat = Some t' /\
      subqueue_score t' = Some score /\
      quantum t' = Some (rr_quantum_piecewise score) /\
      cores s' !! 0%nat = Some {| core_task := Some 0%nat;
                                  time_left := rr_quantum_piecewise score |} /\
      RR_rr_1 (queues s') = [] /\
      rr_quantum_piecewise score = 169.
Proof.
  eexists. eexists. split; [reflexivity|]. split; [vm_compute; reflexivity|].
  split; [vm_compute; reflexivity|]. split; [reflexivity|]. split; [reflexivity|].
  pose proof (ai_rr_quantum_admit_dispatch promoted_clf "" realtime_row 0 promoted_waiting
                0%nat 0%nat []) as H.
  edestruct H as (_ & t' & H1 & H2 & H3 & H4 & H5).
  - reflexivity.
  - vm_compute. reflexivity.
  - vm_compute. reflexivity.
  - reflexivity.
  - exists t'. repeat (split; [eassumption|]). reflexivity.
Defined.

(** ** Counting lemmas *)

Lemma count_event_app (e : Event) (l k : list LogRow) :
  count_event e (l ++ k) = (count_event e l + count_event e k)%nat.
Proof. unfold count_event. now rewrite List.filter_app, length_app. Qed.

Lemma total_work_app (l k : list Task) : total_work (l ++ k) = total_work l + total_work k.
Proof.
  unfold total_work. induction l as [|t l IH]; cbn [app fold_right]; [reflexivity|].
  rewrite IH. lia.
Qed.

Lemma total_work_insert (l : list Task) (r : nat) (t t' : Task) :
  l !! r = Some t -> total_work (<[r := t']> l) = total_work l - total_run t + total_run t'.
Proof.
  revert r. induction l as [|t0 l IH]; intros [|r] H; try discriminate.
  - injection H as ->. cbn [insert list_insert]. unfold total_work. cbn [fold_right]. lia.
  - change (<[S r := t']> (t0 :: l)) with (t0 :: <[r := t']> l).
    specialize (IH r H). unfold total_work in *. cbn [fold_right]. rewrite IH. lia.
Qed.

Lemma completed_count_app (l k : list Task) :
  completed_count (l ++ k) = (completed_count l + completed_count k)%nat.
Proof. unfold completed_count. now rewrite List.filter_app, length_app. Qed.

Lemma completed_count_insert (l : list Task) (r : nat) (t t' : Task) :
  l !! r = Some t ->
  (completed_count (<[r := t']> l) + (if is_completed t then 1 else 0) =
   completed_count l + (if is_completed t' then 1 else 0))%nat.
Proof.
  unfold completed_count.
  revert r. induction l as [|t0 l IH]; intros [|r] H; try discriminate.
  - injection H as ->. cbn [insert list_insert List.filter].
    destruct (is_completed t), (is_completed t'); cbn [length]; lia.
  - change (<[S r := t']> (t0 :: l)) with (t0 :: <[r := t']> l).
    cbn [List.filter]. specialize (IH r H).
    destruct (is_completed t0); cbn [length]; lia.
Qed.

Lemma occ_qcnt (x : ref) (s : Sched) :
  occ x s = (qcnt x (queues s) + cnt x (running (cores s)))%nat.
Proof. reflexivity. Qed.

Lemma qcnt_class (x : ref) (q : Queues) :
  qcnt x q = (cnt x (class_queue FIFO q) + cnt x (class_queue RR q)
              + cnt x (class_queue CFS q) + cnt x (class_queue IDLE q))%nat.
Proof. reflexivity. Qed.

Lemma class_queue_pop (c sched : SchedClass) (q : Queues) :
  class_queue c (pop_class sched q) =
    if SchedClass_eqb c sched then tail (class_queue c q) else class_queue c q.
Proof.
  destruct c, sched; cbn [SchedClass_eqb class_queue pop_class]; try reflexivity.
  now destruct (CFS_cfs_1 q).
Qed.

Lemma cnt_tail (x : ref) (l : list ref) :
  cnt x l = ((match head l with Some r => if Nat.eq_dec r x then 1 else 0 | None => 0 end)
             + cnt x (tail l))%nat.
Proof. destruct l as [|r l]; [reflexivity|]. cbn [head tail]. apply cnt_cons. Qed.

Lemma qcnt_pop (x : ref) (sched : SchedClass) (q : Queues) :
  qcnt x q = ((match head (class_queue sched q) with
               | Some r => if Nat.eq_dec r x then 1 else 0
               | None => 0
               end) + qcnt x (pop_class sched q))%nat.
Proof.
  rewrite !qcnt_class, !class_queue_pop.
  destruct sched; cbn [SchedClass_eqb].
  - rewrite (cnt_tail x (class_queue FIFO q)). lia.
  - rewrite (cnt_tail x (class_queue RR q)). lia.
  - rewrite (cnt_tail x (class_queue CFS q)). lia.
  - rewrite (cnt_tail x (class_queue IDLE q)). lia.
Qed.

Lemma cnt_class_push (x : ref) (c' c : SchedClass) (r : ref) (vr : Q) (p : option Z)
    (n : nat) (q : Queues) :
  cnt x (class_queue c' (push_class c r vr p n q)) =
    ((if SchedClass_eqb c' c then if Nat.eq_dec r x then 1 else 0 else 0)
     + cnt x (class_queue c' q))%nat.
Proof.
  destruct c', c; cbn [SchedClass_eqb class_queue push_class queue_append
                       FIFO_fifo_1 RR_rr_1 CFS_cfs_1 IDLE_idle
                       set_FIFO_fifo_1 set_RR_rr_1 set_CFS_cfs_1 set_IDLE_idle];
    rewrite ?cnt_app, ?cnt_cons, ?cnt_nil, ?cnt_heappush; cbn [e_task]; lia.
Qed.

Lemma qcnt_push (x : ref) (c : SchedClass) (r : ref) (vr : Q) (p : option Z)
    (n : nat) (q : Queues) :
  qcnt x (push_class c r vr p n q) = ((if Nat.eq_dec r x then 1 else 0) + qcnt x q)%nat.
Proof.
  rewrite !qcnt_class, !cnt_class_push. destruct c; cbn [SchedClass_eqb]; lia.
Qed.

Lemma In_class_push (x : ref) (c' c : SchedClass) (r : ref) (vr : Q) (p : option Z)
    (n : nat) (q : Queues) :
  In x (class_queue c' (push_class c r vr p n q)) ->
  (c' = c /\ x = r) \/ In x (class_queue c' q).
Proof.
  intros H. apply cnt_pos_elem in H. rewrite cnt_class_push in H.
  destruct (SchedClass_eqb c' c) eqn:E.
  - destruct (Nat.eq_dec r x) as [->|Hne].
    + left. split; [|reflexivity]. destruct c', c; try discriminate; reflexivity.
    + right. apply cnt_pos_elem. lia.
  - right. apply cnt_pos_elem. lia.
Qed.

Lemma In_class_pop (x : ref) (c sched : SchedClass) (q : Queues) :
  In x (class_queue c (pop_class sched q)) -> In x (class_queue c q).
Proof.
  rewrite class_queue_pop. destruct (SchedClass_eqb c sched); [|auto].
  destruct (class_queue c q); [auto|]. cbn [tail]. now right.
Qed.

Lemma SchedClass_eqb_eq (a b : SchedClass) : SchedClass_eqb a b = true <-> a = b.
Proof. destruct a, b; cbn; split; congruence. Qed.

(** ** Preservation of [Placed] *)

Lemma lookup_insert_cases {A} (l : list A) (r x : nat) (a a' b : A) :
  l !! r = Some a -> <[r := a']> l !! x = Some b ->
  (x = r /\ b = a') \/ (x <> r /\ l !! x = Some b).
Proof.
  intros Hr Hx. destruct (Nat.eq_dec x r) as [->|Hne].
  - rewrite list_lookup_insert_eq in Hx by (eapply lookup_lt_Some; exact Hr).
    left. split; congruence.
  - rewrite list_lookup_insert_ne in Hx by congruence. now right.
Qed.

(** Nothing but the clock, the queues' emptied heads or the counters changes. *)
Lemma Placed_frame (s s' : Sched) :
  Placed s ->
  objects s' = objects s -> cores s' = cores s ->
  (forall c x, In x (class_queue c (queues s')) -> In x (class_queue c (queues s))) ->
  (forall x, (occ x s <= occ x s')%nat) ->
  Placed s'.
Proof.
  intros [Hc Hk Ha Hl Hr Hd] Ho Hcs Hq Hocc. constructor; rewrite ?Ho, ?Hcs.
  - intros c x Hin. apply Hc. now apply Hq.
  - exact Hk.
  - exact Ha.
  - intros r t Ht Hn. specialize (Hl r t Ht Hn). specialize (Hocc r). lia.
  - exact Hr.
  - exact Hd.
Qed.

(** The live task [r] is updated to [t']; it may move between a queue and a
    core, and it may complete. *)
Lemma Placed_update (s s' : Sched) (r : ref) (t t' : Task) :
  Placed s ->
  objects s !! r = Some t ->
  completion_time t = None ->
  objects s' = <[r := t']> (objects s) ->
  assigned_scheduler t' = assigned_scheduler t -> subqueue t' = subqueue t ->
  remaining t' <= Z.max 0 (remaining t) -> 0 <= total_run t' ->
  (is_Some (first_start t) -> is_Some (first_start t')) ->
  (forall c x, In x (class_queue c (queues s')) ->
     In x (class_queue c (queues s)) \/ (x = r /\ assigned_scheduler t' = Some c)) ->
  (forall cid c x, cores s' !! cid = Some c -> core_task c = Some x ->
     cores s !! cid = Some c \/
     (x = r /\ 1 <= time_left c /\ is_Some (first_start t') /\
      (assigned_scheduler t' = Some FIFO \/ assigned_scheduler t' = Some IDLE ->
       remaining t' <= time_left c))) ->
  (forall x, x <> r -> (occ x s <= occ x s')%nat) ->
  (completion_time t' = None -> (0 < occ r s')%nat) ->
  (completion_time t' = None \/
   (remaining t' = 0 /\ 1 <= total_run t' /\ is_Some (first_start t'))) ->
  Placed s'.
Proof.
  intros [Hc Hk Ha Hl Hr Hd] Ht Hnone Ho Hcls Hsub Hrem Hrun Hfs Hq Hcores Hocc Hoccr Hcomp.
  assert (Hlen : (r < length (objects s))%nat) by (eapply lookup_lt_Some; exact Ht).
  assert (Hfwd : forall x tx, objects s !! x = Some tx ->
            exists tx', objects s' !! x = Some tx' /\
                        ((x = r /\ tx = t /\ tx' = t') \/ (x <> r /\ tx' = tx))).
  { intros x tx Hx. rewrite Ho. destruct (Nat.eq_dec x r) as [->|Hne].
    - exists t'. rewrite list_lookup_insert_eq by exact Hlen.
      split; [reflexivity|]. left. repeat split. congruence.
    - exists tx. rewrite list_lookup_insert_ne by congruence. split; [exact Hx|]. now right. }
  assert (Hr' : objects s' !! r = Some t')
    by (rewrite Ho; now apply list_lookup_insert_eq).
  constructor.
  - intros c x Hin. destruct (Hq c x Hin) as [Hold|[-> Hcl]].
    + destruct (Hc c x Hold) as (tx & Hx & Hcx).
      destruct (Hfwd x tx Hx) as (tx' & Hx' & [(-> & -> & ->)|(Hne & ->)]).
      * exists t'. split; [exact Hx'|]. congruence.
      * now exists tx.
    + now exists t'.
  - intros cid c x Hcid Hx. destruct (Hcores cid c x Hcid Hx) as [Hold|(-> & H1 & H2 & H3)].
    + destruct (Hk cid c x Hold Hx) as (tx & Hox & Hleft & Hfirst & Hfin).
      destruct (Hfwd x tx Hox) as (tx' & Hx' & [(-> & -> & ->)|(Hne & ->)]).
      * exists t'. split; [exact Hx'|]. split; [exact Hleft|]. split; [now apply Hfs|].
        rewrite Hcls. intros Hcl. specialize (Hfin Hcl). lia.
      * now exists tx.
    + now exists t'.
  - intros x tx' Hx'. rewrite Ho in Hx'.
    destruct (lookup_insert_cases _ _ _ _ _ _ Ht Hx') as [(-> & ->)|(Hne & Hx)].
    + rewrite Hcls, Hsub. now apply (Ha r t).
    + now apply (Ha x tx').
  - intros x tx' Hx' Hn. rewrite Ho in Hx'.
    destruct (lookup_insert_cases _ _ _ _ _ _ Ht Hx') as [(-> & ->)|(Hne & Hx)].
    + now apply Hoccr.
    + specialize (Hl x tx' Hx Hn). specialize (Hocc x Hne). lia.
  - intros x tx' Hx'. rewrite Ho in Hx'.
    destruct (lookup_insert_cases _ _ _ _ _ _ Ht Hx') as [(-> & ->)|(Hne & Hx)].
    + exact Hrun.
    + now apply (Hr x tx').
  - intros x tx' c Hx' Hct. rewrite Ho in Hx'.
    destruct (lookup_insert_cases _ _ _ _ _ _ Ht Hx') as [(-> & ->)|(Hne & Hx)].
    + destruct Hcomp as [Hn|Hdone]; [congruence | exact Hdone].
    + now apply (Hd x tx' c).
Qed.

(** A fresh task object [t] is appended and queued in the container of its class. *)
Lemma Placed_alloc (s s' : Sched) (t : Task) (c : SchedClass) :
  Placed s -> Inv s ->
  objects s' = objects s ++ [t] -> cores s' = cores s ->
  assigned_scheduler t = Some c -> subqueue t = Some (subqueue_of c) ->
  (forall c' x, In x (class_queue c' (queues s')) ->
     In x (class_queue c' (queues s)) \/ (c' = c /\ x = length (objects s))) ->
  (forall x, (occ x s <= occ x s')%nat) ->
  (0 < occ (length (objects s)) s')%nat ->
  total_run t = 0 -> completion_time t = None ->
  Placed s'.
Proof.
  intros [Hc Hk Ha Hl Hr Hd] HI Ho Hcs Hcls Hsub Hq Hocc Hnew Hrun Hnone.
  assert (Hfwd : forall x tx, objects s !! x = Some tx -> objects s' !! x = Some tx).
  { intros x tx Hx. rewrite Ho. apply lookup_app_l_Some. exact Hx. }
  assert (Hback : forall x tx, objects s' !! x = Some tx ->
            objects s !! x = Some tx \/ (x = length (objects s) /\ tx = t)).
  { intros x tx Hx. rewrite Ho in Hx. apply lookup_app_Some in Hx.
    destruct Hx as [Hx|[Hge Hx]]; [now left|]. right.
    destruct (x - length (objects s))%nat as [|k] eqn:E; [|destruct k; discriminate].
    injection Hx as <-. split; [lia | reflexivity]. }
  assert (Hnew' : objects s' !! length (objects s) = Some t)
    by (rewrite Ho; now apply list_lookup_middle).
  constructor.
  - intros c' x Hin. destruct (Hq c' x Hin) as [Hold|[-> ->]].
    + destruct (Hc c' x Hold) as (tx & Hx & Hcx). exists tx. split; [now apply Hfwd | exact Hcx].
    + now exists t.
  - intros cid k x Hcid Hx. rewrite Hcs in Hcid.
    destruct (Hk cid k x Hcid Hx) as (tx & Hox & Hrest). exists tx. split; [now apply Hfwd|exact Hrest].
  - intros x tx Hx. destruct (Hback x tx Hx) as [Hold|[-> ->]]; [now apply (Ha x tx)|].
    now exists c.
  - intros x tx Hx Hn. destruct (Hback x tx Hx) as [Hold|[-> ->]]; [|exact Hnew].
    specialize (Hl x tx Hold Hn). specialize (Hocc x). lia.
  - intros x tx Hx. destruct (Hback x tx Hx) as [Hold|[-> ->]]; [now apply (Hr x tx) | lia].
  - intros x tx k Hx Hct. destruct (Hback x tx Hx) as [Hold|[-> ->]]; [now apply (Hd x tx k)|].
    congruence.
Qed.

Lemma occ_swap (s s' : Sched) (cid : nat) (core c' : Core) (x : ref) :
  cores s !! cid = Some core ->
  cores s' = <[cid := c']> (cores s) ->
  (occ x s' + core_cnt x core + qcnt x (queues s)
   = occ x s + core_cnt x c' + qcnt x (queues s'))%nat.
Proof. intros Hc Hs. pose proof (occ_replace s s' cid core c' x Hc Hs) as H. exact H. Qed.

Lemma core_cnt_busy (x r : ref) (left : Z) :
  core_cnt x {| core_task := Some r; time_left := left |} = if Nat.eq_dec r x then 1%nat else 0%nat.
Proof. now rewrite core_cnt_task. Qed.

Lemma core_cnt_idle (x : ref) : core_cnt x idle_core = 0%nat.
Proof. reflexivity. Qed.

Lemma Placed_set_time (current_time : Z) (s : Sched) :
  Placed s -> Placed (set_time current_time s).
Proof.
  intros HP. apply (Placed_frame s _ HP); try reflexivity; auto.
Qed.

Lemma Placed_admit_row (v : Variant) (clf : Classifier) (u : string) (row : Features)
    (current_time : Z) (s : Sched) :
  Inv s -> Placed s -> Placed (admit_row v clf u row current_time s).
Proof.
  intros HI HP.
  destruct (admit_row_full v clf u row current_time s)
    as (c & Hc & Hsub & Ho & Hq & Hic & Hl & Htm & (Hcs & Hcp & Hti & Hnc & Hcsw & _)).
  destruct (admit_task_fresh v clf (rr_quantum s) row u) as [Hv _].
  destruct (admit_view_total_time _ _ Hv) as (_ & Hrun & Hct & _).
  revert Hc Hsub Ho Hq Hrun Hct.
  generalize (admit_task v clf (rr_quantum s) (Task_init row u)).
  set (s' := admit_row v clf u row current_time s) in *. intros t' Hc Hsub Ho Hq Hrun Hct.
  assert (Hocc : forall x, occ x s' = ((if Nat.eq_dec (length (objects s)) x then 1 else 0)
                                       + occ x s)%nat).
  { intros x. rewrite !occ_qcnt, Hcs, Hq, qcnt_push. lia. }
  apply (Placed_alloc s s' t' c HP HI Ho Hcs Hc Hsub).
  - intros c' x Hin. rewrite Hq in Hin. apply In_class_push in Hin. tauto.
  - intros x. rewrite Hocc. lia.
  - rewrite Hocc. destruct (Nat.eq_dec (length (objects s)) (length (objects s))); [lia|congruence].
  - exact Hrun.
  - exact Hct.
Qed.

Lemma Placed_dispatch (v : Variant) (cid : nat) (sched : SchedClass) (s : Sched) (c0 : Core) :
  Inv s -> Placed s ->
  cores s !! cid = Some c0 -> core_task c0 = None ->
  Placed (_dispatch_to_core v cid sched s).
Proof.
  intros HI HP Hc0 Hidle.
  destruct (dispatch_full v cid sched s HI) as ((Hq & _) & Hcase).
  set (s' := _dispatch_to_core v cid sched s) in *.
  destruct (head (class_queue sched (queues s))) as [r|] eqn:Eh.
  - destruct Hcase as (t & q & Ht & Hq1 & Hfin & _ & _ & Ho & Hcs & _).
    assert (Hin : In r (class_queue sched (queues s))).
    { destruct (class_queue sched (queues s)); [discriminate|]. injection Eh as ->. now left. }
    destruct (pl_class s HP sched r Hin) as (t0 & Ht0 & Hcls).
    replace t0 with t in * by congruence. clear t0 Ht0.
    assert (Hoccr : (0 < occ r s)%nat).
    { apply cnt_pos_elem in Hin. rewrite occ_qcnt, qcnt_class. destruct sched; lia. }
    pose proof (inv_live s HI r t Ht Hoccr) as Hnone.
    destruct (start_task_frame q (time s) t) as (Hsv & Hrem & Hrun & Hct & _ & _ & Hfs).
    assert (Hocc : forall x, occ x s' = occ x s).
    { intros x. pose proof (occ_swap s s' cid c0 _ x Hc0 Hcs) as H.
      rewrite core_cnt_busy, core_cnt_task, Hidle, Hq in H.
      pose proof (qcnt_pop x sched (queues s)) as Hp. rewrite Eh in Hp. lia. }
    apply (Placed_update s s' r t (start_task q (time s) t) HP Ht Hnone Ho).
    + unfold static_view in Hsv. now injection Hsv.
    + unfold static_view in Hsv. now injection Hsv.
    + lia.
    + rewrite Hrun. apply (pl_run s HP r t Ht).
    + intros _. rewrite Hfs. now eexists.
    + intros c x Hx. rewrite Hq in Hx. left. now apply In_class_pop in Hx.
    + intros cid' c x Hcid' Hx. rewrite Hcs in Hcid'.
      destruct (Nat.eq_dec cid' cid) as [->|Hne].
      * rewrite list_lookup_insert_eq in Hcid' by (eapply lookup_lt_Some; exact Hc0).
        injection Hcid' as <-. cbn [core_task] in Hx. injection Hx as <-. right.
        cbn [time_left]. split; [reflexivity|]. split; [exact Hq1|].
        split; [rewrite Hfs; now eexists|].
        unfold static_view in Hsv. injection Hsv as _ _ _ _ Hcls' _.
        rewrite Hcls', Hcls, Hrem. intros [[= E]|[= E]]; rewrite Hfin by auto; lia.
      * rewrite list_lookup_insert_ne in Hcid' by congruence. now left.
    + intros x _. rewrite Hocc. lia.
    + intros _. now rewrite Hocc.
    + left. now rewrite Hct.
  - destruct Hcase as (Ho & Hcs & _).
    apply (Placed_frame s s' HP Ho Hcs).
    + intros c x Hx. rewrite Hq in Hx. now apply In_class_pop in Hx.
    + intros x. rewrite !occ_qcnt, Hcs, Hq.
      pose proof (qcnt_pop x sched (queues s)) as Hp. rewrite Eh in Hp. lia.
Qed.

Lemma static_view_class (t t' : Task) :
  static_view t' = static_view t ->
  assigned_scheduler t' = assigned_scheduler t /\ subqueue t' = subqueue t /\ pid t' = pid t.
Proof. unfold static_view. intros [= ? ? ? ? ? ?]. auto. Qed.

Lemma Placed_run_one_tick (v : Variant) (cid : nat) (s : Sched) :
  Inv s -> Placed s -> Placed (_run_one_tick_on_core v cid s).
Proof.
  intros HI HP.
  destruct (cores s !! cid) as [core|] eqn:Ec;
    [|rewrite run_one_tick_idle; [exact HP | congruence]].
  destruct (core_task core) as [r|] eqn:Er;
    [|rewrite run_one_tick_idle; [exact HP | congruence]].
  destruct (objects s !! r) as [t|] eqn:Et;
    [|rewrite run_one_tick_idle; [exact HP | congruence]].
  destruct (run_one_tick_full v cid s core r t Ec Er Et) as (_ & Hcases).
  set (s' := _run_one_tick_on_core v cid s) in *.
  destruct (run_task_frame v t) as (Hsv & Hrem & Hrun & Hct & Hfs & _).
  destruct (static_view_class _ _ Hsv) as (Hcls & Hsub & _).
  set (t2 := run_task v t) in *.
  assert (Hfs' : is_Some (first_start t) -> is_Some (first_start t2)) by now rewrite Hfs.
  destruct (busy_core_alone s cid core r HI Ec Er) as (Hrun1 & Hq1 & Hq2 & Hq3 & Hq4).
  assert (Hoccr : (0 < occ r s)%nat) by (unfold occ; lia).
  assert (Hnone : completion_time t = None) by (apply (inv_live s HI r t Et Hoccr)).
  destruct (pl_core s HP cid core r Ec Er) as (t0 & Ht0 & Hleft & Hfirst & Hfin).
  replace t0 with t in * by congruence. clear t0 Ht0.
  pose proof (pl_run s HP r t Et) as Hrun0.
  destruct (pl_assigned s HP r t Et) as (cl & Hcl & _).
  assert (Hcore : forall x, core_cnt x core = if Nat.eq_dec r x then 1%nat else 0%nat).
  { intros x. rewrite core_cnt_task, Er. reflexivity. }
  assert (Hcores_idle : cores s' = <[cid := idle_core]> (cores s) ->
            forall cid' c x, cores s' !! cid' = Some c -> core_task c = Some x ->
              cores s !! cid' = Some c).
  { intros Hcs cid' c x Hcid' Hx. rewrite Hcs in Hcid'.
    destruct (Nat.eq_dec cid' cid) as [->|Hne].
    - rewrite list_lookup_insert_eq in Hcid' by (eapply lookup_lt_Some; exact Ec).
      injection Hcid' as <-. discriminate.
    - now rewrite list_lookup_insert_ne in Hcid' by congruence. }
  destruct Hcases as [(Hdone & Ho & Hq & Hcs & _) |
                      [(Hpos & Hexp & Ho & _ & Hcs & Hclass) |
                       (Hpos & Hgo & Ho & _ & Hcs & Hq & _)]].
  - (* completion *)
    assert (Hocc : forall x, (occ x s' + (if Nat.eq_dec r x then 1 else 0) = occ x s)%nat).
    { intros x. pose proof (occ_swap s s' cid core idle_core x Ec Hcs) as H.
      rewrite Hq, Hcore, core_cnt_idle in H. lia. }
    apply (Placed_update s s' r t (set_completion_time (Some (time s)) t2) HP Et Hnone Ho);
      task_simpl; try assumption; try lia.
    + intros c x Hx. rewrite Hq in Hx. now left.
    + intros cid' c x Hcid' Hx. left. now apply (Hcores_idle Hcs cid' c x).
    + intros x Hne. specialize (Hocc x). destruct (Nat.eq_dec r x); [congruence | lia].
    + discriminate.
    + right. split; [lia|]. split; [lia | now rewrite Hfs].
  - (* quantum expired *)
    assert (Hnot : cl = RR \/ cl = CFS).
    { destruct cl; auto; exfalso;
        (assert (Hle : remaining t <= time_left core) by (apply Hfin; auto)); lia. }
    assert (Hq : queues s' = push_class cl r (vruntime t2) (pid t2) (insertion_counter s)
                               (queues s)).
    { rewrite Hcls, Hcl in Hclass. destruct Hnot as [-> | ->]; now destruct Hclass. }
    assert (Hocc : forall x, occ x s' = occ x s).
    { intros x. pose proof (occ_swap s s' cid core idle_core x Ec Hcs) as H.
      rewrite Hq, qcnt_push, Hcore, core_cnt_idle in H. lia. }
    apply (Placed_update s s' r t t2 HP Et Hnone Ho); try assumption; try lia.
    + intros c x Hx. rewrite Hq in Hx. apply In_class_push in Hx.
      destruct Hx as [[-> ->]|Hx]; [right|now left]. split; [reflexivity | congruence].
    + intros cid' c x Hcid' Hx. left. now apply (Hcores_idle Hcs cid' c x).
    + intros x _. rewrite Hocc. lia.
    + intros _. now rewrite Hocc.
    + left. congruence.
  - (* the task stays on the core *)
    assert (Hocc : forall x, occ x s' = occ x s).
    { intros x. pose proof (occ_swap s s' cid core _ x Ec Hcs) as H.
      rewrite Hq, Hcore, core_cnt_busy in H. lia. }
    apply (Placed_update s s' r t t2 HP Et Hnone Ho); try assumption; try lia.
    + intros c x Hx. rewrite Hq in Hx. now left.
    + intros cid' c x Hcid' Hx. rewrite Hcs in Hcid'.
      destruct (Nat.eq_dec cid' cid) as [->|Hne].
      * rewrite list_lookup_insert_eq in Hcid' by (eapply lookup_lt_Some; exact Ec).
        injection Hcid' as <-. cbn [core_task] in Hx. injection Hx as <-. right.
        cbn [time_left]. split; [reflexivity|]. split; [lia|].
        split; [now rewrite Hfs|]. rewrite Hcls. intros Hc'. specialize (Hfin Hc'). lia.
      * rewrite list_lookup_insert_ne in Hcid' by congruence. now left.
    + intros x _. rewrite Hocc. lia.
    + intros _. now rewrite Hocc.
    + left. congruence.
Qed.

(** ** Preservation of [Registered] *)

Lemma key_eqb_refl (k : option Z) : key_eqb k k = true.
Proof. now apply key_eqb_eq. Qed.

Lemma dict_set_keys_In (k k' : option Z) (v : ref) (d : list (option Z * ref)) :
  In k' (map fst (dict_set k v d)) <-> k' = k \/ In k' (map fst d).
Proof.
  induction d as [|[k0 v0] d IH]; cbn [dict_set map fst In].
  - intuition congruence.
  - destruct (key_eqb k k0) eqn:E; cbn [map fst In].
    + apply key_eqb_eq in E. subst k0. intuition congruence.
    + rewrite IH. intuition congruence.
Qed.

Lemma dict_set_keys_NoDup (k : option Z) (v : ref) (d : list (option Z * ref)) :
  NoDup (map fst d) -> NoDup (map fst (dict_set k v d)).
Proof.
  induction d as [|[k0 v0] d IH]; cbn [dict_set map fst]; intros H.
  - repeat constructor. intros Hin. inversion Hin.
  - apply NoDup_cons in H. destruct H as [Hk0 Hd].
    destruct (key_eqb k k0) eqn:E; cbn [map fst].
    + apply key_eqb_eq in E. subst k0. apply NoDup_cons. split; assumption.
    + apply NoDup_cons. split; [|now apply IH].
      intros Hin. apply list_elem_of_In in Hin. apply dict_set_keys_In in Hin.
      destruct Hin as [->|Hin].
      * rewrite key_eqb_refl in E. discriminate.
      * apply Hk0. now apply list_elem_of_In.
Qed.

Lemma dict_get_Some_In (k : option Z) (r : ref) (d : list (option Z * ref)) :
  dict_get k d = Some r -> In k (map fst d).
Proof.
  induction d as [|[k0 v0] d IH]; cbn [dict_get map fst In]; [discriminate|].
  destruct (key_eqb k k0) eqn:E; [|auto].
  apply key_eqb_eq in E. auto.
Qed.


Lemma dict_get_set_is_Some (k k' : option Z) (v : ref) (d : list (option Z * ref)) :
  is_Some (dict_get k d) -> is_Some (dict_get k (dict_set k' v d)).
Proof. rewrite dict_get_set. destruct (key_eqb k k'); [now eexists | auto]. Qed.

Lemma Registered_frame (s s' : Sched) :
  Registered s ->
  objects s' = objects s -> task_map s' = task_map s ->
  completed_tasks s' = completed_tasks s ->
  Registered s'.
Proof. intros [H1 H2 H3 H4 H5] Ho Htm Hcp. constructor; rewrite ?Ho, ?Htm, ?Hcp; assumption. Qed.

Lemma Registered_update (s s' : Sched) (r : ref) (t t' : Task) :
  Registered s ->
  objects s !! r = Some t ->
  objects s' = <[r := t']> (objects s) ->
  pid t' = pid t ->
  task_map s' = task_map s ->
  (completed_tasks s' = completed_tasks s /\ completion_time t' = completion_time t) \/
  completed_tasks s' = dict_set (pid t') r (completed_tasks s) ->
  Registered s'.
Proof.
  intros [H1 H2 H3 H4 H5] Ht Ho Hpid Htm Hcp.
  assert (Hr' : objects s' !! r = Some t').
  { rewrite Ho. apply list_lookup_insert_eq. eapply lookup_lt_Some; exact Ht. }
  assert (Hback : forall x tx', objects s' !! x = Some tx' ->
            (x = r /\ tx' = t') \/ (x <> r /\ objects s !! x = Some tx')).
  { intros x tx' Hx. rewrite Ho in Hx. exact (lookup_insert_cases _ _ _ _ _ _ Ht Hx). }
  constructor.
  - intros x tx' Hx. rewrite Htm. destruct (Hback x tx' Hx) as [(-> & ->)|(Hne & Hx0)].
    + rewrite Hpid. now apply (H1 r t).
    + now apply (H1 x tx').
  - intros x tx' c Hx Hct. destruct (Hback x tx' Hx) as [(-> & ->)|(Hne & Hx0)].
    + destruct Hcp as [[-> Hsame]| ->].
      * rewrite Hpid. apply (H2 r t c Ht). congruence.
      * rewrite dict_get_set, key_eqb_refl. now eexists.
    + destruct Hcp as [[-> _]| ->]; [now apply (H2 x tx' c)|].
      apply dict_get_set_is_Some. now apply (H2 x tx' c).
  - intros p x Hp.
    assert (Hold : forall y, dict_get p (completed_tasks s) = Some y ->
              exists ty, objects s' !! y = Some ty /\ pid ty = p).
    { intros y Hy. destruct (H3 p y Hy) as (ty & Hty & Hpy).
      destruct (Nat.eq_dec y r) as [->|Hne].
      - exists t'. split; [exact Hr'|]. replace ty with t in * by congruence. congruence.
      - exists ty. split; [|exact Hpy]. rewrite Ho. now rewrite list_lookup_insert_ne by congruence. }
    destruct Hcp as [[Hc _]| Hc]; rewrite Hc in Hp; [now apply Hold|].
    rewrite dict_get_set in Hp. destruct (key_eqb p (pid t')) eqn:E; [|now apply Hold].
    injection Hp as <-. apply key_eqb_eq in E. now exists t'.
  - now rewrite Htm.
  - destruct Hcp as [[-> _]| ->]; [exact H5 | now apply dict_set_keys_NoDup].
Qed.

Lemma Registered_alloc (s s' : Sched) (t : Task) :
  Registered s ->
  objects s' = objects s ++ [t] ->
  task_map s' = dict_set (pid t) (length (objects s)) (task_map s) ->
  completed_tasks s' = completed_tasks s ->
  completion_time t = None ->
  Registered s'.
Proof.
  intros [H1 H2 H3 H4 H5] Ho Htm Hcp Hnone.
  assert (Hback : forall x tx, objects s' !! x = Some tx ->
            objects s !! x = Some tx \/ (x = length (objects s) /\ tx = t)).
  { intros x tx Hx. rewrite Ho in Hx. apply lookup_app_Some in Hx.
    destruct Hx as [Hx|[Hge Hx]]; [now left|]. right.
    destruct (x - length (objects s))%nat as [|k] eqn:E; [|destruct k; discriminate].
    injection Hx as <-. split; [lia | reflexivity]. }
  constructor; rewrite ?Htm, ?Hcp.
  - intros x tx Hx. destruct (Hback x tx Hx) as [Hold|[-> ->]].
    + apply dict_get_set_is_Some. now apply (H1 x tx).
    + rewrite dict_get_set, key_eqb_refl. now eexists.
  - intros x tx c Hx Hct. destruct (Hback x tx Hx) as [Hold|[-> ->]]; [|congruence].
    now apply (H2 x tx c).
  - intros p x Hp. destruct (H3 p x Hp) as (tx & Hx & Hpx). exists tx. split; [|exact Hpx].
    rewrite Ho. now apply lookup_app_l_Some.
  - now apply dict_set_keys_NoDup.
  - exact H5.
Qed.

Lemma Registered_set_time (current_time : Z) (s : Sched) :
  Registered s -> Registered (set_time current_time s).
Proof. intros H. now apply (Registered_frame s). Qed.

Lemma Registered_admit_row (v : Variant) (clf : Classifier) (u : string) (row : Features)
    (current_time : Z) (s : Sched) :
  Registered s -> Registered (admit_row v clf u row current_time s).
Proof.
  intros HR.
  destruct (admit_row_full v clf u row current_time s)
    as (c & _ & _ & Ho & _ & _ & _ & Htm & (_ & Hcp & _)).
  destruct (admit_task_fresh v clf (rr_quantum s) row u) as [Hv _].
  destruct (admit_view_total_time _ _ Hv) as (_ & _ & Hct & _ & Hpid & _).
  revert Ho Hct Hpid. generalize (admit_task v clf (rr_quantum s) (Task_init row u)).
  intros t' Ho Hct Hpid.
  apply (Registered_alloc s _ t' HR Ho); [|exact Hcp|exact Hct].
  rewrite Htm, Hpid. reflexivity.
Qed.

Lemma Registered_dispatch (v : Variant) (cid : nat) (sched : SchedClass) (s : Sched) :
  Inv s -> Registered s -> Registered (_dispatch_to_core v cid sched s).
Proof.
  intros HI HR.
  destruct (dispatch_full v cid sched s HI) as ((_ & _ & _ & Htm & Hcp & _) & Hcase).
  destruct (head (class_queue sched (queues s))) as [r|].
  - destruct Hcase as (t & q & Ht & _ & _ & _ & _ & Ho & _).
    destruct (start_task_frame q (time s) t) as (Hsv & _ & _ & Hct & _).
    destruct (static_view_class _ _ Hsv) as (_ & _ & Hpid).
    apply (Registered_update s _ r t _ HR Ht Ho Hpid Htm). left. now split.
  - destruct Hcase as (Ho & _). now apply (Registered_frame s).
Qed.

Lemma Registered_run_one_tick (v : Variant) (cid : nat) (s : Sched) :
  Registered s -> Registered (_run_one_tick_on_core v cid s).
Proof.
  intros HR.
  destruct (cores s !! cid) as [core|] eqn:Ec;
    [|rewrite run_one_tick_idle; [exact HR | congruence]].
  destruct (core_task core) as [r|] eqn:Er;
    [|rewrite run_one_tick_idle; [exact HR | congruence]].
  destruct (objects s !! r) as [t|] eqn:Et;
    [|rewrite run_one_tick_idle; [exact HR | congruence]].
  destruct (run_one_tick_full v cid s core r t Ec Er Et) as ((_ & _ & Htm & _) & Hcases).
  destruct (run_task_frame v t) as (Hsv & _ & _ & Hct & _).
  destruct (static_view_class _ _ Hsv) as (_ & _ & Hpid).
  destruct Hcases as [(_ & Ho & _ & _ & _ & Hcp & _) |
                      [(_ & _ & Ho & Hcp & _) | (_ & _ & Ho & Hcp & _)]].
  - apply (Registered_update s _ r t _ HR Et Ho); [exact Hpid | exact Htm |]. now right.
  - apply (Registered_update s _ r t _ HR Et Ho Hpid Htm). left. now split.
  - apply (Registered_update s _ r t _ HR Et Ho Hpid Htm). left. now split.
Qed.

(** ** Preservation of [Logged] *)

Lemma count_event_one (e e' : Event) (s : Sched) (t : Task) (c : option nat)
    (x : option string) :
  count_event e [log_row s e' t c x] = if Event_eqb e' e then 1%nat else 0%nat.
Proof. unfold count_event. cbn [List.filter log_row row_event]. now destruct (Event_eqb e' e). Qed.

Lemma count_event_snoc (e e' : Event) (l : list LogRow) (s : Sched) (t : Task)
    (c : option nat) (x : option string) :
  count_event e (l ++ [log_row s e' t c x]) =
    (count_event e l + if Event_eqb e' e then 1 else 0)%nat.
Proof. now rewrite count_event_app, count_event_one. Qed.

Lemma count_event_snoc2 (e e1 e2 : Event) (l : list LogRow) (s : Sched) (t1 t2 : Task)
    (c1 c2 : option nat) (x1 x2 : option string) :
  count_event e (l ++ [log_row s e1 t1 c1 x1; log_row s e2 t2 c2 x2]) =
    (count_event e l + (if Event_eqb e1 e then 1 else 0) + if Event_eqb e2 e then 1 else 0)%nat.
Proof.
  change [log_row s e1 t1 c1 x1; log_row s e2 t2 c2 x2]
    with ([log_row s e1 t1 c1 x1] ++ [log_row s e2 t2 c2 x2]).
  rewrite !count_event_app, !count_event_one. lia.
Qed.

Lemma is_completed_None (t : Task) : completion_time t = None -> is_completed t = false.
Proof. unfold is_completed. now intros ->. Qed.

Lemma completed_count_one (t : Task) :
  completed_count [t] = if is_completed t then 1%nat else 0%nat.
Proof. unfold completed_count. cbn [List.filter]. now destruct (is_completed t). Qed.

Lemma total_work_one (t : Task) : total_work [t] = total_run t.
Proof. unfold total_work. cbn [fold_right]. lia. Qed.

Lemma preempt_ok_other (s : Sched) (e : Event) (t : Task) (c : option nat) (x : option string) :
  e <> PREEMPT -> preempt_ok (log_row s e t c x).
Proof. intros H Hp. now destruct H. Qed.

Lemma Logged_set_time (current_time : Z) (s : Sched) :
  Logged s -> Logged (set_time current_time s).
Proof. intros [H1 H2 H3 H4 H5 H6]. now constructor. Qed.

Lemma Logged_admit_row (v : Variant) (clf : Classifier) (u : string) (row : Features)
    (current_time : Z) (s : Sched) :
  Logged s -> Logged (admit_row v clf u row current_time s).
Proof.
  intros [H1 H2 H3 H4 H5 H6].
  destruct (admit_row_full v clf u row current_time s)
    as (c & _ & _ & Ho & _ & _ & Hl & _ & (_ & _ & _ & _ & Hcs & _)).
  destruct (admit_task_fresh v clf (rr_quantum s) row u) as [Hv _].
  destruct (admit_view_total_time _ _ Hv) as (_ & Hrun & Hct & _).
  revert Ho Hl Hrun Hct. generalize (admit_task v clf (rr_quantum s) (Task_init row u)).
  intros t' Ho Hl Hrun Hct.
  change (total_run (Task_init row u)) with 0 in Hrun.
  change (completion_time (Task_init row u)) with (@None Z) in Hct.
  constructor; rewrite ?Hl, ?Ho, ?Hcs, ?count_event_snoc2, ?length_app; cbn [Event_eqb length].
  - rewrite H1. f_equal. lia.
  - rewrite total_work_app, H2, total_work_one, Hrun. lia.
  - lia.
  - lia.
  - rewrite completed_count_app, H5, completed_count_one, (is_completed_None t' Hct). lia.
  - apply Forall_app. split; [exact H6|].
    repeat (apply List.Forall_cons; [apply preempt_ok_other; discriminate|]). apply List.Forall_nil.
Qed.

Lemma Logged_dispatch (v : Variant) (cid : nat) (sched : SchedClass) (s : Sched) :
  Inv s -> Logged s -> Logged (_dispatch_to_core v cid sched s).
Proof.
  intros HI [H1 H2 H3 H4 H5 H6].
  destruct (dispatch_full v cid sched s HI) as (_ & Hcase).
  destruct (head (class_queue sched (queues s))) as [r|].
  - destruct Hcase as (t & q & Ht & _ & _ & _ & _ & Ho & _ & Hl & Hcs).
    destruct (start_task_frame q (time s) t) as (_ & _ & Hrun & Hct & _).
    pose proof (completed_count_insert (objects s) r t (start_task q (time s) t) Ht) as Hcc.
    assert (Hic : is_completed (start_task q (time s) t) = is_completed t)
      by (unfold is_completed; now rewrite Hct).
    rewrite Hic in Hcc.
    constructor; rewrite ?Hl, ?Ho, ?Hcs, ?count_event_snoc, ?length_insert; cbn [Event_eqb].
    + rewrite H1. lia.
    + rewrite (total_work_insert _ _ _ _ Ht), Hrun, H2. lia.
    + lia.
    + lia.
    + rewrite H5. lia.
    + apply Forall_app. split; [exact H6|].
      repeat (apply List.Forall_cons; [apply preempt_ok_other; discriminate|]). apply List.Forall_nil.
  - destruct Hcase as (Ho & _ & Hl & Hcs). constructor; rewrite ?Hl, ?Ho, ?Hcs; assumption.
Qed.

Lemma Logged_run_one_tick (v : Variant) (cid : nat) (s : Sched) :
  Inv s -> Placed s -> Logged s -> Logged (_run_one_tick_on_core v cid s).
Proof.
  intros HI HP HL.
  destruct (cores s !! cid) as [core|] eqn:Ec;
    [|rewrite run_one_tick_idle; [exact HL | congruence]].
  destruct (core_task core) as [r|] eqn:Er;
    [|rewrite run_one_tick_idle; [exact HL | congruence]].
  destruct (objects s !! r) as [t|] eqn:Et;
    [|rewrite run_one_tick_idle; [exact HL | congruence]].
  destruct HL as [H1 H2 H3 H4 H5 H6].
  destruct (run_one_tick_full v cid s core r t Ec Er Et) as ((_ & _ & _ & Hcs & _) & Hcases).
  destruct (run_task_frame v t) as (Hsv & Hrem & Hrun & Hct & _).
  destruct (static_view_class _ _ Hsv) as (Hcls & _ & _).
  set (t2 := run_task v t) in *.
  destruct (busy_core_alone s cid core r HI Ec Er) as (Hrun1 & _).
  assert (Hoccr : (0 < occ r s)%nat) by (unfold occ; lia).
  assert (Hnone : completion_time t = None) by (apply (inv_live s HI r t Et Hoccr)).
  destruct (pl_core s HP cid core r Ec Er) as (t0 & Ht0 & Hleft & _ & Hfin).
  replace t0 with t in * by congruence. clear t0 Ht0.
  destruct (pl_assigned s HP r t Et) as (cl & Hcl & _).
  assert (Hic2 : is_completed t2 = false) by (apply is_completed_None; congruence).
  pose proof (is_completed_None t Hnone) as Hic.
  destruct Hcases as [(Hdone & Ho & _ & _ & _ & _ & Hl) |
                      [(Hpos & Hexp & Ho & _ & _ & Hclass) |
                       (Hpos & Hgo & Ho & _ & _ & _ & _ & Hl)]].
  - pose proof (completed_count_insert (objects s) r t
                  (set_completion_time (Some (time s)) t2) Et) as Hcc.
    rewrite Hic in Hcc. cbn [is_completed completion_time set_completion_time] in Hcc.
    constructor; rewrite ?Hl, ?Ho, ?Hcs, ?count_event_snoc2, ?length_insert; cbn [Event_eqb].
    + rewrite H1. f_equal. lia.
    + rewrite (total_work_insert _ _ _ _ Et). task_simpl. rewrite Hrun, H2. lia.
    + lia.
    + lia.
    + rewrite H5. lia.
    + apply Forall_app. split; [exact H6|].
      repeat (apply List.Forall_cons; [apply preempt_ok_other; discriminate|]). apply List.Forall_nil.
  - assert (Hnot : cl = RR \/ cl = CFS).
    { destruct cl; auto; exfalso;
        (assert (Hle : remaining t <= time_left core) by (apply Hfin; auto)); lia. }
    pose proof (completed_count_insert (objects s) r t t2 Et) as Hcc.
    rewrite Hic, Hic2 in Hcc.
    rewrite Hcls, Hcl in Hclass.
    assert (Hl : exists reason,
              logs (_run_one_tick_on_core v cid s) =
                logs s ++ [log_row s RUN t2 (Some cid) None;
                           log_row s PREEMPT t2 (Some cid) (Some reason)] /\
              preempt_ok (log_row s PREEMPT t2 (Some cid) (Some reason))).
    { destruct Hnot as [-> | ->]; destruct Hclass as (_ & _ & Hl); eexists; (split; [exact Hl|]);
        intros _; cbn [log_row row_assigned_scheduler row_reason]; rewrite Hcls, Hcl; auto. }
    destruct Hl as (reason & Hl & Hok).
    constructor; rewrite ?Hl, ?Ho, ?Hcs, ?count_event_snoc2, ?length_insert; cbn [Event_eqb].
    + rewrite H1. f_equal. lia.
    + rewrite (total_work_insert _ _ _ _ Et), Hrun, H2. lia.
    + lia.
    + lia.
    + rewrite H5. lia.
    + apply Forall_app. split; [exact H6|].
      apply List.Forall_cons; [apply preempt_ok_other; discriminate|].
      apply List.Forall_cons; [exact Hok | apply List.Forall_nil].
  - pose proof (completed_count_insert (objects s) r t t2 Et) as Hcc.
    rewrite Hic, Hic2 in Hcc.
    constructor; rewrite ?Hl, ?Ho, ?Hcs, ?count_event_snoc, ?length_insert; cbn [Event_eqb].
    + rewrite H1. f_equal. lia.
    + rewrite (total_work_insert _ _ _ _ Et), Hrun, H2. lia.
    + lia.
    + lia.
    + rewrite H5. lia.
    + apply Forall_app. split; [exact H6|].
      repeat (apply List.Forall_cons; [apply preempt_ok_other; discriminate|]). apply List.Forall_nil.
Qed.

(** ** The heap order *)

Lemma entry_ltb_iff (a b : HeapEntry) :
  entry_ltb a b = true <->
  (e_vr a < e_vr b)%Q \/ ((e_vr a == e_vr b)%Q /\ (e_seq a < e_seq b)%nat).
Proof.
  unfold entry_ltb. destruct (Qcompare_spec (e_vr a) (e_vr b)) as [E|E|E].
  - rewrite Nat.ltb_lt. split; [auto|]. intros [H|[_ H]]; [lra | exact H].
  - split; [auto | reflexivity].
  - split; [discriminate|]. intros [H|[H _]]; lra.
Qed.

Lemma entry_lt_trans (a b c : HeapEntry) : entry_lt a b -> entry_lt b c -> entry_lt a c.
Proof.
  unfold entry_lt. rewrite !entry_ltb_iff. intros [H1|[H1 H1']] [H2|[H2 H2']].
  - left. lra.
  - left. lra.
  - left. lra.
  - right. split; [lra | lia].
Qed.

(** Two entries with different counters are ordered one way or the other. *)
Lemma entry_lt_total (a b : HeapEntry) :
  e_seq a <> e_seq b -> entry_ltb a b = false -> entry_lt b a.
Proof.
  unfold entry_lt. intros Hne Hf. apply entry_ltb_iff.
  apply Bool.not_true_iff_false in Hf. rewrite entry_ltb_iff in Hf.
  destruct (Qlt_le_dec (e_vr b) (e_vr a)) as [H|H]; [now left|].
  right. destruct (Qlt_le_dec (e_vr a) (e_vr b)) as [H'|H']; [destruct Hf; now left|].
  assert (E : (e_vr b == e_vr a)%Q) by lra. split; [exact E|].
  destruct (Nat.lt_trichotomy (e_seq a) (e_seq b)) as [Hlt|[Heq|Hgt]]; [|congruence|exact Hgt].
  destruct Hf. right. split; [now symmetry | exact Hlt].
Qed.

Lemma heappush_sorted (heap : list HeapEntry) (x : HeapEntry) :
  Forall (fun e => (e_seq e < e_seq x)%nat) heap ->
  StronglySorted entry_lt heap -> StronglySorted entry_lt (heappush heap x).
Proof.
  intros Hseq. induction 1 as [|y heap Hs IH Hy]; cbn [heappush].
  - constructor; constructor.
  - pose proof (List.Forall_inv Hseq) as Hy_seq. pose proof (List.Forall_inv_tail Hseq) as Hseq'.
    cbn beta in Hy_seq.
    destruct (entry_ltb x y) eqn:E.
    + constructor; [now constructor|].
      constructor; [exact E|].
      eapply Forall_impl; [exact Hy|]. intros z Hz. now apply (entry_lt_trans x y z).
    + constructor; [now apply IH|]. apply heappush_Forall; [|exact Hy].
      apply entry_lt_total; [lia | exact E].
Qed.

Lemma sorted_tail (heap : list HeapEntry) :
  StronglySorted entry_lt heap -> StronglySorted entry_lt (tail heap).
Proof. intros H. destruct heap; [exact H|]. now inversion H. Qed.

Lemma HeapOrdered_push (s s' : Sched) (x : HeapEntry) :
  HeapOrdered s ->
  CFS_cfs_1 (queues s') = heappush (CFS_cfs_1 (queues s)) x ->
  e_seq x = insertion_counter s ->
  insertion_counter s' = S (insertion_counter s) ->
  HeapOrdered s'.
Proof.
  intros [Hs Hq] Hh Hx Hc. constructor; rewrite Hh.
  - apply heappush_sorted; [|exact Hs]. now rewrite Hx.
  - rewrite Hc. apply heappush_Forall; [lia|].
    eapply Forall_impl; [exact Hq|]. intros e He. cbn beta in *. lia.
Qed.

Lemma HeapOrdered_frame (s s' : Sched) :
  HeapOrdered s ->
  (CFS_cfs_1 (queues s') = CFS_cfs_1 (queues s) \/
   CFS_cfs_1 (queues s') = tail (CFS_cfs_1 (queues s))) ->
  insertion_counter s' = insertion_counter s ->
  HeapOrdered s'.
Proof.
  intros [Hs Hq] [Hh|Hh] Hc; constructor; rewrite Hh, ?Hc; try assumption.
  - now apply sorted_tail.
  - destruct (CFS_cfs_1 (queues s)); [exact Hq|]. now inversion Hq.
Qed.

Lemma CFS_push_class (c : SchedClass) (r : ref) (vr : Q) (p : option Z) (n : nat) (q : Queues) :
  CFS_cfs_1 (push_class c r vr p n q) =
    match c with
    | CFS => heappush (CFS_cfs_1 q) {| e_vr := vr; e_seq := n; e_pid := p; e_task := r |}
    | _ => CFS_cfs_1 q
    end.
Proof. now destruct c. Qed.

Lemma CFS_pop_class (c : SchedClass) (q : Queues) :
  CFS_cfs_1 (pop_class c q) = match c with CFS => tail (CFS_cfs_1 q) | _ => CFS_cfs_1 q end.
Proof. now destruct c. Qed.

Lemma HeapOrdered_set_time (current_time : Z) (s : Sched) :
  HeapOrdered s -> HeapOrdered (set_time current_time s).
Proof. intros [H1 H2]. now constructor. Qed.

Lemma HeapOrdered_admit_row (v : Variant) (clf : Classifier) (u : string) (row : Features)
    (current_time : Z) (s : Sched) :
  HeapOrdered s -> HeapOrdered (admit_row v clf u row current_time s).
Proof.
  intros HH.
  destruct (admit_row_full v clf u row current_time s)
    as (c & _ & _ & _ & Hq & Hic & _).
  pose proof (f_equal CFS_cfs_1 Hq) as Hh. rewrite CFS_push_class in Hh.
  destruct c; try (apply (HeapOrdered_frame s _ HH); [now left | exact Hic]).
  now apply (HeapOrdered_push s _ _ HH Hh).
Qed.

Lemma HeapOrdered_dispatch (v : Variant) (cid : nat) (sched : SchedClass) (s : Sched) :
  Inv s -> HeapOrdered s -> HeapOrdered (_dispatch_to_core v cid sched s).
Proof.
  intros HI HH.
  destruct (dispatch_full v cid sched s HI) as ((Hq & _ & _ & _ & _ & Hic & _) & _).
  pose proof (f_equal CFS_cfs_1 Hq) as Hh. rewrite CFS_pop_class in Hh.
  apply (HeapOrdered_frame s _ HH); [|exact Hic]. destruct sched; auto.
Qed.

Lemma HeapOrdered_run_one_tick (v : Variant) (cid : nat) (s : Sched) :
  HeapOrdered s -> HeapOrdered (_run_one_tick_on_core v cid s).
Proof.
  intros HH.
  destruct (cores s !! cid) as [core|] eqn:Ec;
    [|rewrite run_one_tick_idle; [exact HH | congruence]].
  destruct (core_task core) as [r|] eqn:Er;
    [|rewrite run_one_tick_idle; [exact HH | congruence]].
  destruct (objects s !! r) as [t|] eqn:Et;
    [|rewrite run_one_tick_idle; [exact HH | congruence]].
  destruct (run_one_tick_full v cid s core r t Ec Er Et) as (_ & Hcases).
  destruct Hcases as [(_ & _ & Hq & _ & Hic & _) |
                      [(_ & _ & _ & _ & _ & Hclass) | (_ & _ & _ & _ & _ & Hq & Hic & _)]].
  - apply (HeapOrdered_frame s _ HH); [left; now rewrite Hq | exact Hic].
  - destruct (assigned_scheduler (run_task v t)) as [[]|]; destruct Hclass as (Hq & Hic & _);
      try (apply (HeapOrdered_frame s _ HH); [left; now rewrite Hq | exact Hic]).
    apply (HeapOrdered_push s _ _ HH (f_equal CFS_cfs_1 Hq)); [reflexivity | exact Hic].
  - apply (HeapOrdered_frame s _ HH); [left; now rewrite Hq | exact Hic].
Qed.

(** ** All invariants in every reachable state *)

Lemma init_Placed (n : nat) (order : option (list (nat * list SchedClass))) (rrq : Z)
    (slice : Q) (seed_ : Z) :
  Placed (Sched_init n order rrq slice seed_).
Proof.
  constructor; cbn [Sched_init objects queues cores].
  - intros c r H. destruct c; destruct H.
  - intros cid c r Hc Hr. apply list_lookup_fmap_Some in Hc. destruct Hc as (k & -> & _).
    discriminate.
  - intros r t H. rewrite lookup_nil in H. discriminate.
  - intros r t H. rewrite lookup_nil in H. discriminate.
  - intros r t H. rewrite lookup_nil in H. discriminate.
  - intros r t c H. rewrite lookup_nil in H. discriminate.
Qed.

Lemma init_Registered (n : nat) (order : option (list (nat * list SchedClass))) (rrq : Z)
    (slice : Q) (seed_ : Z) :
  Registered (Sched_init n order rrq slice seed_).
Proof.
  constructor; cbn [Sched_init objects task_map completed_tasks map].
  - intros r t H. rewrite lookup_nil in H. discriminate.
  - intros r t c H. rewrite lookup_nil in H. discriminate.
  - intros p r H. discriminate.
  - constructor.
  - constructor.
Qed.

Lemma init_Logged (n : nat) (order : option (list (nat * list SchedClass))) (rrq : Z)
    (slice : Q) (seed_ : Z) :
  Logged (Sched_init n order rrq slice seed_).
Proof. constructor; try reflexivity. constructor. Qed.

Lemma init_HeapOrdered (n : nat) (order : option (list (nat * list SchedClass))) (rrq : Z)
    (slice : Q) (seed_ : Z) :
  HeapOrdered (Sched_init n order rrq slice seed_).
Proof. constructor; constructor. Qed.

Lemma reachable_sound (v : Variant) (clf : Classifier) (uids : nat -> string)
    (n : nat) (order : option (list (nat * list SchedClass))) (rrq : Z) (slice : Q)
    (seed_ : Z) (s : Sched) :
  reachable v clf uids (Sched_init n order rrq slice seed_) s ->
  Inv s /\ Placed s /\ Registered s /\ Logged s /\ HeapOrdered s.
Proof.
  induction 1 as [|s row ct _ IH|s ct _ IH|s cid sched c0 _ IH Hc Hi|s cid _ IH].
  - split; [apply init_Inv|]. split; [apply init_Placed|]. split; [apply init_Registered|].
    split; [apply init_Logged | apply init_HeapOrdered].
  - destruct IH as (HI & HP & HR & HL & HH).
    split; [now apply admit_row_Inv|]. split; [now apply Placed_admit_row|].
    split; [now apply Registered_admit_row|].
    split; [now apply Logged_admit_row | now apply HeapOrdered_admit_row].
  - destruct IH as (HI & HP & HR & HL & HH).
    split; [now apply set_time_Inv|]. split; [now apply Placed_set_time|].
    split; [now apply Registered_set_time|].
    split; [now apply Logged_set_time | now apply HeapOrdered_set_time].
  - destruct IH as (HI & HP & HR & HL & HH).
    split; [now apply (dispatch_Inv v cid sched s c0)|].
    split; [now apply (Placed_dispatch v cid sched s c0)|].
    split; [now apply Registered_dispatch|].
    split; [now apply Logged_dispatch | now apply HeapOrdered_dispatch].
  - destruct IH as (HI & HP & HR & HL & HH).
    split; [now apply run_one_tick_Inv|]. split; [now apply Placed_run_one_tick|].
    split; [now apply Registered_run_one_tick|].
    split; [now apply Logged_run_one_tick | now apply HeapOrdered_run_one_tick].
Qed.

Lemma reachable_driver_iter (v : Variant) (clf : Classifier) (uids : nat -> string)
    (s0 : Sched) (rows : list Features) (j : nat) :
  forall (n : Z) (s : Sched),
    reachable v clf uids s0 s -> reachable v clf uids s0 (driver_iter j v clf uids rows n s).
Proof.
  induction j as [|j IH]; intros n s H; cbn [driver_iter]; [exact H|].
  apply IH. unfold driver_step. now apply reachable_script.
Qed.

Lemma reachable_simulate (v : Variant) (clf : Classifier) (uids : nat -> string)
    (s0 : Sched) (rows : list Features) (max_ticks : Z) (s : Sched) :
  simulate v clf uids s0 rows max_ticks = Some s -> reachable v clf uids s0 s.
Proof.
  unfold simulate. destruct (last_arrival_of rows) as [la|]; [|discriminate].
  destruct (driver_loop_iter v clf uids rows la max_ticks (S (Z.to_nat max_ticks)) 0 s0)
    as [j Hj].
  rewrite Hj. intros [= <-]. apply reachable_driver_iter. constructor.
Qed.

(** ** No task is lost *)

(** X7: In every state reachable by admit and tick, a task that has not completed
    is in exactly one place (one queue or one core), and a completed task is in
    none, has remaining 0 and has run at least one tick: no task is lost or
    duplicated. *)
Theorem every_task_placed_or_completed (v : Variant) (clf : Classifier)
    (uids : nat -> string) (n : nat) (order : option (list (nat * list SchedClass)))
    (rrq : Z) (slice : Q) (seed_ : Z) (s : Sched) (r : ref) (t : Task) :
  reachable v clf uids (Sched_init n order rrq slice seed_) s ->
  objects s !! r = Some t ->
  match completion_time t with
  | None => occ r s = 1%nat
  | Some _ => occ r s = 0%nat /\ remaining t = 0 /\ 1 <= total_run t
  end.
Proof.
  intros Hreach Ht.
  destruct (reachable_sound _ _ _ _ _ _ _ _ _ Hreach) as (HI & HP & _).
  destruct (completion_time t) as [c|] eqn:Ec.
  - destruct (pl_done s HP r t c Ht Ec) as (Hrem & Hrun & _).
    split; [|now split].
    destruct (occ r s) eqn:Eo; [reflexivity|].
    assert (Hpos : (0 < occ r s)%nat) by lia.
    rewrite (inv_live s HI r t Ht Hpos) in Ec. discriminate.
  - pose proof (pl_live s HP r t Ht Ec). pose proof (inv_nodup s HI r). lia.
Qed.

(** ** Preemption *)

(** X8: Every PREEMPT row of a reachable log belongs to an RR task with reason
    quantum_expired or to a CFS task with reason cfs_quantum_expired: no FIFO task
    is ever preempted, the fifo_preempt branch of _run_one_tick_on_core is dead. *)
Theorem only_rr_and_cfs_are_preempted (v : Variant) (clf : Classifier)
    (uids : nat -> string) (n : nat) (order : option (list (nat * list SchedClass)))
    (rrq : Z) (slice : Q) (seed_ : Z) (s : Sched) (row : LogRow) :
  reachable v clf uids (Sched_init n order rrq slice seed_) s ->
  In row (logs s) -> row_event row = PREEMPT ->
  (row_assigned_scheduler row = Some RR /\ row_reason row = Some "quantum_expired"%string) \/
  (row_assigned_scheduler row = Some CFS /\ row_reason row = Some "cfs_quantum_expired"%string).
Proof.
  intros Hreach Hin He.
  destruct (reachable_sound _ _ _ _ _ _ _ _ _ Hreach) as (_ & _ & _ & HL & _).
  pose proof (lg_preempt s HL) as Hp. rewrite List.Forall_forall in Hp.
  now apply (Hp row Hin).
Qed.

(** ** Counters and log *)

(** X9: In every reachable state the counters agree with the event log:
    context_switches is the number of DISPATCH rows, the sum of total_run over all
    tasks is the number of RUN rows, every admitted task has one ADMIT and one
    ENQUEUE row, and the number of COMPLETE rows is the number of completed tasks. *)
Theorem counters_match_log (v : Variant) (clf : Classifier)
    (uids : nat -> string) (n : nat) (order : option (list (nat * list SchedClass)))
    (rrq : Z) (slice : Q) (seed_ : Z) (s : Sched) :
  reachable v clf uids (Sched_init n order rrq slice seed_) s ->
  context_switches s = Z.of_nat (count_event DISPATCH (logs s)) /\
  total_work (objects s) = Z.of_nat (count_event RUN (logs s)) /\
  count_event ADMIT (logs s) = length (objects s) /\
  count_event ENQUEUE (logs s) = length (objects s) /\
  count_event COMPLETE (logs s) = completed_count (objects s).
Proof.
  intros Hreach.
  destruct (reachable_sound _ _ _ _ _ _ _ _ _ Hreach) as (_ & _ & _ & [H1 H2 H3 H4 H5 _] & _).
  auto.
Qed.

(** ** [all_queues_empty] *)

Lemma running_nil_iff (cs : list Core) :
  forallb (fun c => match core_task c with None => true | Some _ => false end) cs = true <->
  running cs = [].
Proof.
  induction cs as [|c cs IH]; cbn [forallb running omap list_omap]; [tauto|].
  destruct (core_task c); cbn [andb].
  - split; discriminate.
  - exact IH.
Qed.

Lemma all_queues_empty_occ (s : Sched) :
  all_queues_empty s = true <-> forall r, occ r s = 0%nat.
Proof.
  unfold all_queues_empty, occ. split.
  - destruct (FIFO_fifo_1 (queues s)), (RR_rr_1 (queues s)), (CFS_cfs_1 (queues s)),
      (IDLE_idle (queues s)); try discriminate.
    intros H r. apply running_nil_iff in H. rewrite H. reflexivity.
  - intros H.
    assert (Hnil : forall l : list ref, (forall r, cnt r l = 0%nat) -> l = []).
    { intros [|x l] Hl; [reflexivity|]. specialize (Hl x). rewrite cnt_cons in Hl.
      destruct (Nat.eq_dec x x); [lia | congruence]. }
    assert (H1 : FIFO_fifo_1 (queues s) = []) by (apply Hnil; intros r; specialize (H r); lia).
    assert (H2 : RR_rr_1 (queues s) = []) by (apply Hnil; intros r; specialize (H r); lia).
    assert (H3 : heap_refs (CFS_cfs_1 (queues s)) = [])
      by (apply Hnil; intros r; specialize (H r); lia).
    assert (H4 : IDLE_idle (queues s) = []) by (apply Hnil; intros r; specialize (H r); lia).
    assert (H5 : running (cores s) = []) by (apply Hnil; intros r; specialize (H r); lia).
    rewrite H1, H2, H4. destruct (CFS_cfs_1 (queues s)); [|discriminate].
    now apply running_nil_iff.
Qed.

(** X10: In every reachable state all_queues_empty() is true exactly when every
    admitted task has completed. *)
Theorem all_queues_empty_iff_all_completed (v : Variant) (clf : Classifier)
    (uids : nat -> string) (n : nat) (order : option (list (nat * list SchedClass)))
    (rrq : Z) (slice : Q) (seed_ : Z) (s : Sched) :
  reachable v clf uids (Sched_init n order rrq slice seed_) s ->
  (all_queues_empty s = true <->
   forall r t, objects s !! r = Some t -> exists c, completion_time t = Some c).
Proof.
  intros Hreach.
  destruct (reachable_sound _ _ _ _ _ _ _ _ _ Hreach) as (HI & HP & _).
  rewrite all_queues_empty_occ. split.
  - intros Hocc r t Ht. destruct (completion_time t) as [c|] eqn:Ec; [now exists c|].
    pose proof (pl_live s HP r t Ht Ec) as Hpos. rewrite Hocc in Hpos. lia.
  - intros Hall r. destruct (occ r s) eqn:Eo; [reflexivity|].
    assert (Hpos : (0 < occ r s)%nat) by lia.
    pose proof (inv_bound s HI r Hpos) as Hlt.
    destruct (lookup_lt_is_Some_2 _ _ Hlt) as [t Ht].
    destruct (Hall r t Ht) as [c Hc].
    rewrite (inv_live s HI r t Ht Hpos) in Hc. discriminate.
Qed.

(** ** Exported metrics *)

(** X14: Every row of export_task_metrics in a reachable state describes a
    completed task that was started and ran at least one tick: waiting = response
    = first_start - arrival, turnaround = completion - arrival, execution_time =
    total_run >= 1, so stretch = turnaround / execution_time is always defined,
    and scheduler and subqueue are those of the task's class. *)
Theorem export_task_metrics_rows (v : Variant) (clf : Classifier)
    (uids : nat -> string) (n : nat) (order : option (list (nat * list SchedClass)))
    (rrq : Z) (slice : Q) (seed_ : Z) (s : Sched) (m : MetricRow) :
  reachable v clf uids (Sched_init n order rrq slice seed_) s ->
  In m (export_task_metrics s) ->
  exists r t c f cl,
    objects s !! r = Some t /\ m_pid m = pid t /\ m_name m = name t /\
    completion_time t = Some c /\ first_start t = Some f /\
    assigned_scheduler t = Some cl /\
    m_arrival m = arrival_time t /\ m_first_start m = Some f /\ m_completion m = Some c /\
    m_execution_time m = total_run t /\ 1 <= total_run t /\
    m_waiting m = Some (f - arrival_time t) /\ m_response m = Some (f - arrival_time t) /\
    m_turnaround m = Some (c - arrival_time t) /\
    m_stretch m = Some (inject_Z (c - arrival_time t) / inject_Z (total_run t))%Q /\
    m_scheduler m = Some cl /\ m_subqueue m = Some (subqueue_of cl).
Proof.
  intros Hreach Hm.
  destruct (reachable_sound _ _ _ _ _ _ _ _ _ Hreach) as (HI & HP & HR & _).
  destruct (export_rows s m Hm) as (p & r & t & Hd & Ht & ->).
  destruct (inv_done s HI p r Hd) as (t0 & c & Ht0 & Hc & _).
  replace t0 with t in * by congruence. clear t0 Ht0.
  destruct (reg_done_pid s HR p r Hd) as (t0 & Ht0 & Hpid).
  replace t0 with t in * by congruence. clear t0 Ht0.
  destruct (pl_done s HP r t c Ht Hc) as (_ & Hrun & [f Hf]).
  destruct (pl_assigned s HP r t Ht) as (cl & Hcl & Hsub).
  exists r, t, c, f, cl. unfold metric_row.
  cbn [m_pid m_name m_arrival m_first_start m_completion m_execution_time m_waiting
       m_turnaround m_response m_stretch m_scheduler m_subqueue].
  rewrite Hc, Hf. assert (Hpos : (0 <? total_run t) = true) by (apply Z.ltb_lt; lia).
  rewrite Hpos. repeat split; auto.
Qed.

Lemma export_pids (s : Sched) :
  map m_pid (export_task_metrics s) =
    List.filter (fun p => match dict_get p (completed_tasks s) with
                          | Some r => match objects s !! r with Some _ => true | None => false end
                          | None => false
                          end) (map fst (task_map s)).
Proof.
  unfold export_task_metrics. induction (task_map s) as [|[p r0] d IH];
    cbn [flat_map map fst List.filter]; [reflexivity|].
  rewrite map_app, IH.
  destruct (dict_get p (completed_tasks s)) as [r|]; [|reflexivity].
  destruct (objects s !! r); reflexivity.
Qed.

(** X15: export_task_metrics yields one row per pid: the exported pids are
    pairwise distinct, a pid is exported exactly when some completed task has it,
    and there are at most as many rows as registered pids. *)
Theorem export_one_row_per_completed_pid (v : Variant) (clf : Classifier)
    (uids : nat -> string) (n : nat) (order : option (list (nat * list SchedClass)))
    (rrq : Z) (slice : Q) (seed_ : Z) (s : Sched) :
  reachable v clf uids (Sched_init n order rrq slice seed_) s ->
  NoDup (map m_pid (export_task_metrics s)) /\
  (forall p, In p (map m_pid (export_task_metrics s)) <->
             exists r t c, objects s !! r = Some t /\ pid t = p /\ completion_time t = Some c) /\
  (length (export_task_metrics s) <= length (task_map s))%nat.
Proof.
  intros Hreach.
  destruct (reachable_sound _ _ _ _ _ _ _ _ _ Hreach) as (HI & HP & HR & _).
  split; [|split].
  - rewrite export_pids. apply NoDup_ListNoDup. apply List.NoDup_filter.
    apply NoDup_ListNoDup. exact (reg_map_keys s HR).
  - intros p. split.
    + rewrite in_map_iff. intros (m & <- & Hm).
      destruct (export_rows s m Hm) as (p & r & t & Hd & Ht & ->).
      destruct (inv_done s HI p r Hd) as (t0 & c & Ht0 & Hc & _).
      destruct (reg_done_pid s HR p r Hd) as (t1 & Ht1 & Hpid).
      exists r, t, c. replace t0 with t in * by congruence.
      replace t1 with t in * by congruence. auto.
    + intros (r & t & c & Ht & <- & Hc). rewrite export_pids. apply List.filter_In. split.
      * destruct (reg_map s HR r t Ht) as [r' Hr']. eapply dict_get_Some_In. exact Hr'.
      * destruct (reg_done s HR r t c Ht Hc) as [r' Hr']. rewrite Hr'.
        destruct (reg_done_pid s HR (pid t) r' Hr') as (t' & Ht' & _). now rewrite Ht'.
  - rewrite <- (length_map m_pid), export_pids, <- (length_map fst (task_map s)).
    apply List.filter_length_le.
Qed.

(** ** CFS order *)

(** X11: While the vruntimes of the CFS tasks are finite numbers: in a reachable
    state, when a dequeue from CFS returns a task, that task is the one at the
    root of the heap and just its entry is removed; its vruntime is the least
    among the waiting CFS tasks, ties going to the entry inserted first. *)
Theorem cfs_dequeue_returns_least_vruntime (v : Variant) (clf : Classifier)
    (uids : nat -> string) (n : nat) (order : option (list (nat * list SchedClass)))
    (rrq : Z) (slice : Q) (seed_ : Z) (s : Sched) (r : ref) :
  reachable v clf uids (Sched_init n order rrq slice seed_) s ->
  fst (_dequeue_task CFS s) = Some r ->
  exists e h t,
    CFS_cfs_1 (queues s) = e :: h /\ e_task e = r /\
    CFS_cfs_1 (queues (snd (_dequeue_task CFS s))) = h /\
    objects s !! r = Some t /\
    Forall (fun e' => exists t', objects s !! e_task e' = Some t' /\
              ((vruntime t < vruntime t')%Q \/
               ((vruntime t == vruntime t')%Q /\ (e_seq e < e_seq e')%nat))) h.
Proof.
  intros Hreach Hret.
  destruct (reachable_sound _ _ _ _ _ _ _ _ _ Hreach) as (HI & _ & _ & _ & HH).
  destruct (dequeue_full CFS s HI) as (s1 & Hd & Hq & _).
  rewrite Hd in Hret |- *. cbn [fst snd class_queue] in Hret |- *. rewrite Hq.
  cbn [pop_class].
  pose proof (inv_heap s HI) as Hfresh. pose proof (ho_sorted s HH) as Hsorted.
  cbn [class_queue] in Hret.
  destruct (CFS_cfs_1 (queues s)) as [|e h]; [discriminate|].
  cbn [map head] in Hret. injection Hret as Hr.
  inversion Hfresh as [|? ? (t & Ht & Hvr) Hfresh']; subst.
  exists e, h, t. split; [reflexivity|]. split; [reflexivity|]. split; [reflexivity|].
  split; [exact Ht|].
  inversion Hsorted as [|? ? _ Hlt]; subst.
  rewrite List.Forall_forall in Hfresh', Hlt. apply List.Forall_forall. intros e' Hin.
  destruct (Hfresh' e' Hin) as (t' & Ht' & Hvr'). exists t'. split; [exact Ht'|].
  specialize (Hlt e' Hin). unfold entry_lt in Hlt. apply entry_ltb_iff in Hlt.
  now rewrite Hvr, Hvr'.
Qed.

(** ** Pick and dispatch *)

Lemma queue_is_empty_class (c : SchedClass) (q : Queues) :
  queue_is_empty c q = false -> exists r, head (class_queue c q) = Some r.
Proof.
  destruct c; cbn [queue_is_empty class_queue].
  - destruct (FIFO_fifo_1 q); [discriminate | eauto].
  - destruct (RR_rr_1 q); [discriminate | eauto].
  - destruct (CFS_cfs_1 q); [discriminate | cbn; eauto].
  - destruct (IDLE_idle q); [discriminate | eauto].
Qed.

(** X12: While the vruntimes of the CFS tasks are finite numbers: in a reachable
    state with an idle core, when _pick_task_for_core chooses a class and the
    dequeue from that class returns a task, _dispatch_to_core places that task: it
    is the head of that class's queue and of that class, and it goes onto the core
    with a quantum >= 1 (its whole remaining work for FIFO and IDLE; max(1,
    rr_quantum) for baseline RR, 100..200 for AI RR), context_switches grows by
    one and one DISPATCH row is logged. *)
Theorem pick_then_dispatch_runs (v : Variant) (clf : Classifier)
    (uids : nat -> string) (n : nat) (order : option (list (nat * list SchedClass)))
    (rrq : Z) (slice : Q) (seed_ : Z) (s : Sched) (cid : nat) (c0 : Core)
    (sched : SchedClass) (subq : SubQueue) (r : ref) :
  reachable v clf uids (Sched_init n order rrq slice seed_) s ->
  cores s !! cid = Some c0 -> core_task c0 = None ->
  _pick_task_for_core cid s = Some (sched, subq) ->
  fst (_dequeue_task sched s) = Some r ->
  let s' := _dispatch_to_core v cid sched s in
  exists t q,
    head (class_queue sched (queues s)) = Some r /\ objects s !! r = Some t /\
    assigned_scheduler t = Some sched /\ subqueue t = Some subq /\
    1 <= q /\ (sched = FIFO \/ sched = IDLE -> q = Z.max 1 (remaining t)) /\
    (sched = RR -> match v with
                   | Baseline => q = Z.max 1 (rr_quantum s)
                   | AI => 100 <= q <= 200
                   end) /\
    objects s' !! r = Some (start_task q (time s) t) /\
    cores s' !! cid = Some {| core_task := Some r; time_left := q |} /\
    queues s' = pop_class sched (queues s) /\
    context_switches s' = context_switches s + 1 /\
    logs s' = logs s ++ [log_row s DISPATCH (start_task q (time s) t) (Some cid) None].
Proof.
  intros Hreach Hc0 Hidle Hpick Hret s'.
  destruct (reachable_sound _ _ _ _ _ _ _ _ _ Hreach) as (HI & HP & _).
  pose proof (pick_in_order_spec (order_get cid (core_priority_order s)) (queues s)) as Hspec.
  unfold _pick_task_for_core in Hpick. rewrite Hpick in Hspec.
  destruct Hspec as (-> & Hne & _).
  destruct (dequeue_full sched s HI) as (s1 & Hd & _).
  rewrite Hd in Hret. cbn [fst] in Hret. rename Hret into Hr.
  destruct (dispatch_full v cid sched s HI) as ((Hq & _) & Hcase). fold s' in Hq, Hcase.
  rewrite Hr in Hcase. destruct Hcase as (t & q & Ht & Hq1 & Hfin & Hb & Ha & Ho & Hcs & Hl & Hsw).
  assert (Hin : In r (class_queue sched (queues s))).
  { destruct (class_queue sched (queues s)); [discriminate|]. injection Hr as ->. now left. }
  destruct (pl_class s HP sched r Hin) as (t0 & Ht0 & Hcls).
  replace t0 with t in * by congruence. clear t0 Ht0.
  destruct (pl_assigned s HP r t Ht) as (cl & Hcl & Hsub).
  assert (cl = sched) by congruence. subst cl.
  exists t, q. repeat split; try assumption.
  - intros Hrr. destruct v; [now apply Hb | now apply Ha].
  - rewrite Ho. apply list_lookup_insert_eq. eapply lookup_lt_Some; exact Ht.
  - rewrite Hcs. apply list_lookup_insert_eq. eapply lookup_lt_Some; exact Hc0.
Qed.

Lemma tick_row_log (s : Sched) (e : Event) (t : Task) (cid : nat) (x : option string) :
  e = DISPATCH \/ e = RUN \/ e = PREEMPT \/ e = COMPLETE ->
  tick_row (time s) cid (log_row s e t (Some cid) x).
Proof. intros H. now repeat split. Qed.

Lemma run_one_tick_log (v : Variant) (cid : nat) (s : Sched) :
  Inv s ->
  let s' := _run_one_tick_on_core v cid s in
  time s' = time s /\
  exists new, logs s' = logs s ++ new /\ Forall (tick_row (time s) cid) new /\
              count_event DISPATCH new = 0%nat /\
              count_event RUN new =
                match cores s !! cid with
                | Some c => match core_task c with Some _ => 1%nat | None => 0%nat end
                | None => 0%nat
                end.
Proof.
  intros HI s'. unfold s'.
  destruct (cores s !! cid) as [core|] eqn:Ec.
  2:{ rewrite run_one_tick_idle by congruence. split; [reflexivity|]. exists [].
      rewrite app_nil_r. repeat split; auto; try constructor. }
  destruct (core_task core) as [r|] eqn:Er.
  2:{ rewrite run_one_tick_idle by congruence. split; [reflexivity|]. exists [].
      rewrite app_nil_r. repeat split; auto; try constructor. }
  assert (Hlt : (r < length (objects s))%nat).
  { apply (inv_bound s HI). destruct (busy_core_alone s cid core r HI Ec Er) as (H1 & _).
    unfold occ. lia. }
  destruct (lookup_lt_is_Some_2 _ _ Hlt) as [t Et].
  destruct (run_one_tick_full v cid s core r t Ec Er Et) as ((Hti & _) & Hcases).
  split; [exact Hti|].
  destruct Hcases as [(_ & _ & _ & _ & _ & _ & Hl) |
                      [(_ & _ & _ & _ & _ & Hclass) | (_ & _ & _ & _ & _ & _ & _ & Hl)]].
  - eexists. split; [exact Hl|]. split; [|split].
    + repeat (apply List.Forall_cons; [apply tick_row_log; auto|]). apply List.Forall_nil.
    + rewrite <- (app_nil_l [_; _]), count_event_snoc2. reflexivity.
    + rewrite <- (app_nil_l [_; _]), count_event_snoc2. reflexivity.
  - destruct (assigned_scheduler (run_task v t)) as [[]|]; destruct Hclass as (_ & _ & Hl);
      (eexists; split; [exact Hl|]; split; [|split]);
      try (repeat (apply List.Forall_cons; [apply tick_row_log; auto|]); apply List.Forall_nil);
      try (rewrite <- (app_nil_l [_; _]), count_event_snoc2; reflexivity);
      try (rewrite <- (app_nil_l [_]), count_event_snoc; reflexivity).
  - eexists. split; [exact Hl|]. split; [|split].
    + repeat (apply List.Forall_cons; [apply tick_row_log; auto|]). apply List.Forall_nil.
    + rewrite <- (app_nil_l [_]), count_event_snoc. reflexivity.
    + rewrite <- (app_nil_l [_]), count_event_snoc. reflexivity.
Qed.

Lemma core_runs_app (cid : nat) (l k : list LogRow) :
  core_runs cid (l ++ k) = (core_runs cid l + core_runs cid k)%nat.
Proof. unfold core_runs. now rewrite List.filter_app, length_app. Qed.

Lemma core_runs_tick_rows (now : Z) (cid cid' : nat) (l : list LogRow) :
  Forall (tick_row now cid') l ->
  core_runs cid l = if Nat.eq_dec cid cid' then count_event RUN l else 0%nat.
Proof.
  unfold core_runs, count_event. induction 1 as [|row l (Ht & Hc & He) Hl IH]; cbn [List.filter].
  - now destruct (Nat.eq_dec cid cid').
  - rewrite Hc. destruct (Nat.eq_dec cid cid') as [->|Hne].
    + rewrite bool_decide_eq_true_2 by reflexivity. rewrite andb_true_r.
      destruct (Event_eqb (row_event row) RUN); cbn [length]; now rewrite IH.
    + rewrite bool_decide_eq_false_2 by congruence. rewrite andb_false_r. exact IH.
Qed.

(** The loop body of [tick] for core [cid]: at most a [DISPATCH] row, then at
    most a [RUN] row with its [COMPLETE] or [PREEMPT], all stamped with the
    clock and the core. *)
Lemma tick_core_log (v : Variant) (s : Sched) (cid : nat) :
  Inv s ->
  let s' := tick_core v s cid in
  time s' = time s /\
  exists new, logs s' = logs s ++ new /\ Forall (tick_row (time s) cid) new /\
              (count_event RUN new <= 1)%nat.
Proof.
  intros HI s'. unfold s', tick_core.
  set (s1 := match core_task <$> cores s !! cid with
             | Some None => _
             | _ => s
             end).
  assert (H1 : Inv s1 /\ time s1 = time s /\
               exists new, logs s1 = logs s ++ new /\ Forall (tick_row (time s) cid) new /\
                           count_event RUN new = 0%nat).
  { assert (Hsame : Inv s /\ time s = time s /\
               exists new, logs s = logs s ++ new /\ Forall (tick_row (time s) cid) new /\
                           count_event RUN new = 0%nat).
    { split; [exact HI|]. split; [reflexivity|]. exists []. rewrite app_nil_r.
      repeat split. constructor. }
    unfold s1. destruct (cores s !! cid) as [c0|] eqn:Ec; cbn [fmap option_fmap option_map];
      [|exact Hsame].
    destruct (core_task c0) eqn:Et; [exact Hsame|].
    destruct (_pick_task_for_core cid s) as [[sched subq]|]; [|exact Hsame].
    destruct (dispatch_Inv v cid sched s c0 HI Ec Et) as [HI1 _].
    split; [exact HI1|].
    destruct (dispatch_full v cid sched s HI) as ((_ & Hti & _) & Hcase).
    split; [exact Hti|].
    destruct (head (class_queue sched (queues s))) as [r|].
    - destruct Hcase as (t & q & _ & _ & _ & _ & _ & _ & _ & Hl & _).
      eexists. split; [exact Hl|]. split.
      + apply List.Forall_cons; [apply tick_row_log; auto | apply List.Forall_nil].
      + rewrite <- (app_nil_l [_]), count_event_snoc. reflexivity.
    - destruct Hcase as (_ & _ & Hl & _). exists []. rewrite app_nil_r.
      repeat split; [exact Hl | constructor]. }
  destruct H1 as (HI1 & Hti1 & new1 & Hl1 & Hf1 & Hc1). clearbody s1.
  destruct (run_one_tick_log v cid s1 HI1) as (Hti2 & new2 & Hl2 & Hf2 & _ & Hc2).
  split; [congruence|].
  exists (new1 ++ new2). rewrite Hl2, Hl1, app_assoc. split; [reflexivity|]. split.
  - apply Forall_app. split; [exact Hf1|]. now rewrite <- Hti1.
  - rewrite count_event_app, Hc1, Hc2.
    destruct (cores s1 !! cid) as [c|]; [destruct (core_task c)|]; lia.
Qed.

(** [tick]: the clock is set, and every core appends its rows in turn. *)
Lemma tick_log (v : Variant) (current_time : Z) (s : Sched) :
  Inv s ->
  let s' := tick v current_time s in
  Inv s' /\ time s' = current_time /\ num_cores s' = num_cores s /\
  exists new, logs s' = logs s ++ new /\
    Forall (fun row => exists cid, (cid < num_cores s)%nat /\ tick_row current_time cid row) new /\
    forall cid, (core_runs cid new <= 1)%nat.
Proof.
  intros HI s'. unfold s', tick.
  assert (Hgen : forall (l : list nat) (s1 : Sched),
            Inv s1 -> NoDup l ->
            let s2 := fold_left (tick_core v) l s1 in
            Inv s2 /\ time s2 = time s1 /\ num_cores s2 = num_cores s1 /\
            exists new, logs s2 = logs s1 ++ new /\
              Forall (fun row => exists cid, In cid l /\ tick_row (time s1) cid row) new /\
              forall cid, (core_runs cid new <= if in_dec Nat.eq_dec cid l then 1 else 0)%nat).
  { induction l as [|c l IH]; intros s1 HI1 Hnd; cbn [fold_left].
    - split; [exact HI1|]. split; [reflexivity|]. split; [reflexivity|].
      exists []. rewrite app_nil_r. split; [reflexivity|]. split; [constructor|].
      intros cid. cbn. destruct (in_dec Nat.eq_dec cid []); lia.
    - apply NoDup_cons in Hnd. destruct Hnd as [Hc Hnd].
      destruct (tick_core_Inv v s1 c HI1) as [HI2 (_ & Hnc2 & _)].
      destruct (tick_core_log v s1 c HI1) as (Hti2 & new1 & Hl1 & Hf1 & Hc1).
      destruct (IH (tick_core v s1 c) HI2 Hnd) as (HI3 & Hti3 & Hnc3 & new2 & Hl2 & Hf2 & Hc2).
      split; [exact HI3|]. split; [congruence|]. split; [congruence|].
      exists (new1 ++ new2). rewrite Hl2, Hl1, app_assoc. split; [reflexivity|]. split.
      + apply Forall_app. split.
        * eapply Forall_impl; [exact Hf1|]. intros row Hrow. exists c. split; [now left|exact Hrow].
        * eapply Forall_impl; [exact Hf2|]. intros row (cid & Hin & Hrow). exists cid.
          split; [now right|]. now rewrite <- Hti2.
      + intros cid. rewrite core_runs_app, (core_runs_tick_rows _ cid c new1 Hf1).
        specialize (Hc2 cid).
        destruct (in_dec Nat.eq_dec cid (c :: l)) as [Hin|Hnin].
        * destruct (Nat.eq_dec cid c) as [->|Hne].
          -- destruct (in_dec Nat.eq_dec c l) as [Hin'|_]; [|lia].
             destruct Hc. now apply list_elem_of_In.
          -- destruct (in_dec Nat.eq_dec cid l); lia.
        * destruct (Nat.eq_dec cid c) as [->|Hne]; [destruct Hnin; now left|].
          destruct (in_dec Nat.eq_dec cid l) as [Hin'|_]; [destruct Hnin; now right | lia]. }
  destruct (Hgen (seq 0 (num_cores s)) (set_time current_time s)) as
    (HI2 & Hti2 & Hnc2 & new & Hl & Hf & Hc).
  - now apply set_time_Inv.
  - apply NoDup_ListNoDup, List.seq_NoDup.
  - split; [exact HI2|]. split; [exact Hti2|]. split; [exact Hnc2|].
    exists new. split; [exact Hl|]. split.
    + eapply Forall_impl; [exact Hf|]. intros row (cid & Hin & Hrow). exists cid.
      split; [|exact Hrow]. apply List.in_seq in Hin.
      change (num_cores (set_time current_time s)) with (num_cores s) in Hin. lia.
    + intros cid. specialize (Hc cid).
      destruct (in_dec Nat.eq_dec cid (seq 0 (num_cores s))); lia.
Qed.

Lemma Timed_mono (b b' : Z) (t : Task) : b <= b' -> Timed b t -> Timed b' t.
Proof.
  intros Hb (Ha & Hf & Hc). split; [lia|]. split.
  - intros f Hfs. specialize (Hf f Hfs). lia.
  - intros c Hct. destruct (Hc c Hct) as (f & Hfs & Hle & Hcb). exists f. repeat split; auto. lia.
Qed.

Lemma AllTimed_update (b : Z) (s s' : Sched) (r : ref) (t t' : Task) :
  AllTimed b s -> objects s !! r = Some t -> objects s' = <[r := t']> (objects s) ->
  Timed b t' -> AllTimed b s'.
Proof.
  intros HA Ht Ho Ht' x tx Hx. rewrite Ho in Hx.
  destruct (lookup_insert_cases _ _ _ _ _ _ Ht Hx) as [(-> & ->)|(Hne & Hx0)]; [exact Ht'|].
  now apply (HA x tx).
Qed.

Lemma AllTimed_dispatch (v : Variant) (cid : nat) (sched : SchedClass) (s : Sched) :
  Inv s -> AllTimed (time s) s -> AllTimed (time s) (_dispatch_to_core v cid sched s).
Proof.
  intros HI HA.
  destruct (dispatch_full v cid sched s HI) as (_ & Hcase).
  destruct (head (class_queue sched (queues s))) as [r|].
  - destruct Hcase as (t & q & Ht & _ & _ & _ & _ & Ho & _).
    apply (AllTimed_update _ s _ r t _ HA Ht Ho).
    destruct (HA r t Ht) as (Ha & Hf & Hc).
    destruct (start_task_frame q (time s) t) as (Hsv & _ & _ & Hct & _ & _ & Hfs).
    destruct (static_view_total_time _ _ Hsv) as (_ & Harr & _).
    unfold Timed. rewrite Harr, Hct, Hfs. split; [exact Ha|]. split.
    + intros f [= <-]. destruct (first_start t) as [f0|] eqn:E; cbn [get]; [now apply Hf | lia].
    + intros c Hcc. destruct (Hc c Hcc) as (f & Hff & Hle). exists f. now rewrite Hff.
  - destruct Hcase as (Ho & _). intros r t Hr. rewrite Ho in Hr. now apply (HA r t).
Qed.

Lemma AllTimed_run_one_tick (v : Variant) (cid : nat) (s : Sched) :
  Inv s -> Placed s -> AllTimed (time s) s ->
  AllTimed (time s) (_run_one_tick_on_core v cid s).
Proof.
  intros HI HP HA.
  destruct (cores s !! cid) as [core|] eqn:Ec;
    [|rewrite run_one_tick_idle; [exact HA | congruence]].
  destruct (core_task core) as [r|] eqn:Er;
    [|rewrite run_one_tick_idle; [exact HA | congruence]].
  destruct (objects s !! r) as [t|] eqn:Et;
    [|rewrite run_one_tick_idle; [exact HA | congruence]].
  destruct (run_one_tick_full v cid s core r t Ec Er Et) as (_ & Hcases).
  destruct (run_task_frame v t) as (Hsv & _ & _ & Hct & Hfs & _).
  destruct (static_view_total_time _ _ Hsv) as (_ & Harr & _).
  destruct (HA r t Et) as (Ha & Hf & Hc).
  assert (Ht2 : Timed (time s) (run_task v t)).
  { unfold Timed. rewrite Harr, Hct, Hfs. auto. }
  destruct (pl_core s HP cid core r Ec Er) as (t0 & Ht0 & _ & [f Hfirst] & _).
  replace t0 with t in * by congruence.
  destruct Hcases as [(_ & Ho & _) | [(_ & _ & Ho & _) | (_ & _ & Ho & _)]];
    apply (AllTimed_update _ s _ r t _ HA Et Ho); try exact Ht2.
  unfold Timed. task_simpl. rewrite Harr, Hfs. split; [exact Ha|]. split; [exact Hf|].
  intros c [= <-]. exists f. split; [exact Hfirst|]. specialize (Hf f Hfirst). lia.
Qed.

(** What the loop body of [tick] keeps, on top of the invariant. *)
Lemma tick_core_timed (v : Variant) (s : Sched) (cid : nat) :
  Inv s -> Placed s -> AllTimed (time s) s ->
  AllTimed (time s) (tick_core v s cid) /\ Placed (tick_core v s cid).
Proof.
  intros HI HP HA. unfold tick_core.
  set (s1 := match core_task <$> cores s !! cid with
             | Some None => _
             | _ => s
             end).
  assert (H1 : Inv s1 /\ Placed s1 /\ time s1 = time s /\ AllTimed (time s) s1).
  { unfold s1. destruct (cores s !! cid) as [c0|] eqn:Ec; cbn [fmap option_fmap option_map];
      [|auto].
    destruct (core_task c0) eqn:Et; [auto|].
    destruct (_pick_task_for_core cid s) as [[sched subq]|]; [|auto].
    destruct (dispatch_Inv v cid sched s c0 HI Ec Et) as [HI1 (Hti & _)].
    split; [exact HI1|]. split; [now apply (Placed_dispatch v cid sched s c0)|].
    split; [exact Hti|]. now apply AllTimed_dispatch. }
  destruct H1 as (HI1 & HP1 & Hti1 & HA1). clearbody s1. rewrite <- Hti1 in *.
  split; [now apply AllTimed_run_one_tick | now apply Placed_run_one_tick].
Qed.

Lemma tick_fold (v : Variant) (P : Sched -> Prop) (current_time : Z) (s : Sched) :
  (forall s1 cid, P s1 -> P (tick_core v s1 cid)) ->
  P (set_time current_time s) -> P (tick v current_time s).
Proof.
  intros Hstep H0. unfold tick. revert H0. generalize (set_time current_time s).
  induction (seq 0 (num_cores s)) as [|cid l IH]; intros s1 H1; cbn [fold_left]; [exact H1|].
  apply IH. now apply Hstep.
Qed.

Lemma step_effect_static (s s' : Sched) :
  step_effect s s' -> map static_view (objects s') = map static_view (objects s).
Proof.
  intros (_ & _ & Hlen & He). apply list_eq. intros i. rewrite !list_lookup_fmap.
  destruct (objects s !! i) as [t|] eqn:Et.
  - destruct (He i t Et) as (t' & Ht' & Hsv & _). rewrite Ht'. cbn. now rewrite Hsv.
  - apply lookup_ge_None in Et. rewrite <- Hlen in Et. apply lookup_ge_None in Et.
    now rewrite Et.
Qed.

(** A tick at time [n]: the invariants, the stamps and the static attributes. *)
Lemma tick_timed (v : Variant) (n : Z) (s : Sched) :
  Inv s -> Placed s -> AllTimed n s ->
  let s' := tick v n s in
  Inv s' /\ Placed s' /\ AllTimed n s' /\
  map static_view (objects s') = map static_view (objects s).
Proof.
  intros HI HP HA s'.
  pose (P := fun s1 => Inv s1 /\ Placed s1 /\ time s1 = n /\ AllTimed n s1 /\
                       map static_view (objects s1) = map static_view (objects s)).
  assert (HP' : P s').
  { apply tick_fold.
    - intros s1 cid (HI1 & HP1 & Hti1 & HA1 & Hs1).
      destruct (tick_core_Inv v s1 cid HI1) as [HI2 He].
      rewrite <- Hti1 in HA1. destruct (tick_core_timed v s1 cid HI1 HP1 HA1) as [HA2 HP2].
      pose proof He as (Hti2 & _).
      split; [exact HI2|]. split; [exact HP2|]. split; [congruence|].
      split; [now rewrite <- Hti1|]. rewrite <- Hs1. now apply step_effect_static.
    - split; [now apply set_time_Inv|]. split; [now apply Placed_set_time|].
      split; [reflexivity|]. split; [exact HA | reflexivity]. }
  destruct HP' as (H1 & H2 & _ & H4 & H5). auto.
Qed.

Lemma tick_range_S (n : Z) (j : nat) :
  tick_range n (S j) = tick_range n j ++ [n + Z.of_nat j].
Proof. unfold tick_range. rewrite seq_S, map_app. reflexivity. Qed.

Lemma admit_stamps_app (l k : list LogRow) :
  admit_stamps (l ++ k) = admit_stamps l ++ admit_stamps k.
Proof. unfold admit_stamps. now rewrite List.filter_app, map_app. Qed.

Lemma admit_stamps_tick_rows (l : list LogRow) :
  Forall (fun row => exists now cid, tick_row now cid row) l -> admit_stamps l = [].
Proof.
  unfold admit_stamps. induction 1 as [|row l (now & cid & _ & _ & He) Hl IH];
    cbn [List.filter]; [reflexivity|].
  destruct He as [-> | [-> | [-> | ->]]]; exact IH.
Qed.

Lemma core_runs_admit (cid : nat) (s : Sched) (t : Task) :
  core_runs cid [log_row s ADMIT t None None; log_row s ENQUEUE t None None] = 0%nat.
Proof. reflexivity. Qed.

(** The attributes of the task object that the driver creates for a row. *)
Lemma admitted_task_attrs (v : Variant) (clf : Classifier) (rrq : Z) (row : Features)
    (u : string) :
  let t := admit_task v clf rrq (Task_init row u) in
  features t = row /\ pid t = f_PID row /\ arrival_time t = arrival_of row /\
  first_start t = None /\ completion_time t = None /\ total_run t = 0.
Proof.
  intros t. destruct (admit_task_fresh v clf rrq row u) as [Hv _]. fold t in Hv.
  unfold admit_view in Hv. injection Hv as H1 H2 H3 H4 H5 H6 H7.
  rewrite H1, H2, H4, H5, H6, H7. repeat split.
Qed.

(** The admissions of one driver iteration. *)
Lemma driver_admissions (v : Variant) (clf : Classifier) (uids : nat -> string) (n : Z)
    (l : list Features) :
  Forall (fun row => arrival_of row = n) l ->
  forall s, Inv s -> Placed s ->
    let s' := fold_left (run_op v clf uids) (map (fun row => OpAdmit row n) l) s in
    Inv s' /\ Placed s' /\ time s' = time s /\ num_cores s' = num_cores s /\
    (exists new, objects s' = objects s ++ new /\ map features new = l /\
       Forall (fun t => arrival_time t = n /\ pid t = f_PID (features t) /\
                        first_start t = None /\ completion_time t = None) new) /\
    admit_stamps (logs s') = admit_stamps (logs s) ++ map (fun row => (time s, f_PID row)) l /\
    (forall cid, core_runs cid (logs s') = core_runs cid (logs s)).
Proof.
  induction 1 as [|row l Hrow Hl IH]; intros s HI HP; cbn [map fold_left run_op].
  - split; [exact HI|]. split; [exact HP|]. split; [reflexivity|]. split; [reflexivity|].
    split; [exists []; rewrite app_nil_r; repeat split; constructor|].
    split; [now rewrite app_nil_r | reflexivity].
  - set (u := uids (length (objects s))).
    destruct (admit_row_full v clf u row n s)
      as (c & _ & _ & Ho & _ & _ & Hlog & _ & (_ & _ & Hti & Hnc & _)).
    destruct (admitted_task_attrs v clf (rr_quantum s) row u) as (Hf & Hp & Ha & Hfs & Hct & _).
    revert Ho Hlog Hf Hp Ha Hfs Hct.
    generalize (admit_task v clf (rr_quantum s) (Task_init row u)). intros t' Ho Hlog Hf Hp Ha Hfs Hct.
    destruct (IH (admit_row v clf u row n s) (admit_row_Inv v clf u row n s HI)
                 (Placed_admit_row v clf u row n s HI HP))
      as (HI' & HP' & Hti' & Hnc' & (new & Ho' & Hnew & Hall) & Hst & Hruns).
    split; [exact HI'|]. split; [exact HP'|]. split; [congruence|]. split; [congruence|].
    split; [|split].
    + exists (t' :: new). rewrite Ho', Ho, <- app_assoc. split; [reflexivity|].
      cbn [map]. rewrite Hf, Hnew. split; [reflexivity|].
      constructor; [|exact Hall]. rewrite Hf. cbn beta in Hrow. repeat split; congruence.
    + rewrite Hst, Hlog, admit_stamps_app, Hti, <- app_assoc. f_equal.
      unfold admit_stamps at 1. cbn [List.filter log_row row_event Event_eqb map row_time row_pid].
      now rewrite Hp.
    + intros cid. rewrite Hruns, Hlog, core_runs_app, core_runs_admit. lia.
Qed.

Lemma static_view_map {B} (g : Task -> B) (h : _ -> B) (l l' : list Task) :
  (forall t, g t = h (static_view t)) ->
  map static_view l' = map static_view l -> map g l' = map g l.
Proof.
  intros Hg H. rewrite (map_ext g (fun t => h (static_view t)) Hg l').
  rewrite (map_ext g (fun t => h (static_view t)) Hg l).
  rewrite <- !(map_map static_view h). now rewrite H.
Qed.

Lemma static_view_lookup (l l' : list Task) (r : nat) (t' : Task) :
  map static_view l' = map static_view l -> l' !! r = Some t' ->
  exists t, l !! r = Some t /\ static_view t' = static_view t.
Proof.
  intros H Hr. assert (Hm : map static_view l' !! r = Some (static_view t')).
  { change (map static_view l') with (static_view <$> l'). rewrite list_lookup_fmap, Hr.
    reflexivity. }
  rewrite H in Hm. change (map static_view l) with (static_view <$> l) in Hm.
  rewrite list_lookup_fmap in Hm. destruct (l !! r) as [t|]; [|discriminate].
  exists t. split; [reflexivity|]. cbn in Hm. congruence.
Qed.

(** One iteration of the driver loop. *)
Lemma driver_step_driven (v : Variant) (clf : Classifier) (uids : nat -> string)
    (rows : list Features) (k : nat) (s : Sched) :
  Inv s -> Placed s -> Driven rows k s ->
  let s' := driver_step v clf uids rows (Z.of_nat k) s in
  Inv s' /\ Placed s' /\ Driven rows (S k) s' /\ num_cores s' = num_cores s.
Proof.
  intros HI HP [Dti Dtimed Drows Dattrs Dadmit Druns] s'.
  set (n := Z.of_nat k) in *.
  unfold s', driver_step, run_script. rewrite fold_left_app. cbn [fold_left run_op].
  assert (Harr : Forall (fun row => arrival_of row = n) (arrivals_at rows n)).
  { unfold arrivals_at. apply List.Forall_forall. intros row Hin.
    apply List.filter_In in Hin. destruct Hin as [_ Heq]. now apply Z.eqb_eq in Heq. }
  destruct (driver_admissions v clf uids n (arrivals_at rows n) Harr s HI HP)
    as (HI1 & HP1 & Hti1 & Hnc1 & (new & Ho1 & Hnew & Hall) & Hst1 & Hruns1).
  set (s1 := fold_left (run_op v clf uids) (map (fun row => OpAdmit row n) (arrivals_at rows n)) s)
    in *. clearbody s1.
  assert (HA1 : AllTimed n s1).
  { intros r t Hr. rewrite Ho1 in Hr. apply lookup_app_Some in Hr.
    destruct Hr as [Hr|[_ Hr]].
    - apply (Timed_mono (n - 1)); [lia|]. now apply (Dtimed r t).
    - apply list_elem_of_lookup_2, list_elem_of_In in Hr. rewrite List.Forall_forall in Hall.
      destruct (Hall t Hr) as (Ha & _ & Hfs & Hct). unfold Timed. rewrite Ha, Hfs, Hct.
      split; [lia|]. split; intros x Hx; discriminate. }
  destruct (tick_timed v n s1 HI1 HP1 HA1) as (HI2 & HP2 & HA2 & Hsv).
  destruct (tick_log v n s1 HI1) as (_ & Hti2 & Hnc2 & newrows & Hl2 & Hf2 & Hr2).
  split; [exact HI2|]. split; [exact HP2|]. split; [|congruence].
  assert (Hattrs1 : forall r t, objects s1 !! r = Some t ->
            arrival_time t = arrival_of (features t) /\ pid t = f_PID (features t)).
  { intros r t Hr. rewrite Ho1 in Hr. apply lookup_app_Some in Hr.
    destruct Hr as [Hr|[_ Hr]]; [now apply (Dattrs r t)|].
    apply list_elem_of_lookup_2, list_elem_of_In in Hr. rewrite List.Forall_forall in Hall.
    destruct (Hall t Hr) as (Ha & Hp & _). split; [|exact Hp].
    assert (Hin : In (features t) (arrivals_at rows n))
      by (rewrite <- Hnew; now apply in_map).
    rewrite List.Forall_forall in Harr. rewrite (Harr _ Hin). exact Ha. }
  constructor.
  - rewrite Hti2. lia.
  - replace (Z.of_nat (S k) - 1) with n by lia. exact HA2.
  - rewrite (static_view_map features (fun x => fst (fst (fst (fst (fst x))))) _ _
               (fun t => eq_refl) Hsv).
    rewrite Ho1, map_app, Drows, Hnew, tick_range_S, flat_map_app. cbn [flat_map].
    now rewrite app_nil_r.
  - intros r t' Hr. destruct (static_view_lookup _ _ r t' Hsv Hr) as (t & Ht & Hview).
    unfold static_view in Hview. injection Hview as -> -> _ -> _ _. now apply (Hattrs1 r t).
  - rewrite Hl2, admit_stamps_app, (admit_stamps_tick_rows newrows), app_nil_r.
    2:{ eapply Forall_impl; [exact Hf2|]. intros row (cid & _ & Hrow). now exists n, cid. }
    rewrite (static_view_map (fun t => (Z.max 0 (arrival_time t - 1), pid t))
               (fun x => (Z.max 0 (snd (fst (fst x)) - 1), snd (fst (fst (fst (fst x))))))
               _ _ (fun t => eq_refl) Hsv).
    rewrite Hst1, Ho1, map_app, Dadmit. f_equal.
    rewrite <- Hnew, map_map. apply map_ext_Forall.
    eapply Forall_impl; [exact Hall|]. intros t (Ha & Hp & _). cbn beta.
    rewrite Ha, Hp, Dti. reflexivity.
  - intros cid. rewrite Hl2, core_runs_app, Hruns1. specialize (Druns cid). specialize (Hr2 cid).
    lia.
Qed.

Lemma init_Driven (rows : list Features) (n : nat)
    (order : option (list (nat * list SchedClass))) (rrq : Z) (slice : Q) (seed_ : Z) :
  Driven rows 0 (Sched_init n order rrq slice seed_).
Proof.
  constructor; unfold AllTimed; cbn [Sched_init time objects logs]; try reflexivity.
  - intros r t H. rewrite lookup_nil in H. discriminate.
  - intros r t H. rewrite lookup_nil in H. discriminate.
Qed.

Lemma driver_iter_driven (v : Variant) (clf : Classifier) (uids : nat -> string)
    (rows : list Features) (j : nat) :
  forall (k : nat) (s : Sched),
    Inv s -> Placed s -> Driven rows k s ->
    let s' := driver_iter j v clf uids rows (Z.of_nat k) s in
    Inv s' /\ Placed s' /\ Driven rows (k + j) s' /\ num_cores s' = num_cores s.
Proof.
  induction j as [|j IH]; intros k s HI HP HD; cbn [driver_iter].
  - rewrite Nat.add_0_r. auto.
  - destruct (driver_step_driven v clf uids rows k s HI HP HD) as (HI1 & HP1 & HD1 & Hnc1).
    replace (Z.of_nat k + 1) with (Z.of_nat (S k)) by lia.
    destruct (IH (S k) _ HI1 HP1 HD1) as (HI2 & HP2 & HD2 & Hnc2).
    replace (k + S j)%nat with (S k + j)%nat by lia.
    split; [exact HI2|]. split; [exact HP2|]. split; [exact HD2 | congruence].
Qed.

(** The driver loop leaves by one of its two [break]s. *)
Lemma driver_loop_exit (v : Variant) (clf : Classifier) (uids : nat -> string)
    (rows : list Features) (last_arrival max_ticks : Z) (fuel : nat) :
  forall (current_time : Z) (s : Sched),
    max_ticks < current_time + Z.of_nat fuel -> (0 < fuel)%nat ->
    exists j, (0 < j)%nat /\
      let s' := driver_iter j v clf uids rows current_time s in
      driver_loop fuel v clf uids rows last_arrival max_ticks current_time s = s' /\
      ((last_arrival < current_time + Z.of_nat j - 1 /\ all_queues_empty s' = true) \/
       max_ticks < current_time + Z.of_nat j).
Proof.
  induction fuel as [|fuel IH]; intros ct s Hmax Hfuel; [lia|]. cbn [driver_loop].
  destruct ((last_arrival <? ct) && all_queues_empty _)%bool eqn:E1.
  - exists 1%nat. split; [lia|]. cbn [driver_iter]. split; [reflexivity|]. left.
    apply andb_true_iff in E1. destruct E1 as [E1 E2]. apply Z.ltb_lt in E1. split; [lia|exact E2].
  - destruct (max_ticks <? ct + 1) eqn:E2.
    + exists 1%nat. split; [lia|]. cbn [driver_iter]. split; [reflexivity|]. right.
      apply Z.ltb_lt in E2. lia.
    + apply Z.ltb_ge in E2.
      destruct fuel as [|fuel']; [lia|].
      destruct (IH (ct + 1) (driver_step v clf uids rows ct s)) as (j & Hj & Heq & Hexit);
        [lia | lia |].
      exists (S j). split; [lia|]. cbn [driver_iter]. cbv zeta in Heq, Hexit |- *.
      split; [exact Heq|]. destruct Hexit as [[H1 H2]|H1]; [left; split; [lia|exact H2] | right; lia].
Qed.

Lemma In_arrivals_range (rows : list Features) (row : Features) (k : nat) :
  In row (flat_map (arrivals_at rows) (tick_range 0 k)) <->
  In row rows /\ 0 <= arrival_of row < Z.of_nat k.
Proof.
  rewrite in_flat_map. unfold tick_range, arrivals_at. split.
  - intros (x & Hx & Hin). apply in_map_iff in Hx. destruct Hx as (i & <- & Hi).
    apply List.in_seq in Hi. apply List.filter_In in Hin. destruct Hin as [Hin Heq].
    apply Z.eqb_eq in Heq. split; [exact Hin | lia].
  - intros [Hin Hr]. exists (arrival_of row). split.
    + apply in_map_iff. exists (Z.to_nat (arrival_of row)). split; [lia|].
      apply List.in_seq. lia.
    + apply List.filter_In. split; [exact Hin | now apply Z.eqb_eq].
Qed.

Lemma tick_range_cons (a : Z) (j : nat) :
  tick_range a (S j) = a :: tick_range (a + 1) j.
Proof.
  unfold tick_range. cbn [seq map]. rewrite Z.add_0_r. f_equal.
  rewrite <- seq_shift, map_map. apply map_ext. intros k. lia.
Qed.

Lemma arrivals_at_app (l k : list Features) (t : Z) :
  arrivals_at (l ++ k) t = arrivals_at l t ++ arrivals_at k t.
Proof. unfold arrivals_at. apply List.filter_app. Qed.

Lemma arrivals_at_all (l : list Features) (t : Z) :
  Forall (fun row => arrival_of row = t) l -> arrivals_at l t = l.
Proof.
  unfold arrivals_at. induction 1 as [|row l Hr Hl IH]; cbn [List.filter]; [reflexivity|].
  rewrite (proj2 (Z.eqb_eq _ _) Hr). now rewrite IH.
Qed.

Lemma arrivals_at_none (l : list Features) (t : Z) :
  Forall (fun row => arrival_of row <> t) l -> arrivals_at l t = [].
Proof.
  unfold arrivals_at. induction 1 as [|row l Hr Hl IH]; cbn [List.filter]; [reflexivity|].
  rewrite (proj2 (Z.eqb_neq _ _) Hr). exact IH.
Qed.

Lemma sorted_split (a : Z) (rows : list Features) :
  arrival_sorted rows -> Forall (fun row => a <= arrival_of row) rows ->
  exists pre rest, rows = pre ++ rest /\ Forall (fun row => arrival_of row = a) pre /\
                   Forall (fun row => a + 1 <= arrival_of row) rest /\ arrival_sorted rest.
Proof.
  intros Hs. induction Hs as [|row rows Hs IH Hrow]; intros Hge.
  - exists [], []. repeat split; constructor.
  - pose proof (List.Forall_inv Hge) as Hr. pose proof (List.Forall_inv_tail Hge) as Hge'.
    cbn beta in Hr.
    destruct (Z.eq_dec (arrival_of row) a) as [E|E].
    + destruct (IH Hge') as (pre & rest & -> & Hpre & Hrest & Hsr).
      exists (row :: pre), rest. repeat split; auto.
    + exists [], (row :: rows). split; [reflexivity|]. split; [constructor|]. split.
      * constructor; [lia|]. eapply Forall_impl; [exact Hrow|]. intros x Hx. cbn beta in Hx. lia.
      * now constructor.
Qed.

Lemma flat_map_arrivals_sorted (j : nat) :
  forall (a : Z) (rows : list Features),
    arrival_sorted rows ->
    Forall (fun row => a <= arrival_of row < a + Z.of_nat j) rows ->
    flat_map (arrivals_at rows) (tick_range a j) = rows.
Proof.
  induction j as [|j IH]; intros a rows Hs Hr.
  - destruct rows as [|row rows]; [reflexivity|]. apply List.Forall_inv in Hr. lia.
  - rewrite tick_range_cons. cbn [flat_map].
    destruct (sorted_split a rows Hs) as (pre & rest & -> & Hpre & Hrest & Hsr).
    { eapply Forall_impl; [exact Hr|]. intros x Hx. cbn beta in Hx. lia. }
    rewrite arrivals_at_app, (arrivals_at_all pre a Hpre), (arrivals_at_none rest a).
    2:{ eapply Forall_impl; [exact Hrest|]. intros x Hx. cbn beta in Hx. lia. }
    rewrite app_nil_r. f_equal.
    transitivity (flat_map (arrivals_at rest) (tick_range (a + 1) j)).
    + rewrite !flat_map_concat_map. f_equal. apply map_ext_in.
      intros t Ht. unfold tick_range in Ht. apply in_map_iff in Ht.
      destruct Ht as (i & <- & _). rewrite arrivals_at_app, (arrivals_at_none pre); [reflexivity|].
      eapply Forall_impl; [exact Hpre|]. intros x Hx. cbn beta in Hx. lia.
    + apply IH; [exact Hsr|]. apply Forall_app in Hr. destruct Hr as [_ Hr].
      apply List.Forall_forall. intros x Hx. rewrite List.Forall_forall in Hr, Hrest.
      specialize (Hr x Hx). specialize (Hrest x Hx). cbn beta in *. lia.
Qed.

(** A whole driver run from a fresh scheduler. *)
Lemma simulate_driven (v : Variant) (clf : Classifier) (uids : nat -> string) (n : nat)
    (order : option (list (nat * list SchedClass))) (rrq : Z) (slice : Q) (seed_ : Z)
    (rows : list Features) (max_ticks : Z) (s : Sched) :
  simulate v clf uids (Sched_init n order rrq slice seed_) rows max_ticks = Some s ->
  exists la k,
    last_arrival_of rows = Some la /\ (0 < k)%nat /\ Driven rows k s /\ num_cores s = n /\
    ((la < Z.of_nat k - 1 /\ all_queues_empty s = true) \/ max_ticks < Z.of_nat k).
Proof.
  unfold simulate. destruct (last_arrival_of rows) as [la|]; [|discriminate].
  destruct (driver_loop_exit v clf uids rows la max_ticks (S (Z.to_nat max_ticks)) 0
              (Sched_init n order rrq slice seed_)) as (k & Hk & Heq & Hexit); [lia | lia |].
  cbv zeta in Heq, Hexit. rewrite Heq. intros [= Hs]. exists la. rewrite Hs in Hexit.
  exists k. split; [reflexivity|]. split; [exact Hk|].
  destruct (driver_iter_driven v clf uids rows k 0 (Sched_init n order rrq slice seed_)
              (init_Inv n order rrq slice seed_) (init_Placed n order rrq slice seed_)
              (init_Driven rows n order rrq slice seed_)) as (_ & _ & HD & Hnc).
  change (Z.of_nat 0) with 0 in HD, Hnc. rewrite Hs in HD, Hnc. cbn [Nat.add] in HD.
  split; [exact HD|]. split; [exact Hnc|]. exact Hexit.
Qed.

Lemma fold_max_ge (l : list Z) (a : Z) :
  a <= fold_left Z.max l a /\ Forall (fun x => x <= fold_left Z.max l a) l.
Proof.
  revert a. induction l as [|x l IH]; intros a; cbn [fold_left]; [split; [lia|constructor]|].
  destruct (IH (Z.max a x)) as [H1 H2]. split; [lia|]. constructor; [lia | exact H2].
Qed.

Lemma last_arrival_ge (rows : list Features) (la : Z) :
  last_arrival_of rows = Some la -> Forall (fun row => arrival_of row <= la) rows.
Proof.
  destruct rows as [|row rows]; [discriminate|]. cbn [last_arrival_of]. intros [= <-].
  destruct (fold_max_ge (map arrival_of rows) (arrival_of row)) as [H1 H2].
  constructor; [exact H1|]. rewrite List.Forall_map in H2. exact H2.
Qed.

Lemma Driven_time (rows : list Features) (k : nat) (s : Sched) :
  (0 < k)%nat -> Driven rows k s -> time s = Z.of_nat k - 1.
Proof. intros Hk HD. rewrite (dr_time rows k s HD). lia. Qed.

(** ** The driver turns rows into tasks *)

(** X19: At the end of a driver run the task objects are the rows of the table
    bucketed by arrival tick 0, 1, ..., in table order within a tick: a row is
    admitted exactly when its arrival tick lies between 0 and the final clock,
    rows with a negative arrival are never admitted, and for an arrival-sorted
    table whose arrivals all lie in that range the tasks are the rows in table
    order. *)
Theorem driver_admits_rows_in_order (v : Variant) (clf : Classifier) (uids : nat -> string)
    (n : nat) (order : option (list (nat * list SchedClass))) (rrq : Z) (slice : Q)
    (seed_ : Z) (rows : list Features) (max_ticks : Z) (s : Sched) :
  simulate v clf uids (Sched_init n order rrq slice seed_) rows max_ticks = Some s ->
  0 <= time s /\
  map features (objects s) =
    flat_map (arrivals_at rows) (tick_range 0 (S (Z.to_nat (time s)))) /\
  (forall row, In row (map features (objects s)) <->
               In row rows /\ 0 <= arrival_of row <= time s) /\
  (forall r t, objects s !! r = Some t ->
     arrival_time t = arrival_of (features t) /\ pid t = f_PID (features t)) /\
  (arrival_sorted rows -> Forall (fun row => 0 <= arrival_of row <= time s) rows ->
   map features (objects s) = rows).
Proof.
  intros Hsim.
  destruct (simulate_driven _ _ _ _ _ _ _ _ _ _ _ Hsim) as (la & k & _ & Hk & HD & _ & _).
  pose proof (Driven_time rows k s Hk HD) as Hti.
  assert (Ek : S (Z.to_nat (time s)) = k) by lia.
  rewrite Ek. pose proof (dr_rows rows k s HD) as Hrows.
  split; [lia|]. split; [exact Hrows|]. split; [|split].
  - intros row. rewrite Hrows, In_arrivals_range. split; intros [H1 H2]; (split; [exact H1 | lia]).
  - exact (dr_attrs rows k s HD).
  - intros Hs Hr. rewrite Hrows. apply flat_map_arrivals_sorted; [exact Hs|].
    eapply Forall_impl; [exact Hr|]. intros x Hx. cbn beta in Hx. lia.
Qed.

(** ** The two exits of the driver loop *)

(** X20: A driver run ends in one of two ways: past the last arrival with all
    queues empty, and then every admitted task has completed with remaining 0
    after running at least one tick and every row with a non-negative arrival was
    admitted; or at the safety limit, with the clock at max_ticks. *)
Theorem driver_stops_when_done (v : Variant) (clf : Classifier) (uids : nat -> string)
    (n : nat) (order : option (list (nat * list SchedClass))) (rrq : Z) (slice : Q)
    (seed_ : Z) (rows : list Features) (max_ticks : Z) (s : Sched) :
  simulate v clf uids (Sched_init n order rrq slice seed_) rows max_ticks = Some s ->
  exists la, last_arrival_of rows = Some la /\
    ((la < time s /\ all_queues_empty s = true /\
      (forall r t, objects s !! r = Some t ->
         exists c, completion_time t = Some c /\ remaining t = 0 /\ 1 <= total_run t) /\
      (forall row, In row rows -> 0 <= arrival_of row -> In row (map features (objects s))))
     \/ max_ticks <= time s).
Proof.
  intros Hsim.
  pose proof (reachable_simulate _ _ _ _ _ _ _ Hsim) as Hreach.
  destruct (simulate_driven _ _ _ _ _ _ _ _ _ _ _ Hsim) as (la & k & Hla & Hk & HD & _ & Hexit).
  pose proof (Driven_time rows k s Hk HD) as Hti.
  exists la. split; [exact Hla|].
  destruct Hexit as [[Hlate Hempty]|Hmax]; [left | right; lia].
  split; [lia|]. split; [exact Hempty|]. split.
  - intros r t Ht.
    destruct (reachable_sound _ _ _ _ _ _ _ _ _ Hreach) as (HI & HP & _).
    destruct (completion_time t) as [c|] eqn:Ec.
    + exists c. destruct (pl_done s HP r t c Ht Ec) as (H1 & H2 & _). auto.
    + pose proof (pl_live s HP r t Ht Ec) as Hpos.
      rewrite (proj1 (all_queues_empty_occ s) Hempty r) in Hpos. lia.
  - intros row Hin Hge. rewrite (dr_rows rows k s HD). apply In_arrivals_range.
    split; [exact Hin|]. pose proof (last_arrival_ge rows la Hla) as Hle.
    rewrite List.Forall_forall in Hle. specialize (Hle row Hin). cbn beta in Hle. lia.
Qed.

(** ** Time stamps of the admissions *)

(** X21: admit ignores its current_time argument when logging: in a driver run the
    ADMIT row of a task arriving at tick a is stamped max(0, a - 1), the clock
    left by the previous tick, not a. *)
Theorem driver_admit_rows_stamped (v : Variant) (clf : Classifier) (uids : nat -> string)
    (n : nat) (order : option (list (nat * list SchedClass))) (rrq : Z) (slice : Q)
    (seed_ : Z) (rows : list Features) (max_ticks : Z) (s : Sched) :
  simulate v clf uids (Sched_init n order rrq slice seed_) rows max_ticks = Some s ->
  admit_stamps (logs s) = map (fun t => (Z.max 0 (arrival_time t - 1), pid t)) (objects s).
Proof.
  intros Hsim.
  destruct (simulate_driven _ _ _ _ _ _ _ _ _ _ _ Hsim) as (la & k & _ & _ & HD & _).
  exact (dr_admit rows k s HD).
Qed.

(** ** Waiting and turnaround in a driver run *)

(** X22: In the metrics exported after a driver run, every row has 0 <= waiting =
    response <= turnaround, and arrival + turnaround is at most the final clock. *)
Theorem driver_export_waiting (v : Variant) (clf : Classifier) (uids : nat -> string)
    (n : nat) (order : option (list (nat * list SchedClass))) (rrq : Z) (slice : Q)
    (seed_ : Z) (rows : list Features) (max_ticks : Z) (s : Sched) (m : MetricRow) :
  simulate v clf uids (Sched_init n order rrq slice seed_) rows max_ticks = Some s ->
  In m (export_task_metrics s) ->
  exists w ta,
    m_waiting m = Some w /\ m_response m = Some w /\ m_turnaround m = Some ta /\
    0 <= w <= ta /\ m_arrival m + ta <= time s.
Proof.
  intros Hsim Hm.
  pose proof (reachable_simulate _ _ _ _ _ _ _ Hsim) as Hreach.
  destruct (simulate_driven _ _ _ _ _ _ _ _ _ _ _ Hsim) as (la & k & _ & Hk & HD & _).
  pose proof (Driven_time rows k s Hk HD) as Hti.
  destruct (reachable_sound _ _ _ _ _ _ _ _ _ Hreach) as (HI & _).
  destruct (export_rows s m Hm) as (p & r & t & Hd & Ht & ->).
  destruct (inv_done s HI p r Hd) as (t0 & c & Ht0 & Hc & _).
  replace t0 with t in * by congruence. clear t0 Ht0.
  destruct (dr_timed rows k s HD r t Ht) as (Ha & Hf & Hcc).
  destruct (Hcc c Hc) as (f & Hfs & Hfc & Hcb). specialize (Hf f Hfs).
  exists (f - arrival_time t), (c - arrival_time t). unfold metric_row.
  cbn [m_waiting m_response m_turnaround m_arrival]. rewrite Hfs, Hc.
  repeat split; lia.
Qed.

Lemma pending_nonneg (objs : list Task) : 0 <= pending objs.
Proof.
  unfold pending. induction objs as [|t l IH]; cbn [fold_right]; [lia|].
  unfold task_pending at 1. destruct (is_completed t); lia.
Qed.

Lemma pending_app (l k : list Task) : pending (l ++ k) = pending l + pending k.
Proof.
  unfold pending. induction l as [|t l IH]; cbn [app fold_right]; [reflexivity|].
  rewrite IH. lia.
Qed.

Lemma pending_insert (l : list Task) (r : nat) (t t' : Task) :
  l !! r = Some t -> pending (<[r := t']> l) = pending l - task_pending t + task_pending t'.
Proof.
  revert r. induction l as [|t0 l IH]; intros [|r] H; try discriminate.
  - injection H as ->. cbn [insert list_insert]. unfold pending. cbn [fold_right]. lia.
  - change (<[S r := t']> (t0 :: l)) with (t0 :: <[r := t']> l).
    specialize (IH r H). unfold pending in *. cbn [fold_right]. rewrite IH. lia.
Qed.

Lemma pending_zero_completed (objs : list Task) :
  pending objs = 0 -> Forall (fun t => is_completed t = true) objs.
Proof.
  induction objs as [|t l IH]; intros H; [constructor|].
  unfold pending in H. cbn [fold_right] in H. fold (pending l) in H.
  pose proof (pending_nonneg l). unfold task_pending in H.
  destruct (is_completed t) eqn:E; [|lia]. constructor; [exact E|]. apply IH. lia.
Qed.

Lemma pending_lookup_le (objs : list Task) (r : nat) (t : Task) :
  objs !! r = Some t -> task_pending t <= pending objs.
Proof.
  revert r. induction objs as [|t0 l IH]; intros [|r] H; try discriminate.
  - injection H as ->. change (pending (t :: l)) with (task_pending t + pending l).
    pose proof (pending_nonneg l). lia.
  - specialize (IH r H). change (pending (t0 :: l)) with (task_pending t0 + pending l).
    assert (0 <= task_pending t0) by (unfold task_pending; destruct (is_completed t0); lia).
    lia.
Qed.

(** *** One step *)

Lemma pending_dispatch (v : Variant) (cid : nat) (sched : SchedClass) (s : Sched) :
  Inv s -> pending (objects (_dispatch_to_core v cid sched s)) = pending (objects s).
Proof.
  intros HI. destruct (dispatch_full v cid sched s HI) as (_ & Hcase).
  destruct (head (class_queue sched (queues s))) as [r|].
  - destruct Hcase as (t & q & Ht & _ & _ & _ & _ & Ho & _).
    rewrite Ho, (pending_insert _ _ _ _ Ht).
    destruct (start_task_frame q (time s) t) as (_ & Hrem & _ & Hct & _).
    unfold task_pending, is_completed. rewrite Hrem, Hct. lia.
  - destruct Hcase as (Ho & _). now rewrite Ho.
Qed.

Lemma pending_run_one_tick (v : Variant) (cid : nat) (s : Sched) :
  Inv s ->
  pending (objects (_run_one_tick_on_core v cid s))
  + Z.of_nat (count_event RUN (logs (_run_one_tick_on_core v cid s)))
  <= pending (objects s) + Z.of_nat (count_event RUN (logs s)).
Proof.
  intros HI.
  destruct (cores s !! cid) as [core|] eqn:Ec;
    [|rewrite run_one_tick_idle; [lia | congruence]].
  destruct (core_task core) as [r|] eqn:Er;
    [|rewrite run_one_tick_idle; [lia | congruence]].
  destruct (objects s !! r) as [t|] eqn:Et;
    [|rewrite run_one_tick_idle; [lia | congruence]].
  destruct (run_one_tick_log v cid s HI) as (_ & new & Hl & _ & _ & Hrun).
  rewrite Ec, Er in Hrun. rewrite Hl, count_event_app, Hrun.
  destruct (run_one_tick_full v cid s core r t Ec Er Et) as (_ & Hcases).
  destruct (run_task_frame v t) as (_ & Hrem & _ & Hct & _).
  destruct (busy_core_alone s cid core r HI Ec Er) as (Hrun1 & _).
  assert (Hoccr : (0 < occ r s)%nat) by (unfold occ; lia).
  assert (Hnone : completion_time t = None) by (apply (inv_live s HI r t Et Hoccr)).
  assert (Hw : task_pending t = Z.max 1 (remaining t)).
  { unfold task_pending, is_completed. now rewrite Hnone. }
  destruct Hcases as [(_ & Ho & _) | [(Hpos & _ & Ho & _) | (Hpos & _ & Ho & _)]];
    rewrite Ho, (pending_insert _ _ _ _ Et), Hw.
  - unfold task_pending at 1. cbn [is_completed completion_time set_completion_time]. lia.
  - unfold task_pending, is_completed. rewrite Hct, Hnone, Hrem. lia.
  - unfold task_pending, is_completed. rewrite Hct, Hnone, Hrem. lia.
Qed.

Lemma Shape_refl (s : Sched) : Shape s s.
Proof. now repeat split. Qed.

Lemma Shape_tick_core (v : Variant) (s0 s : Sched) (cid : nat) :
  Inv s -> Shape s0 s -> Shape s0 (tick_core v s cid).
Proof.
  intros HI HS. pose proof HS as (H1 & H2 & H3). unfold tick_core.
  set (s1 := match core_task <$> cores s !! cid with
             | Some None => _
             | _ => s
             end).
  assert (Hs1 : Inv s1 /\ Shape s0 s1).
  { unfold s1. destruct (cores s !! cid) as [c0|] eqn:Ec; cbn [fmap option_fmap option_map];
      [|now split].
    destruct (core_task c0) eqn:Et; [now split|].
    destruct (_pick_task_for_core cid s) as [[sched subq]|]; [|now split].
    destruct (dispatch_Inv v cid sched s c0 HI Ec Et) as [HI1 _]. split; [exact HI1|].
    destruct (dispatch_full v cid sched s HI) as ((_ & _ & Hn & _ & _ & _ & Hor & _) & Hcase).
    split; [congruence|]. split; [|congruence].
    destruct (head (class_queue sched (queues s))) as [r|].
    - destruct Hcase as (t & q & _ & _ & _ & _ & _ & _ & Hcs & _).
      now rewrite Hcs, length_insert.
    - destruct Hcase as (_ & Hcs & _). now rewrite Hcs. }
  destruct Hs1 as (HI1 & HS1). pose proof HS1 as (G1 & G2 & G3). clearbody s1.
  destruct (cores s1 !! cid) as [core|] eqn:Ec;
    [|rewrite run_one_tick_idle; [exact HS1 | congruence]].
  destruct (core_task core) as [r|] eqn:Er;
    [|rewrite run_one_tick_idle; [exact HS1 | congruence]].
  destruct (objects s1 !! r) as [t|] eqn:Et;
    [|rewrite run_one_tick_idle; [exact HS1 | congruence]].
  destruct (run_one_tick_full v cid s1 core r t Ec Er Et)
    as ((_ & Hn & _ & _ & Hor & _) & Hcases).
  split; [congruence|]. split; [|congruence].
  destruct Hcases as [(_ & _ & _ & Hcs & _) | [(_ & _ & _ & _ & Hcs & _) |
                                               (_ & _ & _ & _ & Hcs & _)]];
    now rewrite Hcs, length_insert.
Qed.

Lemma queues_empty_completed (s : Sched) :
  Inv s -> Placed s ->
  (all_queues_empty s = true <-> pending (objects s) = 0).
Proof.
  intros HI HP. rewrite all_queues_empty_occ. split.
  - intros Hocc.
    assert (Hall : Forall (fun t => is_completed t = true) (objects s)).
    { apply Forall_lookup_2. intros r t Ht. unfold is_completed.
      destruct (completion_time t) eqn:Ec; [reflexivity|].
      pose proof (pl_live s HP r t Ht Ec) as Hpos. rewrite Hocc in Hpos. lia. }
    induction Hall as [|t l Ht _ IH]; [reflexivity|].
    change (pending (t :: l)) with (task_pending t + pending l).
    unfold task_pending. rewrite Ht. exact IH.
  - intros Hz r. destruct (occ r s) eqn:Eo; [reflexivity|].
    assert (Hlt : (r < length (objects s))%nat) by (apply (inv_bound s HI); lia).
    destruct (lookup_lt_is_Some_2 _ _ Hlt) as [t Ht].
    assert (Hnone : completion_time t = None) by (apply (inv_live s HI r t Ht); lia).
    pose proof (pending_zero_completed _ Hz) as Hall.
    pose proof (Forall_lookup_1 _ _ _ _ Hall Ht) as Hc. cbn beta in Hc.
    unfold is_completed in Hc. rewrite Hnone in Hc. discriminate.
Qed.

Lemma pick_in_order_default (s : Sched) :
  (pick_in_order default_order (queues s) = None ->
   FIFO_fifo_1 (queues s) = [] /\ RR_rr_1 (queues s) = [] /\
   CFS_cfs_1 (queues s) = [] /\ IDLE_idle (queues s) = []) /\
  forall cid sched subq, _pick_task_for_core cid s = Some (sched, subq) ->
                         queue_is_empty sched (queues s) = false.
Proof.
  split.
  - unfold default_order. cbn [pick_in_order queue_is_empty].
    destruct (FIFO_fifo_1 (queues s)), (RR_rr_1 (queues s)), (CFS_cfs_1 (queues s)),
      (IDLE_idle (queues s)); try discriminate; tauto.
  - intros cid sched subq Hp. unfold _pick_task_for_core in Hp.
    pose proof (pick_in_order_spec (order_get cid (core_priority_order s)) (queues s)) as H.
    rewrite Hp in H. tauto.
Qed.

Lemma tick_core_progress (v : Variant) (s : Sched) (cid : nat) :
  Inv s ->
  let s' := tick_core v s cid in
  pending (objects s') + run_count s' <= pending (objects s) + run_count s /\
  run_count s <= run_count s' /\
  (run_count s' = run_count s ->
   s' = s /\
   forall c, cores s !! cid = Some c ->
             core_task c = None /\ _pick_task_for_core cid s = None).
Proof.
  intros HI s'. unfold s', tick_core.
  set (s1 := match core_task <$> cores s !! cid with
             | Some None => _
             | _ => s
             end).
  assert (Hs1 : Inv s1 /\ pending (objects s1) = pending (objects s) /\
                run_count s1 = run_count s /\
                ((forall c, cores s !! cid = Some c ->
                            core_task c = None /\ _pick_task_for_core cid s = None) /\ s1 = s
                 \/ exists c r, cores s1 !! cid = Some c /\ core_task c = Some r)).
  { unfold s1. destruct (cores s !! cid) as [c0|] eqn:Ec; cbn [fmap option_fmap option_map].
    2:{ split; [exact HI|]. split; [reflexivity|]. split; [reflexivity|].
        left. split; [discriminate | reflexivity]. }
    destruct (core_task c0) as [r0|] eqn:Et.
    { split; [exact HI|]. split; [reflexivity|]. split; [reflexivity|].
      right. exists c0, r0. now split. }
    destruct (_pick_task_for_core cid s) as [[sched subq]|] eqn:Ep.
    2:{ split; [exact HI|]. split; [reflexivity|]. split; [reflexivity|].
        left. split; [|reflexivity]. intros c [= <-]. now split. }
    destruct (dispatch_Inv v cid sched s c0 HI Ec Et) as [HI1 _]. split; [exact HI1|].
    split; [now apply pending_dispatch|].
    destruct (pick_in_order_default s) as (_ & Hpick).
    pose proof (Hpick cid sched subq Ep) as Hne.
    destruct (dispatch_full v cid sched s HI) as (_ & Hcase).
    destruct (head (class_queue sched (queues s))) as [r|] eqn:Eh.
    - destruct Hcase as (t & q & _ & _ & _ & _ & _ & _ & Hcs & Hl & _).
      split.
      + unfold run_count. rewrite Hl, count_event_snoc. cbn. lia.
      + right. exists {| core_task := Some r; time_left := q |}, r. split; [|reflexivity].
        rewrite Hcs. apply list_lookup_insert_eq. apply lookup_lt_is_Some. eauto.
    - exfalso. destruct (queue_is_empty_class _ _ Hne) as [r' Hr']. congruence. }
  destruct Hs1 as (HI1 & Hp1 & Hr1 & Hcase). clearbody s1.
  pose proof (pending_run_one_tick v cid s1 HI1) as Hrun. fold (run_count s1) in Hrun.
  fold (run_count (_run_one_tick_on_core v cid s1)) in Hrun.
  destruct (run_one_tick_log v cid s1 HI1) as (_ & new & Hl & _ & _ & Hcnt).
  assert (Hrc : run_count (_run_one_tick_on_core v cid s1) =
                run_count s1 + Z.of_nat (count_event RUN new)).
  { unfold run_count. rewrite Hl, count_event_app. lia. }
  split; [lia|]. split; [lia|]. intros Heq.
  destruct Hcase as [(Hidle & ->) | (c & r & Ec & Er)].
  - split; [|exact Hidle]. apply run_one_tick_idle. intros core r t Hc Hr _.
    destruct (Hidle core Hc) as (Hn & _). congruence.
  - rewrite Ec, Er in Hcnt. lia.
Qed.

Lemma remaining_admit_tail (c : SchedClass) (q : SubQueue) (t : Task) :
  remaining (admit_vruntime_weight (admit_remaining (assign c q t))) =
  remaining (admit_remaining t).
Proof.
  unfold admit_vruntime_weight, admit_remaining, assign. task_simpl.
  destruct (remaining t =? 0); task_simpl; reflexivity.
Qed.

Lemma remaining_admit_remaining_ext (t1 t2 : Task) :
  features t1 = features t2 -> remaining t1 = remaining t2 -> total_time t1 = total_time t2 ->
  remaining (admit_remaining t1) = remaining (admit_remaining t2).
Proof.
  intros Hf Hr Ht. unfold admit_remaining. rewrite Hr, Hf, Ht.
  destruct (remaining t2 =? 0); task_simpl; [reflexivity | exact Hr].
Qed.

Lemma remaining_assign_scheduler (t : Task) :
  remaining (_assign_scheduler_and_subqueue t) = remaining t /\
  features (_assign_scheduler_and_subqueue t) = features t /\
  vruntime (_assign_scheduler_and_subqueue t) = vruntime t /\
  weight (_assign_scheduler_and_subqueue t) = weight t.
Proof.
  unfold _assign_scheduler_and_subqueue.
  repeat match goal with |- context [if ?b then _ else _] => destruct b end;
    repeat split; reflexivity.
Qed.

Lemma remaining_admit_vruntime_weight (t : Task) :
  remaining (admit_vruntime_weight t) = remaining t.
Proof. unfold admit_vruntime_weight. now task_simpl. Qed.

Lemma admit_task_remaining (v : Variant) (clf : Classifier) (rrq : Z) (row : Features)
    (u : string) :
  Z.max 1 (remaining (admit_task v clf rrq (Task_init row u))) = row_work row.
Proof.
  unfold row_work. f_equal.
  assert (Hu : remaining (admit_remaining (Task_init row u)) =
               remaining (admit_remaining (Task_init row ""))).
  { now apply remaining_admit_remaining_ext. }
  rewrite <- Hu. destruct v; cbn [admit_task].
  - unfold baseline_admit_task.
    set (t1 := if String.eqb _ _ then _ else _).
    assert (H1 : remaining (admit_vruntime_weight (admit_remaining t1)) =
                 remaining (admit_remaining (Task_init row u))).
    { unfold t1. repeat match goal with |- context [if ?b then _ else _] => destruct b end;
        apply remaining_admit_tail. }
    destruct (assigned_scheduler (admit_vruntime_weight (admit_remaining t1))) as [[]|];
      task_simpl; exact H1.
  - unfold ai_admit_task.
    set (t2 := admit_remaining (_compute_subqueue_score (_classify_task clf (Task_init row u)))).
    assert (H2 : remaining t2 = remaining (admit_remaining (Task_init row u))).
    { unfold t2.
      destruct (classify_frame clf (Task_init row u)) as (A1 & A2 & A3 & _).
      destruct (compute_score_frame (_classify_task clf (Task_init row u))) as (B1 & B2 & B3 & _).
      apply remaining_admit_remaining_ext; congruence. }
    set (t3 := if String.eqb _ _ then _ else _).
    assert (H3 : remaining (admit_vruntime_weight t3) = remaining t2).
    { rewrite remaining_admit_vruntime_weight. unfold t3.
      repeat match goal with |- context [if ?b then _ else _] => destruct b end;
        try reflexivity. apply remaining_assign_scheduler. }
    destruct (assigned_scheduler (admit_vruntime_weight t3)) as [[]|]; task_simpl; congruence.
Qed.

Lemma pending_admit_row (v : Variant) (clf : Classifier) (u : string) (row : Features)
    (current_time : Z) (s : Sched) :
  pending (objects (admit_row v clf u row current_time s)) = pending (objects s) + row_work row.
Proof.
  destruct (admit_row_full v clf u row current_time s) as (c & _ & _ & Ho & _).
  rewrite Ho, pending_app. f_equal.
  change (pending [?t]) with (task_pending t + 0).
  destruct (admitted_task_attrs v clf (rr_quantum s) row u) as (_ & _ & _ & _ & Hc & _).
  unfold task_pending, is_completed. rewrite Hc, admit_task_remaining. lia.
Qed.

Lemma Shape_admit_row (v : Variant) (clf : Classifier) (u : string) (row : Features)
    (current_time : Z) (s0 s : Sched) :
  Shape s0 s -> Shape s0 (admit_row v clf u row current_time s).
Proof.
  intros (H1 & H2 & H3).
  destruct (admit_row_full v clf u row current_time s)
    as (c & _ & _ & _ & _ & _ & _ & _ & (Hc & _ & _ & Hn & _ & Ho & _)).
  repeat split; congruence.
Qed.

Lemma run_count_admit_row (v : Variant) (clf : Classifier) (u : string) (row : Features)
    (current_time : Z) (s : Sched) :
  run_count (admit_row v clf u row current_time s) = run_count s.
Proof.
  destruct (admit_row_full v clf u row current_time s) as (c & _ & _ & _ & _ & _ & Hl & _).
  unfold run_count. rewrite Hl, count_event_snoc2. cbn. lia.
Qed.

Lemma tick_fold_progress (v : Variant) (l : list nat) :
  forall s, Inv s ->
    let s' := fold_left (tick_core v) l s in
    Inv s' /\ Shape s s' /\
    pending (objects s') + run_count s' <= pending (objects s) + run_count s /\
    run_count s <= run_count s' /\
    (run_count s' = run_count s ->
     s' = s /\
     forall cid c, In cid l -> cores s !! cid = Some c ->
                   core_task c = None /\ _pick_task_for_core cid s = None).
Proof.
  induction l as [|cid l IH]; intros s HI; cbn [fold_left].
  - split; [exact HI|]. split; [apply Shape_refl|]. split; [lia|]. split; [lia|].
    intros _. split; [reflexivity|]. intros cid c [].
  - destruct (tick_core_Inv v s cid HI) as [HI1 _].
    destruct (tick_core_progress v s cid HI) as (Hp1 & Hm1 & Hq1).
    pose proof (Shape_tick_core v s s cid HI (Shape_refl s)) as HS1.
    destruct (IH _ HI1) as (HI2 & HS2 & Hp2 & Hm2 & Hq2).
    split; [exact HI2|]. split.
    { destruct HS1 as (A1 & A2 & A3), HS2 as (B1 & B2 & B3). repeat split; congruence. }
    split; [lia|]. split; [lia|]. intros Heq.
    destruct (Hq1 ltac:(lia)) as (E1 & Hidle1).
    destruct (Hq2 ltac:(lia)) as (E2 & Hidle2).
    rewrite E1 in E2, Hidle2. split; [rewrite E1; exact E2|].
    intros cid' c [<- | Hin] Hc; [now apply Hidle1 | now apply (Hidle2 cid' c)].
Qed.

Lemma pending_set_time (current_time : Z) (s : Sched) :
  pending (objects (set_time current_time s)) = pending (objects s) /\
  run_count (set_time current_time s) = run_count s.
Proof. split; reflexivity. Qed.

(** A tick either runs some task for one tick or finds nothing to run. *)
Lemma tick_runs_or_empty (v : Variant) (current_time : Z) (s : Sched) :
  Inv s ->
  length (cores s) = num_cores s -> (0 < num_cores s)%nat ->
  order_get 0 (core_priority_order s) = default_order ->
  let s' := tick v current_time s in
  pending (objects s') <= pending (objects s) /\
  (all_queues_empty s' = true \/ pending (objects s') + 1 <= pending (objects s)).
Proof.
  intros HI Hlen Hn Hord s'. unfold s', tick.
  destruct (tick_fold_progress v (seq 0 (num_cores s)) (set_time current_time s)
              (set_time_Inv current_time s HI)) as (_ & _ & Hp & Hm & Hq).
  cbv zeta in Hp, Hm, Hq.
  set (s2 := fold_left (tick_core v) (seq 0 (num_cores s)) (set_time current_time s)) in *.
  destruct (pending_set_time current_time s) as (P1 & P2). rewrite P1, P2 in *.
  split; [lia|].
  destruct (Z.eq_dec (run_count s2) (run_count s)) as [Heq | Hne]; [|right; lia].
  left. destruct (Hq Heq) as (E & Hidle). rewrite E.
  assert (Hcores : forall cid c, cores s !! cid = Some c ->
                     core_task c = None /\ _pick_task_for_core cid s = None).
  { intros cid c Hc. apply (Hidle cid c); [|exact Hc].
    apply in_seq. apply lookup_lt_Some in Hc. lia. }
  destruct (lookup_lt_is_Some_2 (cores s) 0%nat ltac:(lia)) as [c0 Hc0].
  destruct (Hcores 0%nat c0 Hc0) as (_ & Hpick).
  destruct (pick_in_order_default s) as [Hd _].
  unfold _pick_task_for_core in Hpick. rewrite Hord in Hpick.
  apply Hd in Hpick. destruct Hpick as (Q1 & Q2 & Q3 & Q4).
  unfold all_queues_empty. cbn [queues set_time cores]. rewrite Q1, Q2, Q3, Q4.
  apply forallb_forall. intros c Hin.
  apply list_elem_of_In, list_elem_of_lookup in Hin. destruct Hin as [cid Hc].
  destruct (Hcores cid c Hc) as (Ht & _). now rewrite Ht.
Qed.

Lemma row_work_pos (row : Features) : 1 <= row_work row.
Proof. unfold row_work. lia. Qed.

Lemma sum_work_nonneg (l : list Features) : 0 <= sum_work l.
Proof.
  induction l as [|row l IH]; [cbn; lia|].
  change (sum_work (row :: l)) with (row_work row + sum_work l).
  pose proof (row_work_pos row). lia.
Qed.

Lemma sum_work_app (l k : list Features) : sum_work (l ++ k) = sum_work l + sum_work k.
Proof.
  induction l as [|row l IH]; [reflexivity|].
  change (sum_work ((row :: l) ++ k)) with (row_work row + sum_work (l ++ k)).
  change (sum_work (row :: l)) with (row_work row + sum_work l). lia.
Qed.

Lemma Shape_trans (s0 s1 s2 : Sched) : Shape s0 s1 -> Shape s1 s2 -> Shape s0 s2.
Proof. intros (A1 & A2 & A3) (B1 & B2 & B3). repeat split; congruence. Qed.

Lemma admissions_pending (v : Variant) (clf : Classifier) (uids : nat -> string) (n : Z)
    (l : list Features) :
  forall s,
    let s' := fold_left (run_op v clf uids) (map (fun row => OpAdmit row n) l) s in
    pending (objects s') = pending (objects s) + sum_work l /\ Shape s s'.
Proof.
  induction l as [|row l IH]; intros s; cbn [map fold_left run_op].
  - split; [cbn; lia | apply Shape_refl].
  - destruct (IH (admit_row v clf (uids (length (objects s))) row n s)) as (Hp & HS).
    cbv zeta in Hp, HS. rewrite Hp, pending_admit_row.
    change (sum_work (row :: l)) with (row_work row + sum_work l). split; [lia|].
    eapply Shape_trans; [|exact HS]. apply Shape_admit_row, Shape_refl.
Qed.

Lemma serves_all_Shape (s0 s : Sched) : serves_all s0 -> Shape s0 s -> serves_all s.
Proof.
  intros (A1 & A2 & A3) (B1 & B2 & B3). unfold serves_all. rewrite B1, B2, B3. auto.
Qed.

Lemma driver_step_progress (v : Variant) (clf : Classifier) (uids : nat -> string)
    (rows : list Features) (current_time : Z) (s : Sched) :
  Inv s -> serves_all s ->
  let s' := driver_step v clf uids rows current_time s in
  Shape s s' /\
  pending (objects s') <= pending (objects s) + sum_work (arrivals_at rows current_time) /\
  (arrivals_at rows current_time = [] ->
   all_queues_empty s' = true \/ pending (objects s') + 1 <= pending (objects s)).
Proof.
  intros HI Hserve s'. unfold s', driver_step, run_script. clear s'. rewrite fold_left_app.
  cbn [fold_left run_op].
  destruct (admissions_pending v clf uids current_time (arrivals_at rows current_time) s)
    as (Hp & HS). cbv zeta in Hp, HS.
  assert (HI1 : Inv (fold_left (run_op v clf uids)
                       (map (fun row => OpAdmit row current_time)
                          (arrivals_at rows current_time)) s)).
  { clear Hp HS Hserve. generalize (arrivals_at rows current_time). intros l. revert s HI.
    induction l as [|row l IH]; intros s HI; cbn [map fold_left run_op]; [exact HI|].
    apply IH. now apply admit_row_Inv. }
  set (s1 := fold_left (run_op v clf uids) _ s) in *.
  pose proof (serves_all_Shape s s1 Hserve HS) as (L1 & L2 & L3).
  destruct (tick_runs_or_empty v current_time s1 HI1 L1 L2 L3) as (Hle & Hcase).
  cbv zeta in Hle, Hcase.
  split.
  { eapply Shape_trans; [exact HS|]. unfold tick.
    destruct (tick_fold_progress v (seq 0 (num_cores s1)) (set_time current_time s1)
                (set_time_Inv current_time s1 HI1)) as (_ & HS2 & _).
    cbv zeta in HS2. destruct HS2 as (B1 & B2 & B3). repeat split; assumption. }
  split; [lia|]. intros Hnil.
  assert (E : pending (objects s1) = pending (objects s)).
  { rewrite Hp, Hnil. cbn. lia. }
  rewrite <- E. exact Hcase.
Qed.

Lemma sum_work_filter_le (P R : Features -> bool) (rows : list Features) :
  (forall row, P row = true -> R row = true) ->
  sum_work (List.filter P rows) <= sum_work (List.filter R rows).
Proof.
  intros H. induction rows as [|row rows IH]; cbn [List.filter]; [lia|].
  destruct (P row) eqn:EP.
  - rewrite (H row EP).
    change (sum_work (row :: ?l)) with (row_work row + sum_work l). lia.
  - destruct (R row); [|exact IH].
    change (sum_work (row :: ?l)) with (row_work row + sum_work l).
    pose proof (row_work_pos row). lia.
Qed.

Lemma sum_work_buckets (rows : list Features) (j : nat) :
  sum_work (flat_map (arrivals_at rows) (tick_range 0 j)) =
  sum_work (List.filter (fun row => (0 <=? arrival_of row) && (arrival_of row <? Z.of_nat j))%bool
              rows).
Proof.
  induction j as [|j IH].
  - cbn [tick_range seq map flat_map]. induction rows as [|row rows IHr]; [reflexivity|].
    cbn [List.filter].
    destruct (0 <=? arrival_of row) eqn:E0, (arrival_of row <? Z.of_nat 0) eqn:E1;
      cbn [andb]; try exact IHr.
    apply Z.leb_le in E0. apply Z.ltb_lt in E1. exfalso. lia.
  - rewrite tick_range_S, flat_map_app, sum_work_app, IH. cbn [flat_map]. rewrite app_nil_r.
    unfold arrivals_at. clear IH. induction rows as [|row rows IHr]; [reflexivity|].
    cbn [List.filter].
    destruct (0 <=? arrival_of row) eqn:E0, (arrival_of row <? Z.of_nat j) eqn:E1,
      (arrival_of row =? 0 + Z.of_nat j) eqn:E2, (arrival_of row <? Z.of_nat (S j)) eqn:E3;
      cbn [andb];
      rewrite ?Z.leb_le, ?Z.ltb_lt, ?Z.eqb_eq, ?Z.leb_gt, ?Z.ltb_ge, ?Z.eqb_neq in *;
      try (exfalso; lia);
      repeat change (sum_work (row :: ?l)) with (row_work row + sum_work l); lia.
Qed.

Lemma driver_iter_progress (v : Variant) (clf : Classifier) (uids : nat -> string)
    (s0 : Sched) (rows : list Features) (j : nat) :
  forall (k : nat) (s : Sched),
    reachable v clf uids s0 s -> Inv s -> serves_all s ->
    let s' := driver_iter j v clf uids rows (Z.of_nat k) s in
    reachable v clf uids s0 s' /\ Shape s s' /\
    pending (objects s') <=
      pending (objects s) + sum_work (flat_map (arrivals_at rows) (tick_range (Z.of_nat k) j)).
Proof.
  induction j as [|j IH]; intros k s Hr HI Hs; cbn [driver_iter].
  - split; [exact Hr|]. split; [apply Shape_refl|]. cbn. lia.
  - destruct (driver_step_progress v clf uids rows (Z.of_nat k) s HI Hs) as (HS1 & Hp1 & _).
    cbv zeta in HS1, Hp1.
    assert (Hr1 : reachable v clf uids s0 (driver_step v clf uids rows (Z.of_nat k) s)).
    { unfold driver_step. now apply reachable_script. }
    assert (HI1 : Inv (driver_step v clf uids rows (Z.of_nat k) s)).
    { unfold driver_step, run_script. clear Hr1 HS1 Hp1 Hs Hr.
      generalize (map (fun row => OpAdmit row (Z.of_nat k)) (arrivals_at rows (Z.of_nat k))
                  ++ [OpTick (Z.of_nat k)]).
      intros l. revert s HI. induction l as [|o l IHl]; intros s HI; [exact HI|].
      cbn [fold_left]. apply IHl. destruct o; cbn [run_op].
      - now apply admit_row_Inv.
      - now apply tick_log. }
    replace (Z.of_nat k + 1) with (Z.of_nat (S k)) by lia.
    destruct (IH (S k) _ Hr1 HI1 (serves_all_Shape _ _ Hs HS1)) as (Hr2 & HS2 & Hp2).
    cbv zeta in Hr2, HS2, Hp2.
    split; [exact Hr2|]. split; [eapply Shape_trans; eassumption|].
    rewrite tick_range_cons. cbn [flat_map]. rewrite sum_work_app.
    replace (Z.of_nat k + 1) with (Z.of_nat (S k)) by lia. lia.
Qed.

(** While arrivals are still due and the tick limit is not reached, the loop goes on. *)
Lemma driver_loop_before_last (v : Variant) (clf : Classifier) (uids : nat -> string)
    (rows : list Features) (last_arrival max_ticks : Z) (j : nat) :
  forall (fuel : nat) (current_time : Z) (s : Sched),
    current_time + Z.of_nat j <= last_arrival + 1 ->
    current_time + Z.of_nat j <= max_ticks ->
    driver_loop (j + fuel) v clf uids rows last_arrival max_ticks current_time s =
    driver_loop fuel v clf uids rows last_arrival max_ticks (current_time + Z.of_nat j)
      (driver_iter j v clf uids rows current_time s).
Proof.
  induction j as [|j IH]; intros fuel ct s Hla Hmax.
  - cbn [driver_iter Nat.add]. now rewrite Z.add_0_r.
  - cbn [Nat.add driver_loop driver_iter].
    replace (last_arrival <? ct) with false by lia. cbn [andb].
    replace (max_ticks <? ct + 1) with false by lia.
    rewrite IH by lia. f_equal. lia.
Qed.

(** After the last arrival every iteration either ends the run or takes one
    tick off the pending work. *)
Lemma driver_loop_drains (v : Variant) (clf : Classifier) (uids : nat -> string)
    (n : nat) (order : option (list (nat * list SchedClass))) (rrq : Z) (slice : Q) (seed_ : Z)
    (rows : list Features) (last_arrival max_ticks : Z) (p : nat) :
  (forall ct, last_arrival < ct -> arrivals_at rows ct = []) ->
  forall (fuel : nat) (current_time : Z) (s : Sched),
    reachable v clf uids (Sched_init n order rrq slice seed_) s -> serves_all s ->
    last_arrival < current_time ->
    pending (objects s) <= Z.of_nat p ->
    current_time + Z.of_nat p <= max_ticks -> (p < fuel)%nat ->
    let s' := driver_loop fuel v clf uids rows last_arrival max_ticks current_time s in
    reachable v clf uids (Sched_init n order rrq slice seed_) s' /\
    all_queues_empty s' = true /\ current_time <= time s' <= current_time + Z.of_nat p.
Proof.
  intros Hnone. induction p as [|p IH]; intros fuel ct s Hr Hs Hla Hp Hmax Hfuel;
    (destruct fuel as [|fuel]; [lia|]); cbn [driver_loop].
  - destruct (reachable_sound _ _ _ _ _ _ _ _ _ Hr) as (HI & _).
    destruct (driver_step_progress v clf uids rows ct s HI Hs) as (HS1 & _ & Hcase).
    cbv zeta in HS1, Hcase.
    assert (Hr1 : reachable v clf uids (Sched_init n order rrq slice seed_)
                    (driver_step v clf uids rows ct s)).
    { unfold driver_step. now apply reachable_script. }
    assert (Hti : time (driver_step v clf uids rows ct s) = ct).
    { unfold driver_step. rewrite (Hnone ct Hla). cbn. now apply tick_log. }
    pose proof (pending_nonneg (objects (driver_step v clf uids rows ct s))) as Hnn.
    destruct (Hcase (Hnone ct Hla)) as [He | Hd]; [|lia].
    rewrite He. replace (last_arrival <? ct) with true by lia. cbn [andb].
    split; [exact Hr1|]. split; [exact He | lia].
  - destruct (reachable_sound _ _ _ _ _ _ _ _ _ Hr) as (HI & _).
    destruct (driver_step_progress v clf uids rows ct s HI Hs) as (HS1 & _ & Hcase).
    cbv zeta in HS1, Hcase.
    assert (Hr1 : reachable v clf uids (Sched_init n order rrq slice seed_)
                    (driver_step v clf uids rows ct s)).
    { unfold driver_step. now apply reachable_script. }
    assert (Hti : time (driver_step v clf uids rows ct s) = ct).
    { unfold driver_step. rewrite (Hnone ct Hla). cbn. now apply tick_log. }
    replace (last_arrival <? ct) with true by lia. cbn [andb].
    destruct (all_queues_empty (driver_step v clf uids rows ct s)) eqn:He.
    + split; [exact Hr1|]. split; [exact He | lia].
    + destruct (Hcase (Hnone ct Hla)) as [He' | Hd]; [congruence|].
      destruct (reachable_sound _ _ _ _ _ _ _ _ _ Hr1) as (HI1 & HP1 & _).
      pose proof (queues_empty_completed _ HI1 HP1) as Hiff.
      pose proof (pending_nonneg (objects (driver_step v clf uids rows ct s))) as Hnn.
      assert (Hpos : 1 <= pending (objects (driver_step v clf uids rows ct s))).
      { destruct (Z.eq_dec (pending (objects (driver_step v clf uids rows ct s))) 0) as [E|E];
          [|lia]. apply Hiff in E. congruence. }
      replace (max_ticks <? ct + 1) with false by lia.
      destruct (IH fuel (ct + 1) (driver_step v clf uids rows ct s) Hr1
                  (serves_all_Shape _ _ Hs HS1)) as (G1 & G2 & G3); try lia.
      split; [exact G1|]. split; [exact G2 | lia].
Qed.

Lemma init_serves_all (n : nat) (rrq : Z) (slice : Q) (seed_ : Z) :
  (0 < n)%nat -> serves_all (Sched_init n None rrq slice seed_).
Proof.
  intros Hn. unfold serves_all, Sched_init. cbn [cores num_cores core_priority_order].
  rewrite length_map, length_seq. split; [reflexivity|]. split; [exact Hn|].
  destruct n; [lia|]. reflexivity.
Qed.

(** X24: With at least one core and the default core order, a driver run that ends
    and whose max_ticks is at least max(0, last_arrival + 1) plus the total work
    of the admitted rows (max(1, remaining) each) has ended by the normal exit:
    all queues empty, every admitted task completed, and the final clock is past
    the last arrival and at most that bound. No task of such a run has starved. *)
Theorem driver_run_that_ends_completes_all (v : Variant) (clf : Classifier) (uids : nat -> string)
    (n : nat) (rrq : Z) (slice : Q) (seed_ : Z) (rows : list Features)
    (max_ticks last_arrival : Z) (s : Sched) :
  (0 < n)%nat ->
  last_arrival_of rows = Some last_arrival ->
  Z.max 0 (last_arrival + 1) + total_row_work rows <= max_ticks ->
  simulate v clf uids (Sched_init n None rrq slice seed_) rows max_ticks = Some s ->
  all_queues_empty s = true /\
  last_arrival < time s <= Z.max 0 (last_arrival + 1) + total_row_work rows /\
  forall r t, objects s !! r = Some t -> exists c, completion_time t = Some c.
Proof.
  intros Hn Hla Hmax Hsim. unfold simulate in Hsim. rewrite Hla in Hsim.
  assert (Hs : s = driver_loop (S (Z.to_nat max_ticks)) v clf uids rows last_arrival max_ticks 0
                     (Sched_init n None rrq slice seed_)) by congruence.
  clear Hsim. subst s.
  set (s0 := Sched_init n None rrq slice seed_).
  set (j := Z.to_nat (Z.max 0 (last_arrival + 1))).
  set (p := Z.to_nat (total_row_work rows)).
  pose proof (sum_work_nonneg (List.filter (fun row => 0 <=? arrival_of row) rows)) as Hw.
  fold (total_row_work rows) in Hw.
  set (fuel := (S (Z.to_nat max_ticks) - j)%nat).
  assert (Hsplit : driver_loop (S (Z.to_nat max_ticks)) v clf uids rows last_arrival max_ticks 0 s0
                   = driver_loop fuel v clf uids rows last_arrival max_ticks (Z.of_nat j)
                       (driver_iter j v clf uids rows 0 s0)).
  { replace (S (Z.to_nat max_ticks)) with (j + fuel)%nat by (unfold fuel, j; lia).
    destruct j as [|j'] eqn:Ej; [reflexivity|].
    rewrite driver_loop_before_last by (unfold j in Ej; lia). reflexivity. }
  rewrite Hsplit.
  destruct (driver_iter_progress v clf uids s0 rows j 0 s0 (reach_init _ _ _ _)
              (init_Inv n None rrq slice seed_) (init_serves_all n rrq slice seed_ Hn))
    as (Hr & HS & Hp).
  change (Z.of_nat 0) with 0 in Hr, HS, Hp. cbv zeta in Hr, HS, Hp.
  set (s1 := driver_iter j v clf uids rows 0 s0) in *.
  assert (Hp1 : pending (objects s1) <= Z.of_nat p).
  { rewrite sum_work_buckets in Hp. change (pending (objects s0)) with 0 in Hp.
    pose proof (sum_work_filter_le
                  (fun row => (0 <=? arrival_of row) && (arrival_of row <? Z.of_nat j))%bool
                  (fun row => 0 <=? arrival_of row) rows) as Hle.
    fold (total_row_work rows) in Hle. unfold p.
    assert (total_row_work rows >= sum_work (List.filter
              (fun row => (0 <=? arrival_of row) && (arrival_of row <? Z.of_nat j))%bool rows)).
    { apply Z.le_ge, Hle. intros row H. now apply andb_true_iff in H. }
    lia. }
  assert (Hnone : forall ct, last_arrival < ct -> arrivals_at rows ct = []).
  { intros ct Hct. apply arrivals_at_none.
    eapply List.Forall_impl; [|exact (last_arrival_ge rows last_arrival Hla)].
    cbn beta. intros row H. lia. }
  destruct (driver_loop_drains v clf uids n None rrq slice seed_ rows last_arrival max_ticks p
              Hnone fuel (Z.of_nat j) s1 Hr
              (serves_all_Shape _ _ (init_serves_all n rrq slice seed_ Hn) HS))
    as (G1 & G2 & G3); try (unfold j, p, fuel in *; lia).
  cbv zeta in G1, G2, G3.
  assert (Hj : Z.of_nat j = Z.max 0 (last_arrival + 1)) by (unfold j; lia).
  assert (Hpp : Z.of_nat p = total_row_work rows) by (unfold p; lia).
  split; [exact G2|]. split.
  { destruct G3 as [Ga Gb]. split.
    - eapply Z.lt_le_trans; [|exact Ga]. lia.
    - eapply Z.le_trans; [exact Gb|]. lia. }
  destruct (reachable_sound _ _ _ _ _ _ _ _ _ G1) as (HI2 & HP2 & _).
  apply (queues_empty_completed _ HI2 HP2) in G2.
  pose proof (pending_zero_completed _ G2) as Hall.
  intros r t Ht. pose proof (Forall_lookup_1 _ _ _ _ Hall Ht) as Hc. cbn beta in Hc.
  unfold is_completed in Hc. destruct (completion_time t) as [c|]; [now exists c | discriminate].
Qed.

(** ** The score and quantum an AI admission leaves on the task *)

Lemma admit_rr_quantum_range (t : Task) : 100 <= admit_rr_quantum t <= 200.
Proof. exact (dispatch_rr_quantum_bounds t). Qed.

(** X4: After AIScheduler.admit every task carries a subqueue_score between 1.05
    and 3.5 (the weights 0.2, 0.35, 0.2, 0.3 sum to 1.05); a task assigned to RR
    gets a quantum between 100 and 200, and a task of any other class has no
    quantum until it is dispatched. *)
Theorem ai_admit_score_range (clf : Classifier) (row : Features) (u : string) :
  let ta := ai_admit_task clf (Task_init row u) in
  exists score,
    subqueue_score ta = Some score /\ (1.05 <= score <= 3.5)%Q /\
    match assigned_scheduler ta with
    | Some RR => exists q, quantum ta = Some q /\ 100 <= q <= 200
    | _ => quantum ta = None
    end.
Proof.
  intros ta.
  destruct (ai_admit_task_quantum clf (Task_init row u)) as (Hs & Hq). fold ta in Hs, Hq.
  destruct (compute_score_range (_classify_task clf (Task_init row u))) as (score & Hsc & Hr).
  exists score. split; [congruence|]. split; [exact Hr|].
  destruct (assigned_scheduler ta) as [[]|]; try exact Hq.
  exists (admit_rr_quantum ta). split; [exact Hq | apply admit_rr_quantum_range].
Qed.

(** ** What one tick writes *)

(** X13: tick(t) sets the clock to t and only appends to the log: every new row is
    stamped t, names a core below num_cores and is a DISPATCH, RUN, PREEMPT or
    COMPLETE row; each core logs at most one RUN per tick, and context_switches
    grows by the number of new DISPATCH rows. *)
Theorem tick_appends_stamped_rows (v : Variant) (clf : Classifier)
    (uids : nat -> string) (n : nat) (order : option (list (nat * list SchedClass)))
    (rrq : Z) (slice : Q) (seed_ : Z) (s : Sched) (current_time : Z) :
  reachable v clf uids (Sched_init n order rrq slice seed_) s ->
  let s' := tick v current_time s in
  time s' = current_time /\
  exists new,
    logs s' = logs s ++ new /\
    Forall (fun row => row_time row = current_time /\
                       (exists cid, row_core row = Some cid /\ (cid < num_cores s)%nat) /\
                       (row_event row = DISPATCH \/ row_event row = RUN \/
                        row_event row = PREEMPT \/ row_event row = COMPLETE)) new /\
    (forall cid, (core_runs cid new <= 1)%nat) /\
    context_switches s' = context_switches s + Z.of_nat (count_event DISPATCH new).
Proof.
  intros Hreach s'.
  destruct (reachable_sound _ _ _ _ _ _ _ _ _ Hreach) as (HI & _ & _ & HL & _).
  assert (Hreach' : reachable v clf uids (Sched_init n order rrq slice seed_) s').
  { now apply reachable_tick. }
  destruct (reachable_sound _ _ _ _ _ _ _ _ _ Hreach') as (_ & _ & _ & HL' & _).
  destruct (tick_log v current_time s HI) as (_ & Hti & _ & new & Hl & Hrows & Hruns).
  fold s' in Hti, Hl. split; [exact Hti|]. exists new. split; [exact Hl|]. split.
  - eapply List.Forall_impl; [|exact Hrows]. cbn beta.
    intros row (cid & Hlt & Ht & Hc & He). split; [exact Ht|]. split; [|exact He].
    exists cid. now split.
  - split; [exact Hruns|].
    rewrite (lg_dispatch s' HL'), (lg_dispatch s HL), Hl, count_event_app. lia.
Qed.

Lemma fifo_done_reachable :
  reachable Baseline failing_clf no_uid (Sched_init 4 None 100 4%Q 42) fifo_done.
Proof. apply reachable_script. constructor. Qed.

Lemma rr_preempted_reachable :
  reachable Baseline failing_clf no_uid (Sched_init 1 None 2 4%Q 42) rr_preempted.
Proof. apply reachable_script. constructor. Qed.

Lemma cfs_waiting_reachable :
  reachable Baseline failing_clf no_uid (Sched_init 1 None 100 4%Q 42) cfs_waiting.
Proof. apply reachable_script. constructor. Qed.

Lemma ai_explicit_policy_as_baseline_witness :
  let ta := ai_admit_task promoted_clf (Task_init (mk_row 1 0 10 "SCHED_FIFO") "") in
  let tb := baseline_admit_task 100 (Task_init (mk_row 1 0 10 "SCHED_FIFO") "") in
  assigned_scheduler ta = assigned_scheduler tb /\ subqueue ta = subqueue tb /\
  remaining ta = remaining tb /\ vruntime ta = vruntime tb /\ weight ta = weight tb /\
  (assigned_scheduler ta = Some FIFO \/ assigned_scheduler ta = Some RR \/
   assigned_scheduler ta = Some IDLE).
Proof.
  apply (ai_explicit_policy_as_baseline promoted_clf 100 (mk_row 1 0 10 "SCHED_FIFO") "").
  left. reflexivity.
Defined.

Lemma ai_failing_classifier_as_baseline_witness :
  let ta := ai_admit_task failing_clf (Task_init realtime_row "") in
  let tb := baseline_admit_task 100 (Task_init realtime_row "") in
  assigned_scheduler ta = assigned_scheduler tb /\ subqueue ta = subqueue tb /\
  remaining ta = remaining tb /\ vruntime ta = vruntime tb /\ weight ta = weight tb /\
  quantum ta = quantum tb /\
  exists score, subqueue_score ta = Some score /\ (score == 2.1)%Q.
Proof.
  apply (ai_failing_classifier_as_baseline failing_clf realtime_row "").
  reflexivity.
Defined.

Lemma every_task_placed_or_completed_witness :
  exists t, objects fifo_done !! 0%nat = Some t /\
    match completion_time t with
    | None => occ 0 fifo_done = 1%nat
    | Some _ => occ 0 fifo_done = 0%nat /\ remaining t = 0 /\ 1 <= total_run t
    end.
Proof.
  eexists. split; [vm_compute; reflexivity|].
  apply (every_task_placed_or_completed Baseline failing_clf no_uid 4 None 100 4%Q 42
           fifo_done 0%nat).
  - exact fifo_done_reachable.
  - vm_compute. reflexivity.
Defined.

Lemma only_rr_and_cfs_are_preempted_witness :
  exists row, logs rr_preempted !! 5%nat = Some row /\ row_event row = PREEMPT /\
    ((row_assigned_scheduler row = Some RR /\
      row_reason row = Some "quantum_expired"%string) \/
     (row_assigned_scheduler row = Some CFS /\
      row_reason row = Some "cfs_quantum_expired"%string)).
Proof.
  eexists. split; [vm_compute; reflexivity|]. split; [reflexivity|].
  apply (only_rr_and_cfs_are_preempted Baseline failing_clf no_uid 1 None 2 4%Q 42
           rr_preempted).
  - exact rr_preempted_reachable.
  - vm_compute. do 5 right. left. reflexivity.
  - reflexivity.
Defined.

Lemma counters_match_log_witness :
  context_switches fifo_done = Z.of_nat (count_event DISPATCH (logs fifo_done)) /\
  total_work (objects fifo_done) = Z.of_nat (count_event RUN (logs fifo_done)) /\
  count_event ADMIT (logs fifo_done) = length (objects fifo_done) /\
  count_event ENQUEUE (logs fifo_done) = length (objects fifo_done) /\
  count_event COMPLETE (logs fifo_done) = completed_count (objects fifo_done).
Proof.
  apply (counters_match_log Baseline failing_clf no_uid 4 None 100 4%Q 42 fifo_done).
  exact fifo_done_reachable.
Defined.

Lemma all_queues_empty_iff_all_completed_witness :
  all_queues_empty fifo_done = true /\
  forall r t, objects fifo_done !! r = Some t -> exists c, completion_time t = Some c.
Proof.
  split; [reflexivity|].
  apply (all_queues_empty_iff_all_completed Baseline failing_clf no_uid 4 None 100 4%Q 42
           fifo_done fifo_done_reachable).
  reflexivity.
Defined.

Lemma export_task_metrics_rows_witness :
  exists m, export_task_metrics fifo_done = [m] /\
  exists r t c f cl,
    objects fifo_done !! r = Some t /\ m_pid m = pid t /\ m_name m = name t /\
    completion_time t = Some c /\ first_start t = Some f /\
    assigned_scheduler t = Some cl /\
    m_arrival m = arrival_time t /\ m_first_start m = Some f /\ m_completion m = Some c /\
    m_execution_time m = total_run t /\ 1 <= total_run t /\
    m_waiting m = Some (f - arrival_time t) /\ m_response m = Some (f - arrival_time t) /\
    m_turnaround m = Some (c - arrival_time t) /\
    m_stretch m = Some (inject_Z (c - arrival_time t) / inject_Z (total_run t))%Q /\
    m_scheduler m = Some cl /\ m_subqueue m = Some (subqueue_of cl).
Proof.
  eexists. split; [vm_compute; reflexivity|].
  apply (export_task_metrics_rows Baseline failing_clf no_uid 4 None 100 4%Q 42 fifo_done).
  - exact fifo_done_reachable.
  - vm_compute. left. reflexivity.
Defined.

Lemma export_one_row_per_completed_pid_witness :
  NoDup (map m_pid (export_task_metrics fifo_done)) /\
  (forall p, In p (map m_pid (export_task_metrics fifo_done)) <->
             exists r t c, objects fifo_done !! r = Some t /\ pid t = p /\
                           completion_time t = Some c) /\
  (length (export_task_metrics fifo_done) <= length (task_map fifo_done))%nat.
Proof.
  apply (export_one_row_per_completed_pid Baseline failing_clf no_uid 4 None 100 4%Q 42
           fifo_done).
  exact fifo_done_reachable.
Defined.

Lemma cfs_dequeue_returns_least_vruntime_witness :
  fst (_dequeue_task CFS cfs_waiting) = Some 0%nat /\
  exists e h t,
    CFS_cfs_1 (queues cfs_waiting) = e :: h /\ e_task e = 0%nat /\
    CFS_cfs_1 (queues (snd (_dequeue_task CFS cfs_waiting))) = h /\
    objects cfs_waiting !! 0%nat = Some t /\
    Forall (fun e' => exists t', objects cfs_waiting !! e_task e' = Some t' /\
              ((vruntime t < vruntime t')%Q \/
               ((vruntime t == vruntime t')%Q /\ (e_seq e < e_seq e')%nat))) h.
Proof.
  split; [reflexivity|].
  apply (cfs_dequeue_returns_least_vruntime Baseline failing_clf no_uid 1 None 100 4%Q 42
           cfs_waiting 0%nat).
  - exact cfs_waiting_reachable.
  - reflexivity.
Defined.

Lemma pick_then_dispatch_runs_witness :
  let s := cfs_waiting in
  let s' := _dispatch_to_core Baseline 0 CFS s in
  fst (_dequeue_task CFS s) = Some 0%nat /\
  exists t q,
    head (class_queue CFS (queues s)) = Some 0%nat /\ objects s !! 0%nat = Some t /\
    assigned_scheduler t = Some CFS /\ subqueue t = Some cfs_1 /\
    1 <= q /\ (CFS = FIFO \/ CFS = IDLE -> q = Z.max 1 (remaining t)) /\
    (CFS = RR -> q = Z.max 1 (rr_quantum s)) /\
    objects s' !! 0%nat = Some (start_task q (time s) t) /\
    cores s' !! 0%nat = Some {| core_task := Some 0%nat; time_left := q |} /\
    queues s' = pop_class CFS (queues s) /\
    context_switches s' = context_switches s + 1 /\
    logs s' = logs s ++ [log_row s DISPATCH (start_task q (time s) t) (Some 0%nat) None].
Proof.
  split; [reflexivity|].
  apply (pick_then_dispatch_runs Baseline failing_clf no_uid 1 None 100 4%Q 42 cfs_waiting
           0%nat idle_core CFS cfs_1 0%nat).
  - exact cfs_waiting_reachable.
  - reflexivity.
  - reflexivity.
  - reflexivity.
  - reflexivity.
Defined.

Lemma tick_appends_stamped_rows_witness :
  let s := cfs_waiting in
  let s' := tick Baseline 0 s in
  time s' = 0 /\
  exists new,
    logs s' = logs s ++ new /\
    Forall (fun row => row_time row = 0 /\
                       (exists cid, row_core row = Some cid /\ (cid < num_cores s)%nat) /\
                       (row_event row = DISPATCH \/ row_event row = RUN \/
                        row_event row = PREEMPT \/ row_event row = COMPLETE)) new /\
    (forall cid, (core_runs cid new <= 1)%nat) /\
    context_switches s' = context_switches s + Z.of_nat (count_event DISPATCH new).
Proof.
  apply (tick_appends_stamped_rows Baseline failing_clf no_uid 1 None 100 4%Q 42 cfs_waiting 0).
  exact cfs_waiting_reachable.
Defined.

Lemma driver_admits_rows_in_order_witness :
  exists s, baseline_run 4 fifo_rows = Some s /\
  0 <= time s /\
  map features (objects s) =
    flat_map (arrivals_at fifo_rows) (tick_range 0 (S (Z.to_nat (time s)))) /\
  (forall row, In row (map features (objects s)) <->
               In row fifo_rows /\ 0 <= arrival_of row <= time s) /\
  (forall r t, objects s !! r = Some t ->
     arrival_time t = arrival_of (features t) /\ pid t = f_PID (features t)) /\
  (arrival_sorted fifo_rows -> Forall (fun row => 0 <= arrival_of row <= time s) fifo_rows ->
   map features (objects s) = fifo_rows).
Proof.
  eexists. split; [reflexivity|].
  apply (driver_admits_rows_in_order Baseline failing_clf no_uid 4 None 100 4%Q 42
           fifo_rows 70000).
  reflexivity.
Defined.

Lemma driver_stops_when_done_witness :
  exists s, baseline_run 4 fifo_rows = Some s /\
  exists la, last_arrival_of fifo_rows = Some la /\
    ((la < time s /\ all_queues_empty s = true /\
      (forall r t, objects s !! r = Some t ->
         exists c, completion_time t = Some c /\ remaining t = 0 /\ 1 <= total_run t) /\
      (forall row, In row fifo_rows -> 0 <= arrival_of row ->
                   In row (map features (objects s))))
     \/ 70000 <= time s).
Proof.
  eexists. split; [reflexivity|].
  apply (driver_stops_when_done Baseline failing_clf no_uid 4 None 100 4%Q 42 fifo_rows 70000).
  reflexivity.
Defined.

Lemma driver_admit_rows_stamped_witness :
  exists s, baseline_run 4 fifo_rows = Some s /\
  admit_stamps (logs s) = map (fun t => (Z.max 0 (arrival_time t - 1), pid t)) (objects s).
Proof.
  eexists. split; [reflexivity|].
  apply (driver_admit_rows_stamped Baseline failing_clf no_uid 4 None 100 4%Q 42
           fifo_rows 70000).
  reflexivity.
Defined.

Lemma driver_export_waiting_witness :
  exists s m, baseline_run 4 fifo_rows = Some s /\ export_task_metrics s = [m] /\
  exists w ta,
    m_waiting m = Some w /\ m_response m = Some w /\ m_turnaround m = Some ta /\
    0 <= w <= ta /\ m_arrival m + ta <= time s.
Proof.
  eexists. eexists. split; [reflexivity|]. split; [vm_compute; reflexivity|].
  apply (driver_export_waiting Baseline failing_clf no_uid 4 None 100 4%Q 42 fifo_rows 70000).
  - reflexivity.
  - vm_compute. left. reflexivity.
Defined.

Lemma driver_run_that_ends_completes_all_witness :
  exists s,
    simulate Baseline failing_clf no_uid (Sched_init 4 None 100 4%Q 42) fifo_rows 70000
      = Some s /\
    all_queues_empty s = true /\
    0 < time s <= Z.max 0 (0 + 1) + total_row_work fifo_rows /\
    forall r t, objects s !! r = Some t -> exists c, completion_time t = Some c.
Proof.
  eexists. split; [reflexivity|].
  apply (driver_run_that_ends_completes_all Baseline failing_clf no_uid 4 100 4%Q 42 fifo_rows
           70000 0).
  - lia.
  - reflexivity.
  - vm_compute. discriminate.
  - reflexivity.
Defined.

(** ** Work conservation *)


(** ** Aggregate metrics of a reachable state *)











(** ** Aggregate metrics of a driver run *)

Lemma column_sums (b : Z) (df : list MetricRow) :
  Forall (fun m => exists w ta, m_response m = Some w /\ m_turnaround m = Some ta /\
                                0 <= w <= ta /\ ta <= b) df ->
  length (dropna (map m_response df)) = length df /\
  length (dropna (map m_turnaround df)) = length df /\
  0 <= sum_Z (dropna (map m_response df)) /\
  sum_Z (dropna (map m_response df)) <= sum_Z (dropna (map m_turnaround df)) /\
  sum_Z (dropna (map m_turnaround df)) <= Z.of_nat (length df) * b.
Proof.
  unfold dropna.
  induction 1 as [|m df (w & ta & Hw & Hta & Hle & Hb) Hdf (I1 & I2 & I3 & I4 & I5)].
  - cbn. lia.
  - cbn [map omap list_omap id]. rewrite Hw, Hta. cbn [length sum_Z fold_right].
    fold (sum_Z (omap id (map m_response df))).
    fold (sum_Z (omap id (map m_turnaround df))).
    rewrite I1, I2. repeat split; try reflexivity; lia.
Qed.

Lemma driver_rows_timed (v : Variant) (clf : Classifier) (uids : nat -> string)
    (n : nat) (order : option (list (nat * list SchedClass))) (rrq : Z) (slice : Q)
    (seed_ : Z) (rows : list Features) (max_ticks : Z) (s : Sched) :
  simulate v clf uids (Sched_init n order rrq slice seed_) rows max_ticks = Some s ->
  Forall (fun m => exists w ta, m_response m = Some w /\ m_turnaround m = Some ta /\
                                0 <= w <= ta /\ ta <= time s) (export_task_metrics s) /\
  forall cid, Z.of_nat (core_runs cid (logs s)) <= time s + 1.
Proof.
  intros Hsim.
  pose proof (reachable_simulate _ _ _ _ _ _ _ Hsim) as Hreach.
  destruct (simulate_driven _ _ _ _ _ _ _ _ _ _ _ Hsim) as (la & k & _ & Hk & HD & _).
  pose proof (Driven_time rows k s Hk HD) as Hti.
  destruct (reachable_sound _ _ _ _ _ _ _ _ _ Hreach) as (HI & _).
  split.
  - apply List.Forall_forall. intros m Hm.
    destruct (export_rows s m Hm) as (p & r & t & Hd & Ht & ->).
    destruct (inv_done s HI p r Hd) as (t0 & c & Ht0 & Hc & _).
    replace t0 with t in * by congruence. clear t0 Ht0.
    destruct (dr_timed rows k s HD r t Ht) as (Ha & Hf & Hcc).
    destruct (Hcc c Hc) as (f & Hfs & Hfc & Hcb). specialize (Hf f Hfs).
    assert (Harr : 0 <= arrival_time t).
    { destruct (dr_attrs rows k s HD r t Ht) as (-> & _).
      assert (Hin : In (features t) (map features (objects s))).
      { apply in_map. apply list_elem_of_In. eapply list_elem_of_lookup_2. exact Ht. }
      rewrite (dr_rows rows k s HD) in Hin. apply In_arrivals_range in Hin. lia. }
    exists (f - arrival_time t), (c - arrival_time t). unfold metric_row.
    cbn [m_response m_turnaround]. rewrite Hfs, Hc. repeat split; lia.
  - intros cid. pose proof (dr_runs rows k s HD cid). lia.
Qed.

(** X23: After a driver run that completed at least one task,
    compute_aggregate_metrics gives 0 <= avg_response <= avg_turnaround <= final
    clock, and every core utilization lies between 0 and (time + 1) / max(1,
    time): a core logs one RUN per tick 0..time, so the utilization can exceed 1
    (10/9 in the single FIFO task scenario) but never 2. *)
Theorem driver_aggregate_metrics_bounds (v : Variant) (clf : Classifier)
    (uids : nat -> string) (n : nat) (order : option (list (nat * list SchedClass)))
    (rrq : Z) (slice : Q) (seed_ : Z) (rows : list Features) (max_ticks : Z)
    (s : Sched) (m : AggMetrics) :
  simulate v clf uids (Sched_init n order rrq slice seed_) rows max_ticks = Some s ->
  compute_aggregate_metrics s = Some m ->
  (exists ar atu, avg_response m = Some ar /\ avg_turnaround m = Some atu /\
                  (0 <= ar)%Q /\ (ar <= atu)%Q /\ (atu <= inject_Z (time s))%Q) /\
  Forall (fun cu => (0 <= snd cu)%Q /\
                    (snd cu <= inject_Z (time s + 1) / inject_Z (Z.max 1 (time s)))%Q /\
                    (snd cu <= 2)%Q)
         (core_utilization m).
Proof.
  intros Hsim Hm. destruct (driver_rows_timed _ _ _ _ _ _ _ _ _ _ _ Hsim) as (Hrows & Hruns).
  unfold compute_aggregate_metrics in Hm.
  destruct (export_task_metrics s) as [|m0 df] eqn:E; [discriminate|].
  destruct (column_sums (time s) (m0 :: df) Hrows) as (L1 & L2 & S1 & S2 & S3).
  assert (Hmeans : exists ar atu,
             series_mean (map m_response (m0 :: df)) = Some ar /\
             series_mean (map m_turnaround (m0 :: df)) = Some atu /\
             (0 <= ar)%Q /\ (ar <= atu)%Q /\ (atu <= inject_Z (time s))%Q).
  { unfold series_mean.
    destruct (dropna (map m_response (m0 :: df))) as [|w ws] eqn:Ew; [discriminate L1|].
    destruct (dropna (map m_turnaround (m0 :: df))) as [|t ts] eqn:Et; [discriminate L2|].
    eexists. eexists. split; [reflexivity|]. split; [reflexivity|].
    rewrite L1, L2.
    assert (Hk : (0 < inject_Z (Z.of_nat (length (m0 :: df))))%Q).
    { assert (0 < Z.of_nat (length (m0 :: df))) by (cbn [length]; lia).
      rewrite Zlt_Qlt in H. exact H. }
    rewrite Zle_Qle in S1, S2, S3. rewrite inject_Z_mult in S3.
    change (inject_Z 0) with 0%Q in S1.
    split; [|split].
    + apply Qle_shift_div_l; [exact Hk | lra].
    + apply Qle_shift_div_l; [exact Hk|].
      set (d := inject_Z (Z.of_nat (length (m0 :: df)))) in *.
      assert (Hdiv : (inject_Z (sum_Z (w :: ws)) / d * d == inject_Z (sum_Z (w :: ws)))%Q).
      { field. lra. }
      rewrite Hdiv. exact S2.
    + apply Qle_shift_div_r; [exact Hk|]. lra. }
  injection Hm as <-.
  cbn [avg_response avg_turnaround core_utilization].
  split; [exact Hmeans|].
  - apply List.Forall_map. apply List.Forall_forall. intros cid _. cbn [snd].
    assert (Hd : (0 < inject_Z (Z.max 1 (time s)))%Q).
    { assert (0 < Z.max 1 (time s)) by lia. rewrite Zlt_Qlt in H. exact H. }
    assert (Hc0 : (0 <= inject_Z (Z.of_nat (core_runs cid (logs s))))%Q).
    { assert (0 <= Z.of_nat (core_runs cid (logs s))) by lia. rewrite Zle_Qle in H. exact H. }
    pose proof (Hruns cid) as Hr.
    assert (Hr' : (inject_Z (Z.of_nat (core_runs cid (logs s))) <= inject_Z (time s + 1))%Q).
    { rewrite <- Zle_Qle. exact Hr. }
    split; [|split].
    + apply Qle_shift_div_l; [exact Hd | lra].
    + apply Qle_shift_div_l; [exact Hd|].
      set (d := inject_Z (Z.max 1 (time s))) in *.
      set (c := inject_Z (Z.of_nat (core_runs cid (logs s)))) in *.
      assert (Hdiv : (c / d * d == c)%Q) by (field; lra).
      rewrite Hdiv. exact Hr'.
    + apply Qle_shift_div_r; [exact Hd|].
      assert (Hb : time s + 1 <= 2 * Z.max 1 (time s)) by lia.
      rewrite Zle_Qle, inject_Z_mult in Hb. change (inject_Z 2) with 2%Q in Hb. lra.
Qed.

Lemma class_rows_app (e : Event) (c : SchedClass) (l k : list LogRow) :
  class_rows e c (l ++ k) = class_rows e c l ++ class_rows e c k.
Proof. unfold class_rows. now rewrite List.filter_app, map_app. Qed.

Lemma class_rows_one (e e' : Event) (c : SchedClass) (s : Sched) (t : Task)
    (core : option nat) (x : option string) :
  class_rows e c [log_row s e' t core x] =
    if (Event_eqb e' e && match assigned_scheduler t with
                          | Some c' => SchedClass_eqb c' c
                          | None => false
                          end)%bool
    then [pid t] else [].
Proof.
  unfold class_rows. cbn [List.filter log_row row_event row_assigned_scheduler].
  destruct (Event_eqb e' e && _)%bool; reflexivity.
Qed.

Lemma pid_at_insert (objs : list Task) (r : ref) (t t' : Task) (x : ref) :
  objs !! r = Some t -> pid t' = pid t -> pid_at (<[r := t']> objs) x = pid_at objs x.
Proof.
  intros Ht Hp. unfold pid_at. destruct (Nat.eq_dec x r) as [->|Hne].
  - rewrite list_lookup_insert_eq by (eapply lookup_lt_Some; exact Ht). now rewrite Ht.
  - now rewrite list_lookup_insert_ne by congruence.
Qed.

Lemma pid_at_app (objs : list Task) (t' : Task) (x : ref) :
  (x < length objs)%nat -> pid_at (objs ++ [t']) x = pid_at objs x.
Proof. intros H. unfold pid_at. now rewrite lookup_app_l. Qed.

Lemma class_queue_push (c c' : SchedClass) (r : ref) (vr : Q) (p : option Z) (n : nat)
    (q : Queues) :
  c = FIFO \/ c = IDLE ->
  class_queue c (push_class c' r vr p n q) =
    class_queue c q ++ (if SchedClass_eqb c' c then [r] else []).
Proof.
  intros [-> | ->]; destruct c'; cbn [class_queue push_class queue_append SchedClass_eqb];
    sched_simpl; rewrite ?app_nil_r; reflexivity.
Qed.

Lemma class_queue_bound (c : SchedClass) (s : Sched) (x : ref) :
  Inv s -> In x (class_queue c (queues s)) -> (x < length (objects s))%nat.
Proof.
  intros HI Hin. apply (inv_bound s HI). apply cnt_pos_elem in Hin. unfold occ.
  destruct c; cbn [class_queue] in Hin; lia.
Qed.

Lemma waiting_pids_frame (c : SchedClass) (s s' : Sched) :
  class_queue c (queues s') = class_queue c (queues s) ->
  (forall x, In x (class_queue c (queues s)) -> pid_at (objects s') x = pid_at (objects s) x) ->
  waiting_pids c s' = waiting_pids c s.
Proof.
  intros Hq Hp. unfold waiting_pids. rewrite Hq. apply map_ext_in. exact Hp.
Qed.

Lemma InOrder_set_time (c : SchedClass) (current_time : Z) (s : Sched) :
  InOrder c s -> InOrder c (set_time current_time s).
Proof. intros H. exact H. Qed.

Lemma InOrder_admit_row (c : SchedClass) (v : Variant) (clf : Classifier) (u : string)
    (row : Features) (current_time : Z) (s : Sched) :
  c = FIFO \/ c = IDLE -> Inv s -> InOrder c s ->
  InOrder c (admit_row v clf u row current_time s).
Proof.
  intros Hc HI HO.
  destruct (admit_row_full v clf u row current_time s)
    as (c' & Hcls & _ & Ho & Hq & _ & Hl & _).
  set (t' := admit_task v clf (rr_quantum s) (Task_init row u)) in *.
  unfold InOrder, waiting_pids. rewrite Hl, Ho, Hq.
  change [log_row s ADMIT t' None None; log_row s ENQUEUE t' None None]
    with ([log_row s ADMIT t' None None] ++ [log_row s ENQUEUE t' None None]).
  rewrite !class_rows_app, !class_rows_one, Hcls. cbn [Event_eqb andb].
  rewrite !app_nil_r, (class_queue_push c c' _ _ _ _ _ Hc), map_app.
  assert (Hold : map (pid_at (objects s ++ [t'])) (class_queue c (queues s)) =
                 waiting_pids c s).
  { apply map_ext_in. intros x Hx. apply pid_at_app. now apply (class_queue_bound c s x). }
  rewrite Hold, app_assoc, HO. f_equal.
  destruct (SchedClass_eqb c' c); [|reflexivity]. cbn [map]. unfold pid_at.
  rewrite list_lookup_middle by reflexivity. reflexivity.
Qed.

Lemma InOrder_dispatch (c : SchedClass) (v : Variant) (cid : nat) (sched : SchedClass)
    (s : Sched) :
  Inv s -> Placed s -> InOrder c s -> InOrder c (_dispatch_to_core v cid sched s).
Proof.
  intros HI HP HO.
  destruct (dispatch_full v cid sched s HI) as ((Hq & _) & Hcase).
  set (s' := _dispatch_to_core v cid sched s) in *.
  unfold InOrder, waiting_pids. rewrite Hq, class_queue_pop.
  destruct (head (class_queue sched (queues s))) as [r|] eqn:Eh.
  - destruct Hcase as (t & q & Ht & _ & _ & _ & _ & Ho & _ & Hl & _).
    assert (Hin : In r (class_queue sched (queues s))).
    { destruct (class_queue sched (queues s)); [discriminate|]. injection Eh as ->. now left. }
    destruct (pl_class s HP sched r Hin) as (t0 & Ht0 & Hcls).
    replace t0 with t in * by congruence. clear t0 Ht0.
    destruct (start_task_frame q (time s) t) as (Hsv & _).
    destruct (static_view_class _ _ Hsv) as (Hcls2 & _ & Hpid).
    rewrite Hl, Ho, !class_rows_app, !class_rows_one, Hcls2, Hcls. cbn [Event_eqb andb].
    rewrite app_nil_r.
    assert (Hmap : forall l, map (pid_at (<[r := start_task q (time s) t]> (objects s))) l =
                             map (pid_at (objects s)) l).
    { intros l. apply map_ext. intros x. now apply (pid_at_insert _ r t). }
    rewrite Hmap. rewrite <- HO. unfold waiting_pids.
    destruct (SchedClass_eqb sched c) eqn:E.
    + apply SchedClass_eqb_eq in E. subst sched.
      assert (E : SchedClass_eqb c c = true) by now apply SchedClass_eqb_eq.
      rewrite E. destruct (class_queue c (queues s)) as [|r0 rest]; [discriminate|].
      injection Eh as ->. cbn [tail map]. rewrite <- app_assoc. cbn [app].
      unfold pid_at at 2. now rewrite Ht, Hpid.
    + assert (E' : SchedClass_eqb c sched = false).
      { destruct c, sched; cbn in *; congruence. }
      now rewrite E', app_nil_r.
  - destruct Hcase as (Ho & _ & Hl & _). rewrite Hl, Ho, <- HO. unfold waiting_pids.
    destruct (SchedClass_eqb c sched) eqn:E; [|reflexivity].
    apply SchedClass_eqb_eq in E. subst sched.
    destruct (class_queue c (queues s)); [reflexivity | discriminate].
Qed.

Lemma InOrder_run_one_tick (c : SchedClass) (v : Variant) (cid : nat) (s : Sched) :
  c = FIFO \/ c = IDLE -> Inv s -> Placed s -> InOrder c s ->
  InOrder c (_run_one_tick_on_core v cid s).
Proof.
  intros Hc HI HP HO.
  destruct (cores s !! cid) as [core|] eqn:Ec;
    [|rewrite run_one_tick_idle; [exact HO | congruence]].
  destruct (core_task core) as [r|] eqn:Er;
    [|rewrite run_one_tick_idle; [exact HO | congruence]].
  destruct (objects s !! r) as [t|] eqn:Et;
    [|rewrite run_one_tick_idle; [exact HO | congruence]].
  destruct (run_one_tick_full v cid s core r t Ec Er Et) as (_ & Hcases).
  set (s' := _run_one_tick_on_core v cid s) in *.
  destruct (run_task_frame v t) as (Hsv & Hrem & _).
  destruct (static_view_class _ _ Hsv) as (Hcls & _ & Hpid).
  set (t2 := run_task v t) in *.
  destruct (pl_core s HP cid core r Ec Er) as (t0 & Ht0 & Hleft & _ & Hfin).
  replace t0 with t in * by congruence. clear t0 Ht0.
  destruct (pl_assigned s HP r t Et) as (cl & Hcl & _).
  assert (Hgoal : forall t3 new,
            pid t3 = pid t -> objects s' = <[r := t3]> (objects s) ->
            class_queue c (queues s') = class_queue c (queues s) ->
            logs s' = logs s ++ new ->
            class_rows DISPATCH c new = [] -> class_rows ADMIT c new = [] -> InOrder c s').
  { intros t3 new Hp Ho Hq Hl Hd Ha. unfold InOrder.
    rewrite Hl, !class_rows_app, Hd, Ha, !app_nil_r, <- HO. f_equal.
    apply waiting_pids_frame; [exact Hq|]. intros x _. rewrite Ho.
    now apply (pid_at_insert _ r t). }
  destruct Hcases as [(Hdone & Ho & Hq & _ & _ & _ & Hl) |
                      [(Hpos & Hexp & Ho & _ & _ & Hclass) |
                       (Hpos & Hgo & Ho & _ & _ & Hq & _ & Hl)]].
  - assert (Hp3 : pid (set_completion_time (Some (time s)) t2) = pid t)
      by (task_simpl; exact Hpid).
    assert (Hq3 : class_queue c (queues s') = class_queue c (queues s)) by now rewrite Hq.
    apply (Hgoal _ _ Hp3 Ho Hq3 Hl); reflexivity.
  - assert (Hnot : cl = RR \/ cl = CFS).
    { destruct cl; auto; exfalso;
        (assert (Hle : remaining t <= time_left core) by (apply Hfin; auto)); lia. }
    rewrite Hcls, Hcl in Hclass.
    destruct Hnot as [-> | ->]; destruct Hclass as (Hq & _ & Hl);
      (assert (Hq3 : class_queue c (queues s') = class_queue c (queues s))
         by (rewrite Hq; destruct Hc as [-> | ->]; reflexivity));
      apply (Hgoal t2 _ Hpid Ho Hq3 Hl); reflexivity.
  - assert (Hq3 : class_queue c (queues s') = class_queue c (queues s)) by now rewrite Hq.
    apply (Hgoal t2 _ Hpid Ho Hq3 Hl); reflexivity.
Qed.

(** X17: FIFO and IDLE tasks are dispatched in admission order, each at most once:
    in every reachable state the pids of the DISPATCH rows of the class followed
    by the pids waiting in its queue are the pids of its ADMIT rows, so the i-th
    dispatch of the class is its i-th admission. *)
Theorem fifo_dispatch_in_admission_order (v : Variant) (clf : Classifier)
    (uids : nat -> string) (n : nat) (order : option (list (nat * list SchedClass)))
    (rrq : Z) (slice : Q) (seed_ : Z) (s : Sched) (c : SchedClass) :
  reachable v clf uids (Sched_init n order rrq slice seed_) s ->
  c = FIFO \/ c = IDLE ->
  class_rows DISPATCH c (logs s) ++ waiting_pids c s = class_rows ADMIT c (logs s) /\
  (length (class_rows DISPATCH c (logs s)) <= length (class_rows ADMIT c (logs s)))%nat /\
  (forall i p, class_rows DISPATCH c (logs s) !! i = Some p ->
               class_rows ADMIT c (logs s) !! i = Some p).
Proof.
  intros Hreach Hc.
  assert (HO : InOrder c s).
  { induction Hreach as [|s row ct Hr IH|s ct Hr IH|s cid sched c0 Hr IH Hc0 Hidle|s cid Hr IH].
    - unfold InOrder, waiting_pids. destruct Hc as [-> | ->]; reflexivity.
    - destruct (reachable_sound _ _ _ _ _ _ _ _ _ Hr) as (HI & _).
      now apply InOrder_admit_row.
    - now apply InOrder_set_time.
    - destruct (reachable_sound _ _ _ _ _ _ _ _ _ Hr) as (HI & HP & _).
      now apply InOrder_dispatch.
    - destruct (reachable_sound _ _ _ _ _ _ _ _ _ Hr) as (HI & HP & _).
      now apply InOrder_run_one_tick. }
  unfold InOrder in HO. split; [exact HO|]. rewrite <- HO. split.
  - rewrite length_app. lia.
  - intros i p Hi. now apply lookup_app_l_Some.
Qed.

Lemma fifo_pair_reachable :
  reachable Baseline failing_clf no_uid (Sched_init 1 None 100 4%Q 42) fifo_pair.
Proof. apply reachable_script. constructor. Qed.



Lemma driver_aggregate_metrics_bounds_witness :
  exists s m, baseline_run 4 fifo_rows = Some s /\ compute_aggregate_metrics s = Some m /\
  map snd (core_utilization m) = [(10 # 9)%Q; (0 # 9)%Q; (0 # 9)%Q; (0 # 9)%Q] /\
  (exists ar atu, avg_response m = Some ar /\ avg_turnaround m = Some atu /\
                  (0 <= ar)%Q /\ (ar <= atu)%Q /\ (atu <= inject_Z (time s))%Q) /\
  Forall (fun cu => (0 <= snd cu)%Q /\
                    (snd cu <= inject_Z (time s + 1) / inject_Z (Z.max 1 (time s)))%Q /\
                    (snd cu <= 2)%Q)
         (core_utilization m).
Proof.
  eexists. eexists. split; [reflexivity|]. split; [vm_compute; reflexivity|].
  split; [vm_compute; reflexivity|].
  apply (driver_aggregate_metrics_bounds Baseline failing_clf no_uid 4 None 100 4%Q 42
           fifo_rows 70000).
  - reflexivity.
  - vm_compute. reflexivity.
Defined.

Lemma fifo_dispatch_in_admission_order_witness :
  class_rows ADMIT FIFO (logs fifo_pair) = [Some 1; Some 2] /\
  class_rows DISPATCH FIFO (logs fifo_pair) = [Some 1] /\
  class_rows DISPATCH FIFO (logs fifo_pair) ++ waiting_pids FIFO fifo_pair
    = class_rows ADMIT FIFO (logs fifo_pair) /\
  (length (class_rows DISPATCH FIFO (logs fifo_pair))
   <= length (class_rows ADMIT FIFO (logs fifo_pair)))%nat /\
  (forall i p, class_rows DISPATCH FIFO (logs fifo_pair) !! i = Some p ->
               class_rows ADMIT FIFO (logs fifo_pair) !! i = Some p).
Proof.
  split; [vm_compute; reflexivity|]. split; [vm_compute; reflexivity|].
  apply (fifo_dispatch_in_admission_order Baseline failing_clf no_uid 1 None 100 4%Q 42
           fifo_pair FIFO).
  - exact fifo_pair_reachable.
  - left. reflexivity.
Defined.
